(* ===== verification/_CoqProject ===== *)
-Q . S2P
Prelude.v
Spinlock.v
CString.v
Format.v
ProcState.v
ProcList.v
Proc.v
ProcSteady.v
ProcInv.v
ProcWake.v
KInv.v
ProcSafe.v
ProcExit.v
ProcWait.v
ProcFork.v
ProcSched.v
ProcCtl.v
ProcBoot.v
Kernel.v
ToyEnv.v
Scenario.v
ProcProps.v
SchedProps.v
LifeProps.v
ProcPrint.v
Kalloc.v
Ring.v
Pipe.v
Layout.v
Bio.v
BioUse.v
Log.v
LogSafe.v
LogProps.v
Fs.v
FsBlocks.v
FsInode.v
FsFile.v
FsPath.v
FsDir.v
Console.v
ConsoleProps.v
Kbd.v
Syscall.v
File.v
Sysfile.v
FsAcct.v
FileAcct.v
FileProps.v
SysfileAcct.v
SysfileProps.v
ProcCtx.v
Sysproc.v
Trap.v
Grep.v
Sh.v
ShProps.v
Umalloc.v
UmallocProps.v
Exec.v
ExecProps.v
