(* ===== verification/Prelude.v ===== *)
(** * xv6-pdx: a verification library for the PSU xv6 kernel

    The program is the xv6 kernel of Portland State University (src/xv6-pdx/),
    in the configuration that its Makefile builds (CS333_P1, P2, P3P4, P5): a
    process table with a list per process state and a multi-level feedback
    queue, spin locks, a page allocator, pipes, a buffer cache, a redo log, a
    file system with owners and modes, a console, and the system calls; with
    them some of its user programs.

    ** How the code is modelled

    A routine that changes the state [S] of its component is a function
    [M S A], which returns a value and a state, or panics with a message, or
    faults (a null or wild pointer, an index out of range), or diverges (a spin
    that nobody ends, or fuel that runs out).  [wp m s Q] says that [m] started
    in [s] returns, in a state that satisfies [Q]: no theorem stated with it is
    met by a routine that panics, faults or hangs.  [wpp ok m s Q] also allows
    the panics in [ok], and [wlp] of FsAcct.v is about the runs that come back.
    A component that is used by another is a part of its state, reached through
    [zoom].  C integers are [Z] with their wrap-around written out ([u32],
    [i32], ...); pointers into a table are indices, [None] the null pointer.
    This file also holds the constants of param.h, memlayout.h and mmu.h.

    ** The parts and their files

    - Locks: Spinlock.v (spinlock.c; per-CPU state of proc.h).
    - Bytes and text: CString.v (string.c, ulib.c), Format.v (the printf of
      console.c and printf.c).
    - Processes (proc.c): ProcState.v and ProcList.v have the data and the state
      lists, Proc.v every routine.  ProcInv.v, KInv.v: the invariant.
      ProcSteady.v: what routines leave alone of a process.  ProcSafe,
      ProcExit, ProcWait, ProcFork, ProcSched, ProcCtl, ProcBoot, ProcWake: the
      proofs for each group of routines.  Kernel.v: the state machine of all
      CPUs.  ProcProps, SchedProps, LifeProps: what is proved.  ToyEnv.v and
      Scenario.v: an instance of the environment and a concrete run.
      ProcPrint.v: the listings.  The rest of the kernel is seen from proc.c
      through the class [KernelEnv] with the laws [KernelLaws].
    - Process calls and traps: ProcCtx.v (which routines come back in their
      caller), Sysproc.v (sysproc.c), Trap.v (trap.c).
    - Memory: Kalloc.v (kalloc.c).
    - Pipes: Ring.v (rings under 32-bit counters), Pipe.v (pipe.c).
    - Disk: Layout.v (fs.h), Bio.v and BioUse.v (bio.c, ide.c), Log.v, LogSafe.v
      and LogProps.v (log.c).
    - File system (fs.c): Fs.v has every routine; FsBlocks, FsInode, FsFile,
      FsPath, FsDir the theorems by layer; FsAcct.v the references, locks and
      transactions a caller holds.
    - Open files and calls: Syscall.v (syscall.c), File.v (file.c, pipealloc),
      Sysfile.v (sysfile.c); FileAcct, FileProps, SysfileAcct, SysfileProps what
      is proved of them.
    - Programs: Exec.v (exec.c, elf.h, sys_exec), ExecProps.v; vm.c is the class
      [Vm] with the laws [VmOk].
    - Console: Console.v and ConsoleProps.v (console.c, uart.c), Kbd.v (kbd.c).
    - User programs: Grep.v (grep.c), Sh.v and ShProps.v (the parser of sh.c),
      Umalloc.v and UmallocProps.v (umalloc.c).

    ** What is proved

    - Processes: the table's invariant holds after boot and after any
      interleaving of scheduler turns, calls and interrupts on any number of
      CPUs, and no routine panics, faults or hangs in it; each state list holds
      exactly the processes in its state; fork, exit, wait, yield, sleep and
      wakeup, kill, promotion and dispatch do what they are for on every
      branch; the list-based wakeup1 and kill refine the original table scans;
      the process calls and [trap] preserve all that.
    - Locks: mutual exclusion at the grain of xchg; panics only on misuse.
    - Memory and pipes: after boot the free list is exactly the free memory; a
      pipe is a queue in every interleaving, across counter wrap-around.
    - Disk: the cache refines a map from block numbers to contents; a crash at
      any block write of a transaction followed by recovery leaves all of the
      transaction or nothing.
    - Files: balloc, iupdate and ilock, readi and writei, dirlookup and dirlink
      against bitmaps, records, byte arrays and maps; a write split into
      transactions is read back whole; reference counts are exact after any
      sequence of calls of any processes.
    - Calls: arguments stay in the process; the dispatch is that of syscall.h.
    - Programs: exec is all or nothing, and a process that has executed a file
      has the segments of the file in its memory and its arguments on its stack.
    - Console: line editing, reading and the screen against a line editor, a
      queue of lines and a scrolling terminal.
    - Text: memmove, printf and atoi, and grep against the language of its
      patterns.
    - Shell: the parser accepts exactly the lines of a grammar and returns the
      tree that the grammar gives them; a tree that is printed is read back.
    - User memory: malloc and free keep the blocks of a program apart and lose
      no memory, whatever the order of the calls.

    ** Fuel

    A loop that is not structural runs on fuel and ends in [diverge] or [None]
    without it.  Walks of a state list get NPROC steps (a list holds each
    process once), those of the cache NBUF, of the free list of pages the number
    of pages, scans of a directory, a bitmap or a string the number of entries,
    blocks or bytes that are there, the parser of the shell the length of its
    line, and the user allocator the number of headers that fit below the break
    of the process.  The theorems say that results are returned, so that the
    fuel is enough; where it is an argument ([grep]) they say how much is.

    ** Not modelled

    vm.c, x86.h and usys.S are not among the sources: page tables
    are parameters with their documented behaviour, and the calls that only load
    a page table (switchuvm, switchkvm) are left out of [dispatch] and
    [growproc].  Programming of devices (lapic.c, ioapic.c, picirq.c, mp.c, the
    probing of ide.c and uart.c), the boot loader and the assembly files are
    sequences of port accesses and instructions.  The file system runs one
    routine at a time: where the code waits for an inode or the log, the model
    shows the wait as a result.  Of the shell, running a tree, the built-in
    commands and the prompt are not modelled, and its mallocs are taken to
    succeed.  mkfs.c, which runs on the build host, the remaining user programs
    and the test programs are not modelled. *)

From Stdlib Require Export ZArith Lia.
From stdpp Require Export base tactics decidable option list numbers strings functions sets relations.

#[export] Set Default Goal Selector "!".

(** ** The kernel's effects

    A piece of C code that reads and writes a component's state [S] is a
    function of that state.  It returns a value, calls [panic], performs an
    access the C standard leaves undefined (a null or wild pointer), or does
    not come back (a spin that nobody ends, or a loop whose fuel runs out). *)
Inductive outcome (S A : Type) : Type :=
  | Ret (a : A) (s : S)
  | Panic (msg : string)
  | Fault
  | Diverge.
Arguments Ret {S A}.
Arguments Panic {S A}.
Arguments Fault {S A}.
Arguments Diverge {S A}.

Definition M (S A : Type) : Type := S → outcome S A.

#[global] Instance M_ret S : MRet (M S) := λ A a s, Ret a s.
#[global] Instance M_bind S : MBind (M S) := λ A B k m s,
  match m s with
  | Ret a s' => k a s'
  | Panic msg => Panic msg
  | Fault => Fault
  | Diverge => Diverge
  end.
#[global] Instance M_fmap S : FMap (M S) := λ A B f m s,
  match m s with
  | Ret a s' => Ret (f a) s'
  | Panic msg => Panic msg
  | Fault => Fault
  | Diverge => Diverge
  end.

Definition panic {S A} (msg : string) : M S A := λ _, Panic msg.
Definition fault {S A} : M S A := λ _, Fault.
Definition diverge {S A} : M S A := λ _, Diverge.
Definition gets {S A} (f : S → A) : M S A := λ s, Ret (f s) s.
Definition modify {S} (f : S → S) : M S unit := λ s, Ret tt (f s).
Definition lookupM {S A} (f : S → option A) : M S A := λ s,
  match f s with Some a => Ret a s | None => Fault end.

(** [m] acts on a part of a larger state. *)
Definition zoom {S T A} (get : T → S) (put : S → T → T) (m : M S A) : M T A :=
  λ t, match m (get t) with
       | Ret a s => Ret a (put s t)
       | Panic msg => Panic msg
       | Fault => Fault
       | Diverge => Diverge
       end.

(** ** Total correctness

    [wp m s Q]: from [s] the code returns, and the value and the state it
    leaves satisfy [Q].  It rules out [panic], undefined behaviour and
    divergence at once. *)
Definition wp {S A} (m : M S A) (s : S) (Q : A → S → Prop) : Prop :=
  match m s with Ret a s' => Q a s' | _ => False end.

Section wp.
Context {S : Type}.

Lemma wp_ret {A} (a : A) (s : S) Q : Q a s → wp (mret a) s Q.
Proof. done. Qed.

Lemma wp_bind {A B} (m : M S A) (k : A → M S B) s Q :
  wp m s (λ a s', wp (k a) s' Q) → wp (m ≫= k) s Q.
Proof. unfold wp, mbind, M_bind. by destruct (m s). Qed.

Lemma wp_mono {A} (m : M S A) s (Q Q' : A → S → Prop) :
  wp m s Q → (∀ a s', Q a s' → Q' a s') → wp m s Q'.
Proof. unfold wp. destruct (m s); naive_solver. Qed.

Lemma wp_gets {A} (f : S → A) s (Q : A → S → Prop) : Q (f s) s → wp (gets f) s Q.
Proof. done. Qed.

Lemma wp_modify (f : S → S) s (Q : unit → S → Prop) : Q tt (f s) → wp (modify f) s Q.
Proof. done. Qed.

Lemma wp_lookupM {A} (f : S → option A) s a (Q : A → S → Prop) :
  f s = Some a → Q a s → wp (lookupM f) s Q.
Proof. unfold wp, lookupM. by intros ->. Qed.

Lemma wp_zoom {T A} (get : T → S) put (m : M S A) t (Q : A → T → Prop) :
  wp m (get t) (λ a s, Q a (put s t)) → wp (zoom get put m) t Q.
Proof. unfold wp, zoom. by destruct (m (get t)). Qed.

Lemma wp_Ret {A} (m : M S A) s a s' (Q : A → S → Prop) :
  m s = Ret a s' → Q a s' → wp m s Q.
Proof. unfold wp. by intros ->. Qed.

Lemma wp_eqn {A} (m : M S A) s (Q : A → S → Prop) : wp m s Q → wp m s (λ a s', m s = Ret a s' ∧ Q a s').
Proof. unfold wp. by destruct (m s). Qed.

Lemma wp_inv {A} (m : M S A) s (Q : A → S → Prop) :
  wp m s Q → ∃ a s', m s = Ret a s' ∧ Q a s'.
Proof. unfold wp. destruct (m s); naive_solver. Qed.
End wp.

(** ** Correctness up to exhausted resources

    [wpp ok m s Q]: from [s] the code returns with [Q], or it calls [panic]
    with a message that [ok] allows (a table, the disk or the log is full).
    It still rules out every other panic, undefined behaviour and
    divergence. *)
Definition wpp {S A} (ok : string → Prop) (m : M S A) (s : S) (Q : A → S → Prop) : Prop :=
  match m s with Ret a s' => Q a s' | Panic msg => ok msg | _ => False end.

Section wpp.
Context {S : Type} (ok : string → Prop).

Lemma wpp_ret {A} (a : A) (s : S) Q : Q a s → wpp ok (mret a) s Q.
Proof. done. Qed.

Lemma wpp_bind {A B} (m : M S A) (k : A → M S B) s Q :
  wpp ok m s (λ a s', wpp ok (k a) s' Q) → wpp ok (m ≫= k) s Q.
Proof. unfold wpp, mbind, M_bind. by destruct (m s). Qed.

Lemma wpp_mono {A} (m : M S A) s (Q Q' : A → S → Prop) :
  wpp ok m s Q → (∀ a s', Q a s' → Q' a s') → wpp ok m s Q'.
Proof. unfold wpp. destruct (m s); naive_solver. Qed.

Lemma wpp_gets {A} (f : S → A) s (Q : A → S → Prop) : Q (f s) s → wpp ok (gets f) s Q.
Proof. done. Qed.

Lemma wpp_modify (f : S → S) s (Q : unit → S → Prop) : Q tt (f s) → wpp ok (modify f) s Q.
Proof. done. Qed.

Lemma wpp_lookupM {A} (f : S → option A) s a (Q : A → S → Prop) :
  f s = Some a → Q a s → wpp ok (lookupM f) s Q.
Proof. unfold wpp, lookupM. by intros ->. Qed.

Lemma wpp_zoom {T A} (get : T → S) put (m : M S A) t (Q : A → T → Prop) :
  wpp ok m (get t) (λ a s, Q a (put s t)) → wpp ok (zoom get put m) t Q.
Proof. unfold wpp, zoom. by destruct (m (get t)). Qed.

Lemma wpp_panic {A} msg s (Q : A → S → Prop) : ok msg → wpp ok (panic msg) s Q.
Proof. done. Qed.

Lemma wpp_wp {A} (m : M S A) s Q : wp m s Q → wpp ok m s Q.
Proof. unfold wpp, wp. by destruct (m s). Qed.
End wpp.

(** Symbolic execution of straight-line monadic code. *)
Ltac wp_step :=
  match goal with
  | |- wp (mret _) _ _ => apply wp_ret
  | |- wp (_ ≫= _) _ _ => apply wp_bind
  | |- wp (gets _) _ _ => apply wp_gets
  | |- wp (modify _) _ _ => apply wp_modify
  | |- wp (zoom _ _ _) _ _ => apply wp_zoom
  | |- wpp _ (mret _) _ _ => apply wpp_ret
  | |- wpp _ (_ ≫= _) _ _ => apply wpp_bind
  | |- wpp _ (gets _) _ _ => apply wpp_gets
  | |- wpp _ (modify _) _ _ => apply wpp_modify
  | |- wpp _ (zoom _ _ _) _ _ => apply wpp_zoom
  end; cbn beta.
Ltac wp_steps := repeat wp_step.
(** Run a call by its specification, then continue with what it established. *)
Tactic Notation "wp_call" uconstr(lem) :=
  first [ eapply wp_mono; [ eapply lem |] | eapply wpp_mono; [ eapply lem |] ]; cbn beta.

(** ** Machine integers

    [uint] is 32 bits wide and wraps; a conversion to [int] keeps the bits and
    reads them as two's complement (what gcc documents for i386). *)
Local Open Scope Z_scope.

Definition u32 (z : Z) : Z := z `mod` 2 ^ 32.
Definition i32 (z : Z) : Z :=
  let u := u32 z in if u <? 2 ^ 31 then u else u - 2 ^ 32.
Definition u8 (z : Z) : Z := z `mod` 2 ^ 8.
Definition u16 (z : Z) : Z := z `mod` 2 ^ 16.
Definition i16 (z : Z) : Z :=
  let u := u16 z in if u <? 2 ^ 15 then u else u - 2 ^ 16.
Definition i8 (z : Z) : Z :=
  let u := u8 z in if u <? 2 ^ 7 then u else u - 2 ^ 8.

Definition is_u32 (z : Z) : Prop := 0 ≤ z < 2 ^ 32.
Definition is_i32 (z : Z) : Prop := - 2 ^ 31 ≤ z < 2 ^ 31.

Lemma u32_range z : is_u32 (u32 z).
Proof. unfold is_u32, u32. apply Z.mod_pos_bound. lia. Qed.

Lemma u32_small z : is_u32 z → u32 z = z.
Proof. apply Z.mod_small. Qed.

Lemma i32_range z : is_i32 (i32 z).
Proof.
  pose proof (u32_range z) as H. unfold is_u32, is_i32, i32 in *.
  destruct (Z.ltb_spec (u32 z) (2 ^ 31)); lia.
Qed.

Lemma i32_small z : is_i32 z → i32 z = z.
Proof.
  unfold is_i32, i32, u32. intros H.
  destruct (decide (0 ≤ z)).
  - rewrite Z.mod_small by lia. destruct (Z.ltb_spec z (2 ^ 31)); lia.
  - rewrite <- (Z.mod_unique z (2 ^ 32) (-1) (z + 2 ^ 32)) by lia.
    destruct (Z.ltb_spec (z + 2 ^ 32) (2 ^ 31)); lia.
Qed.

Lemma i32_u32 z : i32 (u32 z) = i32 z.
Proof. unfold i32, u32. by rewrite Z.mod_mod by lia. Qed.

Lemma u32_u32 z : u32 (u32 z) = u32 z.
Proof. unfold u32. by rewrite Z.mod_mod by lia. Qed.

Lemma u32_sub_idemp_r a b : u32 (a - u32 b) = u32 (a - b).
Proof. unfold u32. by rewrite Zminus_mod_idemp_r. Qed.
Lemma u32_sub_idemp_l a b : u32 (u32 a - b) = u32 (a - b).
Proof. unfold u32. by rewrite Zminus_mod_idemp_l. Qed.
Lemma u32_add_idemp_r a b : u32 (a + u32 b) = u32 (a + b).
Proof. unfold u32. by rewrite Zplus_mod_idemp_r. Qed.
Lemma u32_add_idemp_l a b : u32 (u32 a + b) = u32 (a + b).
Proof. unfold u32. by rewrite Zplus_mod_idemp_l. Qed.

(** [lia] with division and remainder. *)
Ltac zlia := Z.to_euclidean_division_equations; lia.

Create HintDb machine.
Create Rewrite HintDb machine.
#[export] Hint Resolve u32_range i32_range : machine.
#[export] Hint Rewrite i32_u32 u32_u32 u32_sub_idemp_r u32_sub_idemp_l
  u32_add_idemp_r u32_add_idemp_l : machine.

(** ** param.h *)
Definition NPROC : nat := 64.
Definition KSTACKSIZE : Z := 4096.
Definition NCPU : nat := 8.
Definition NOFILE : nat := 16.
Definition NFILE : nat := 100.
Definition NINODE : nat := 50.
Definition NDEV : Z := 10.
Definition ROOTDEV : Z := 1.
Definition MAXARG : nat := 32.
Definition MAXOPBLOCKS : Z := 10.
Definition LOGSIZE : Z := MAXOPBLOCKS * 3.
Definition NBUF : nat := 30.
Definition FSSIZE : Z := 2000.
Definition DEFUID : Z := 0.
Definition DEFGID : Z := 0.
Definition MAX : nat := 5.
Definition BUDGET : Z := 200.
Definition TICKS_TO_PROMOTE : Z := 5000.
Definition DEFMODE : Z := 493. (* 0755 *)

(** ** mmu.h, memlayout.h *)
Definition PGSIZE : Z := 4096.
Definition KERNBASE : Z := 0x80000000.
Definition PHYSTOP : Z := 0xE000000.
Definition PGROUNDUP (z : Z) : Z := Z.land (u32 (z + PGSIZE - 1)) (u32 (Z.lnot (PGSIZE - 1))).
Definition PGROUNDDOWN (z : Z) : Z := Z.land z (u32 (Z.lnot (PGSIZE - 1))).
Definition v2p (a : Z) : Z := u32 (a - KERNBASE).
Definition p2v (a : Z) : Z := u32 (a + KERNBASE).

(** Masking off the low bits of a 32-bit value rounds it down. *)
Lemma mask_low k z : 0 ≤ k → is_u32 z → Z.land z (u32 (Z.lnot (Z.ones k))) = z / 2 ^ k * 2 ^ k.
Proof.
  intros Hk Hz. unfold u32. rewrite <- (Z.land_ones (Z.lnot _)) by lia. rewrite Z.land_assoc, <- Z.ldiff_land, Z.ldiff_ones_r by done.
  rewrite Z.land_ones, Z.shiftl_mul_pow2, Z.shiftr_div_pow2 by lia. apply Z.mod_small. unfold is_u32 in Hz.
  pose proof (Z.pow_pos_nonneg 2 k ltac:(lia) Hk). pose proof (Z.div_pos z (2 ^ k) ltac:(lia) ltac:(lia)). pose proof (Z.mul_div_le z (2 ^ k) ltac:(lia)). nia.
Qed.

Lemma PGROUNDDOWN_div z : is_u32 z → PGROUNDDOWN z = z / PGSIZE * PGSIZE.
Proof. apply (mask_low 12). lia. Qed.

Lemma PGROUNDUP_div z : 0 ≤ z → z + PGSIZE ≤ 2 ^ 32 → PGROUNDUP z = (z + PGSIZE - 1) / PGSIZE * PGSIZE.
Proof.
  intros H1 H2. unfold PGROUNDUP. unfold PGSIZE in *. rewrite (u32_small (z + 4096 - 1)) by (unfold is_u32; lia).
  apply PGROUNDDOWN_div. unfold is_u32. lia.
Qed.

(** ** Functions updated at a point *)
Lemma fn_insert_dec {A T} `{EqDecision A} (f : A → T) a b t :
  (<[a:=t]> f) b = if decide (a = b) then t else f b.
Proof. done. Qed.

(** Split on the points where the goal looks at an updated function. *)
Ltac fn_cases :=
  repeat match goal with
  | |- context [@insert _ _ _ (@fn_insert _ _ _) ?a ?t ?f ?b] =>
      rewrite (fn_insert_dec f a b t); destruct (decide (a = b)); simplify_eq/=
  end.

(** ** Lists with one element taken out *)
Section filter_ne.
Context {A : Type} `{EqDecision A}.
Implicit Types (x y : A) (l : list A).

Lemma elem_of_filter_ne x l y : y ∈ filter (.≠ x) l ↔ y ∈ l ∧ y ≠ x.
Proof. rewrite list_elem_of_filter. tauto. Qed.

Lemma filter_ne_notin x l : x ∉ l → filter (.≠ x) l = l.
Proof.
  induction l as [|y l IH]; [done|]. rewrite not_elem_of_cons, filter_cons. intros [Hne Hni].
  by rewrite decide_True, IH by done.
Qed.

Lemma filter_ne_app x l k : filter (.≠ x) (l ++ k) = filter (.≠ x) l ++ filter (.≠ x) k.
Proof. apply filter_app. Qed.

Lemma filter_ne_middle x l k :
  x ∉ l → x ∉ k → filter (.≠ x) (l ++ x :: k) = l ++ k.
Proof.
  intros Hl Hk. rewrite filter_app, filter_cons, decide_False by tauto.
  by rewrite !filter_ne_notin.
Qed.

Lemma length_filter_ne x l :
  NoDup l → x ∈ l → length l = S (length (filter (.≠ x) l)).
Proof.
  intros Hnd (l1 & l2 & ->)%list_elem_of_split.
  apply NoDup_app in Hnd as (_ & Hd & [Hx _]%NoDup_cons).
  rewrite filter_ne_middle; [|set_solver|done]. rewrite !length_app. simpl. lia.
Qed.
End filter_ne.

Lemma NoDup_bounded_length (l : list nat) n :
  NoDup l → (∀ p, p ∈ l → (p < n)%nat) → (length l ≤ n)%nat.
Proof.
  intros Hnd Hb. assert (l ⊆+ seq 0 n) as Hs.
  { apply NoDup_submseteq; [done|]. intros p Hp. apply elem_of_seq. specialize (Hb p Hp). lia. }
  apply submseteq_length in Hs. by rewrite length_seq in Hs.
Qed.
