(* ===== verification/Spinlock.v ===== *)
(** * Spin locks (spinlock.c) and the per-CPU state they touch (proc.h)

    The operations of spinlock.c on one CPU, and the interleaving of all CPUs
    at the grain of the atomic [xchg]: mutual exclusion, the exactness of
    [holding], and the interrupt discipline of [pushcli]/[popcli]. *)

From S2P Require Import Prelude.

Local Open Scope Z_scope.

(** The kernel's spin locks: the statically allocated ones, and one per pipe. *)
Inductive lockid :=
  | Lptable | Licache | Lbcache | Llog | Lide | Lcons | Lkmem | Lftable
  | Lpipe (p : nat).

#[export] Instance lockid_eq_dec : EqDecision lockid.
Proof. solve_decision. Defined.

(** [struct spinlock] without its debugging fields [name] and [pcs]; [cpu] is
    an index into [cpus], [None] the null pointer. *)
Record spinlock := mkSpinlock { locked : bool; lk_cpu : option nat }.

(** [struct cpu]: the fields that carry kernel state, and the interrupt flag of
    the processor's own eflags register. *)
Record cpu := mkCpu {
  ncli : Z;                 (* depth of pushcli nesting *)
  intena : bool;            (* were interrupts enabled before pushcli? *)
  fl_if : bool;             (* readeflags() & FL_IF *)
  cpu_proc : option nat     (* the currently running process *)
}.

Definition set_ncli (n : Z) (c : cpu) : cpu :=
  mkCpu n (intena c) (fl_if c) (cpu_proc c).
Definition set_intena (b : bool) (c : cpu) : cpu :=
  mkCpu (ncli c) b (fl_if c) (cpu_proc c).
Definition set_fl_if (b : bool) (c : cpu) : cpu :=
  mkCpu (ncli c) (intena c) b (cpu_proc c).
Definition set_cpu_proc (p : option nat) (c : cpu) : cpu :=
  mkCpu (ncli c) (intena c) (fl_if c) p.

(** All CPUs, the one that executes ([cpu] in the source), and the locks. *)
Record hw := mkHw {
  cpus : list cpu;
  mycpu : nat;
  locks : lockid → spinlock
}.

Definition upd_cpu (f : cpu → cpu) (h : hw) : hw :=
  mkHw (alter f (mycpu h) (cpus h)) (mycpu h) (locks h).
Definition upd_lock (lk : lockid) (l : spinlock) (h : hw) : hw :=
  mkHw (cpus h) (mycpu h) (<[lk := l]> (locks h)).

Definition cpu_of (h : hw) : option cpu := cpus h !! mycpu h.
Definition this_cpu : M hw cpu := lookupM cpu_of.

Definition cli : M hw unit := modify (upd_cpu (set_fl_if false)).
Definition sti : M hw unit := modify (upd_cpu (set_fl_if true)).

Definition initlock (lk : lockid) : M hw unit :=
  modify (upd_lock lk (mkSpinlock false None)).

Definition holding (lk : lockid) : M hw bool :=
  gets (λ h, locked (locks h lk) && bool_decide (lk_cpu (locks h lk) = Some (mycpu h))).

Definition pushcli : M hw unit :=
  c ← this_cpu;
  cli;;
  modify (upd_cpu (set_ncli (ncli c + 1)));;
  if decide (ncli c = 0) then modify (upd_cpu (set_intena (fl_if c))) else mret tt.

Definition popcli : M hw unit :=
  c ← this_cpu;
  if fl_if c then panic "popcli - interruptible" else
  modify (upd_cpu (set_ncli (ncli c - 1)));;
  if decide (ncli c - 1 < 0) then panic "popcli" else
  if decide (ncli c - 1 = 0) then (if intena c then sti else mret tt) else mret tt.

(** The spin on [xchg] ends only when another CPU stores 0 to the lock word;
    within one CPU's execution it never does. *)
Definition acquire (lk : lockid) : M hw unit :=
  pushcli;;
  h ← holding lk;
  if (h : bool) then panic "acquire" else
  l ← gets (λ h, locks h lk);
  if locked l then diverge else
  i ← gets mycpu;
  modify (upd_lock lk (mkSpinlock true (Some i))).

Definition release (lk : lockid) : M hw unit :=
  h ← holding lk;
  if negb h then panic "release" else
  modify (upd_lock lk (mkSpinlock true None));;
  modify (upd_lock lk (mkSpinlock false None));;
  popcli.

(** [getcallerpcs]: follow the saved %ebp chain of the stack.  [word a] is the
    32-bit word the kernel reads at address [a]; [ebp[0]] is the caller's
    %ebp and [ebp[1]] (4 bytes on) its return address. *)
Fixpoint getcallerpcs_loop (n : nat) (word : Z → Z) (ebp : Z) : list Z :=
  match n with
  | O => []
  | S n' =>
      if bool_decide (ebp = 0) || (ebp <? KERNBASE) || bool_decide (ebp = 0xffffffff)
      then replicate n 0
      else word (u32 (ebp + 4)) :: getcallerpcs_loop n' word (word ebp)
  end.

Definition getcallerpcs (word : Z → Z) (v : Z) : list Z :=
  getcallerpcs_loop 10 word (u32 (v - 8)).

(** ** One CPU: what acquire and release do *)

Definition cpu_push (c : cpu) : cpu :=
  mkCpu (ncli c + 1) (if decide (ncli c = 0) then fl_if c else intena c) false (cpu_proc c).
Definition cpu_pop (c : cpu) : cpu :=
  mkCpu (ncli c - 1) (intena c)
    (if decide (ncli c = 1) then intena c else false) (cpu_proc c).

Definition hw_with (c : cpu) (h : hw) : hw :=
  mkHw (<[mycpu h := c]> (cpus h)) (mycpu h) (locks h).

Lemma upd_cpu_with f c h : cpu_of h = Some c → upd_cpu f h = hw_with (f c) h.
Proof.
  unfold cpu_of, upd_cpu, hw_with. intros H. f_equal.
  apply list_eq. intros j. destruct (decide (mycpu h = j)) as [<-|].
  - rewrite list_lookup_alter_eq, H, list_lookup_insert_eq; [done|]. by eapply lookup_lt_Some.
  - by rewrite list_lookup_alter_ne, list_lookup_insert_ne by done.
Qed.

Lemma cpu_of_with c c' h : cpu_of h = Some c → cpu_of (hw_with c' h) = Some c'.
Proof.
  unfold cpu_of, hw_with. simpl. intros H.
  apply list_lookup_insert_eq. by eapply lookup_lt_Some.
Qed.

Lemma hw_with_with c c' h : hw_with c (hw_with c' h) = hw_with c h.
Proof. unfold hw_with. simpl. by rewrite list_insert_insert_eq. Qed.

Lemma wp_this_cpu h c (Q : cpu → hw → Prop) : cpu_of h = Some c → Q c h → wp this_cpu h Q.
Proof. apply wp_lookupM. Qed.

Lemma upd_cpu_twice f c c' h :
  cpu_of h = Some c → upd_cpu f (hw_with c' h) = hw_with (f c') h.
Proof.
  intros Hc. rewrite (upd_cpu_with _ c') by (by eapply cpu_of_with).
  by rewrite hw_with_with.
Qed.

Lemma pushcli_spec h c :
  cpu_of h = Some c → pushcli h = Ret tt (hw_with (cpu_push c) h).
Proof.
  intros Hc. unfold pushcli, this_cpu, lookupM, mbind, M_bind, cli, modify, mret, M_ret.
  rewrite Hc. unfold cpu_push. destruct (decide (ncli c = 0));
    by rewrite (upd_cpu_with _ c h Hc), !(upd_cpu_twice _ c _ _ Hc).
Qed.

Lemma popcli_spec h c :
  cpu_of h = Some c → fl_if c = false → 1 ≤ ncli c →
  popcli h = Ret tt (hw_with (cpu_pop c) h).
Proof.
  intros Hc Hif Hn. unfold popcli, this_cpu, lookupM, mbind, M_bind, sti, modify, mret, M_ret.
  rewrite Hc, Hif, (upd_cpu_with _ c h Hc), decide_False by lia. unfold cpu_pop.
  destruct (decide (ncli c - 1 = 0)); destruct (decide (ncli c = 1)); try lia;
    [destruct (intena c) eqn:Hi; [rewrite (upd_cpu_twice _ c _ _ Hc)|] |];
    unfold set_fl_if, set_ncli; simpl; by rewrite ?Hif, ?Hi.
Qed.

Lemma acquire_spec h c lk :
  cpu_of h = Some c → locked (locks h lk) = false →
  acquire lk h =
    Ret tt (upd_lock lk (mkSpinlock true (Some (mycpu h))) (hw_with (cpu_push c) h)).
Proof.
  intros Hc Hl. unfold acquire, holding, gets, modify, mbind, M_bind.
  rewrite (pushcli_spec _ c) by done. simpl.
  rewrite Hl. simpl. by rewrite Hl.
Qed.

Lemma release_spec h c lk :
  cpu_of h = Some c → fl_if c = false → 1 ≤ ncli c →
  locks h lk = mkSpinlock true (Some (mycpu h)) →
  release lk h = Ret tt (hw_with (cpu_pop c)
    (upd_lock lk (mkSpinlock false None) (upd_lock lk (mkSpinlock true None) h))).
Proof.
  intros Hc Hif Hn Hl. unfold release, holding, gets, modify, mbind, M_bind.
  rewrite Hl. simpl. rewrite bool_decide_eq_true_2 by done. simpl.
  rewrite (popcli_spec _ c) by done. done.
Qed.

(** ** One critical section *)

(** This CPU can take [lk]; this CPU has it. *)
Definition lock_ready (lk : lockid) (h : hw) : Prop :=
  ∃ c, cpu_of h = Some c ∧ 0 ≤ ncli c ∧ locks h lk = mkSpinlock false None.
Definition lock_mine (lk : lockid) (h : hw) : Prop :=
  ∃ c, cpu_of h = Some c ∧ 1 ≤ ncli c ∧ fl_if c = false ∧ locks h lk = mkSpinlock true (Some (mycpu h)).

Lemma acquire_ready lk h : lock_ready lk h → wp (acquire lk) h (λ _ h', lock_mine lk h').
Proof.
  intros (c & Hc & Hn & Hl). eapply wp_Ret; [apply (acquire_spec h c); [done|by rewrite Hl]|].
  exists (cpu_push c). split; [by eapply (cpu_of_with c)|]. unfold cpu_push. simpl.
  split; [lia|]. split; [done|]. by rewrite fn_insert_dec, decide_True.
Qed.

Lemma release_mine lk h : lock_mine lk h → wp (release lk) h (λ _ h', lock_ready lk h').
Proof.
  intros (c & Hc & Hn & Hf & Hl). eapply wp_Ret; [by apply (release_spec h c)|].
  exists (cpu_pop c). split; [by eapply (cpu_of_with c)|]. unfold cpu_pop. simpl.
  split; [lia|]. by rewrite !fn_insert_dec, decide_True.
Qed.

(** ** All CPUs: interleaving at the grain of [xchg]

    Between the steps of one CPU any other CPU may run.  A CPU is running
    kernel code, spinning in [acquire], past its successful [xchg] but not yet
    recorded as the holder, or past [lk->cpu = 0] in [release] with the
    releasing [xchg] still to come.  [held i] lists the locks CPU [i] owns
    (a ghost of its program position). *)
Inductive pc := PRun | PSpin (lk : lockid) | PGot (lk : lockid) | PRel (lk : lockid).

Record sys := mkSys {
  s_cpus : list cpu;
  s_locks : lockid → spinlock;
  s_pc : nat → pc;
  s_held : nat → list lockid
}.

Definition view (i : nat) (s : sys) : hw := mkHw (s_cpus s) i (s_locks s).

Inductive lkstep : sys → sys → Prop :=
  | lk_push i lk s h :
      s_pc s i = PRun → pushcli (view i s) = Ret tt h → holding lk h = Ret false h →
      lkstep s (mkSys (cpus h) (locks h) (<[i := PSpin lk]> (s_pc s)) (s_held s))
  | lk_spin i lk s :
      s_pc s i = PSpin lk → locked (s_locks s lk) = true → lkstep s s
  | lk_xchg i lk s :
      s_pc s i = PSpin lk → locked (s_locks s lk) = false →
      lkstep s (mkSys (s_cpus s)
        (<[lk := mkSpinlock true (lk_cpu (s_locks s lk))]> (s_locks s))
        (<[i := PGot lk]> (s_pc s)) (s_held s))
  | lk_setcpu i lk s :
      s_pc s i = PGot lk →
      lkstep s (mkSys (s_cpus s)
        (<[lk := mkSpinlock (locked (s_locks s lk)) (Some i)]> (s_locks s))
        (<[i := PRun]> (s_pc s)) (<[i := lk :: s_held s i]> (s_held s)))
  | lk_unset i lk s h :
      s_pc s i = PRun → holding lk (view i s) = Ret true h →
      lkstep s (mkSys (s_cpus s)
        (<[lk := mkSpinlock (locked (s_locks s lk)) None]> (s_locks s))
        (<[i := PRel lk]> (s_pc s)) (s_held s))
  | lk_unlock i lk s h :
      s_pc s i = PRel lk →
      popcli (view i (mkSys (s_cpus s)
        (<[lk := mkSpinlock false (lk_cpu (s_locks s lk))]> (s_locks s))
        (s_pc s) (s_held s))) = Ret tt h →
      lkstep s (mkSys (cpus h) (locks h) (<[i := PRun]> (s_pc s))
        (<[i := filter (.≠ lk) (s_held s i)]> (s_held s)))
  | lk_flag i b s c :
      s_pc s i = PRun → s_held s i = [] → s_cpus s !! i = Some c →
      lkstep s (mkSys (<[i := set_fl_if b c]> (s_cpus s)) (s_locks s) (s_pc s) (s_held s)).

(** Power-on: no lock is taken, no CPU has called [pushcli]. *)
Definition lk_init (s : sys) : Prop :=
  (∀ lk, s_locks s lk = mkSpinlock false None) ∧
  (∀ i, s_pc s i = PRun ∧ s_held s i = []) ∧
  (∀ i c, s_cpus s !! i = Some c → ncli c = 0).

(** CPU [i] is inside the critical section of [lk]. *)
Definition in_crit (s : sys) (i : nat) (lk : lockid) : Prop :=
  lk ∈ s_held s i ∨ s_pc s i = PGot lk.

Definition pc_depth (p : pc) : Z :=
  match p with PSpin _ | PGot _ => 1 | _ => 0 end.

Record lk_inv (s : sys) : Prop := {
  inv_locked lk : locked (s_locks s lk) = true ↔ ∃ i, in_crit s i lk;
  inv_excl i j lk : in_crit s i lk → in_crit s j lk → i = j;
  inv_cpu i lk : lk_cpu (s_locks s lk) = Some i ↔ lk ∈ s_held s i ∧ s_pc s i ≠ PRel lk;
  inv_nodup i : NoDup (s_held s i);
  inv_pc i : match s_pc s i with
             | PSpin lk | PGot lk => lk ∉ s_held s i
             | PRel lk => lk ∈ s_held s i
             | PRun => True
             end;
  inv_ncli i c : s_cpus s !! i = Some c →
    ncli c = Z.of_nat (length (s_held s i)) + pc_depth (s_pc s i) ∧
    (0 < ncli c → fl_if c = false)
}.

Lemma lk_init_inv s : lk_init s → lk_inv s.
Proof.
  intros (Hl & Hp & Hc).
  assert (∀ i lk, ¬ in_crit s i lk) as Hn.
  { intros i lk. destruct (Hp i) as [E1 E2]. unfold in_crit. rewrite E1, E2. set_solver. }
  split.
  - intros lk. rewrite Hl. naive_solver.
  - intros i j lk Hi. by destruct (Hn i lk).
  - intros i lk. rewrite Hl. destruct (Hp i) as [_ ->]. set_solver.
  - intros i. destruct (Hp i) as [_ ->]. constructor.
  - intros i. by destruct (Hp i) as [-> _].
  - intros i c Hi. destruct (Hp i) as [-> ->]. rewrite (Hc _ _ Hi). simpl. lia.
Qed.

Lemma holding_Ret lk h b h' :
  holding lk h = Ret b h' →
  h' = h ∧ b = locked (locks h lk) && bool_decide (lk_cpu (locks h lk) = Some (mycpu h)).
Proof. unfold holding, gets. by intros [= <- <-]. Qed.

Lemma lkstep_inv_push s i lk h :
  lk_inv s → s_pc s i = PRun → pushcli (view i s) = Ret tt h → holding lk h = Ret false h →
  lk_inv (mkSys (cpus h) (locks h) (<[i := PSpin lk]> (s_pc s)) (s_held s)).
Proof.
  intros [I1 I2 I3 I4 I5 I6] Hpc Hpush [_ Hh]%holding_Ret.
  destruct (s_cpus s !! i) as [c|] eqn:Hc; last first.
  { unfold pushcli, this_cpu, lookupM, mbind, M_bind, cpu_of in Hpush. simpl in Hpush.
    by rewrite Hc in Hpush. }
  rewrite (pushcli_spec _ c) in Hpush by done. injection Hpush as <-. simpl in *.
  assert (∀ j lk', in_crit (mkSys (<[i:=cpu_push c]> (s_cpus s)) (s_locks s)
      (<[i:=PSpin lk]> (s_pc s)) (s_held s)) j lk' ↔ in_crit s j lk') as Hcr.
  { intros j lk'. unfold in_crit; simpl. fn_cases; intuition congruence. }
  split; simpl.
  - intros lk'. rewrite I1. by setoid_rewrite Hcr.
  - intros j k lk'. rewrite !Hcr. apply I2.
  - intros j lk'. rewrite I3. fn_cases; intuition congruence.
  - done.
  - intros j. fn_cases; [|apply I5].
    intros Hin. assert (lk_cpu (s_locks s lk) = Some j) as E by (apply I3; split; [done|congruence]).
    assert (locked (s_locks s lk) = true) as E' by (apply I1; exists j; by left).
    rewrite E, E', bool_decide_eq_true_2 in Hh by done. done.
  - intros j d Hd. fn_cases.
    + rewrite list_lookup_insert_eq in Hd by (by eapply lookup_lt_Some).
      simplify_eq. destruct (I6 _ _ Hc) as [E _]. rewrite Hpc in E. simpl in *. split; [lia|done].
    + rewrite list_lookup_insert_ne in Hd by done. by apply I6.
Qed.

Lemma lkstep_inv_xchg s i lk :
  lk_inv s → s_pc s i = PSpin lk → locked (s_locks s lk) = false →
  lk_inv (mkSys (s_cpus s)
    (<[lk := mkSpinlock true (lk_cpu (s_locks s lk))]> (s_locks s))
    (<[i := PGot lk]> (s_pc s)) (s_held s)).
Proof.
  intros [I1 I2 I3 I4 I5 I6] Hpc Hfree.
  assert (∀ j, ¬ in_crit s j lk) as Hnone.
  { intros j Hj. assert (locked (s_locks s lk) = true) by (apply I1; by exists j). congruence. }
  assert (∀ j lk', in_crit (mkSys (s_cpus s)
      (<[lk := mkSpinlock true (lk_cpu (s_locks s lk))]> (s_locks s))
      (<[i := PGot lk]> (s_pc s)) (s_held s)) j lk' ↔ in_crit s j lk' ∨ (j = i ∧ lk' = lk)) as Hcr.
  { intros j lk'. unfold in_crit; simpl. fn_cases; intuition congruence. }
  split; simpl.
  - intros lk'. setoid_rewrite Hcr. fn_cases; [naive_solver|].
    rewrite I1. split; [naive_solver|]. intros (j & [?|[? ?]]); [eauto|congruence].
  - intros j k lk'. rewrite !Hcr. intros [Hj|[? ?]] [Hk|[? ?]]; subst;
      [by eapply I2|by destruct (Hnone j)|by destruct (Hnone k)|done].
  - intros j lk'. specialize (I3 j lk'). fn_cases; intuition congruence.
  - done.
  - intros j. specialize (I5 j). fn_cases; [|done]. by rewrite Hpc in I5.
  - intros j c Hc. destruct (I6 j c Hc) as [E ?]. fn_cases; [|done]. by rewrite Hpc in E.
Qed.

Lemma lkstep_inv_setcpu s i lk :
  lk_inv s → s_pc s i = PGot lk →
  lk_inv (mkSys (s_cpus s)
    (<[lk := mkSpinlock (locked (s_locks s lk)) (Some i)]> (s_locks s))
    (<[i := PRun]> (s_pc s)) (<[i := lk :: s_held s i]> (s_held s))).
Proof.
  intros [I1 I2 I3 I4 I5 I6] Hpc.
  assert (in_crit s i lk) as Hi by by right.
  assert (∀ j lk', in_crit (mkSys (s_cpus s)
      (<[lk := mkSpinlock (locked (s_locks s lk)) (Some i)]> (s_locks s))
      (<[i := PRun]> (s_pc s)) (<[i := lk :: s_held s i]> (s_held s))) j lk' ↔ in_crit s j lk') as Hcr.
  { intros j lk'. unfold in_crit; simpl. fn_cases; [|done].
    rewrite elem_of_cons, Hpc. intuition congruence. }
  split; simpl.
  - intros lk'. setoid_rewrite Hcr. rewrite <- I1. by fn_cases.
  - intros j k lk'. rewrite !Hcr. apply I2.
  - intros j lk'. specialize (I3 j lk').
    destruct (decide (lk = lk')) as [<-|]; destruct (decide (i = j)) as [<-|];
      fn_cases; rewrite ?elem_of_cons.
    + split; [|done]. intros _. split; [by left|done].
    + split; [congruence|]. intros [Hin _]. exfalso. apply n. apply (I2 _ _ lk); [done|by left].
    + rewrite I3, Hpc. intuition congruence.
    + done.
  - intros j. specialize (I4 j). specialize (I5 j). fn_cases; [|done].
    rewrite Hpc in I5. by constructor.
  - intros j. specialize (I5 j). by fn_cases.
  - intros j c Hc. destruct (I6 j c Hc) as [E ?]. fn_cases; [|done].
    rewrite Hpc in E. simpl in E. split; [lia|done].
Qed.

Lemma lkstep_inv_unset s i lk h :
  lk_inv s → s_pc s i = PRun → holding lk (view i s) = Ret true h →
  lk_inv (mkSys (s_cpus s)
    (<[lk := mkSpinlock (locked (s_locks s lk)) None]> (s_locks s))
    (<[i := PRel lk]> (s_pc s)) (s_held s)).
Proof.
  intros [I1 I2 I3 I4 I5 I6] Hpc [_ Hh]%holding_Ret.
  symmetry in Hh. apply andb_true_iff in Hh as [_ Hh%bool_decide_eq_true]. simpl in Hh.
  apply I3 in Hh as Hin. destruct Hin as [Hin _].
  assert (∀ j lk', in_crit (mkSys (s_cpus s)
      (<[lk := mkSpinlock (locked (s_locks s lk)) None]> (s_locks s))
      (<[i := PRel lk]> (s_pc s)) (s_held s)) j lk' ↔ in_crit s j lk') as Hcr.
  { intros j lk'. unfold in_crit; simpl. fn_cases; intuition congruence. }
  split; simpl.
  - intros lk'. setoid_rewrite Hcr. rewrite <- I1. by fn_cases.
  - intros j k lk'. rewrite !Hcr. apply I2.
  - intros j lk'. specialize (I3 j lk').
    destruct (decide (lk = lk')) as [<-|]; destruct (decide (i = j)) as [<-|]; fn_cases.
    + intuition congruence.
    + split; [congruence|]. intros [Hj _]. exfalso. apply n. by apply (I2 _ _ lk); left.
    + rewrite I3, Hpc. intuition congruence.
    + done.
  - done.
  - intros j. specialize (I5 j). by fn_cases.
  - intros j c Hc. destruct (I6 j c Hc) as [E ?]. fn_cases; [|done]. by rewrite Hpc in E.
Qed.

Lemma popcli_inv_Ret s i lk :
  lk_inv s → s_pc s i = PRel lk → ∀ c lks, s_cpus s !! i = Some c →
  popcli (mkHw (s_cpus s) i lks) = Ret tt (mkHw (<[i := cpu_pop c]> (s_cpus s)) i lks) ∧
  1 ≤ ncli c.
Proof.
  intros [_ _ _ _ I5 I6] Hpc c lks Hc. specialize (I5 i). rewrite Hpc in I5.
  destruct (I6 i c Hc) as [E Hif]. rewrite Hpc in E. simpl in E.
  assert (0 < ncli c) as Hn.
  { destruct (s_held s i) as [|? ?]; [by apply elem_of_nil in I5|]. simpl in E. lia. }
  split; [|lia]. rewrite (popcli_spec _ c); [done|done|auto|lia].
Qed.

Lemma lkstep_inv_unlock s i lk h :
  lk_inv s → s_pc s i = PRel lk →
  popcli (view i (mkSys (s_cpus s)
    (<[lk := mkSpinlock false (lk_cpu (s_locks s lk))]> (s_locks s))
    (s_pc s) (s_held s))) = Ret tt h →
  lk_inv (mkSys (cpus h) (locks h) (<[i := PRun]> (s_pc s))
    (<[i := filter (.≠ lk) (s_held s i)]> (s_held s))).
Proof.
  intros Hinv Hpc Hpop.
  destruct (s_cpus s !! i) as [c|] eqn:Hc; last first.
  { unfold popcli, this_cpu, lookupM, mbind, M_bind, cpu_of in Hpop. simpl in Hpop.
    by rewrite Hc in Hpop. }
  destruct (popcli_inv_Ret s i lk Hinv Hpc c (<[lk := mkSpinlock false (lk_cpu (s_locks s lk))]> (s_locks s)) Hc)
    as [E Hn].
  unfold view in Hpop. simpl in Hpop. rewrite E in Hpop. injection Hpop as <-. simpl.
  destruct Hinv as [I1 I2 I3 I4 I5 I6].
  assert (lk ∈ s_held s i) as Hin by (specialize (I5 i); by rewrite Hpc in I5).
  assert (∀ j lk', in_crit (mkSys (<[i:=cpu_pop c]> (s_cpus s))
      (<[lk:=mkSpinlock false (lk_cpu (s_locks s lk))]> (s_locks s))
      (<[i:=PRun]> (s_pc s)) (<[i:=filter (.≠ lk) (s_held s i)]> (s_held s))) j lk' ↔
      in_crit s j lk' ∧ lk' ≠ lk) as Hcr.
  { intros j lk'. unfold in_crit; simpl. fn_cases.
    - rewrite elem_of_filter_ne, Hpc. intuition congruence.
    - split; [|tauto]. intros Hj. split; [done|]. intros ->.
      apply n. apply (I2 _ _ lk); [by left|done]. }
  split; simpl.
  - intros lk'. setoid_rewrite Hcr. fn_cases; [naive_solver|].
    rewrite I1. split; [intros [j ?]; exists j; split; congruence|naive_solver].
  - intros j k lk'. rewrite !Hcr. intros [? _] [? _]. by eapply I2.
  - intros j lk'. specialize (I3 j lk').
    destruct (decide (lk = lk')) as [<-|]; destruct (decide (i = j)) as [<-|]; fn_cases;
      rewrite ?elem_of_filter_ne.
    + intuition congruence.
    + done.
    + rewrite I3, Hpc. intuition congruence.
    + done.
  - intros j. specialize (I4 j). fn_cases; [|done]. by apply NoDup_filter.
  - intros j. specialize (I5 j). by fn_cases.
  - intros j d Hd. fn_cases.
    + rewrite list_lookup_insert_eq in Hd by (by eapply lookup_lt_Some). simplify_eq.
      destruct (I6 _ _ Hc) as [En Hif]. rewrite Hpc in En. simpl in *.
      rewrite (length_filter_ne lk) in En by done. split; [lia|].
      destruct (decide (ncli c = 1)); [lia|done].
    + rewrite list_lookup_insert_ne in Hd by done. by apply I6.
Qed.

Lemma lkstep_inv_flag s i b c :
  lk_inv s → s_pc s i = PRun → s_held s i = [] → s_cpus s !! i = Some c →
  lk_inv (mkSys (<[i := set_fl_if b c]> (s_cpus s)) (s_locks s) (s_pc s) (s_held s)).
Proof.
  intros [I1 I2 I3 I4 I5 I6] Hpc Hh Hc. split; simpl; [done..|].
  intros j d. rewrite list_lookup_insert. case_decide as Hd; [|apply I6].
  destruct Hd as [<- _]. intros [= <-]. destruct (I6 _ _ Hc) as [E _].
  rewrite Hpc, Hh in *. simpl in *. split; [done|lia].
Qed.

Lemma lkstep_inv s s' : lk_inv s → lkstep s s' → lk_inv s'.
Proof.
  intros Hs Hst. destruct Hst.
  - by eapply lkstep_inv_push.
  - done.
  - by apply lkstep_inv_xchg.
  - by apply lkstep_inv_setcpu.
  - by eapply lkstep_inv_unset.
  - by eapply lkstep_inv_unlock.
  - by apply lkstep_inv_flag.
Qed.

Lemma lk_reach_inv s0 s : lk_init s0 → rtc lkstep s0 s → lk_inv s.
Proof.
  intros H0%lk_init_inv Hr. induction Hr as [|s1 s2 s3 H12 _ IH]; [done|].
  by apply IH, (lkstep_inv s1).
Qed.

(** [holding], evaluated on a CPU that is between operations, answers exactly
    whether that CPU owns the lock, whatever the other CPUs are doing. *)
Lemma holding_exact s i lk :
  lk_inv s → s_pc s i = PRun →
  holding lk (view i s) = Ret (bool_decide (lk ∈ s_held s i)) (view i s).
Proof.
  intros [I1 I2 I3 I4 I5 I6] Hpc. unfold holding, gets, view; simpl. f_equal.
  case_bool_decide as Hin; case_bool_decide as Hin'.
  - rewrite andb_true_r. apply I1. exists i. by left.
  - apply I3 in Hin as [? _]. done.
  - destruct Hin. apply I3. split; [done|congruence].
  - by rewrite andb_false_r.
Qed.

(** C23: mutual exclusion of the spin locks.  However the CPUs interleave
    between power-on and now, at the grain of the [xchg] in [acquire] and of
    the two stores of [release], two CPUs are never both inside the critical
    section of the same lock, and the lock word is set exactly while some CPU
    is inside it. *)
Theorem spinlock_mutual_exclusion (s0 s : sys) (lk : lockid) :
  lk_init s0 → rtc lkstep s0 s →
  (∀ i j, in_crit s i lk → in_crit s j lk → i = j) ∧
  (locked (s_locks s lk) = true ↔ ∃ i, in_crit s i lk).
Proof.
  intros H0 Hr. destruct (lk_reach_inv s0 s H0 Hr) as [I1 I2 _ _ _ _]. split; [|apply I1].
  intros i j. apply I2.
Qed.

(** the panics of spinlock.c fire exactly on misuse.  On a CPU between
    operations [acquire]'s check panics iff the CPU already owns the lock and
    [release]'s iff it does not; and once a [release] is under way its
    [popcli] returns (it neither finds interrupts enabled nor underflows). *)
Theorem spinlock_panics_only_on_misuse (s0 s : sys) (i : nat) (lk : lockid) :
  lk_init s0 → rtc lkstep s0 s →
  (s_pc s i = PRun →
     holding lk (view i s) = Ret (bool_decide (lk ∈ s_held s i)) (view i s)) ∧
  (s_pc s i = PRel lk → i < length (s_cpus s) → ∃ h, popcli (view i s) = Ret tt h)%nat.
Proof.
  intros H0 Hr. pose proof (lk_reach_inv s0 s H0 Hr) as Hinv. split.
  - by apply holding_exact.
  - intros Hpc [c Hc]%lookup_lt_is_Some_2.
    destruct (popcli_inv_Ret s i lk Hinv Hpc c (s_locks s) Hc) as [E _]. eauto.
Qed.

Definition boot_sys : sys :=
  mkSys (replicate 2 (mkCpu 0 false true None)) (λ _, mkSpinlock false None)
    (λ _, PRun) (λ _, []).

Lemma boot_sys_init : lk_init boot_sys.
Proof.
  split; [done|]. split; [done|]. intros [|[|[]]] c Hc; by simplify_eq/=.
Qed.

(** CPU 0 takes the process-table lock; CPU 1 is left spinning for it. *)
Definition contended_sys : sys :=
  let locks1 := <[Lptable := mkSpinlock true None]> (λ _, mkSpinlock false None) in
  mkSys [mkCpu 1 true false None; mkCpu 1 true false None]
    (<[Lptable := mkSpinlock true (Some 0%nat)]> locks1)
    (<[1%nat := PSpin Lptable]> (<[0%nat := PRun]> (<[0%nat := PGot Lptable]>
       (<[0%nat := PSpin Lptable]> (λ _, PRun)))))
    (<[0%nat := [Lptable]]> (λ _, [])).

Lemma contended_reachable : rtc lkstep boot_sys contended_sys.
Proof.
  eapply rtc_l; [by eapply (lk_push 0 Lptable)|].
  eapply rtc_l; [by eapply (lk_xchg 0 Lptable)|].
  eapply rtc_l; [by eapply (lk_setcpu 0 Lptable)|].
  eapply rtc_l; [by eapply (lk_push 1 Lptable)|].
  apply rtc_refl.
Qed.

Lemma spinlock_mutual_exclusion_witness :
  (∀ i j, in_crit contended_sys i Lptable → in_crit contended_sys j Lptable → i = j) ∧
  (locked (s_locks contended_sys Lptable) = true ↔ ∃ i, in_crit contended_sys i Lptable).
Proof.
  apply (spinlock_mutual_exclusion boot_sys contended_sys Lptable).
  - apply boot_sys_init.
  - apply contended_reachable.
Defined.

Lemma spinlock_panics_only_on_misuse_witness :
  (s_pc contended_sys 0 = PRun →
     holding Lptable (view 0 contended_sys) =
       Ret (bool_decide (Lptable ∈ s_held contended_sys 0)) (view 0 contended_sys)) ∧
  (s_pc contended_sys 0 = PRel Lptable → 0 < length (s_cpus contended_sys) →
     ∃ h, popcli (view 0 contended_sys) = Ret tt h)%nat.
Proof.
  apply (spinlock_panics_only_on_misuse boot_sys contended_sys 0 Lptable).
  - apply boot_sys_init.
  - apply contended_reachable.
Defined.
