(* ===== verification/CString.v ===== *)
(** * Byte and string routines (string.c, ulib.c, sh.c)

    Memory is a list of bytes indexed by address; an access outside it has no
    result ([None]).  A [char *] that is only walked forward over memory no
    store of the routine touches is the list of bytes from it on. *)

From S2P Require Import Prelude.

Local Open Scope Z_scope.

Notation mem := (list Z).

Definition store (m : mem) (a : nat) (v : Z) : option mem :=
  if decide (a < length m)%nat then Some (<[a := v]> m) else None.

(** x86 [rep stosb] and [rep stosl]: [cnt] bytes, or little-endian words. *)
Fixpoint stosb (m : mem) (a : nat) (data : Z) (cnt : nat) : option mem :=
  match cnt with
  | O => Some m
  | S c => m' ← store m a (u8 data); stosb m' (S a) data c
  end.
Definition word_bytes (w : Z) : list Z :=
  [u8 w; u8 (Z.shiftr w 8); u8 (Z.shiftr w 16); u8 (Z.shiftr w 24)].
Fixpoint store_all (m : mem) (a : nat) (vs : list Z) : option mem :=
  match vs with
  | [] => Some m
  | v :: vs' => m' ← store m a v; store_all m' (S a) vs'
  end.
Fixpoint stosl (m : mem) (a : nat) (data : Z) (cnt : nat) : option mem :=
  match cnt with
  | O => Some m
  | S c => m' ← store_all m a (word_bytes data); stosl m' (4 + a)%nat data c
  end.

Definition memset (m : mem) (dst : nat) (c : Z) (n : nat) : option mem :=
  if decide (dst `mod` 4 = 0 ∧ n `mod` 4 = 0)%nat then
    let c := Z.land c 0xFF in
    stosl m dst (Z.lor (Z.lor (Z.lor (Z.shiftl c 24) (Z.shiftl c 16)) (Z.shiftl c 8)) c)
      (n / 4)%nat
  else stosb m dst c n.

Fixpoint memcmp (s1 s2 : list Z) (n : nat) {struct n} : option Z :=
  match n with
  | O => Some 0
  | S n' =>
      match s1, s2 with
      | a :: s1', b :: s2' => if decide (a = b) then memcmp s1' s2' n' else Some (a - b)
      | _, _ => None
      end
  end.

Fixpoint copy_fwd (n : nat) (m : mem) (d s : nat) : option mem :=
  match n with
  | O => Some m
  | S n' => v ← m !! s; m' ← store m d v; copy_fwd n' m' (S d) (S s)
  end.
Fixpoint copy_bwd (n : nat) (m : mem) (d s : nat) : option mem :=
  match n with
  | O => Some m
  | S n' => v ← m !! (s - 1)%nat; m' ← store m (d - 1)%nat v; copy_bwd n' m' (d - 1)%nat (s - 1)%nat
  end.

Definition memmove (m : mem) (dst src n : nat) : option mem :=
  if decide (src < dst ∧ dst < src + n)%nat then copy_bwd n m (dst + n)%nat (src + n)%nat
  else copy_fwd n m dst src.

Definition memcpy (m : mem) (dst src n : nat) : option mem := memmove m dst src n.

(** The user library's [memmove] always copies upwards. *)
Definition ulib_memmove (m : mem) (vdst vsrc n : nat) : option mem := copy_fwd n m vdst vsrc.

(** [(uchar)*p - (uchar)*q] on bytes kept as 0..255. *)
Fixpoint strncmp (p q : list Z) (n : nat) {struct n} : option Z :=
  match n with
  | O => Some 0
  | S n' =>
      match p, q with
      | a :: p', b :: q' =>
          if decide (a ≠ 0 ∧ a = b) then strncmp p' q' n' else Some (a - b)
      | _, _ => None
      end
  end.

Fixpoint strcmp (p q : list Z) : option Z :=
  match p, q with
  | a :: p', b :: q' => if decide (a ≠ 0 ∧ a = b) then strcmp p' q' else Some (a - b)
  | _, _ => None
  end.

(** The destination buffer after the call. *)
Fixpoint zero_fill (s : list Z) (n : nat) {struct n} : option (list Z) :=
  match n with
  | O => Some s
  | S n' => match s with [] => None | _ :: s' => cons 0 <$> zero_fill s' n' end
  end.
Fixpoint strncpy (s t : list Z) (n : nat) {struct n} : option (list Z) :=
  match n with
  | O => Some s
  | S n' =>
      match s, t with
      | _ :: s', c :: t' =>
          cons c <$> (if decide (c = 0) then zero_fill s' n' else strncpy s' t' n')
      | _, _ => None
      end
  end.

(** The loop of [safestrcpy] with [k = n - 1] copies left, then [*s = 0]. *)
Fixpoint safestrcpy_loop (k : nat) (s t : list Z) : option (list Z) :=
  match k, s, t with
  | O, _ :: s', _ => Some (0 :: s')
  | S k', _ :: s', c :: t' =>
      cons c <$> (if decide (c = 0)
                  then match s' with [] => None | _ :: s'' => Some (0 :: s'') end
                  else safestrcpy_loop k' s' t')
  | _, _, _ => None
  end.
Definition safestrcpy (s t : list Z) (n : Z) : option (list Z) :=
  if decide (n ≤ 0) then Some s else safestrcpy_loop (Z.to_nat (n - 1)) s t.

Fixpoint strlen (s : list Z) : option nat :=
  match s with
  | [] => None
  | c :: s' => if decide (c = 0) then Some O else S <$> strlen s'
  end.

Fixpoint strcpy (s t : list Z) : option (list Z) :=
  match s, t with
  | _ :: s', c :: t' => cons c <$> (if decide (c = 0) then Some s' else strcpy s' t')
  | _, _ => None
  end.

(** The suffix at the first [c] before the NUL; [Some None] is a null result. *)
Fixpoint strchr (s : list Z) (c : Z) : option (option (list Z)) :=
  match s with
  | [] => None
  | x :: s' => if decide (x = 0) then Some None
               else if decide (x = c) then Some (Some s) else strchr s' c
  end.

(** ** Decimal numbers *)
Definition is_digit (c : Z) : bool := (48 <=? c) && (c <=? 57).

Fixpoint atoi_digits (n : Z) (s : list Z) : option Z :=
  match s with
  | [] => None
  | c :: s' => if is_digit c then atoi_digits (i32 (n * 10 + c - 48)) s' else Some n
  end.
Fixpoint skip_spaces (s : list Z) : list Z :=
  match s with c :: s' => if decide (c = 32) then skip_spaces s' else s | [] => [] end.

Definition atoi (s : list Z) : option Z :=
  let s := skip_spaces s in
  c ← head s;
  let sign := if decide (c = 45) then -1 else 1 in
  let s := if decide (c = 43 ∨ c = 45) then tail s else s in
  n ← atoi_digits 0 s;
  Some (i32 (sign * n)).

(** sh.c's [makeint]: no sign, no leading blanks. *)
Definition makeint (p : list Z) : option Z := atoi_digits 0 p.

(** ** memmove *)

(** [m] with the [n] bytes at [d] replaced by those at [s] of [m] itself. *)
Definition moved (m : mem) (d s n : nat) : mem :=
  take d m ++ take n (drop s m) ++ drop (d + n) m.

Lemma lookup_moved m d s n j :
  (d + n ≤ length m)%nat → (s + n ≤ length m)%nat →
  moved m d s n !! j =
    if decide (d ≤ j < d + n)%nat then m !! (s + (j - d))%nat else m !! j.
Proof.
  intros Hd Hs. unfold moved. case_decide as Hj.
  - rewrite lookup_app_r by (rewrite length_take; lia). rewrite length_take, Nat.min_l by lia.
    rewrite lookup_app_l by (rewrite length_take, length_drop; lia).
    rewrite lookup_take_lt by lia. by rewrite lookup_drop.
  - destruct (decide (j < d)%nat).
    + rewrite lookup_app_l by (rewrite length_take; lia). by rewrite lookup_take_lt.
    + rewrite lookup_app_r by (rewrite length_take; lia). rewrite length_take, Nat.min_l by lia.
      rewrite lookup_app_r by (rewrite length_take, length_drop; lia).
      rewrite length_take, length_drop, Nat.min_l by lia. rewrite lookup_drop. f_equal. lia.
Qed.

Lemma store_Some m a v : (a < length m)%nat → store m a v = Some (<[a := v]> m).
Proof. intros Ha. unfold store. by rewrite decide_True. Qed.

Lemma copy_fwd_lookup n m d s :
  (d + n ≤ length m)%nat → (s + n ≤ length m)%nat → (d ≤ s ∨ s + n ≤ d)%nat →
  ∃ m', copy_fwd n m d s = Some m' ∧ ∀ j,
    m' !! j = if decide (d ≤ j < d + n)%nat then m !! (s + (j - d))%nat else m !! j.
Proof.
  revert m d s. induction n as [|n IH]; intros m d s Hd Hs Hov; simpl.
  { exists m. split; [done|]. intros j. by rewrite decide_False by lia. }
  destruct (lookup_lt_is_Some_2 m s) as [v Hv]; [lia|]. rewrite Hv. simpl.
  rewrite store_Some by lia. simpl.
  destruct (IH (<[d:=v]> m) (S d) (S s)) as (m' & -> & Hm'); [rewrite ?length_insert; lia..|].
  exists m'. split; [done|]. intros j. rewrite Hm'. destruct (decide (j = d)) as [->|Hne].
  - rewrite decide_False, decide_True by lia. rewrite list_lookup_insert_eq by lia.
    rewrite <- Hv. f_equal. lia.
  - repeat case_decide; try lia; rewrite list_lookup_insert_ne by lia; f_equal; lia.
Qed.

Lemma copy_bwd_lookup n m d s :
  (d + n ≤ length m)%nat → (s ≤ d)%nat →
  ∃ m', copy_bwd n m (d + n) (s + n) = Some m' ∧ ∀ j,
    m' !! j = if decide (d ≤ j < d + n)%nat then m !! (s + (j - d))%nat else m !! j.
Proof.
  revert m. induction n as [|n IH]; intros m Hd Hs; simpl.
  { exists m. split; [done|]. intros j. by rewrite decide_False by lia. }
  replace (s + S n - 1)%nat with (s + n)%nat by lia.
  replace (d + S n - 1)%nat with (d + n)%nat by lia.
  destruct (lookup_lt_is_Some_2 m (s + n)) as [v Hv]; [lia|]. rewrite Hv. simpl.
  rewrite store_Some by lia. simpl.
  destruct (IH (<[(d + n)%nat:=v]> m)) as (m' & -> & Hm'); [rewrite ?length_insert; lia..|].
  exists m'. split; [done|]. intros j. rewrite Hm'. destruct (decide (j = d + n)%nat) as [->|Hne].
  - rewrite decide_False, decide_True by lia. rewrite list_lookup_insert_eq by lia.
    rewrite <- Hv. f_equal. lia.
  - repeat case_decide; try lia; rewrite list_lookup_insert_ne by lia; f_equal; lia.
Qed.

(** [memmove] copies the [n] bytes at [src], as they were before the
    call, to [dst], and changes nothing else, however the two ranges overlap;
    it makes no access outside them. *)
Theorem memmove_correct (m : mem) (dst src n : nat) :
  (dst + n ≤ length m)%nat → (src + n ≤ length m)%nat →
  memmove m dst src n = Some (moved m dst src n).
Proof.
  intros Hd Hs. unfold memmove.
  assert (∀ r, (∃ m', r = Some m' ∧ ∀ j, m' !! j = moved m dst src n !! j) →
    r = Some (moved m dst src n)) as Hext.
  { intros r (m' & -> & Hm'). f_equal. by apply list_eq. }
  apply Hext. setoid_rewrite lookup_moved; [|done|done].
  case_decide; [by apply copy_bwd_lookup; lia|]. apply copy_fwd_lookup; lia.
Qed.

Lemma memmove_correct_witness :
  memmove [1; 2; 3; 4; 5] 1 0 3 = Some (moved [1; 2; 3; 4; 5] 1 0 3) ∧
  moved [1; 2; 3; 4; 5] 1 0 3 = [1; 1; 2; 3; 5].
Proof. split; [|reflexivity]. apply memmove_correct; vm_compute; lia. Defined.

(** The user library's version has no backward case, so it is right only when
    the destination does not start inside the source. *)
Lemma ulib_memmove_correct (m : mem) (dst src n : nat) :
  (dst + n ≤ length m)%nat → (src + n ≤ length m)%nat → (dst ≤ src ∨ src + n ≤ dst)%nat →
  ulib_memmove m dst src n = Some (moved m dst src n).
Proof.
  intros Hd Hs Ho. unfold ulib_memmove.
  destruct (copy_fwd_lookup n m dst src Hd Hs Ho) as (m' & -> & Hm'). f_equal.
  apply list_eq. intros j. by rewrite Hm', lookup_moved.
Qed.

Example ulib_memmove_overlap :
  ulib_memmove [1; 2; 3; 4] 1 0 3 = Some [1; 1; 1; 1] ∧ moved [1; 2; 3; 4] 1 0 3 = [1; 1; 2; 3].
Proof. split; reflexivity. Qed.

(** ** Strings *)

(** The characters of a C string, and that it is terminated. *)
Fixpoint cstr (s : list Z) : list Z :=
  match s with [] => [] | c :: s' => if decide (c = 0) then [] else c :: cstr s' end.
Definition terminated (s : list Z) : Prop := 0 ∈ s.

Lemma strlen_spec s : terminated s → strlen s = Some (length (cstr s)).
Proof.
  induction s as [|c s IH]; [by intros ?%elem_of_nil|]. intros Ht. simpl.
  destruct (decide (c = 0)) as [->|Hc]; [done|]. rewrite IH; [done|].
  by apply elem_of_cons in Ht as [<-|].
Qed.

Lemma safestrcpy_loop_spec k s t :
  (k < length s)%nat → terminated t →
  ∃ s', safestrcpy_loop k s t = Some s' ∧ length s' = length s ∧
        cstr s' = take k (cstr t) ∧ 0 ∈ take (S k) s' ∧ drop (S k) s' = drop (S k) s.
Proof.
  revert s t. induction k as [|k IH]; intros s t Hk Ht; destruct s as [|x s]; simpl in Hk; try lia.
  { exists (0 :: s). simpl. set_solver. }
  destruct t as [|c t]; [by apply elem_of_nil in Ht|]. simpl. destruct (decide (c = 0)) as [->|Hc].
  - destruct s as [|y s]; simpl in Hk; [lia|]. exists (0 :: 0 :: s). simpl.
    destruct k; simpl; set_solver.
  - apply elem_of_cons in Ht as [<-|Ht]; [done|].
    destruct (IH s t) as (s' & -> & H1 & H2 & H3 & H4); [lia|done|].
    exists (c :: s'). simpl. rewrite decide_False by done. rewrite H1, H2.
    split_and!; try done. simpl in *. set_solver.
Qed.

(** [safestrcpy] always leaves a terminated string inside the [n] bytes
    it is given: the source's characters, cut to [n - 1] of them; bytes past
    [n] are untouched. *)
Theorem safestrcpy_terminates (s t : list Z) (n : Z) :
  0 < n ≤ Z.of_nat (length s) → terminated t →
  ∃ s', safestrcpy s t n = Some s' ∧ length s' = length s ∧
        cstr s' = take (Z.to_nat n - 1) (cstr t) ∧
        terminated (take (Z.to_nat n) s') ∧ drop (Z.to_nat n) s' = drop (Z.to_nat n) s.
Proof.
  intros Hn Ht. unfold safestrcpy, terminated. rewrite decide_False by lia.
  replace (Z.to_nat n) with (S (Z.to_nat (n - 1))) by lia.
  destruct (safestrcpy_loop_spec (Z.to_nat (n - 1)) s t) as (s' & -> & ?); [lia|done|].
  exists s'. by replace (S _ - 1)%nat with (Z.to_nat (n - 1)) by lia.
Qed.

Lemma safestrcpy_terminates_witness :
  ∃ s', safestrcpy [9; 9; 9; 9; 9] [105; 110; 105; 116; 0] 4 = Some s' ∧
        length s' = 5%nat ∧ cstr s' = [105; 110; 105] ∧
        terminated (take 4 s') ∧ drop 4 s' = [9].
Proof.
  apply (safestrcpy_terminates [9; 9; 9; 9; 9] [105; 110; 105; 116; 0] 4).
  - vm_compute. split; congruence.
  - unfold terminated. do 4 right. left.
Defined.

(** [strncmp] is zero exactly on strings that agree up to [n] characters. *)
Lemma strncmp_zero p q n :
  terminated p → terminated q →
  ∃ r, strncmp p q n = Some r ∧ (r = 0 ↔ take n (cstr p) = take n (cstr q)).
Proof.
  revert p q. induction n as [|n IH]; intros p q Hp Hq; simpl; [by exists 0|].
  destruct p as [|a p]; [by apply elem_of_nil in Hp|].
  destruct q as [|b q]; [by apply elem_of_nil in Hq|]. simpl.
  destruct (decide (a = 0)) as [->|Ha]; destruct (decide (b = 0)) as [->|Hb]; simpl.
  - by exists 0.
  - eexists. split; [done|]. split; [lia|done].
  - rewrite decide_False by lia. eexists. split; [done|]. split; [lia|done].
  - destruct (decide (a = b)) as [->|Hab].
    + rewrite decide_True by done. apply elem_of_cons in Hp as [|Hp]; [done|].
      apply elem_of_cons in Hq as [|Hq]; [done|]. destruct (IH p q Hp Hq) as (r & -> & Hr).
      exists r. split; [done|]. rewrite Hr. split; congruence.
    + rewrite decide_False by tauto. eexists. split; [done|]. split; [lia|congruence].
Qed.

(** ** memset *)

Lemma store_all_app m a vs ws :
  store_all m a (vs ++ ws) = (m' ← store_all m a vs; store_all m' (a + length vs)%nat ws).
Proof.
  revert m a. induction vs as [|v vs IH]; intros m a; simpl; [by rewrite Nat.add_0_r|].
  destruct (store m a v); simpl; [|done]. rewrite IH. by rewrite Nat.add_succ_r.
Qed.

Lemma stosb_store_all m a c n : stosb m a c n = store_all m a (replicate n (u8 c)).
Proof. revert m a. induction n; intros m a; simpl; [done|]. by destruct (store m a _); simpl. Qed.

Lemma stosl_store_all m a w n :
  stosl m a w n = store_all m a (concat (replicate n (word_bytes w))).
Proof.
  revert m a. induction n as [|n IH]; intros m a; [done|].
  cbn [stosl replicate concat]. rewrite store_all_app.
  destruct (store_all m a (word_bytes w)) as [m'|]; simpl; [|done].
  by rewrite IH, Nat.add_comm.
Qed.

(** Checked on every byte. *)
Lemma byte_word_bytes (n : nat) :
  (n < 256)%nat → let b := Z.of_nat n in
  word_bytes (Z.lor (Z.lor (Z.lor (Z.shiftl b 24) (Z.shiftl b 16)) (Z.shiftl b 8)) b)
  = replicate 4 b.
Proof.
  intros Hn. set (P := λ n, bool_decide (let b := Z.of_nat n in
    word_bytes (Z.lor (Z.lor (Z.lor (Z.shiftl b 24) (Z.shiftl b 16)) (Z.shiftl b 8)) b)
    = replicate 4 b)).
  assert (forallb P (seq 0 256) = true) as HP by (vm_compute; done).
  rewrite forallb_forall in HP. eapply bool_decide_eq_true_1, HP, in_seq. lia.
Qed.

Lemma word_of_byte_bytes c :
  let b := Z.land c 0xFF in
  word_bytes (Z.lor (Z.lor (Z.lor (Z.shiftl b 24) (Z.shiftl b 16)) (Z.shiftl b 8)) b)
  = replicate 4 (u8 c).
Proof.
  assert (Z.land c 0xFF = u8 c) as ->.
  { change 0xFF with (Z.ones 8). by rewrite Z.land_ones by lia. }
  assert (0 ≤ u8 c < 2 ^ 8) as Hb by (apply Z.mod_pos_bound; lia).
  replace (u8 c) with (Z.of_nat (Z.to_nat (u8 c))) by lia. apply byte_word_bytes. lia.
Qed.

Lemma store_all_spec m a vs :
  (a + length vs ≤ length m)%nat →
  store_all m a vs = Some (take a m ++ vs ++ drop (a + length vs) m).
Proof.
  revert m a. induction vs as [|v vs IH]; intros m a Ha; simpl.
  { by rewrite Nat.add_0_r, take_drop. }
  simpl in Ha. rewrite store_Some by lia. simpl.
  rewrite IH by (rewrite length_insert; lia). f_equal.
  rewrite (take_S_r _ _ v) by (apply list_lookup_insert_eq; lia).
  rewrite take_insert_ge, drop_insert_lt by lia. rewrite <- app_assoc. simpl.
  by rewrite Nat.add_succ_r.
Qed.

(** [memset] stores the low byte of [c] in each of the [n] bytes, on the word
    path (aligned address and length) as on the byte path. *)
Lemma memset_correct (m : mem) (dst : nat) (c : Z) (n : nat) :
  (dst + n ≤ length m)%nat →
  memset m dst c n = Some (take dst m ++ replicate n (u8 c) ++ drop (dst + n) m).
Proof.
  intros Hn. unfold memset. case_decide as Hal.
  - rewrite stosl_store_all, word_of_byte_bytes.
    assert (concat (replicate (n / 4) (replicate 4 (u8 c))) = replicate n (u8 c)) as ->.
    { assert (n = n / 4 * 4)%nat as E by (pose proof (Nat.div_mod_eq n 4); lia).
      rewrite E at 2. generalize (n / 4)%nat as k. intros k. induction k as [|k IH]; [done|].
      rewrite (replicate_S k), concat_cons, IH, <- replicate_add. by f_equal. }
    rewrite store_all_spec; rewrite length_replicate; [done|lia].
  - rewrite stosb_store_all, store_all_spec; rewrite length_replicate; [done|lia].
Qed.
