(* ===== verification/Format.v ===== *)
(** * Formatted output (console.c: printint, cprintf; printf.c)

    What the two printf implementations of the repository write, as the list
    of bytes handed to [consputc] or [putc]; and that the user library's
    [atoi] reads back what [%d] prints. *)

From S2P Require Import Prelude CString.
From Stdlib Require Import Ascii.

Local Open Scope Z_scope.

(** The bytes of a string literal, without its NUL. *)
Definition chars (s : string) : list Z := (λ a, Z.of_nat (nat_of_ascii a)) <$> String.list_ascii_of_string s.

(** [do { buf[i++] = digits[x % base]; } while((x /= base) != 0);]  [room] is
    what is left of [buf]; a store outside it has no result. *)
Fixpoint digit_loop (room : nat) (digits : list Z) (base x : Z) : option (list Z) :=
  match room with
  | O => None
  | S k =>
      d ← digits !! Z.to_nat (x `mod` base);
      if decide (x / base = 0) then Some [d] else cons d <$> digit_loop k digits base (x / base)
  end.

(** Then the sign, and [while(--i >= 0) consputc(buf[i]);]. *)
Definition emit (neg : bool) (buf : list Z) : option (list Z) :=
  if neg then (if decide (length buf < 16)%nat then Some (reverse (buf ++ [45])) else None)
  else Some (reverse buf).

(** ** console.c *)

Definition printint (xx base : Z) (sign : bool) : option (list Z) :=
  let sign := sign && bool_decide (xx < 0) in
  let x := if sign then u32 (- xx) else u32 xx in
  buf ← digit_loop 16 (chars "0123456789abcdef") base x;
  emit sign buf.

(** A variable argument: a word, or a pointer to a string ([None] is null). *)
Inductive arg := AInt (x : Z) | AStr (s : option (list Z)).

(** [cprintf]: what is written; no result if the format asks for an argument
    that is not there or is of the other kind. *)
Fixpoint cprintf (fmt : list Z) (args : list arg) : option (list Z) :=
  match fmt with
  | [] => None
  | c :: fmt' =>
      if decide (c = 0) then Some []
      else if decide (c ≠ 37) then cons c <$> cprintf fmt' args
      else
        match fmt' with
        | [] => None
        | d :: fmt'' =>
            if decide (d = 0) then Some []
            else if decide (d = 100) then
              match args with
              | AInt x :: args' => o ← printint (i32 x) 10 true; app o <$> cprintf fmt'' args'
              | _ => None
              end
            else if decide (d = 120 ∨ d = 112) then
              match args with
              | AInt x :: args' => o ← printint (i32 x) 16 false; app o <$> cprintf fmt'' args'
              | _ => None
              end
            else if decide (d = 115) then
              match args with
              | AStr s :: args' => app (cstr (default (chars "(null)") s)) <$> cprintf fmt'' args'
              | _ => None
              end
            else if decide (d = 37) then cons 37 <$> cprintf fmt'' args
            else app [37; d] <$> cprintf fmt'' args
        end
  end.

(** ** printf.c *)

Definition uprintint (xx base : Z) (sgn : bool) : option (list Z) :=
  let neg := sgn && bool_decide (xx < 0) in
  let x := if neg then u32 (- xx) else u32 xx in
  buf ← digit_loop 16 (chars "0123456789ABCDEF") base x;
  emit neg buf.

(** The loop of [printf] in its two states. *)
Fixpoint printf_loop (state : bool) (fmt : list Z) (ap : list arg) : option (list Z) :=
  match fmt with
  | [] => None
  | c :: fmt' =>
      if decide (c = 0) then Some []
      else if negb state then
        if decide (c = 37) then printf_loop true fmt' ap else cons c <$> printf_loop false fmt' ap
      else if decide (c = 100) then
        match ap with
        | AInt x :: ap' => o ← uprintint (i32 x) 10 true; app o <$> printf_loop false fmt' ap'
        | _ => None
        end
      else if decide (c = 120 ∨ c = 112) then
        match ap with
        | AInt x :: ap' => o ← uprintint (i32 x) 16 false; app o <$> printf_loop false fmt' ap'
        | _ => None
        end
      else if decide (c = 115) then
        match ap with
        | AStr s :: ap' => app (cstr (default (chars "(null)") s)) <$> printf_loop false fmt' ap'
        | _ => None
        end
      else if decide (c = 99) then
        match ap with
        | AInt x :: ap' => cons (u8 x) <$> printf_loop false fmt' ap'
        | _ => None
        end
      else if decide (c = 37) then cons c <$> printf_loop false fmt' ap
      else app [37; c] <$> printf_loop false fmt' ap
  end.

Definition printf (fmt : list Z) (ap : list arg) : option (list Z) := printf_loop false fmt ap.

(** ** Numbers and their digits *)

(** The value of digits, least significant first. *)
Fixpoint num (base : Z) (ds : list Z) : Z :=
  match ds with [] => 0 | d :: ds' => d + base * num base ds' end.

Lemma digit_loop_spec digits base room : ∀ x,
  2 ≤ base ≤ Z.of_nat (length digits) → 0 ≤ x < base ^ Z.of_nat room → (1 ≤ room)%nat →
  ∃ ds, digit_loop room digits base x = Some ((λ d, digits !!! Z.to_nat d) <$> ds) ∧
    num base ds = x ∧ Forall (λ d, 0 ≤ d < base) ds ∧ (1 ≤ length ds ≤ room)%nat.
Proof.
  induction room as [|k IH]; intros x Hb Hx Hr; simpl; [lia|].
  assert (0 ≤ x `mod` base < base) as Hm by (apply Z.mod_pos_bound; lia).
  destruct (lookup_lt_is_Some_2 digits (Z.to_nat (x `mod` base))) as [d Hd]; [lia|]. rewrite Hd. simpl.
  assert (digits !!! Z.to_nat (x `mod` base) = d) as Hd' by (by apply list_lookup_total_correct).
  case_decide as Hz.
  - exists [x `mod` base]. simpl. rewrite Hd'. split; [done|]. split; [|split; [by apply Forall_singleton|lia]].
    pose proof (Z.div_mod x base ltac:(lia)) as E. rewrite Hz in E. lia.
  - rewrite Nat2Z.inj_succ, Z.pow_succ_r in Hx by lia.
    destruct (IH (x / base) Hb) as (ds & -> & Hn & Hf & Hl).
    { split; [apply Z.div_pos; lia|]. apply Z.div_lt_upper_bound; lia. }
    { destruct k; [|lia]. destruct Hz. apply Z.div_small. simpl in Hx. lia. }
    exists (x `mod` base :: ds). simpl. rewrite Hd', Hn. split; [done|].
    split; [pose proof (Z.div_mod x base ltac:(lia)); lia|]. split; [by constructor|lia].
Qed.

(** A tighter room: [x] has at most [k] digits. *)
Lemma digit_loop_room digits base k room x ds :
  digit_loop k digits base x = Some ds → (k ≤ room)%nat → digit_loop room digits base x = Some ds.
Proof.
  revert room x ds. induction k as [|k IH]; intros room x ds E Hr; [done|]. destruct room as [|room]; [lia|].
  simpl in *. destruct (digits !! _) as [d|]; [|done]. simpl in *. case_decide; [done|].
  destruct (digit_loop k digits base (x / base)) as [ds'|] eqn:E'; [|done].
  rewrite (IH room _ ds'); [done|done|lia].
Qed.

Lemma i32_mod a : (i32 a) `mod` 2 ^ 32 = a `mod` 2 ^ 32.
Proof.
  unfold i32. unfold u32 at 1. case_match; [unfold u32; by rewrite Z.mod_mod by lia|].
  replace (u32 a - 2 ^ 32) with (u32 a + (-1) * 2 ^ 32) by lia. rewrite Z.mod_add by lia.
  unfold u32. by rewrite Z.mod_mod by lia.
Qed.

Lemma i32_congr a b : a `mod` 2 ^ 32 = b `mod` 2 ^ 32 → i32 a = i32 b.
Proof. intros H. unfold i32, u32. by rewrite H. Qed.

Lemma i32_step n d : i32 (i32 n * 10 + d) = i32 (n * 10 + d).
Proof.
  apply i32_congr. rewrite Zplus_mod, Zmult_mod, i32_mod, <- Zmult_mod, <- Zplus_mod. done.
Qed.

Lemma num_app base ds es : num base (ds ++ es) = num base ds + base ^ Z.of_nat (length ds) * num base es.
Proof.
  induction ds as [|d ds IH]; simpl; [lia|]. rewrite IH, Nat2Z.inj_succ, Z.pow_succ_r by lia. lia.
Qed.

(** [atoi] on decimal digits, most significant first. *)
Lemma atoi_digits_num ds : ∀ n,
  Forall (λ d, 0 ≤ d < 10) ds →
  atoi_digits (i32 n) (((λ d, 48 + d) <$> ds) ++ [0]) =
    Some (i32 (n * 10 ^ Z.of_nat (length ds) + num 10 (reverse ds))).
Proof.
  induction ds as [|d ds IH]; intros n Hf.
  { simpl. f_equal. f_equal. lia. }
  inversion Hf as [|? ? Hd Hf']; subst. cbn [fmap list_fmap app atoi_digits].
  assert (is_digit (48 + d) = true) as -> by (unfold is_digit; lia).
  replace (i32 n * 10 + (48 + d) - 48) with (i32 n * 10 + d) by lia. rewrite i32_step, IH by done.
  f_equal. f_equal. rewrite reverse_cons, num_app, length_reverse. simpl length. simpl num.
  rewrite Nat2Z.inj_succ, Z.pow_succ_r by lia. lia.
Qed.

Lemma decimal_digits digits x :
  length digits = 16%nat → (∀ d, 0 ≤ d < 10 → digits !!! Z.to_nat d = 48 + d) → is_u32 x →
  ∃ ds, digit_loop 16 digits 10 x = Some ((λ d, 48 + d) <$> ds) ∧ num 10 ds = x ∧
    Forall (λ d, 0 ≤ d < 10) ds ∧ (1 ≤ length ds ≤ 10)%nat.
Proof.
  intros Hl Hd Hx. unfold is_u32 in Hx.
  destruct (digit_loop_spec digits 10 10 x) as (ds & E & Hn & Hf & Hlen); [rewrite Hl; lia|lia|lia|].
  exists ds. split; [|done]. rewrite (digit_loop_room _ _ 10 _ _ _ E) by lia. f_equal.
  apply list_fmap_ext. intros i d Hi. apply Hd. by eapply (Forall_lookup_1 _ _ _ _ Hf).
Qed.

Lemma atoi_signed (neg : bool) ds :
  Forall (λ d, 0 ≤ d < 10) ds → (1 ≤ length ds)%nat →
  atoi ((if neg then [45] else []) ++ reverse ((λ d, 48 + d) <$> ds) ++ [0]) =
    Some (i32 ((if neg then -1 else 1) * num 10 ds)).
Proof.
  intros Hf Hl. rewrite <- fmap_reverse. apply Forall_reverse in Hf.
  assert (atoi_digits 0 (((λ d, 48 + d) <$> reverse ds) ++ [0]) = Some (i32 (num 10 ds))) as E.
  { change 0 with (i32 0) at 1. rewrite atoi_digits_num, reverse_involutive by done. f_equal. }
  assert (∀ a, i32 (-1 * i32 a) = i32 (-1 * a) ∧ i32 (1 * i32 a) = i32 (1 * a)) as Hs.
  { intros a. split; apply i32_congr; by rewrite Zmult_mod, i32_mod, <- Zmult_mod. }
  unfold atoi. destruct neg.
  - simpl app. cbn [skip_spaces]. rewrite decide_False by done. cbn [head mbind option_bind].
    rewrite decide_True by done. rewrite decide_True by auto. cbn [tail]. rewrite E. simpl. by rewrite (proj1 (Hs _)).
  - destruct (reverse ds) as [|d rs] eqn:Er.
    { apply (f_equal length) in Er. rewrite length_reverse in Er. simpl in Er. lia. }
    assert (0 ≤ d < 10) as Hd by (inversion Hf; subst; done).
    cbn [fmap list_fmap app] in *. cbn [skip_spaces]. rewrite decide_False by lia. cbn [head mbind option_bind].
    rewrite decide_False by lia. rewrite decide_False by lia. rewrite E. simpl. by rewrite (proj2 (Hs _)).
Qed.

Lemma print_atoi digits x :
  length digits = 16%nat → (∀ d, 0 ≤ d < 10 → digits !!! Z.to_nat d = 48 + d) → is_i32 x →
  ∃ buf out, digit_loop 16 digits 10 (if true && bool_decide (x < 0) then u32 (- x) else u32 x) = Some buf ∧
    emit (true && bool_decide (x < 0)) buf = Some out ∧ atoi (out ++ [0]) = Some x.
Proof.
  intros Hl Hd Hx. rewrite !andb_true_l. set (neg := bool_decide (x < 0)). set (m := if neg then u32 (- x) else u32 x).
  assert (m = Z.abs x ∧ (if neg then -1 else 1) * m = x) as [Em Es].
  { unfold m, neg, is_i32 in *. case_bool_decide; rewrite u32_small by (unfold is_u32; lia); lia. }
  destruct (decimal_digits digits m Hl Hd) as (ds & E & Hn & Hf & Hlen); [unfold is_u32, is_i32 in *; lia|].
  pose proof (atoi_signed neg ds Hf (proj1 Hlen)) as Ha. rewrite Hn, Es, i32_small in Ha by done.
  eexists _, ((if neg then [45] else []) ++ reverse ((λ d, 48 + d) <$> ds)). split; [exact E|].
  split; [|by rewrite <- app_assoc].
  unfold emit. destruct neg; [|done]. rewrite decide_True by (rewrite length_fmap; lia).
  by rewrite reverse_app.
Qed.

Lemma decimal_chars s d :
  s = "0123456789abcdef" ∨ s = "0123456789ABCDEF" → 0 ≤ d < 10 → chars s !!! Z.to_nat d = 48 + d.
Proof.
  intros Hs Hd. assert (d ∈ seqZ 0 10) as Hin by (apply elem_of_seqZ; lia).
  assert (Forall (λ d, chars s !!! Z.to_nat d = 48 + d) (seqZ 0 10)) as Hf
    by (destruct Hs as [->| ->]; vm_compute; repeat constructor).
  rewrite Forall_forall in Hf. by apply Hf.
Qed.

Lemma printint_some x : is_i32 x → ∃ out, printint x 10 true = Some out.
Proof.
  intros Hx. destruct (print_atoi (chars "0123456789abcdef") x eq_refl) as (buf & out & E1 & E2 & _); [|done|].
  { intros d. apply decimal_chars. by left. }
  exists out. unfold printint. rewrite E1. exact E2.
Qed.

(** [cprintf] on plain text and on [%d]. *)
Definition plain (c : Z) : bool := negb (bool_decide (c = 0)) && negb (bool_decide (c = 37)).

Lemma cprintf_plain cs fmt args :
  forallb plain cs = true → cprintf (cs ++ fmt) args = app cs <$> cprintf fmt args.
Proof.
  induction cs as [|c cs IH]; [intros _; change ([] ++ fmt) with fmt; by destruct (cprintf fmt args)|].
  cbn [forallb]. intros [Hc Hcs]%andb_true_iff. unfold plain in Hc.
  apply andb_true_iff in Hc as [H1%negb_true_iff%bool_decide_eq_false H2%negb_true_iff%bool_decide_eq_false].
  cbn [app cprintf]. rewrite decide_False, decide_True, IH by done. by destruct (cprintf fmt args).
Qed.

Lemma cprintf_d fmt x args :
  cprintf (37 :: 100 :: fmt) (AInt x :: args) = (o ← printint (i32 x) 10 true; app o <$> cprintf fmt args).
Proof.
  reflexivity.
Qed.

(** [%d] prints every [int] so that [atoi] reads the same number back, in
    the kernel's cprintf and in the user library's printf, and never writes
    outside the 16-byte buffer. *)
Theorem printint_atoi (x : Z) :
  is_i32 x →
  (∃ out, printint x 10 true = Some out ∧ atoi (out ++ [0]) = Some x) ∧
  (∃ out, uprintint x 10 true = Some out ∧ atoi (out ++ [0]) = Some x).
Proof.
  intros Hx. assert (∀ s, s = "0123456789abcdef" ∨ s = "0123456789ABCDEF" →
    ∀ d, 0 ≤ d < 10 → chars s !!! Z.to_nat d = 48 + d) as Hd by (intros; by apply decimal_chars).
  split.
  - destruct (print_atoi (chars "0123456789abcdef") x eq_refl (Hd _ (or_introl eq_refl)) Hx)
      as (buf & out & E1 & E2 & E3). exists out. split; [|done]. unfold printint. rewrite E1. exact E2.
  - destruct (print_atoi (chars "0123456789ABCDEF") x eq_refl (Hd _ (or_intror eq_refl)) Hx)
      as (buf & out & E1 & E2 & E3). exists out. split; [|done]. unfold uprintint. rewrite E1. exact E2.
Qed.

Lemma printint_atoi_witness :
  printint (-2147483648) 10 true = Some (chars "-2147483648") ∧
  ∃ out, printint (-2147483648) 10 true = Some out ∧ atoi (out ++ [0]) = Some (-2147483648).
Proof.
  split; [reflexivity|]. apply (printint_atoi (-2147483648)). unfold is_i32. lia.
Defined.
