(* ===== verification/ProcState.v ===== *)
(** * The process table's data (proc.h, proc.c, uproc.h)

    [struct proc], the ready/free/sleep/zombie/running/embryo list heads of
    [ptable.pLists], and the kernel state the routines of proc.c act on.  A
    [struct proc *] is an index into [ptable.proc], [None] the null pointer.
    What proc.c calls in other subsystems (allocator, page tables, files,
    inodes) is the interface [KernelEnv]. *)

From S2P Require Import Prelude Spinlock.

Local Open Scope Z_scope.

Inductive procstate := UNUSED | EMBRYO | SLEEPING | RUNNABLE | RUNNING | ZOMBIE.
#[export] Instance procstate_eq_dec : EqDecision procstate.
Proof. solve_decision. Defined.

(** The kernel addresses processes sleep on. *)
Inductive addr :=
  | Null
  | AddrProc (p : nat)          (* a struct proc: wait() *)
  | AddrTicks                   (* &ticks: sys_sleep() *)
  | AddrLog                     (* &log *)
  | AddrBuf (b : nat)           (* a struct buf *)
  | AddrInode (i : nat)         (* a struct inode *)
  | AddrNread (p : nat)         (* &p->nread of a pipe *)
  | AddrNwrite (p : nat)        (* &p->nwrite of a pipe *)
  | AddrInput.                  (* &input.r of the console *)
#[export] Instance addr_eq_dec : EqDecision addr.
Proof. solve_decision. Defined.

(** The trap frame words that the kernel's C code reads or writes. *)
Record trapframe := mkTrapframe {
  tf_eax : Z; tf_cs : Z; tf_ds : Z; tf_es : Z; tf_ss : Z;
  tf_eflags : Z; tf_esp : Z; tf_eip : Z; tf_trapno : Z; tf_err : Z
}.
Definition zero_trapframe : trapframe := mkTrapframe 0 0 0 0 0 0 0 0 0 0.
Definition set_tf_eax (v : Z) (t : trapframe) : trapframe :=
  mkTrapframe v (tf_cs t) (tf_ds t) (tf_es t) (tf_ss t)
    (tf_eflags t) (tf_esp t) (tf_eip t) (tf_trapno t) (tf_err t).

(** What [swtch] resumes when it loads a process's saved context: the first
    return through [forkret], or the return from [sched] in one of its
    callers, with that [sched]'s saved [intena]. *)
Inductive kcontext :=
  | CtxForkret
  | CtxYield (saved_intena : bool)
  | CtxSleep (lk : option lockid) (saved_intena : bool)
  | CtxWait (saved_intena : bool)
  | CtxExit.

Record proc := mkProc {
  sz : Z;  (* size of process memory (bytes) *)
  pgdir : option Z;  (* page table *)
  kstack : option Z;  (* bottom of the kernel stack *)
  state : procstate;
  pid : Z;
  parent : option nat;
  tf_addr : Z;  (* p->tf, the address *)
  tf : trapframe;  (* *p->tf *)
  context_addr : Z;  (* p->context, the address *)
  context : kcontext;  (* *p->context: where swtch resumes *)
  chan : addr;  (* if non-null, sleeping on chan *)
  killed : Z;
  ofile : list (option nat);  (* open files: indices into ftable *)
  cwd : option nat;  (* current directory: index into icache *)
  name : list Z;  (* char name[16] *)
  start_ticks : Z;
  uid : Z;
  gid : Z;
  cpu_ticks_total : Z;
  cpu_ticks_in : Z;
  next : option nat;  (* link of the state list *)
  budget : Z;
  prio : Z
}.

Definition set_sz (v : Z) (p : proc) : proc :=
  mkProc
    v (pgdir p) (kstack p) (state p) (pid p) (parent p) (tf_addr p) (tf p)
    (context_addr p) (context p) (chan p) (killed p) (ofile p) (cwd p) (name p)
    (start_ticks p) (uid p) (gid p) (cpu_ticks_total p) (cpu_ticks_in p) (next p)
    (budget p) (prio p).
Definition set_pgdir (v : option Z) (p : proc) : proc :=
  mkProc
    (sz p) v (kstack p) (state p) (pid p) (parent p) (tf_addr p) (tf p)
    (context_addr p) (context p) (chan p) (killed p) (ofile p) (cwd p) (name p)
    (start_ticks p) (uid p) (gid p) (cpu_ticks_total p) (cpu_ticks_in p) (next p)
    (budget p) (prio p).
Definition set_kstack (v : option Z) (p : proc) : proc :=
  mkProc
    (sz p) (pgdir p) v (state p) (pid p) (parent p) (tf_addr p) (tf p)
    (context_addr p) (context p) (chan p) (killed p) (ofile p) (cwd p) (name p)
    (start_ticks p) (uid p) (gid p) (cpu_ticks_total p) (cpu_ticks_in p) (next p)
    (budget p) (prio p).
Definition set_state (v : procstate) (p : proc) : proc :=
  mkProc
    (sz p) (pgdir p) (kstack p) v (pid p) (parent p) (tf_addr p) (tf p)
    (context_addr p) (context p) (chan p) (killed p) (ofile p) (cwd p) (name p)
    (start_ticks p) (uid p) (gid p) (cpu_ticks_total p) (cpu_ticks_in p) (next p)
    (budget p) (prio p).
Definition set_pid (v : Z) (p : proc) : proc :=
  mkProc
    (sz p) (pgdir p) (kstack p) (state p) v (parent p) (tf_addr p) (tf p)
    (context_addr p) (context p) (chan p) (killed p) (ofile p) (cwd p) (name p)
    (start_ticks p) (uid p) (gid p) (cpu_ticks_total p) (cpu_ticks_in p) (next p)
    (budget p) (prio p).
Definition set_parent (v : option nat) (p : proc) : proc :=
  mkProc
    (sz p) (pgdir p) (kstack p) (state p) (pid p) v (tf_addr p) (tf p)
    (context_addr p) (context p) (chan p) (killed p) (ofile p) (cwd p) (name p)
    (start_ticks p) (uid p) (gid p) (cpu_ticks_total p) (cpu_ticks_in p) (next p)
    (budget p) (prio p).
Definition set_tf_addr (v : Z) (p : proc) : proc :=
  mkProc
    (sz p) (pgdir p) (kstack p) (state p) (pid p) (parent p) v (tf p)
    (context_addr p) (context p) (chan p) (killed p) (ofile p) (cwd p) (name p)
    (start_ticks p) (uid p) (gid p) (cpu_ticks_total p) (cpu_ticks_in p) (next p)
    (budget p) (prio p).
Definition set_tf (v : trapframe) (p : proc) : proc :=
  mkProc
    (sz p) (pgdir p) (kstack p) (state p) (pid p) (parent p) (tf_addr p) v
    (context_addr p) (context p) (chan p) (killed p) (ofile p) (cwd p) (name p)
    (start_ticks p) (uid p) (gid p) (cpu_ticks_total p) (cpu_ticks_in p) (next p)
    (budget p) (prio p).
Definition set_context_addr (v : Z) (p : proc) : proc :=
  mkProc
    (sz p) (pgdir p) (kstack p) (state p) (pid p) (parent p) (tf_addr p) (tf p) v
    (context p) (chan p) (killed p) (ofile p) (cwd p) (name p) (start_ticks p)
    (uid p) (gid p) (cpu_ticks_total p) (cpu_ticks_in p) (next p) (budget p)
    (prio p).
Definition set_context (v : kcontext) (p : proc) : proc :=
  mkProc
    (sz p) (pgdir p) (kstack p) (state p) (pid p) (parent p) (tf_addr p) (tf p)
    (context_addr p) v (chan p) (killed p) (ofile p) (cwd p) (name p)
    (start_ticks p) (uid p) (gid p) (cpu_ticks_total p) (cpu_ticks_in p) (next p)
    (budget p) (prio p).
Definition set_chan (v : addr) (p : proc) : proc :=
  mkProc
    (sz p) (pgdir p) (kstack p) (state p) (pid p) (parent p) (tf_addr p) (tf p)
    (context_addr p) (context p) v (killed p) (ofile p) (cwd p) (name p)
    (start_ticks p) (uid p) (gid p) (cpu_ticks_total p) (cpu_ticks_in p) (next p)
    (budget p) (prio p).
Definition set_killed (v : Z) (p : proc) : proc :=
  mkProc
    (sz p) (pgdir p) (kstack p) (state p) (pid p) (parent p) (tf_addr p) (tf p)
    (context_addr p) (context p) (chan p) v (ofile p) (cwd p) (name p)
    (start_ticks p) (uid p) (gid p) (cpu_ticks_total p) (cpu_ticks_in p) (next p)
    (budget p) (prio p).
Definition set_ofile (v : list (option nat)) (p : proc) : proc :=
  mkProc
    (sz p) (pgdir p) (kstack p) (state p) (pid p) (parent p) (tf_addr p) (tf p)
    (context_addr p) (context p) (chan p) (killed p) v (cwd p) (name p)
    (start_ticks p) (uid p) (gid p) (cpu_ticks_total p) (cpu_ticks_in p) (next p)
    (budget p) (prio p).
Definition set_cwd (v : option nat) (p : proc) : proc :=
  mkProc
    (sz p) (pgdir p) (kstack p) (state p) (pid p) (parent p) (tf_addr p) (tf p)
    (context_addr p) (context p) (chan p) (killed p) (ofile p) v (name p)
    (start_ticks p) (uid p) (gid p) (cpu_ticks_total p) (cpu_ticks_in p) (next p)
    (budget p) (prio p).
Definition set_name (v : list Z) (p : proc) : proc :=
  mkProc
    (sz p) (pgdir p) (kstack p) (state p) (pid p) (parent p) (tf_addr p) (tf p)
    (context_addr p) (context p) (chan p) (killed p) (ofile p) (cwd p) v
    (start_ticks p) (uid p) (gid p) (cpu_ticks_total p) (cpu_ticks_in p) (next p)
    (budget p) (prio p).
Definition set_start_ticks (v : Z) (p : proc) : proc :=
  mkProc
    (sz p) (pgdir p) (kstack p) (state p) (pid p) (parent p) (tf_addr p) (tf p)
    (context_addr p) (context p) (chan p) (killed p) (ofile p) (cwd p) (name p) v
    (uid p) (gid p) (cpu_ticks_total p) (cpu_ticks_in p) (next p) (budget p)
    (prio p).
Definition set_uid (v : Z) (p : proc) : proc :=
  mkProc
    (sz p) (pgdir p) (kstack p) (state p) (pid p) (parent p) (tf_addr p) (tf p)
    (context_addr p) (context p) (chan p) (killed p) (ofile p) (cwd p) (name p)
    (start_ticks p) v (gid p) (cpu_ticks_total p) (cpu_ticks_in p) (next p)
    (budget p) (prio p).
Definition set_gid (v : Z) (p : proc) : proc :=
  mkProc
    (sz p) (pgdir p) (kstack p) (state p) (pid p) (parent p) (tf_addr p) (tf p)
    (context_addr p) (context p) (chan p) (killed p) (ofile p) (cwd p) (name p)
    (start_ticks p) (uid p) v (cpu_ticks_total p) (cpu_ticks_in p) (next p)
    (budget p) (prio p).
Definition set_cpu_ticks_total (v : Z) (p : proc) : proc :=
  mkProc
    (sz p) (pgdir p) (kstack p) (state p) (pid p) (parent p) (tf_addr p) (tf p)
    (context_addr p) (context p) (chan p) (killed p) (ofile p) (cwd p) (name p)
    (start_ticks p) (uid p) (gid p) v (cpu_ticks_in p) (next p) (budget p) (prio p).
Definition set_cpu_ticks_in (v : Z) (p : proc) : proc :=
  mkProc
    (sz p) (pgdir p) (kstack p) (state p) (pid p) (parent p) (tf_addr p) (tf p)
    (context_addr p) (context p) (chan p) (killed p) (ofile p) (cwd p) (name p)
    (start_ticks p) (uid p) (gid p) (cpu_ticks_total p) v (next p) (budget p)
    (prio p).
Definition set_next (v : option nat) (p : proc) : proc :=
  mkProc
    (sz p) (pgdir p) (kstack p) (state p) (pid p) (parent p) (tf_addr p) (tf p)
    (context_addr p) (context p) (chan p) (killed p) (ofile p) (cwd p) (name p)
    (start_ticks p) (uid p) (gid p) (cpu_ticks_total p) (cpu_ticks_in p) v
    (budget p) (prio p).
Definition set_budget (v : Z) (p : proc) : proc :=
  mkProc
    (sz p) (pgdir p) (kstack p) (state p) (pid p) (parent p) (tf_addr p) (tf p)
    (context_addr p) (context p) (chan p) (killed p) (ofile p) (cwd p) (name p)
    (start_ticks p) (uid p) (gid p) (cpu_ticks_total p) (cpu_ticks_in p) (next p) v
    (prio p).
Definition set_prio (v : Z) (p : proc) : proc :=
  mkProc
    (sz p) (pgdir p) (kstack p) (state p) (pid p) (parent p) (tf_addr p) (tf p)
    (context_addr p) (context p) (chan p) (killed p) (ofile p) (cwd p) (name p)
    (start_ticks p) (uid p) (gid p) (cpu_ticks_total p) (cpu_ticks_in p) (next p)
    (budget p) v.

(** [ptable]'s statically zeroed entries. *)
Definition zero_proc : proc :=
  mkProc 0 None None UNUSED 0 None 0 zero_trapframe 0 CtxForkret Null 0
    (replicate NOFILE None) None (replicate 16 0) 0 0 0 0 0 None 0 0.

(** The calls proc.c makes into the rest of the kernel.  [kalloc] and [kfree]
    are kalloc.c; the page-table routines are vm.c, which is not part of the
    sources at hand; files and inodes are file.c, fs.c and log.c.  A call that
    wakes sleepers reports the channels it passes to [wakeup].  Pages and page
    directories are named by their kernel address. *)
Class KernelEnv := {
  env : Type;
  sizeof_trapframe : Z;
  kalloc : M env (option Z);
  kfree : Z → M env unit;
  setupkvm : M env (option Z);
  inituvm : Z → M env unit;
  copyuvm : option Z → Z → M env (option Z);
  allocuvm : option Z → Z → Z → M env Z;
  deallocuvm : option Z → Z → Z → M env Z;
  freevm : option Z → M env unit;
  filedup : nat → M env unit;
  fileclose : nat → M env (list addr);
  idup : nat → M env unit;
  iput : nat → M env (list addr);
  begin_op : M env unit;
  end_op : M env (list addr);
  namei_root : M env (option nat);
  iinit : M env unit;
  initlog : M env unit
}.

Section ProcState.
Context `{KernelEnv}.

Record kst := mkKst {
  procs : list proc;  (* ptable.proc[NPROC] *)
  ready : list (option nat);  (* ptable.pLists.ready[MAX+1] *)
  free : option nat;  (* ptable.pLists.free *)
  sleep_head : option nat;  (* ptable.pLists.sleep *)
  zombie : option nat;  (* ptable.pLists.zombie *)
  running : option nat;  (* ptable.pLists.running *)
  embryo : option nat;  (* ptable.pLists.embryo *)
  PromoteAtTime : Z;  (* ptable.PromoteAtTime *)
  initproc : option nat;
  nextpid : Z;
  first : bool;  (* static int first of forkret *)
  ticks : Z;  (* trap.c *)
  khw : hw;  (* CPUs and locks *)
  kenv : env  (* the rest of the kernel *)
}.

Definition set_procs (v : list proc) (s : kst) : kst :=
  mkKst
    v (ready s) (free s) (sleep_head s) (zombie s) (running s) (embryo s)
    (PromoteAtTime s) (initproc s) (nextpid s) (first s) (ticks s) (khw s) (kenv s).
Definition set_ready (v : list (option nat)) (s : kst) : kst :=
  mkKst
    (procs s) v (free s) (sleep_head s) (zombie s) (running s) (embryo s)
    (PromoteAtTime s) (initproc s) (nextpid s) (first s) (ticks s) (khw s) (kenv s).
Definition set_free (v : option nat) (s : kst) : kst :=
  mkKst
    (procs s) (ready s) v (sleep_head s) (zombie s) (running s) (embryo s)
    (PromoteAtTime s) (initproc s) (nextpid s) (first s) (ticks s) (khw s) (kenv s).
Definition set_sleep_head (v : option nat) (s : kst) : kst :=
  mkKst
    (procs s) (ready s) (free s) v (zombie s) (running s) (embryo s)
    (PromoteAtTime s) (initproc s) (nextpid s) (first s) (ticks s) (khw s) (kenv s).
Definition set_zombie (v : option nat) (s : kst) : kst :=
  mkKst
    (procs s) (ready s) (free s) (sleep_head s) v (running s) (embryo s)
    (PromoteAtTime s) (initproc s) (nextpid s) (first s) (ticks s) (khw s) (kenv s).
Definition set_running (v : option nat) (s : kst) : kst :=
  mkKst
    (procs s) (ready s) (free s) (sleep_head s) (zombie s) v (embryo s)
    (PromoteAtTime s) (initproc s) (nextpid s) (first s) (ticks s) (khw s) (kenv s).
Definition set_embryo (v : option nat) (s : kst) : kst :=
  mkKst
    (procs s) (ready s) (free s) (sleep_head s) (zombie s) (running s) v
    (PromoteAtTime s) (initproc s) (nextpid s) (first s) (ticks s) (khw s) (kenv s).
Definition set_PromoteAtTime (v : Z) (s : kst) : kst :=
  mkKst
    (procs s) (ready s) (free s) (sleep_head s) (zombie s) (running s) (embryo s) v
    (initproc s) (nextpid s) (first s) (ticks s) (khw s) (kenv s).
Definition set_initproc (v : option nat) (s : kst) : kst :=
  mkKst
    (procs s) (ready s) (free s) (sleep_head s) (zombie s) (running s) (embryo s)
    (PromoteAtTime s) v (nextpid s) (first s) (ticks s) (khw s) (kenv s).
Definition set_nextpid (v : Z) (s : kst) : kst :=
  mkKst
    (procs s) (ready s) (free s) (sleep_head s) (zombie s) (running s) (embryo s)
    (PromoteAtTime s) (initproc s) v (first s) (ticks s) (khw s) (kenv s).
Definition set_first (v : bool) (s : kst) : kst :=
  mkKst
    (procs s) (ready s) (free s) (sleep_head s) (zombie s) (running s) (embryo s)
    (PromoteAtTime s) (initproc s) (nextpid s) v (ticks s) (khw s) (kenv s).
Definition set_ticks (v : Z) (s : kst) : kst :=
  mkKst
    (procs s) (ready s) (free s) (sleep_head s) (zombie s) (running s) (embryo s)
    (PromoteAtTime s) (initproc s) (nextpid s) (first s) v (khw s) (kenv s).
Definition set_khw (v : hw) (s : kst) : kst :=
  mkKst
    (procs s) (ready s) (free s) (sleep_head s) (zombie s) (running s) (embryo s)
    (PromoteAtTime s) (initproc s) (nextpid s) (first s) (ticks s) v (kenv s).
Definition set_kenv (v : env) (s : kst) : kst :=
  mkKst
    (procs s) (ready s) (free s) (sleep_head s) (zombie s) (running s) (embryo s)
    (PromoteAtTime s) (initproc s) (nextpid s) (first s) (ticks s) (khw s) v.

Definition lift_hw {A} (m : M hw A) : M kst A := zoom khw set_khw m.
Definition lift_env {A} (m : M env A) : M kst A := zoom kenv set_kenv m.

(** *p for a process pointer, and a store through it. *)
Definition getp (p : nat) : M kst proc := lookupM (λ s, procs s !! p).
Definition setp (p : nat) (f : proc → proc) : M kst unit :=
  getp p;; modify (λ s, set_procs (alter f p (procs s)) s).

(** A pointer that the code dereferences without a null check. *)
Definition deref (p : option nat) : M kst nat := lookupM (λ _, p).

(** [proc], the current process of this CPU. *)
Definition proc_of (s : kst) : option nat := cpu_of (khw s) ≫= cpu_proc.
Definition myproc : M kst nat := lookupM proc_of.

End ProcState.
