(* ===== verification/ProcList.v ===== *)
(** * The state lists of ptable (proc.c, lines 12-100)

    [addhead], [addtail], [remove] and [assert] on the singly linked lists
    threaded through [proc.next], and what they mean: [Rep s L] relates the
    heads and links of a kernel state to one Rocq list per state list, and
    the four routines implement cons, snoc, deletion and a state check. *)

From S2P Require Import Prelude Spinlock ProcState.

Local Open Scope Z_scope.

(** [struct StateLists]: the list heads whose addresses the code passes. *)
Inductive listid := Ready (i : Z) | Free | Sleep | Zombie | Running | Embryo.
#[export] Instance listid_eq_dec : EqDecision listid.
Proof. solve_decision. Defined.

Section ProcList.
Context `{KernelEnv}.

(** [ready[i]] exists for 0 <= i <= MAX. *)
Definition valid_list (id : listid) : Prop :=
  match id with Ready i => 0 ≤ i ≤ Z.of_nat MAX | _ => True end.

Definition head_at (s : kst) (id : listid) : option (option nat) :=
  match id with
  | Ready i => if decide (0 ≤ i) then ready s !! Z.to_nat i else None
  | Free => Some (free s)
  | Sleep => Some (sleep_head s)
  | Zombie => Some (zombie s)
  | Running => Some (running s)
  | Embryo => Some (embryo s)
  end.

Definition put_head (id : listid) (h : option nat) (s : kst) : kst :=
  match id with
  | Ready i => set_ready (<[Z.to_nat i := h]> (ready s)) s
  | Free => set_free h s
  | Sleep => set_sleep_head h s
  | Zombie => set_zombie h s
  | Running => set_running h s
  | Embryo => set_embryo h s
  end.

(** A load of [*head] and a store to it. *)
Definition get_head (id : listid) : M kst (option nat) := lookupM (λ s, head_at s id).
Definition set_head (id : listid) (h : option nat) : M kst unit :=
  get_head id;; modify (put_head id h).

Definition addhead (head : listid) (toadd : nat) : M kst unit :=
  h ← get_head head;
  setp toadd (set_next h);;
  set_head head (Some toadd).

Fixpoint addtail_loop (fuel : nat) (current : nat) : M kst nat :=
  c ← getp current;
  match next c with
  | None => mret current
  | Some n => match fuel with O => diverge | S f => addtail_loop f n end
  end.

Definition addtail (head : listid) (toadd : nat) : M kst unit :=
  h ← get_head head;
  match h with
  | None => set_head head (Some toadd);; setp toadd (set_next None)
  | Some first =>
      current ← addtail_loop NPROC first;
      setp current (set_next (Some toadd));;
      c ← getp current;
      n ← deref (next c);
      setp n (set_next None)
  end.

Fixpoint remove_loop (fuel : nat) (previous current : option nat) (remove : nat) :
    M kst (option nat * option nat) :=
  match current with
  | None => mret (previous, None)
  | Some c =>
      if decide (c = remove) then mret (previous, Some c) else
      match fuel with
      | O => diverge
      | S f => x ← getp c; remove_loop f (Some c) (next x) remove
      end
  end.

Definition remove (head : listid) (remove : nat) : M kst Z :=
  h ← get_head head;
  match h with
  | None => mret (-1)
  | Some first =>
      if decide (first = remove) then
        x ← getp first;
        set_head head (next x);;
        setp first (set_next None);;
        mret 0
      else
        pc ← remove_loop NPROC None (Some first) remove;
        match pc.2 with
        | None => mret (-1)
        | Some c =>
            previous ← deref pc.1;
            x ← getp c;
            setp previous (set_next (next x));;
            setp c (set_next None);;
            mret 0
        end
  end.

Definition assert (p : nat) (st : procstate) : M kst unit :=
  x ← getp p;
  if decide (state x = st) then mret tt else panic "Error, invalid state removal".

(** ** What the links mean *)

Definition nxt (s : kst) (p : nat) : option nat := procs s !! p ≫= next.

(** Following [nx] from [h] visits exactly [l]. *)
Fixpoint lrep (nx : nat → option nat) (h : option nat) (l : list nat) : Prop :=
  match l with
  | [] => h = None
  | p :: l' => h = Some p ∧ lrep nx (nx p) l'
  end.

Definition head_of (s : kst) (id : listid) : option nat := default None (head_at s id).

Record Rep (s : kst) (L : listid → list nat) : Prop := {
  rep_list id : lrep (nxt s) (head_of s id) (L id);
  rep_nodup id : NoDup (L id);
  rep_disj id id' p : p ∈ L id → p ∈ L id' → id = id';
  rep_range id p : p ∈ L id → (p < NPROC)%nat;
  rep_len : length (procs s) = NPROC;
  rep_ready : length (ready s) = S MAX
}.

(** A state with its links and list heads erased: what list surgery keeps. *)
Definition core (s : kst) : kst :=
  mkKst (set_next None <$> procs s) [] None None None None None
    (PromoteAtTime s) (initproc s) (nextpid s) (first s) (ticks s) (khw s) (kenv s).

Lemma core_lookup s s' p x :
  core s' = core s → procs s !! p = Some x →
  ∃ x', procs s' !! p = Some x' ∧ set_next None x' = set_next None x.
Proof.
  intros [=Hp] Hx. assert ((set_next None <$> procs s') !! p = Some (set_next None x)) as E.
  { by rewrite Hp, list_lookup_fmap, Hx. }
  rewrite list_lookup_fmap in E. destruct (procs s' !! p) as [x'|]; [|done].
  exists x'. split; [done|]. by apply (inj Some).
Qed.

Lemma lrep_ext nx nx' h l :
  (∀ p, p ∈ l → nx' p = nx p) → lrep nx h l → lrep nx' h l.
Proof.
  revert h. induction l as [|p l IH]; intros h Hext; [done|]. simpl. intros [-> Hl].
  rewrite Hext by set_solver. split; [done|]. apply IH; [set_solver|done].
Qed.

Lemma lrep_app nx h l1 p l2 :
  lrep nx h (l1 ++ p :: l2) →
  lrep nx (nx p) l2 ∧ (l1 = [] → h = Some p) ∧
  (∀ l0 q, l1 = l0 ++ [q] → nx q = Some p).
Proof.
  revert h. induction l1 as [|a l1 IH]; intros h; simpl.
  - intros [-> Hl]. split; [done|]. split; [done|]. by intros [|? ?] ?.
  - intros [-> Hl]. destruct (IH _ Hl) as (H1 & H2 & H3). split; [done|]. split; [done|].
    intros [|b l0] q Heq; simplify_eq/=; eauto.
Qed.

(** ** Loads and stores *)

Lemma wp_getp p s x (Q : proc → kst → Prop) :
  procs s !! p = Some x → Q x s → wp (getp p) s Q.
Proof. apply (wp_lookupM (λ s, procs s !! p)). Qed.

Lemma wp_setp p f s x (Q : unit → kst → Prop) :
  procs s !! p = Some x → Q tt (set_procs (<[p := f x]> (procs s)) s) →
  wp (setp p f) s Q.
Proof.
  intros Hx HQ. unfold setp. apply wp_bind, (wp_getp _ _ x); [done|]. apply wp_modify.
  replace (alter f p (procs s)) with (<[p := f x]> (procs s)); [done|].
  apply list_eq. intros j. destruct (decide (p = j)) as [<-|].
  - rewrite list_lookup_alter_eq, Hx, list_lookup_insert_eq; [done|]. by eapply lookup_lt_Some.
  - by rewrite list_lookup_alter_ne, list_lookup_insert_ne by done.
Qed.

Lemma wp_deref p s q (Q : nat → kst → Prop) : p = Some q → Q q s → wp (deref p) s Q.
Proof. apply (wp_lookupM (λ _, p)). Qed.

Lemma head_at_valid s id :
  valid_list id → length (ready s) = S MAX → head_at s id = Some (head_of s id).
Proof.
  intros Hv Hr. unfold head_of. destruct id as [i| | | | |]; try done. simpl in *.
  rewrite decide_True by lia.
  destruct (lookup_lt_is_Some_2 (ready s) (Z.to_nat i)) as [h ->]; [lia|done].
Qed.

Lemma wp_get_head id s (Q : option nat → kst → Prop) :
  valid_list id → length (ready s) = S MAX → Q (head_of s id) s → wp (get_head id) s Q.
Proof. intros Hv Hr HQ. eapply (wp_lookupM (λ s, head_at s id)); [by apply head_at_valid|done]. Qed.

Lemma wp_set_head id h s (Q : unit → kst → Prop) :
  valid_list id → length (ready s) = S MAX → Q tt (put_head id h s) → wp (set_head id h) s Q.
Proof. intros Hv Hr HQ. unfold set_head. wp_steps. by apply wp_get_head. Qed.

Lemma head_of_put id h s id' :
  valid_list id → length (ready s) = S MAX →
  head_of (put_head id h s) id' = if decide (id = id') then h else head_of s id'.
Proof.
  intros Hv Hr. unfold head_of. destruct id as [i| | | | |]; destruct id' as [j| | | | |];
    try (case_decide; congruence || done). simpl in *.
  destruct (decide (0 ≤ j)) as [Hj|Hj]; last first.
  { rewrite decide_False; [done|]. intros [= ->]. lia. }
  destruct (decide (i = j)) as [->|Hne].
  - rewrite decide_True by done. rewrite list_lookup_insert_eq by lia. done.
  - rewrite list_lookup_insert_ne by lia. by rewrite decide_False by congruence.
Qed.

Lemma procs_put_head id h s : procs (put_head id h s) = procs s.
Proof. by destruct id. Qed.
Lemma core_put_head id h s : core (put_head id h s) = core s.
Proof. by destruct id. Qed.
Lemma length_ready_put_head id h s : length (ready (put_head id h s)) = length (ready s).
Proof. destruct id; try done. simpl. apply length_insert. Qed.

Lemma nxt_insert s p x q :
  (p < length (procs s))%nat →
  nxt (set_procs (<[p := x]> (procs s)) s) q = if decide (p = q) then next x else nxt s q.
Proof.
  intros Hp. unfold nxt. simpl. case_decide as Hpq; subst.
  - by rewrite list_lookup_insert_eq.
  - by rewrite list_lookup_insert_ne.
Qed.

Lemma core_set_next s p x n :
  procs s !! p = Some x →
  core (set_procs (<[p := set_next n x]> (procs s)) s) = core s.
Proof.
  intros Hx. unfold core. simpl. f_equal. rewrite list_fmap_insert.
  apply list_insert_id. by rewrite list_lookup_fmap, Hx.
Qed.

Lemma rep_lookup s L p : Rep s L → (p < NPROC)%nat → is_Some (procs s !! p).
Proof. intros HR Hp. apply lookup_lt_is_Some_2. by rewrite (rep_len _ _ HR). Qed.

Lemma core_length s s' : core s' = core s → length (procs s') = length (procs s).
Proof. intros [=Hp]. apply (f_equal length) in Hp. by rewrite !length_fmap in Hp. Qed.

(** List surgery on one list: the others keep their heads and links. *)
Lemma Rep_insert s s' L id l :
  Rep s L → core s' = core s → length (ready s') = S MAX →
  NoDup l → (∀ p, p ∈ l → (p < NPROC)%nat ∧ ∀ id', id' ≠ id → p ∉ L id') →
  lrep (nxt s') (head_of s' id) l →
  (∀ id', id' ≠ id → head_of s' id' = head_of s id' ∧ ∀ p, p ∈ L id' → nxt s' p = nxt s p) →
  Rep s' (<[id := l]> L).
Proof.
  intros [R1 R2 R3 R4 R5 R6] Hcore Hready Hnd Hl Hrep Hother. split.
  - intros id'. rewrite fn_insert_dec. case_decide as Hid; [by subst|].
    destruct (Hother id') as [-> Hn]; [done|]. by apply (lrep_ext (nxt s)).
  - intros id'. rewrite fn_insert_dec. by case_decide.
  - intros id1 id2 p. rewrite !fn_insert_dec. repeat case_decide; subst; try done.
    + intros Hp Hp2. destruct (Hl p Hp) as [_ Hp']. by destruct (Hp' id2).
    + intros Hp Hp2. destruct (Hl p Hp2) as [_ Hp']. by destruct (Hp' id1).
    + apply R3.
  - intros id' p. rewrite fn_insert_dec. case_decide; [apply Hl|apply R4].
  - by rewrite (core_length _ _ Hcore).
  - done.
Qed.

Definition off_lists (L : listid → list nat) (p : nat) : Prop := ∀ id, p ∉ L id.

(** [addhead] is cons. *)
Lemma addhead_spec s L id p :
  Rep s L → valid_list id → off_lists L p → (p < NPROC)%nat →
  wp (addhead id p) s (λ _ s', Rep s' (<[id := p :: L id]> L) ∧ core s' = core s).
Proof.
  intros HR Hv Hoff Hp. destruct (rep_lookup _ _ _ HR Hp) as [x Hx].
  pose proof (rep_ready _ _ HR) as Hrd. unfold addhead. wp_steps.
  apply wp_get_head; [done..|]. wp_steps. eapply wp_setp; [done|].
  apply wp_set_head; [done|done|].
  set (s1 := set_procs _ s).
  assert (core (put_head id (Some p) s1) = core s) as Hcore.
  { rewrite core_put_head. by apply core_set_next. }
  split; [|done].
  assert (∀ q, nxt (put_head id (Some p) s1) q =
               if decide (p = q) then head_of s id else nxt s q) as Hn.
  { intros q. unfold nxt at 1. rewrite procs_put_head. fold (nxt s1 q). unfold s1.
    by rewrite nxt_insert by (by eapply lookup_lt_Some). }
  apply (Rep_insert s); [done|done|by rewrite length_ready_put_head|..].
  - constructor; [apply Hoff|apply (rep_nodup _ _ HR)].
  - intros q [->|Hq]%elem_of_cons; [split; [done|]; intros; apply Hoff|].
    split; [by eapply rep_range|]. intros id' Hne Hq'. by apply Hne, (rep_disj _ _ HR id' id q).
  - rewrite head_of_put, decide_True by done. split; [done|]. rewrite Hn, decide_True by done.
    eapply lrep_ext; [|apply (rep_list _ _ HR)]. intros q Hq. rewrite Hn, decide_False; [done|].
    intros ->. by apply (Hoff id).
  - intros id' Hne. rewrite head_of_put, decide_False by done. split; [done|].
    intros q Hq. rewrite Hn, decide_False; [done|]. intros ->. by apply (Hoff id').
Qed.

Lemma rep_length s L id : Rep s L → (length (L id) ≤ NPROC)%nat.
Proof.
  intros HR. apply NoDup_bounded_length; [apply (rep_nodup _ _ HR)|]. intros p. apply (rep_range _ _ HR).
Qed.

Lemma addtail_loop_spec fuel c s l q :
  lrep (nxt s) (Some c) (l ++ [q]) → (∀ p, p ∈ l ++ [q] → is_Some (procs s !! p)) →
  (length l ≤ fuel)%nat → addtail_loop fuel c s = Ret q s.
Proof.
  revert fuel c. induction l as [|a l IH]; intros fuel c Hl Hin Hf.
  - simpl in Hl. destruct Hl as [[= ->] Hq]. destruct (Hin q) as [x Hx]; [set_solver|].
    unfold nxt in Hq. rewrite Hx in Hq. simpl in Hq. destruct fuel; simpl;
      unfold mbind, M_bind, getp, lookupM; by rewrite Hx, Hq.
  - simpl in Hl. destruct Hl as [[= <-] Hl]. destruct (Hin c) as [x Hx]; [set_solver|].
    simpl in Hf. destruct fuel as [|fuel]; [lia|]. simpl. unfold mbind, M_bind, getp, lookupM.
    unfold nxt in Hl at 2. rewrite Hx in *. simpl in Hl.
    destruct (next x) as [n|]; [|by destruct l, Hl]. apply IH; [done|set_solver|lia].
Qed.

Lemma lrep_snoc nx nx' h l q p :
  lrep nx h (l ++ [q]) → p ∉ l ++ [q] → NoDup (l ++ [q]) →
  (∀ r, nx' r = if decide (r = p) then None else if decide (r = q) then Some p else nx r) →
  lrep nx' h ((l ++ [q]) ++ [p]).
Proof.
  revert h. induction l as [|a l IH]; intros h; simpl.
  - intros [-> Hq] Hp _ Hnx. rewrite !Hnx. repeat case_decide; set_solver.
  - intros [-> Hl] Hp [Ha Hnd]%NoDup_cons Hnx. split; [done|].
    rewrite Hnx, decide_False, decide_False by set_solver. apply IH; [done|set_solver|done|done].
Qed.

Lemma addtail_empty s L id p :
  Rep s L → valid_list id → off_lists L p → (p < NPROC)%nat → L id = [] →
  wp (addtail id p) s (λ _ s', Rep s' (<[id := [p]]> L) ∧ core s' = core s).
Proof.
  intros HR Hv Hoff Hp HL. destruct (rep_lookup _ _ _ HR Hp) as [x Hx].
  pose proof (rep_ready _ _ HR) as Hrd. pose proof (rep_list _ _ HR id) as Hl.
  rewrite HL in Hl. simpl in Hl. unfold addtail. wp_steps.
  apply wp_get_head; [done..|]. rewrite Hl. wp_steps. apply wp_set_head; [done..|].
  eapply wp_setp; [by rewrite procs_put_head|]. set (s1 := put_head id (Some p) s).
  set (s2 := set_procs _ s1).
  assert (core s2 = core s) as Hcore.
  { unfold s2. rewrite core_set_next by (unfold s1; by rewrite procs_put_head). apply core_put_head. }
  assert (∀ q, nxt s2 q = if decide (p = q) then None else nxt s q) as Hn.
  { intros q. unfold s2. rewrite nxt_insert by (unfold s1; rewrite procs_put_head; by eapply lookup_lt_Some).
    unfold nxt, s1. by rewrite procs_put_head. }
  assert (∀ id', head_of s2 id' = if decide (id = id') then Some p else head_of s id') as Hh.
  { intros id'. rewrite <- head_of_put by done. by destruct id'. }
  split; [|done].
  apply (Rep_insert s); [done|done|simpl; unfold s1; by rewrite length_ready_put_head|..].
  - apply NoDup_singleton.
  - intros q ->%list_elem_of_singleton. split; [done|]. intros; apply Hoff.
  - rewrite Hh, decide_True by done. split; [done|]. by rewrite Hn, decide_True.
  - intros id' Hne. rewrite Hh, decide_False by done. split; [done|].
    intros q Hq. rewrite Hn, decide_False; [done|]. intros ->. by apply (Hoff id').
Qed.

(** The state after linking [p] behind the last element [q]. *)
Lemma Rep_snoc s s' L id l q p :
  Rep s L → off_lists L p → (p < NPROC)%nat → L id = l ++ [q] →
  core s' = core s → length (ready s') = S MAX → (∀ id', head_of s' id' = head_of s id') →
  (∀ r, nxt s' r = if decide (r = p) then None else if decide (r = q) then Some p else nxt s r) →
  Rep s' (<[id := L id ++ [p]]> L).
Proof.
  intros HR Hoff Hp Eq Hcore Hrd Hh Hn.
  apply (Rep_insert s); [done|done|done|..].
  - apply NoDup_app. split; [apply (rep_nodup _ _ HR)|]. split; [|apply NoDup_singleton].
    intros r Hr ->%list_elem_of_singleton. by apply (Hoff id).
  - intros r. rewrite elem_of_app, list_elem_of_singleton. intros [Hr| ->].
    + split; [by eapply rep_range|]. intros id' Hne Hr'. by apply Hne, (rep_disj _ _ HR id' id r).
    + split; [done|]. intros; apply Hoff.
  - rewrite Hh, Eq. eapply lrep_snoc; [| | |done]; rewrite <- Eq.
    + apply (rep_list _ _ HR).
    + apply Hoff.
    + apply (rep_nodup _ _ HR).
  - intros id' Hne. split; [done|]. intros r Hr. rewrite Hn, decide_False, decide_False; [done|..].
    + intros ->. apply Hne, (rep_disj _ _ HR id' id q); [done|]. rewrite Eq. set_solver.
    + intros ->. by apply (Hoff id').
Qed.

Lemma addtail_nonempty s L id p l q :
  Rep s L → valid_list id → off_lists L p → (p < NPROC)%nat → L id = l ++ [q] →
  wp (addtail id p) s (λ _ s', Rep s' (<[id := L id ++ [p]]> L) ∧ core s' = core s).
Proof.
  intros HR Hv Hoff Hp Eq. destruct (rep_lookup _ _ _ HR Hp) as [x Hx].
  pose proof (rep_ready _ _ HR) as Hrd. pose proof (rep_list _ _ HR id) as Hl.
  pose proof (rep_length _ _ id HR) as Hlen. rewrite Eq in Hl, Hlen.
  assert (q ∈ L id) as Hq by (rewrite Eq; set_solver).
  destruct (rep_lookup _ _ q HR) as [y Hy]; [by eapply rep_range|].
  assert (q ≠ p) as Hqp by (intros ->; by apply (Hoff id)).
  unfold addtail. wp_steps. apply wp_get_head; [done..|].
  destruct (head_of s id) as [c|] eqn:Hc; [|by destruct l, Hl]. wp_steps.
  eapply wp_Ret; [eapply (addtail_loop_spec _ _ _ l q); [done| |]|].
  { intros r Hr. apply (rep_lookup _ _ r HR). eapply (rep_range _ _ HR id). by rewrite Eq. }
  { rewrite length_app in Hlen. simpl in Hlen. lia. }
  wp_steps. eapply wp_setp; [done|]. wp_steps.
  eapply wp_getp; [simpl; apply list_lookup_insert_eq; by eapply lookup_lt_Some|].
  wp_steps. eapply wp_deref; [done|].
  eapply wp_setp; [simpl; by rewrite list_lookup_insert_ne|].
  set (s1 := set_procs (<[q:=_]> _) s). set (s2 := set_procs _ s1).
  assert (procs s1 !! p = Some x) as Hx1 by (simpl; by rewrite list_lookup_insert_ne).
  assert (core s2 = core s) as Hcore.
  { transitivity (core s1); by apply core_set_next. }
  split; [|done]. apply (Rep_snoc s s2 L id l q p); [done..|].
  intros r. unfold s2. rewrite nxt_insert by (by eapply lookup_lt_Some).
  unfold s1. rewrite nxt_insert by (by eapply lookup_lt_Some).
  repeat case_decide; congruence || done.
Qed.

(** [addtail] is snoc. *)
Lemma addtail_spec s L id p :
  Rep s L → valid_list id → off_lists L p → (p < NPROC)%nat →
  wp (addtail id p) s (λ _ s', Rep s' (<[id := L id ++ [p]]> L) ∧ core s' = core s).
Proof.
  intros HR Hv Hoff Hp. destruct (decide (L id = [])) as [HL|HL].
  - eapply wp_mono; [by apply addtail_empty|]. intros _ s' [? ?]. by rewrite HL.
  - destruct (exists_last HL) as (l & q & Eq). by eapply addtail_nonempty.
Qed.

Lemma remove_loop_found fuel prev c s l1 p l2 :
  lrep (nxt s) c (l1 ++ p :: l2) → p ∉ l1 → (∀ r, r ∈ l1 → is_Some (procs s !! r)) →
  (length l1 ≤ fuel)%nat →
  remove_loop fuel prev c p s =
    Ret (match l1 with [] => prev | _ => last l1 end, Some p) s.
Proof.
  revert fuel prev c. induction l1 as [|a l1 IH]; intros fuel prev c Hl Hp Hin Hf; simpl in Hl.
  - destruct Hl as [-> _]. destruct fuel; simpl; by rewrite decide_True.
  - destruct Hl as [-> Hl]. simpl in Hf. destruct fuel as [|fuel]; [lia|]. simpl.
    rewrite decide_False by set_solver. destruct (Hin a) as [x Hx]; [set_solver|].
    unfold mbind, M_bind, getp, lookupM. rewrite Hx.
    unfold nxt in Hl at 2. rewrite Hx in Hl. simpl in Hl.
    rewrite IH; [|done|set_solver|set_solver|lia]. by destruct l1.
Qed.

Lemma remove_loop_absent fuel prev c s l p :
  lrep (nxt s) c l → p ∉ l → (∀ r, r ∈ l → is_Some (procs s !! r)) → (length l ≤ fuel)%nat →
  ∃ pv, remove_loop fuel prev c p s = Ret (pv, None) s.
Proof.
  revert fuel prev c. induction l as [|a l IH]; intros fuel prev c Hl Hp Hin Hf; simpl in Hl.
  - subst c. destruct fuel; simpl; eauto.
  - destruct Hl as [-> Hl]. simpl in Hf. destruct fuel as [|fuel]; [lia|]. simpl.
    rewrite decide_False by set_solver. destruct (Hin a) as [x Hx]; [set_solver|].
    unfold mbind, M_bind, getp, lookupM. rewrite Hx.
    unfold nxt in Hl at 2. rewrite Hx in Hl. simpl in Hl.
    apply IH; [done|set_solver|set_solver|lia].
Qed.

Lemma lrep_delete nx nx' h l1 q p l2 :
  lrep nx h (l1 ++ q :: p :: l2) → NoDup (l1 ++ q :: p :: l2) →
  (∀ r, nx' r = if decide (r = p) then None else if decide (r = q) then nx p else nx r) →
  lrep nx' h (l1 ++ q :: l2).
Proof.
  revert h. induction l1 as [|a l1 IH]; intros h; simpl.
  - intros (-> & Hq & Hl) [Hq' [Hp _]%NoDup_cons]%NoDup_cons Hnx. split; [done|].
    rewrite Hnx, decide_False, decide_True by set_solver.
    eapply lrep_ext; [|done]. intros r Hr. rewrite Hnx, !decide_False; set_solver.
  - intros [-> Hl] [Ha Hnd]%NoDup_cons Hnx. split; [done|].
    rewrite Hnx, decide_False, decide_False by set_solver. by apply IH.
Qed.

(** The state after [p] has been unlinked from list [id]. *)
Lemma Rep_remove s s' L id l :
  Rep s L → core s' = core s → length (ready s') = S MAX →
  (∀ r, r ∈ l → r ∈ L id) → NoDup l → lrep (nxt s') (head_of s' id) l →
  (∀ id', id' ≠ id → head_of s' id' = head_of s id') →
  (∀ r, r ∉ L id → nxt s' r = nxt s r) →
  Rep s' (<[id := l]> L).
Proof.
  intros HR Hcore Hrd Hsub Hnd Hrep Hh Hn. apply (Rep_insert s); [done..| | |].
  - intros r Hr%Hsub. split; [by eapply rep_range|].
    intros id' Hne Hr'. by apply Hne, (rep_disj _ _ HR id' id r).
  - done.
  - intros id' Hne. split; [by apply Hh|]. intros r Hr. apply Hn. intros Hr'.
    by apply Hne, (rep_disj _ _ HR id' id r).
Qed.

Lemma remove_first s L id p l :
  Rep s L → valid_list id → L id = p :: l →
  wp (remove id p) s (λ r s', r = 0 ∧ Rep s' (<[id := l]> L) ∧ core s' = core s).
Proof.
  intros HR Hv Eq. pose proof (rep_ready _ _ HR) as Hrd. pose proof (rep_list _ _ HR id) as Hl.
  pose proof (rep_nodup _ _ HR id) as Hnd. rewrite Eq in Hl, Hnd. destruct Hl as [Hh Hl].
  apply NoDup_cons in Hnd as [Hp Hnd].
  destruct (rep_lookup _ _ p HR) as [x Hx]; [eapply (rep_range _ _ HR id); rewrite Eq; set_solver|].
  unfold remove. wp_steps. apply wp_get_head; [done..|]. rewrite Hh, decide_True by done. wp_steps.
  eapply wp_getp; [done|]. wp_steps. apply wp_set_head; [done..|]. wp_steps.
  eapply wp_setp; [by rewrite procs_put_head|]. wp_steps.
  set (s1 := put_head id (next x) s). set (s2 := set_procs _ s1).
  assert (procs s1 !! p = Some x) as Hx1 by (unfold s1; by rewrite procs_put_head).
  assert (core s2 = core s) as Hcore.
  { transitivity (core s1); [by apply core_set_next|apply core_put_head]. }
  assert (∀ q, nxt s2 q = if decide (p = q) then None else nxt s q) as Hn.
  { intros q. unfold s2. rewrite nxt_insert by (by eapply lookup_lt_Some).
    unfold nxt, s1. by rewrite procs_put_head. }
  assert (∀ id', head_of s2 id' = if decide (id = id') then next x else head_of s id') as Hh2.
  { intros id'. rewrite <- head_of_put by done. by destruct id'. }
  split; [done|]. split; [|done]. apply (Rep_remove s); [done|done|..].
  - simpl. unfold s1. by rewrite length_ready_put_head.
  - intros r Hr. rewrite Eq. set_solver.
  - done.
  - rewrite Hh2, decide_True by done. unfold nxt in Hl at 2. rewrite Hx in Hl. simpl in Hl.
    eapply lrep_ext; [|done]. intros r Hr. rewrite Hn, decide_False; [done|]. by intros ->.
  - intros id' Hne. by rewrite Hh2, decide_False.
  - intros r Hr. rewrite Hn, decide_False; [done|]. intros ->. rewrite Eq in Hr. set_solver.
Qed.

Lemma remove_later s L id p q l1 l2 :
  Rep s L → valid_list id → L id = l1 ++ q :: p :: l2 →
  wp (remove id p) s (λ r s', r = 0 ∧ Rep s' (<[id := l1 ++ q :: l2]> L) ∧ core s' = core s).
Proof.
  intros HR Hv Eq. pose proof (rep_ready _ _ HR) as Hrd. pose proof (rep_list _ _ HR id) as Hl.
  pose proof (rep_nodup _ _ HR id) as Hnd. pose proof (rep_length _ _ id HR) as Hlen.
  assert (∀ r, r ∈ L id → is_Some (procs s !! r)) as Hin.
  { intros r Hr. apply (rep_lookup _ _ r HR). by eapply rep_range. }
  rewrite Eq in Hl, Hnd, Hlen. destruct (Hin p) as [x Hx]; [rewrite Eq; set_solver|].
  destruct (Hin q) as [y Hy]; [rewrite Eq; set_solver|].
  assert (p ∉ l1 ++ [q] ∧ p ∉ l2 ∧ p ≠ q) as (Hp1 & Hp2 & Hpq).
  { apply NoDup_app in Hnd as (_ & Hd & [Hq [Hp _]%NoDup_cons]%NoDup_cons).
    split_and!; [|done|set_solver]. rewrite elem_of_app. set_solver. }
  assert (l1 ++ q :: p :: l2 = (l1 ++ [q]) ++ p :: l2) as Eq' by by rewrite <- app_assoc.
  unfold remove. wp_steps. apply wp_get_head; [done..|].
  destruct (head_of s id) as [c|] eqn:Hc; [|by destruct l1, Hl]. rewrite decide_False; last first.
  { intros ->. apply Hp1. destruct l1; destruct Hl as [[= <-] _]; set_solver. }
  wp_steps. rewrite Eq' in Hl. eapply wp_Ret.
  { eapply (remove_loop_found _ _ _ _ (l1 ++ [q]) p l2); [done|done| |].
    - intros r Hr. apply Hin. rewrite Eq, Eq'. set_solver.
    - rewrite Eq', length_app in Hlen. lia. }
  assert (match l1 ++ [q] with [] => None | _ => last (l1 ++ [q]) end = Some q) as ->.
  { rewrite last_snoc. by destruct l1. }
  simpl. wp_steps. eapply wp_deref; [done|]. wp_steps. eapply wp_getp; [done|]. wp_steps.
  eapply wp_setp; [done|]. wp_steps. eapply wp_setp; [simpl; by rewrite list_lookup_insert_ne|].
  wp_steps. set (s1 := set_procs (<[q:=_]> _) s). set (s2 := set_procs _ s1).
  assert (procs s1 !! p = Some x) as Hx1 by (simpl; by rewrite list_lookup_insert_ne).
  assert (core s2 = core s) as Hcore by (transitivity (core s1); by apply core_set_next).
  assert (∀ r, nxt s2 r = if decide (r = p) then None else if decide (r = q) then nxt s p else nxt s r) as Hn.
  { intros r. unfold s2. rewrite nxt_insert by (by eapply lookup_lt_Some).
    unfold s1. rewrite nxt_insert by (by eapply lookup_lt_Some). unfold nxt at 2. rewrite Hx. simpl.
    repeat case_decide; congruence || done. }
  split; [done|]. split; [|done]. apply (Rep_remove s); [done|done|done|..].
  - intros r Hr. rewrite Eq. set_solver.
  - rewrite Eq' in Hnd. apply NoDup_app in Hnd as (Hnd1 & Hd & [_ Hnd2]%NoDup_cons).
    change (l1 ++ q :: l2) with (l1 ++ [q] ++ l2). rewrite app_assoc. apply NoDup_app. set_solver.
  - change (head_of s2 id) with (head_of s id). rewrite Hc. rewrite <- Eq' in Hl.
    by eapply lrep_delete.
  - done.
  - intros r Hr. rewrite Hn, !decide_False; [done|..]; intros ->; apply Hr; rewrite Eq; set_solver.
Qed.

(** [remove] unlinks a member and reports 0. *)
Lemma remove_spec s L id p :
  Rep s L → valid_list id → p ∈ L id →
  wp (remove id p) s (λ r s',
    r = 0 ∧ Rep s' (<[id := filter (.≠ p) (L id)]> L) ∧ core s' = core s).
Proof.
  intros HR Hv (l1 & l2 & Eq)%list_elem_of_split. pose proof (rep_nodup _ _ HR id) as Hnd.
  rewrite Eq in Hnd. apply NoDup_app in Hnd as (_ & Hd & [Hp2 _]%NoDup_cons).
  assert (p ∉ l1) as Hp1 by set_solver. rewrite Eq, filter_ne_middle by done.
  destruct (decide (l1 = [])) as [->|Hne].
  - by apply remove_first.
  - destruct (exists_last Hne) as (l & q & ->). rewrite <- app_assoc in Eq |- *.
    by apply (remove_later s L id p q l l2).
Qed.

(** On a process that is not a member it reports -1 and changes nothing. *)
Lemma remove_absent s L id p :
  Rep s L → valid_list id → p ∉ L id → remove id p s = Ret (-1) s.
Proof.
  intros HR Hv Hp. pose proof (rep_list _ _ HR id) as Hl. pose proof (rep_length _ _ id HR) as Hlen.
  unfold remove, get_head, lookupM, mbind, M_bind.
  rewrite head_at_valid by (done || apply (rep_ready _ _ HR)).
  destruct (head_of s id) as [c|] eqn:Hc; [|done]. rewrite decide_False; last first.
  { intros ->. destruct (L id) as [|a l]; [done|]. destruct Hl as [[= ->] _]. set_solver. }
  destruct (remove_loop_absent NPROC None (Some c) s (L id) p) as [pv ->]; [done|done| |done|done].
  intros r Hr. apply (rep_lookup _ _ r HR). by eapply rep_range.
Qed.
End ProcList.
