(* ===== verification/Proc.v ===== *)
(** * Processes and the scheduler (proc.c)

    Every routine of proc.c in the configuration the Makefile builds
    (CS333_P1, P2, P3P4, P5), on the state of ProcState.v.

    Control transfers.  [swtch] moves a CPU between a process's kernel stack
    and the CPU's scheduler.  A routine that reaches [sched] is modelled up to
    the switch and through what the scheduler does after its own [swtch]
    returns, down to its release of ptable.lock; [resume] is the code a
    process runs when the scheduler switches back to it, selected by the
    saved context.  A [while(p)] loop over a state list runs at most NPROC
    times before the model gives up with [Diverge]; that it never does is part
    of what is proved. *)

From S2P Require Import Prelude Spinlock CString ProcState ProcList.

Local Open Scope Z_scope.

Definition SEG_UCODE : Z := 4.
Definition SEG_UDATA : Z := 5.
Definition DPL_USER : Z := 3.
Definition FL_IF : Z := 0x200.
Definition sizeof_context : Z := 20.
Definition initcode_name : list Z := [105; 110; 105; 116; 99; 111; 100; 101; 0].

(** A process pointer used as a sleep channel. *)
Definition proc_addr (p : option nat) : addr :=
  match p with Some q => AddrProc q | None => Null end.

Section Proc.
Context `{KernelEnv}.

(** [if(remove(&list, p)) panic(msg);] *)
Definition remove_or_panic (id : listid) (p : nat) (msg : string) : M kst unit :=
  r ← remove id p;
  if decide (r = 0) then mret tt else panic msg.

(** [while(p){ body; p = p->next; }] *)
Fixpoint list_iter (fuel : nat) (p : option nat) (body : nat → M kst unit) : M kst unit :=
  match p with
  | None => mret tt
  | Some q =>
      match fuel with
      | O => diverge
      | S f => body q;; x ← getp q; list_iter f (next x) body
      end
  end.

(** [p = list; while(p){ body; p = p->next; }] *)
Definition walk (id : listid) (body : nat → M kst unit) : M kst unit :=
  h ← get_head id;
  list_iter NPROC h body.

(** [while(p){ if(test p) found; p = p->next; }] *)
Fixpoint walk_find (fuel : nat) (p : option nat) (test : proc → bool) : M kst (option nat) :=
  match p with
  | None => mret None
  | Some q =>
      match fuel with
      | O => diverge
      | S f => x ← getp q; if test x then mret (Some q) else walk_find f (next x) test
      end
  end.

(** The first match in the lists [ids], searched in turn. *)
Fixpoint lists_find (ids : list listid) (test : proc → bool) : M kst (option nat) :=
  match ids with
  | [] => mret None
  | id :: ids' =>
      h ← get_head id;
      r ← walk_find NPROC h test;
      match r with Some p => mret (Some p) | None => lists_find ids' test end
  end.

Definition ready_ids : list listid := (λ i, Ready (Z.of_nat i)) <$> seq 0 (S MAX).

Definition pinit : M kst unit := lift_hw (initlock Lptable).

(** ** allocproc *)

(** Undo: back from EMBRYO to the free list. *)
Definition release_embryo (p : nat) : M kst unit :=
  lift_hw (acquire Lptable);;
  assert p EMBRYO;;
  remove_or_panic Embryo p "Error removing from embryo list";;
  setp p (set_state UNUSED);;
  addhead Free p;;
  lift_hw (release Lptable).

(** The kernel stack: room for the trap frame, the return to trapret, and the
    context that starts at forkret. *)
Definition alloc_stack (p : nat) : M kst (option nat) :=
  ks ← lift_env kalloc;
  setp p (set_kstack ks);;
  match ks with
  | None => release_embryo p;; mret None
  | Some base =>
      let sp := base + KSTACKSIZE in
      let sp := sp - sizeof_trapframe in
      setp p (set_tf_addr sp);;
      let sp := sp - 4 in
      let sp := sp - sizeof_context in
      setp p (set_context_addr sp);;
      setp p (set_context CtxForkret);;
      t ← gets ticks;
      setp p (set_start_ticks t);;
      setp p (set_cpu_ticks_total 0);;
      setp p (set_cpu_ticks_in 0);;
      setp p (set_budget BUDGET);;
      setp p (set_prio 0);;
      mret (Some p)
  end.

Definition allocproc : M kst (option nat) :=
  lift_hw (acquire Lptable);;
  fr ← gets free;
  match fr with
  | None => lift_hw (release Lptable);; mret None
  | Some p =>
      assert p UNUSED;;
      remove_or_panic Free p "Error removing from free list";;
      setp p (set_state EMBRYO);;
      addhead Embryo p;;
      n ← gets nextpid;
      setp p (set_pid (u32 n));;
      modify (set_nextpid (i32 (n + 1)));;
      lift_hw (release Lptable);;
      alloc_stack p
  end.

(** ** userinit *)

Fixpoint userinit_free (ps : list nat) : M kst unit :=
  match ps with
  | [] => mret tt
  | p :: ps' => addtail Free p;; userinit_free ps'
  end.

Definition userinit_lists : M kst unit :=
  lift_hw (acquire Lptable);;
  t ← gets ticks;
  modify (set_PromoteAtTime (u32 (t + TICKS_TO_PROMOTE)));;
  modify (set_ready (replicate (S MAX) None));;
  modify (set_free None);;
  userinit_free (seq 0 NPROC);;
  modify (set_sleep_head None);;
  modify (set_zombie None);;
  modify (set_running None);;
  modify (set_embryo None);;
  lift_hw (release Lptable).

Definition init_trapframe : trapframe :=
  let cs := Z.lor (Z.shiftl SEG_UCODE 3) DPL_USER in
  let ds := Z.lor (Z.shiftl SEG_UDATA 3) DPL_USER in
  mkTrapframe 0 cs ds ds ds FL_IF PGSIZE 0 0 0.

(** The memory image and credentials of the first process. *)
Definition userinit_image (ip : nat) : M kst unit :=
  setp ip (set_uid DEFUID);;
  setp ip (set_gid DEFGID);;
  pg ← lift_env setupkvm;
  setp ip (set_pgdir pg);;
  match pg with
  | None => panic "userinit: out of memory?"
  | Some pgd =>
      lift_env (inituvm pgd);;
      setp ip (set_sz PGSIZE);;
      setp ip (set_tf init_trapframe);;
      x ← getp ip;
      nm ← lookupM (λ _, safestrcpy (name x) initcode_name 16);
      setp ip (set_name nm);;
      c ← lift_env namei_root;
      setp ip (set_cwd c)
  end.

Definition userinit_publish (ip : nat) : M kst unit :=
  lift_hw (acquire Lptable);;
  assert ip EMBRYO;;
  remove_or_panic Embryo ip "Error removing from embryo list";;
  setp ip (set_state RUNNABLE);;
  set_head (Ready 0) (Some ip);;
  setp ip (set_next None);;
  lift_hw (release Lptable).

Definition userinit : M kst unit :=
  userinit_lists;;
  p ← allocproc;
  modify (set_initproc p);;
  ip ← deref p;
  userinit_image ip;;
  userinit_publish ip.

(** ** growproc *)
Definition growproc (n : Z) : M kst Z :=
  me ← myproc;
  x ← getp me;
  if decide (0 < n) then
    sz' ← lift_env (allocuvm (pgdir x) (sz x) (u32 (sz x + n)));
    if decide (sz' = 0) then mret (-1) else setp me (set_sz sz');; mret 0
  else if decide (n < 0) then
    sz' ← lift_env (deallocuvm (pgdir x) (sz x) (u32 (sz x + n)));
    if decide (sz' = 0) then mret (-1) else setp me (set_sz sz');; mret 0
  else setp me (set_sz (sz x));; mret 0.

(** ** fork *)

Fixpoint fork_files (me np : nat) (fds : list nat) : M kst unit :=
  match fds with
  | [] => mret tt
  | fd :: fds' =>
      x ← getp me;
      f ← lookupM (λ _, ofile x !! fd);
      match f with
      | None => mret tt
      | Some f => lift_env (filedup f);; setp np (λ y, set_ofile (<[fd := Some f]> (ofile y)) y)
      end;;
      fork_files me np fds'
  end.

(** The child goes to the back of ready[0]. *)
Definition fork_publish (np : nat) : M kst unit :=
  lift_hw (acquire Lptable);;
  assert np EMBRYO;;
  remove_or_panic Embryo np "Error removing from embryo list";;
  setp np (set_state RUNNABLE);;
  addtail (Ready 0) np;;
  lift_hw (release Lptable).

(** The child's copy of its parent [me], whose record is [x]. *)
Definition fork_copy (me np : nat) (x : proc) : M kst unit :=
  setp np (set_sz (sz x));;
  setp np (set_parent (Some me));;
  setp np (set_tf (tf x));;
  setp np (set_uid (uid x));;
  setp np (set_gid (gid x));;
  setp np (λ y, set_tf (set_tf_eax 0 (tf y)) y);;
  fork_files me np (seq 0 NOFILE);;
  c ← lookupM (λ _, cwd x);
  lift_env (idup c);;
  setp np (set_cwd (Some c));;
  y ← getp np;
  nm ← lookupM (λ _, safestrcpy (name y) (name x) 16);
  setp np (set_name nm).

(** [fork] once [allocproc] has returned the child [np]. *)
Definition fork_child (np : nat) : M kst Z :=
  me ← myproc;
  x ← getp me;
  pg ← lift_env (copyuvm (pgdir x) (sz x));
  setp np (set_pgdir pg);;
  match pg with
  | None =>
      y ← getp np;
      lift_env (kfree (default 0 (kstack y)));;
      setp np (set_kstack None);;
      release_embryo np;;
      mret (-1)
  | Some _ =>
      fork_copy me np x;;
      y ← getp np;
      fork_publish np;;
      mret (i32 (pid y))
  end.

Definition fork : M kst Z :=
  r ← allocproc;
  match r with
  | None => mret (-1)
  | Some np => fork_child np
  end.

(** ** wakeup *)

(** A process of the sleep list becomes RUNNABLE. *)
Definition wake_sleeper (p : nat) : M kst unit :=
  assert p SLEEPING;;
  remove_or_panic Sleep p "Error removing from sleep list";;
  setp p (set_state RUNNABLE);;
  x ← getp p;
  addtail (Ready (prio x)) p.

Fixpoint wakeup1_loop (fuel : nat) (current : option nat) (ch : addr) : M kst unit :=
  match current with
  | None => mret tt
  | Some c =>
      match fuel with
      | O => diverge
      | S f =>
          x ← getp c;
          let temp := next x in
          (if decide (chan x = ch) then wake_sleeper c else mret tt);;
          wakeup1_loop f temp ch
      end
  end.

Definition wakeup1 (ch : addr) : M kst unit :=
  h ← get_head Sleep;
  wakeup1_loop NPROC h ch.

Definition wakeup (ch : addr) : M kst unit :=
  lift_hw (acquire Lptable);;
  wakeup1 ch;;
  lift_hw (release Lptable).

Fixpoint wakeups (chs : list addr) : M kst unit :=
  match chs with [] => mret tt | ch :: chs' => wakeup ch;; wakeups chs' end.

(** ** sched, and the scheduler's side of the switch *)

(** After [swtch] returns in [scheduler]: the process is off this CPU. *)
Definition scheduler_return : M kst unit :=
  lift_hw (modify (upd_cpu (set_cpu_proc None)));;
  lift_hw (release Lptable).

Definition sched (ctx : bool → kcontext) : M kst unit :=
  h ← lift_hw (holding Lptable);
  if negb h then panic "sched ptable.lock" else
  c ← lift_hw this_cpu;
  if decide (ncli c ≠ 1) then panic "sched locks" else
  me ← myproc;
  x ← getp me;
  if decide (state x = RUNNING) then panic "sched running" else
  if fl_if c then panic "sched interruptible" else
  t ← gets ticks;
  setp me (set_cpu_ticks_total (u32 (cpu_ticks_total x + (t - cpu_ticks_in x))));;
  setp me (set_context (ctx (intena c)));;
  scheduler_return.

(** Charge the time slice to the budget; demote when it is used up. *)
Definition charge (t : Z) (x : proc) : proc :=
  let b := i32 (budget x - u32 (t - cpu_ticks_in x)) in
  if decide (b ≤ 0) then
    set_budget BUDGET (if decide (prio x ≠ Z.of_nat MAX) then set_prio (prio x + 1) x else x)
  else set_budget b x.

Definition yield : M kst unit :=
  lift_hw (acquire Lptable);;
  me ← myproc;
  assert me RUNNING;;
  remove_or_panic Running me "Error removing from running list";;
  setp me (set_state RUNNABLE);;
  t ← gets ticks;
  setp me (charge t);;
  x ← getp me;
  addtail (Ready (prio x)) me;;
  sched CtxYield.

(** ** sleep: up to the switch.  [lk = None] is the null lock of sys_sleep. *)

(** From [proc->chan = chan] on, ptable.lock held. *)
Definition sleep_locked (ctx : bool → kcontext) (ch : addr) (me : nat) : M kst unit :=
  setp me (set_chan ch);;
  assert me RUNNING;;
  remove_or_panic Running me "Error removing from running list";;
  setp me (set_state SLEEPING);;
  t ← gets ticks;
  setp me (charge t);;
  addhead Sleep me;;
  sched ctx.

Definition sleep_with (ctx : bool → kcontext) (ch : addr) (lk : option lockid) : M kst unit :=
  pr ← gets proc_of;
  match pr with
  | None => panic "sleep"
  | Some me =>
      (if decide (lk = Some Lptable) then mret tt else
         lift_hw (acquire Lptable);;
         match lk with Some l => lift_hw (release l) | None => mret tt end);;
      sleep_locked ctx ch me
  end.

Definition sleep (ch : addr) (lk : option lockid) : M kst unit :=
  sleep_with (CtxSleep lk) ch lk.

(** ** exit *)

Fixpoint exit_files (me : nat) (fds : list nat) : M kst unit :=
  match fds with
  | [] => mret tt
  | fd :: fds' =>
      x ← getp me;
      f ← lookupM (λ _, ofile x !! fd);
      match f with
      | None => mret tt
      | Some f =>
          chs ← lift_env (fileclose f);
          wakeups chs;;
          setp me (λ y, set_ofile (<[fd := None]> (ofile y)) y)
      end;;
      exit_files me fds'
  end.

(** [if(p->parent == proc) p->parent = initproc;] along one list *)
Definition reparent_one (me p : nat) : M kst unit :=
  x ← getp p;
  if decide (parent x = Some me) then
    i ← gets initproc; setp p (set_parent i)
  else mret tt.
Definition reparent_zombie (me p : nat) : M kst unit :=
  x ← getp p;
  if decide (parent x = Some me) then
    i ← gets initproc; setp p (set_parent i);; wakeup1 (proc_addr i)
  else mret tt.
Fixpoint reparent_ready (me : nat) (ids : list listid) : M kst unit :=
  match ids with
  | [] => mret tt
  | id :: ids' => walk id (reparent_one me);; reparent_ready me ids'
  end.

(** From [acquire(&ptable.lock)] on. *)
Definition exit_ptable (me : nat) : M kst unit :=
  lift_hw (acquire Lptable);;
  x ← getp me;
  wakeup1 (proc_addr (parent x));;
  reparent_ready me ready_ids;;
  walk Sleep (reparent_one me);;
  walk Zombie (reparent_zombie me);;
  walk Running (reparent_one me);;
  walk Embryo (reparent_one me);;
  assert me RUNNING;;
  remove_or_panic Running me "Error removing from running list";;
  setp me (set_state ZOMBIE);;
  addhead Zombie me;;
  sched (λ _, CtxExit).

Definition exit : M kst unit :=
  pr ← gets proc_of;
  ip ← gets initproc;
  if decide (pr = ip) then panic "init exiting" else
  me ← deref pr;
  exit_files me (seq 0 NOFILE);;
  lift_env begin_op;;
  x ← getp me;
  c ← lookupM (λ _, cwd x);
  chs ← lift_env (iput c);
  wakeups chs;;
  chs ← lift_env end_op;
  wakeups chs;;
  setp me (set_cwd None);;
  exit_ptable me.

(** ** wait *)

Inductive wait_result := WaitReturn (r : Z) | WaitSleep.

Definition is_child (me : nat) (x : proc) : bool := bool_decide (parent x = Some me).

(** The child [p] is reaped: its slot goes back to the free list. *)
Definition reap (p : nat) : M kst Z :=
  x ← getp p;
  lift_env (kfree (default 0 (kstack x)));;
  setp p (set_kstack None);;
  lift_env (freevm (pgdir x));;
  assert p ZOMBIE;;
  remove_or_panic Zombie p "Error removing from zombie list";;
  setp p (set_state UNUSED);;
  addhead Free p;;
  setp p (set_pid 0);;
  setp p (set_parent None);;
  setp p (λ y, set_name (<[0%nat := 0]> (name y)) y);;
  setp p (set_killed 0);;
  mret (i32 (pid x)).

(** One turn of the [for(;;)] of wait, ptable.lock held. *)
Definition wait_turn (me : nat) : M kst wait_result :=
  z ← lists_find [Zombie] (is_child me);
  match z with
  | Some p =>
      r ← reap p;
      lift_hw (release Lptable);;
      mret (WaitReturn r)
  | None =>
      k ← lists_find ([Sleep] ++ ready_ids ++ [Running; Embryo]) (is_child me);
      x ← getp me;
      if decide (k = None ∨ killed x ≠ 0) then
        lift_hw (release Lptable);; mret (WaitReturn (-1))
      else
        sleep_with CtxWait (AddrProc me) (Some Lptable);;
        mret WaitSleep
  end.

Definition wait : M kst wait_result :=
  lift_hw (acquire Lptable);;
  me ← myproc;
  wait_turn me.

(** ** scheduler *)

(** [if(current->prio > 0) --(current->prio);] *)
Definition promote_one (p : nat) : M kst unit :=
  setp p (λ x, if decide (0 < prio x) then set_prio (prio x - 1) x else x).

(** The inner loop of the promotion: every process of ready[i] moves up. *)
Fixpoint promote_ready_loop (fuel : nat) (i : Z) (current : option nat) : M kst unit :=
  match current with
  | None => mret tt
  | Some c =>
      match fuel with
      | O => diverge
      | S f =>
          x ← getp c;
          let connect := next x in
          assert c RUNNABLE;;
          remove_or_panic (Ready i) c "ERROR removing";;
          setp c (λ y, set_prio (prio y - 1) y);;
          y ← getp c;
          addtail (Ready (prio y)) c;;
          promote_ready_loop f i connect
      end
  end.

Fixpoint promote_ready (lv : list Z) : M kst unit :=
  match lv with
  | [] => mret tt
  | i :: lv' =>
      h ← get_head (Ready i);
      promote_ready_loop NPROC i h;;
      promote_ready lv'
  end.

Definition promote : M kst unit :=
  walk Sleep promote_one;;
  walk Running promote_one;;
  promote_ready (Z.of_nat <$> seq 1 MAX);;
  t ← gets ticks;
  modify (set_PromoteAtTime (u32 (t + TICKS_TO_PROMOTE))).

Definition promote_if_due : M kst unit :=
  at_ ← gets PromoteAtTime;
  t ← gets ticks;
  if decide (at_ ≤ t) then promote else mret tt.

(** The choice of the [for] loop: the head of the first non-empty ready list. *)
Fixpoint pick (ids : list listid) : M kst (option (listid * nat)) :=
  match ids with
  | [] => mret None
  | id :: ids' =>
      h ← get_head id;
      match h with Some p => mret (Some (id, p)) | None => pick ids' end
  end.

(** [proc = p; ...; swtch(&cpu->scheduler, proc->context)], up to the switch. *)
Definition dispatch (id : listid) (p : nat) : M kst unit :=
  lift_hw (modify (upd_cpu (set_cpu_proc (Some p))));;
  assert p RUNNABLE;;
  remove_or_panic id p "Error removing from ready list";;
  setp p (set_state RUNNING);;
  addhead Running p;;
  t ← gets ticks;
  setp p (set_cpu_ticks_in t).

Definition forkret : M kst unit :=
  lift_hw (release Lptable);;
  f ← gets first;
  if (f : bool) then
    modify (set_first false);;
    lift_env iinit;;
    lift_env initlog
  else mret tt.

(** Return from [swtch] into [sched]: [cpu->intena = intena]. *)
Definition sched_return (b : bool) : M kst unit :=
  lift_hw (modify (upd_cpu (set_intena b))).

(** How far process [p] gets in one go when the scheduler switches to it: it
    runs on, it still has to [acquire] the lock it gave to [sleep] (and may
    spin for it), or it completed a turn of [wait]. *)
Inductive resumed := RunsOn | Reacquires (lk : lockid) | Waited (r : wait_result).

Definition resume (p : nat) : M kst resumed :=
  x ← getp p;
  match context x with
  | CtxForkret => forkret;; mret RunsOn
  | CtxYield b => sched_return b;; lift_hw (release Lptable);; mret RunsOn
  | CtxSleep lk b =>
      sched_return b;;
      setp p (set_chan Null);;
      if decide (lk = Some Lptable) then mret RunsOn else
      lift_hw (release Lptable);;
      mret (match lk with Some l => Reacquires l | None => RunsOn end)
  | CtxWait b =>
      sched_return b;;
      setp p (set_chan Null);;
      r ← wait_turn p;
      mret (Waited r)
  | CtxExit => panic "zombie exit"
  end.

(** One turn of the scheduler's [for(;;)] on this CPU, up to the code the
    chosen process runs first; [None] when there was nothing to run. *)
Definition scheduler : M kst (option nat) :=
  lift_hw sti;;
  lift_hw (acquire Lptable);;
  promote_if_due;;
  r ← pick ready_ids;
  match r with
  | None =>
      lift_hw (release Lptable);;
      lift_hw sti;;             (* then hlt *)
      mret None
  | Some (id, p) =>
      dispatch id p;;
      resume p;;
      mret (Some p)
  end.

(** ** kill, setpriority *)

Definition has_pid (n : Z) (x : proc) : bool := bool_decide (pid x = u32 n).

Definition kill (n : Z) : M kst Z :=
  lift_hw (acquire Lptable);;
  r ← lists_find [Sleep] (has_pid n);
  match r with
  | Some p =>
      setp p (set_killed 1);;
      wake_sleeper p;;
      lift_hw (release Lptable);;
      mret 0
  | None =>
      r ← lists_find ([Running; Embryo] ++ ready_ids) (has_pid n);
      match r with
      | Some p =>
          setp p (set_killed 1);;
          lift_hw (release Lptable);;
          mret 0
      | None => lift_hw (release Lptable);; mret (-1)
      end
  end.

Definition setpriority (n priority : Z) : M kst Z :=
  if decide (Z.of_nat MAX < priority ∨ priority < 0 ∨ n < 0) then mret (-1) else
  lift_hw (acquire Lptable);;
  r ← lists_find [Sleep; Running] (has_pid n);
  match r with
  | Some p =>
      setp p (set_prio priority);;
      setp p (set_budget BUDGET);;
      lift_hw (release Lptable);;
      mret 0
  | None =>
      r ← lists_find ready_ids (has_pid n);
      match r with
      | Some p =>
          x ← getp p;
          (if decide (prio x = priority) then setp p (set_budget BUDGET) else
             assert p RUNNABLE;;
             remove (Ready (prio x)) p;;
             setp p (set_prio priority);;
             addtail (Ready priority) p;;
             setp p (set_budget BUDGET));;
          lift_hw (release Lptable);;
          mret 0
      | None => lift_hw (release Lptable);; mret (-1)
      end
  end.

End Proc.
