(* ===== verification/ProcSteady.v ===== *)
(** * What routines leave alone of a process

    [steady q P m]: if process [q] satisfies [P] before [m] and [m] returns,
    then it satisfies [P] after it.  For predicates that only look at the
    state, the channel and the parent, and that a wake-up does not break, the
    rules follow the shape of the code and are automated by the hint database
    [steady]. *)

From S2P Require Import Prelude Spinlock CString ProcState ProcList Proc.

Local Open Scope Z_scope.

Section Steady.
Context `{KernelEnv}.

Definition slot_is (q : nat) (P : proc → Prop) (s : kst) : Prop := ∃ y, procs s !! q = Some y ∧ P y.
Definition steady {A} (q : nat) (P : proc → Prop) (m : M kst A) : Prop :=
  ∀ s, slot_is q P s → match m s with Ret _ s' => slot_is q P s' | _ => True end.

Record stable (P : proc → Prop) : Prop := {
  stable_eq y z : state z = state y → chan z = chan y → parent z = parent y → P y → P z;
  stable_wake y : P y → P (set_state RUNNABLE y)
}.

(** With a run that returns. *)
Lemma wp_steady {A} (m : M kst A) s Q :
  (∀ q P, stable P → steady q P m) → wp m s Q →
  wp m s (λ a s', Q a s' ∧ ∀ q P, stable P → slot_is q P s → slot_is q P s').
Proof.
  unfold wp. intros Hm HQ. destruct (m s) eqn:E; [|done..]. split; [done|]. intros q P HP Hs. specialize (Hm q P HP s Hs). by rewrite E in Hm.
Qed.

(** ** The rules *)

Section Rules.
Context (q : nat) (P : proc → Prop).

Lemma steady_ret {A} (a : A) : steady q P (mret a).
Proof. by intros s. Qed.
Lemma steady_bind {A B} (m : M kst A) (k : A → M kst B) : steady q P m → (∀ a, steady q P (k a)) → steady q P (m ≫= k).
Proof.
  intros Hm Hk s Hs. specialize (Hm s Hs). unfold mbind, M_bind. destruct (m s) as [a s1| | |]; [|done..]. by apply Hk.
Qed.
Lemma steady_gets {A} (g : kst → A) : steady q P (gets g).
Proof. by intros s. Qed.
Lemma steady_lookupM {A} (g : kst → option A) : steady q P (lookupM g).
Proof. intros s Hs. unfold lookupM. by destruct (g s). Qed.
Lemma steady_modify (g : kst → kst) : (∀ s, procs (g s) = procs s) → steady q P (modify g).
Proof. intros Hg s (y & Hy & HP). exists y. by rewrite Hg. Qed.
Lemma steady_panic {A} msg : steady q P (panic (A := A) msg).
Proof. by intros s. Qed.
Lemma steady_diverge {A} : steady q P (diverge (A := A)).
Proof. by intros s. Qed.
Lemma steady_env {A} (m : M env A) : steady q P (lift_env m).
Proof. intros s Hs. unfold lift_env, zoom. by destruct (m _). Qed.
Lemma steady_hw {A} (m : M hw A) : steady q P (lift_hw m).
Proof. intros s Hs. unfold lift_hw, zoom. by destruct (m _). Qed.
Lemma steady_setp p f : (p = q → ∀ y, P y → P (f y)) → steady q P (setp p f).
Proof.
  intros Hf s (y & Hy & HP). unfold setp, getp, lookupM, mbind, M_bind, modify. destruct (procs s !! p) as [x|] eqn:E; [|done].
  destruct (decide (p = q)) as [->|Hne].
  - exists (f y). split; [cbn [procs set_procs]; by rewrite list_lookup_alter_eq, Hy|by apply Hf].
  - exists y. cbn [procs set_procs]. by rewrite list_lookup_alter_ne.
Qed.
End Rules.

#[local] Hint Resolve steady_ret steady_gets steady_lookupM steady_panic steady_diverge steady_env steady_hw : steady.
#[local] Hint Extern 1 (steady _ _ (modify _)) => (apply steady_modify; intros ?; reflexivity) : steady.
(** A store that the predicate does not see. *)
#[local] Hint Extern 2 (steady _ _ (setp _ _)) =>
  (apply steady_setp; intros _ ?; apply stable_eq; [assumption|reflexivity|reflexivity|reflexivity]) : steady.
Ltac steadies := repeat first
  [ progress (eauto 3 with steady)
  | match goal with |- steady _ _ (_ ≫= _) => apply steady_bind; [|intros ?] end
  | match goal with |- steady _ _ (if ?b then _ else _) => destruct b end
  | match goal with |- steady _ _ (match ?b with _ => _ end) => destruct b end ].

(** ** proc.c *)

Section Routines.
Context (q : nat) (P : proc → Prop) (HP : stable P).

Lemma steady_getp p : steady q P (getp p).
Proof. apply steady_lookupM. Qed.
#[local] Hint Resolve steady_getp : steady.
Lemma steady_set_head id h : steady q P (set_head id h).
Proof. unfold set_head, get_head. steadies. apply steady_modify. by intros s; destruct id. Qed.
#[local] Hint Resolve steady_set_head : steady.
Lemma steady_addhead id p : steady q P (addhead id p).
Proof. unfold addhead, get_head. steadies. Qed.
Lemma steady_addtail_loop fuel : ∀ p, steady q P (addtail_loop fuel p).
Proof. induction fuel; intros p; cbn [addtail_loop]; steadies. Qed.
Lemma steady_remove_loop fuel : ∀ a c p, steady q P (remove_loop fuel a c p).
Proof. induction fuel; intros a c p; cbn [remove_loop]; steadies. Qed.
#[local] Hint Resolve steady_addhead steady_addtail_loop steady_remove_loop : steady.
Lemma steady_addtail id p : steady q P (addtail id p).
Proof. unfold addtail, get_head, deref. steadies. Qed.
Lemma steady_remove id p : steady q P (remove id p).
Proof. unfold remove, get_head, deref. steadies. Qed.
Lemma steady_assert p st : steady q P (assert p st).
Proof. unfold assert. steadies. Qed.
#[local] Hint Resolve steady_addtail steady_remove steady_assert : steady.
Lemma steady_remove_or_panic id p msg : steady q P (remove_or_panic id p msg).
Proof. unfold remove_or_panic. steadies. Qed.
#[local] Hint Resolve steady_remove_or_panic : steady.
Lemma steady_wakeup1_loop ch fuel : ∀ c, steady q P (wakeup1_loop fuel c ch).
Proof.
  induction fuel; intros c; cbn [wakeup1_loop]; unfold wake_sleeper; steadies. apply steady_setp. intros _ y. by apply stable_wake.
Qed.
#[local] Hint Resolve steady_wakeup1_loop : steady.
Lemma steady_wakeup1 ch : steady q P (wakeup1 ch).
Proof. unfold wakeup1, get_head. steadies. Qed.
#[local] Hint Resolve steady_wakeup1 : steady.
Lemma steady_wakeups chs : steady q P (wakeups chs).
Proof. induction chs; cbn [wakeups]; unfold wakeup; steadies. Qed.
#[local] Hint Resolve steady_wakeups : steady.
Lemma steady_exit_files me fds : steady q P (exit_files me fds).
Proof. induction fds; cbn [exit_files]; steadies. Qed.
Lemma steady_sched ctx : steady q P (sched ctx).
Proof. unfold sched, scheduler_return, myproc. steadies. Qed.

(** The end of exit, for a process other than the one that exits. *)
Lemma steady_list_iter body fuel : (∀ p, steady q P (body p)) → ∀ p, steady q P (list_iter fuel p body).
Proof. intros Hb. induction fuel; intros p; cbn [list_iter]; steadies. Qed.
Lemma steady_walk id body : (∀ p, steady q P (body p)) → steady q P (walk id body).
Proof. intros Hb. unfold walk, get_head. steadies. by apply steady_list_iter. Qed.

Context (Hpar : ∀ y i, P y → P (set_parent i y)).
Lemma steady_reparent_one me p : steady q P (reparent_one me p).
Proof. unfold reparent_one. steadies. apply steady_setp. auto. Qed.
Lemma steady_reparent_zombie me p : steady q P (reparent_zombie me p).
Proof. unfold reparent_zombie. steadies. apply steady_setp. auto. Qed.
Lemma steady_reparent_ready me ids : steady q P (reparent_ready me ids).
Proof. induction ids; cbn [reparent_ready]; steadies. apply steady_walk, steady_reparent_one. Qed.
End Routines.

(** ** Waiting for a child *)

(** Process [q] sleeps in wait, or has been woken; it has been woken. *)
Definition waits (q : nat) (y : proc) : Prop := state y = RUNNABLE ∨ state y = SLEEPING ∧ chan y = AddrProc q.
Definition woken (y : proc) : Prop := state y = RUNNABLE.
Lemma waits_stable q : stable (waits q).
Proof. split; [|by left]. intros y z E1 E2 _. unfold waits. by rewrite E1, E2. Qed.
Lemma woken_stable : stable woken.
Proof. split; [|done]. intros y z E1 _ _. unfold woken. by rewrite E1. Qed.
Lemma parent_stable p : stable (λ y, parent y = p).
Proof. split; [|done]. intros y z _ _ E. by rewrite E. Qed.

(** exit after its first wake-up. *)
Lemma steady_exit_rest me q : q ≠ me → steady q woken (
  reparent_ready me ready_ids;;
  walk Sleep (reparent_one me);;
  walk Zombie (reparent_zombie me);;
  walk Running (reparent_one me);;
  walk Embryo (reparent_one me);;
  assert me RUNNING;;
  remove_or_panic Running me "Error removing from running list";;
  setp me (set_state ZOMBIE);;
  addhead Zombie me;;
  sched (λ _, CtxExit)).
Proof.
  intros Hne. pose proof woken_stable as HP. assert (∀ y i, woken y → woken (set_parent i y)) as Hpar by done.
  repeat (match goal with |- steady _ _ (_ ≫= _) => apply steady_bind; [|intros _] end); first
    [ by auto using steady_reparent_ready, steady_assert, steady_remove_or_panic, steady_addhead, steady_sched
    | apply steady_walk; intros p; by auto using steady_reparent_one, steady_reparent_zombie
    | apply steady_setp; by intros -> ].
Qed.
End Steady.
