(* ===== verification/ProcInv.v ===== *)
(** * The invariant of the process table

    [PInv s L off]: the state lists [L] partition ptable.proc (the process
    [off], if any, is in a routine's hands between two lists), membership in a
    list is the process's state, and a process of ready[i] has priority i. *)

From S2P Require Import Prelude Spinlock CString ProcState ProcList Proc.

Local Open Scope Z_scope.

Definition list_state (id : listid) : procstate :=
  match id with
  | Ready _ => RUNNABLE | Free => UNUSED | Sleep => SLEEPING
  | Zombie => ZOMBIE | Running => RUNNING | Embryo => EMBRYO
  end.

(** A process record fit for list [id]. *)
Definition fits (id : listid) (x : proc) : Prop :=
  state x = list_state id ∧ match id with Ready i => prio x = i | _ => True end.

Definition prio_ok (x : proc) : Prop := 0 ≤ prio x ≤ Z.of_nat MAX.

Section ProcInv.
Context `{KernelEnv}.

Record PInv (s : kst) (L : listid → list nat) (off : option nat) : Prop := {
  pi_rep : Rep s L;
  pi_cover p : (p < NPROC)%nat → off = Some p ∨ ∃ id, p ∈ L id;
  pi_off p : off = Some p → (p < NPROC)%nat ∧ off_lists L p;
  pi_fits id p x : p ∈ L id → procs s !! p = Some x → fits id x;
  pi_prio p x : procs s !! p = Some x → prio_ok x
}.

Lemma pi_lookup s L off p : PInv s L off → (p < NPROC)%nat → ∃ x, procs s !! p = Some x.
Proof. intros HI Hp. apply (rep_lookup s L p (pi_rep _ _ _ HI) Hp). Qed.

Lemma pi_range s L off id p : PInv s L off → p ∈ L id → (p < NPROC)%nat.
Proof. intros HI. apply (rep_range _ _ (pi_rep _ _ _ HI)). Qed.

Lemma pi_member s L off id p :
  PInv s L off → p ∈ L id → ∃ x, procs s !! p = Some x ∧ fits id x.
Proof.
  intros HI Hp. destruct (pi_lookup s L off p HI) as [x Hx]; [by eapply pi_range|].
  exists x. split; [done|]. by apply (pi_fits _ _ _ HI id p).
Qed.

Lemma pi_valid s L off id p : PInv s L off → p ∈ L id → valid_list id.
Proof.
  intros HI Hp. destruct (pi_member _ _ _ _ _ HI Hp) as (x & Hx & _ & Hf).
  destruct id; try done. subst. apply (pi_prio _ _ _ HI _ _ Hx).
Qed.

(** Two routines' views of the same records: only links differ. *)
Lemma fits_core id x x' : set_next None x' = set_next None x → fits id x → fits id x'.
Proof.
  intros E. assert (state x' = state x ∧ prio x' = prio x) as [E1 E2].
  { split; [exact (f_equal state E)|exact (f_equal prio E)]. }
  unfold fits. by rewrite E1, E2.
Qed.
Lemma prio_ok_core x x' : set_next None x' = set_next None x → prio_ok x → prio_ok x'.
Proof. intros E. unfold prio_ok. assert (prio x' = prio x) as -> by exact (f_equal prio E). done. Qed.

Lemma core_lookup_rev s s' p x' :
  core s' = core s → procs s' !! p = Some x' →
  ∃ x, procs s !! p = Some x ∧ set_next None x' = set_next None x.
Proof.
  intros E Hx. destruct (core_lookup s' s p x') as (x & Hx' & E'); [done|done|]. eauto.
Qed.

(** A step of list surgery (same records, new lists) re-establishes [PInv]. *)
Lemma PInv_core s s' L L' off off' :
  PInv s L off → core s' = core s → Rep s' L' →
  (∀ p, (p < NPROC)%nat → off' = Some p ∨ ∃ id, p ∈ L' id) →
  (∀ p, off' = Some p → (p < NPROC)%nat ∧ off_lists L' p) →
  (∀ id p x, p ∈ L' id → procs s !! p = Some x → fits id x) →
  PInv s' L' off'.
Proof.
  intros HI E HR Hc Ho Hf. split; [done|done|done| |].
  - intros id p x Hp Hx. destruct (core_lookup_rev _ _ _ _ E Hx) as (y & Hy & Ey).
    apply (fits_core _ y); [done|]. by apply (Hf id p).
  - intros p x Hx. destruct (core_lookup_rev _ _ _ _ E Hx) as (y & Hy & Ey).
    apply (prio_ok_core y); [done|]. by apply (pi_prio _ _ _ HI p).
Qed.

(** ** The three moves *)

Definition take_out (id : listid) (p : nat) (L : listid → list nat) : listid → list nat :=
  <[id := filter (.≠ p) (L id)]> L.

Lemma elem_of_take_out s L off id p id' q :
  PInv s L off → p ∈ L id → q ∈ take_out id p L id' ↔ q ∈ L id' ∧ q ≠ p.
Proof.
  intros HI Hp. unfold take_out. fn_cases; [apply elem_of_filter_ne|].
  split; [|tauto]. intros Hq. split; [done|]. intros ->.
  by apply n, (rep_disj _ _ (pi_rep _ _ _ HI) id id' p).
Qed.

Lemma remove_inv s L id p :
  PInv s L None → p ∈ L id →
  wp (remove id p) s (λ r s', r = 0 ∧ PInv s' (take_out id p L) (Some p) ∧ core s' = core s).
Proof.
  intros HI Hp.
  eapply wp_mono; [by apply (remove_spec s L id p (pi_rep _ _ _ HI)); [by eapply pi_valid|]|].
  intros r s' (-> & HR & E). split; [done|]. split; [|done].
  apply (PInv_core s s' L _ None); [done|done|done|..].
  - intros q Hq. destruct (decide (q = p)) as [->|Hne]; [by left|right].
    destruct (pi_cover _ _ _ HI q Hq) as [?|[id' Hq']]; [done|].
    exists id'. by apply (elem_of_take_out s L None).
  - intros q [= <-]. split; [by eapply pi_range|]. intros id' Hq.
    by apply (elem_of_take_out s L None id p) in Hq as [_ ?].
  - intros id' q x Hq. apply (pi_fits _ _ _ HI). by apply (elem_of_take_out s L None id p) in Hq as [? _].
Qed.

Lemma remove_or_panic_spec s L id p msg :
  PInv s L None → p ∈ L id →
  wp (remove_or_panic id p msg) s (λ _ s',
    PInv s' (take_out id p L) (Some p) ∧ core s' = core s).
Proof.
  intros HI Hp. unfold remove_or_panic. wp_steps. eapply wp_mono; [by apply remove_inv|].
  intros r s' (-> & HI' & E). by rewrite decide_True.
Qed.

Lemma PInv_add s s' L id p l x :
  PInv s L (Some p) → procs s !! p = Some x → fits id x →
  Rep s' (<[id := l]> L) → core s' = core s → (∀ q, q ∈ l ↔ q = p ∨ q ∈ L id) →
  PInv s' (<[id := l]> L) None.
Proof.
  intros HI Hx Hf HR E Hl. apply (PInv_core s s' L _ (Some p)); [done|done|done|..].
  - intros q Hq. right. destruct (pi_cover _ _ _ HI q Hq) as [[= <-]|[id' Hq']].
    + exists id. rewrite fn_insert_dec, decide_True by done. apply Hl. by left.
    + exists id'. fn_cases; [|done]. apply Hl. by right.
  - done.
  - intros id' q y. fn_cases; [|apply (pi_fits _ _ _ HI)].
    rewrite Hl. intros [->|Hq]; [|by apply (pi_fits _ _ _ HI)]. congruence.
Qed.

Lemma add_valid s L p x id : PInv s L (Some p) → procs s !! p = Some x → fits id x → valid_list id.
Proof.
  intros HI Hx [_ Hf]. destruct id; try done. subst. apply (pi_prio _ _ _ HI p x Hx).
Qed.

Lemma addhead_inv s L id p x :
  PInv s L (Some p) → procs s !! p = Some x → fits id x →
  wp (addhead id p) s (λ _ s', PInv s' (<[id := p :: L id]> L) None ∧ core s' = core s).
Proof.
  intros HI Hx Hf. destruct (pi_off _ _ _ HI p) as [Hp Hoff]; [done|].
  eapply wp_mono; [apply addhead_spec; [apply HI|by eapply add_valid|done|done]|].
  intros _ s' [HR E]. split; [|done]. eapply (PInv_add s); [done..|]. set_solver.
Qed.

Lemma addtail_inv s L id p x :
  PInv s L (Some p) → procs s !! p = Some x → fits id x →
  wp (addtail id p) s (λ _ s', PInv s' (<[id := L id ++ [p]]> L) None ∧ core s' = core s).
Proof.
  intros HI Hx Hf. destruct (pi_off _ _ _ HI p) as [Hp Hoff]; [done|].
  eapply wp_mono; [apply addtail_spec; [apply HI|by eapply add_valid|done|done]|].
  intros _ s' [HR E]. split; [|done]. eapply (PInv_add s); [done..|]. set_solver.
Qed.

(** ** Stores into a process record *)

(** The store [f] neither reads nor writes the link. *)
Definition linkfree (f : proc → proc) : Prop := ∀ n y, f (set_next n y) = set_next n (f y).

(** The abstract effect of a store. *)
Definition upd (p : nat) (f : proc → proc) (s : kst) : kst :=
  set_procs (alter f p (procs s)) s.

Lemma set_next_eta y : set_next (next y) y = y.
Proof. by destruct y. Qed.

Lemma linkfree_next f y : linkfree f → next (f y) = next y.
Proof. intros Hf. rewrite <- (set_next_eta y) at 1. by rewrite Hf. Qed.

Lemma wp_setp_upd p f s x (Q : unit → kst → Prop) :
  procs s !! p = Some x → Q tt (upd p f s) → wp (setp p f) s Q.
Proof. intros Hx HQ. unfold setp. wp_steps. by eapply wp_getp. Qed.

Lemma upd_lookup p f s q :
  procs (upd p f s) !! q = (if decide (q = p) then f else id) <$> procs s !! q.
Proof.
  unfold upd. simpl. case_decide as E; subst.
  - apply list_lookup_alter_eq.
  - rewrite list_lookup_alter_ne by done. by rewrite option_fmap_id.
Qed.

Lemma upd_lookup_eq p f s x : procs s !! p = Some x → procs (upd p f s) !! p = Some (f x).
Proof. intros Hx. by rewrite upd_lookup, decide_True, Hx. Qed.

Lemma core_upd p f s : linkfree f → core (upd p f s) = upd p f (core s).
Proof.
  intros Hf. unfold core, upd, set_procs. simpl. f_equal.
  apply list_eq. intros j. rewrite list_lookup_fmap. destruct (decide (j = p)) as [->|].
  - rewrite !list_lookup_alter_eq, list_lookup_fmap. destruct (procs s !! p); simpl; [|done].
    by rewrite Hf.
  - by rewrite !list_lookup_alter_ne, list_lookup_fmap by done.
Qed.

Lemma upd_upd p f g s : upd p f (upd p g s) = upd p (f ∘ g) s.
Proof.
  unfold upd, set_procs. simpl. f_equal. apply list_eq. intros j. destruct (decide (j = p)) as [->|].
  - rewrite !list_lookup_alter_eq. by destruct (procs s !! p).
  - by rewrite !list_lookup_alter_ne by done.
Qed.

Lemma nxt_upd p f s q : linkfree f → nxt (upd p f s) q = nxt s q.
Proof.
  intros Hf. unfold nxt. rewrite upd_lookup. destruct (procs s !! q); simpl; [|done].
  case_decide; [by apply linkfree_next|done].
Qed.

Lemma Rep_upd p f s L : linkfree f → Rep s L → Rep (upd p f s) L.
Proof.
  intros Hf [R1 R2 R3 R4 R5 R6]. split; try done.
  - intros id. replace (head_of (upd p f s) id) with (head_of s id) by (by destruct id).
    apply (lrep_ext (nxt s)); [|done]. intros. by apply nxt_upd.
  - unfold upd. simpl. by rewrite length_alter.
Qed.

(** A store into a process that is off the lists, or into a field that does
    not decide its list. *)
Lemma PInv_upd p f s L off x :
  PInv s L off → linkfree f → procs s !! p = Some x → prio_ok (f x) →
  off = Some p ∨ (∀ id, p ∈ L id → fits id (f x)) →
  PInv (upd p f s) L off.
Proof.
  intros HI Hf Hx Hpr Hcase. split.
  - apply Rep_upd, HI. done.
  - apply HI.
  - apply HI.
  - intros id q y Hq. rewrite upd_lookup. case_decide as E; subst.
    + rewrite Hx. intros [= <-]. destruct Hcase as [->|Hfit]; [|by apply Hfit].
      destruct (pi_off _ _ _ HI p) as [_ Ho]; [done|]. by destruct (Ho id).
    + rewrite option_fmap_id. by apply (pi_fits _ _ _ HI).
  - intros q y. rewrite upd_lookup. case_decide as E; subst.
    + rewrite Hx. by intros [= <-].
    + rewrite option_fmap_id. apply (pi_prio _ _ _ HI).
Qed.

(** A store that keeps [state] and [prio]. *)
Definition inert (f : proc → proc) : Prop :=
  linkfree f ∧ ∀ y, state (f y) = state y ∧ prio (f y) = prio y.

Lemma PInv_inert p f s L off : PInv s L off → inert f → PInv (upd p f s) L off.
Proof.
  intros HI [Hf Hsp]. destruct (procs s !! p) as [x|] eqn:Hx.
  - apply (PInv_upd p f s L off x); try done.
    + unfold prio_ok. rewrite (proj2 (Hsp x)). apply (pi_prio _ _ _ HI p x Hx).
    + right. intros id Hp. unfold fits. rewrite (proj1 (Hsp x)), (proj2 (Hsp x)).
      by apply (pi_fits _ _ _ HI id p x).
  - replace (upd p f s) with s; [done|]. destruct s. unfold upd, set_procs. simpl in *. f_equal.
    symmetry. apply list_eq. intros j. destruct (decide (j = p)) as [->|].
    + by rewrite list_lookup_alter_eq, Hx.
    + by rewrite list_lookup_alter_ne by done.
Qed.

(** ** Parts of the state the lists do not depend on *)
Definition same_table (s s' : kst) : Prop :=
  procs s' = procs s ∧ ready s' = ready s ∧ free s' = free s ∧ sleep_head s' = sleep_head s ∧
  zombie s' = zombie s ∧ running s' = running s ∧ embryo s' = embryo s.

Lemma PInv_frame s s' L off : same_table s s' → PInv s L off → PInv s' L off.
Proof.
  intros (E1 & E2 & E3 & E4 & E5 & E6 & E7) [[R1 R2 R3 R4 R5 R6] P1 P2 P3 P4].
  split; [split|..]; rewrite ?E1, ?E2; try done.
  intros id. replace (head_of s' id) with (head_of s id).
  - apply (lrep_ext (nxt s)); [|apply R1]. intros q _. unfold nxt. by rewrite E1.
  - unfold head_of, head_at. by rewrite E2, E3, E4, E5, E6, E7.
Qed.

Lemma PInv_ext s L L' off : (∀ id, L' id = L id) → PInv s L off → PInv s L' off.
Proof.
  intros E [[R1 R2 R3 R4 R5 R6] P1 P2 P3 P4].
  split; [split|..]; try done; try (intros id; rewrite E; eauto; fail).
  - intros id id' p. rewrite !E. apply R3.
  - intros p Hp. destruct (P1 p Hp) as [?|[id ?]]; [by left|right; exists id; by rewrite E].
  - intros p Hp. destruct (P2 p Hp) as [? Ho]. split; [done|]. intros id. rewrite E. apply Ho.
Qed.

(** ** Updates of many records *)

Definition mapp (f : nat → proc → proc) (s : kst) : kst := set_procs (imap f (procs s)) s.

Lemma mapp_lookup f s q : procs (mapp f s) !! q = f q <$> procs s !! q.
Proof. apply list_lookup_imap. Qed.

Lemma set_procs_ext s l l' : (∀ q, l !! q = l' !! q) → set_procs l s = set_procs l' s.
Proof. intros E. f_equal. by apply list_eq. Qed.

Lemma mapp_ext f g s :
  (∀ q x, procs s !! q = Some x → f q x = g q x) → mapp f s = mapp g s.
Proof.
  intros E. apply set_procs_ext. intros q. rewrite !list_lookup_imap.
  destruct (procs s !! q) eqn:Hq; simpl; [|done]. f_equal. by apply E.
Qed.

Lemma mapp_id s : mapp (λ _ x, x) s = s.
Proof.
  destruct s. unfold mapp, set_procs. simpl. f_equal. apply list_eq. intros q.
  rewrite list_lookup_imap. by destruct (_ !! q).
Qed.

Lemma upd_mapp p f g s :
  upd p f (mapp g s) = mapp (λ q x, if decide (q = p) then f (g q x) else g q x) s.
Proof.
  apply (set_procs_ext s). intros q. simpl. rewrite list_lookup_imap.
  destruct (decide (q = p)) as [->|].
  - rewrite list_lookup_alter_eq, list_lookup_imap. by destruct (_ !! p).
  - rewrite list_lookup_alter_ne, list_lookup_imap by done. done.
Qed.

(** [f] on the processes of [d]. *)
Definition on_list (d : list nat) (f : proc → proc) : nat → proc → proc :=
  λ q x, if decide (q ∈ d) then f x else x.

Lemma on_list_nil f s : mapp (on_list [] f) s = s.
Proof.
  rewrite <- (mapp_id s) at 2. apply mapp_ext. intros q x _. unfold on_list.
  rewrite decide_False; [done|]. set_solver.
Qed.

Lemma on_list_snoc d c f s :
  c ∉ d → upd c f (mapp (on_list d f) s) = mapp (on_list (d ++ [c]) f) s.
Proof.
  intros Hc. rewrite upd_mapp. apply mapp_ext. intros q x _. unfold on_list.
  assert (q ∈ d ++ [c] ↔ q ∈ d ∨ q = c) as Hin by set_solver.
  repeat case_decide; subst; tauto.
Qed.

Lemma on_list_app l1 l2 f s :
  (∀ q, q ∈ l1 → q ∉ l2) →
  mapp (on_list l2 f) (mapp (on_list l1 f) s) = mapp (on_list (l1 ++ l2) f) s.
Proof.
  intros Hd. apply (set_procs_ext s). intros q. rewrite !list_lookup_imap. simpl.
  rewrite list_lookup_imap. destruct (procs s !! q); simpl; [|done]. f_equal. unfold on_list.
  pose proof (elem_of_app l1 l2 q). pose proof (Hd q). repeat case_decide; tauto.
Qed.

Lemma upd_ext c f g s :
  (∀ x, procs s !! c = Some x → f x = g x) → upd c f s = upd c g s.
Proof.
  intros E. apply (set_procs_ext s). intros q. destruct (decide (q = c)) as [->|].
  - rewrite !list_lookup_alter_eq. destruct (procs s !! c) as [x|] eqn:Hx; [|done]. simpl.
    f_equal. by apply E.
  - by rewrite !list_lookup_alter_ne by done.
Qed.

Lemma upd_same c f s : (∀ x, procs s !! c = Some x → f x = x) → upd c f s = s.
Proof.
  intros E. rewrite (upd_ext c f id) by done. rewrite <- (mapp_id s) at 2.
  apply (set_procs_ext s). intros q. rewrite list_lookup_imap. destruct (decide (q = c)) as [->|].
  - rewrite list_lookup_alter_eq. by destruct (procs s !! c).
  - rewrite list_lookup_alter_ne by done. by destruct (procs s !! q).
Qed.

(** ** Traversals *)

Lemma lrep_hd nx h l : lrep nx h l → h = head l.
Proof. destruct l; [done|]. by intros [-> _]. Qed.

Lemma lrep_next nx h l1 p l2 : lrep nx h (l1 ++ p :: l2) → nx p = head l2.
Proof. intros Hl. destruct (lrep_app _ _ _ _ _ Hl) as (Hr & _ & _). by eapply lrep_hd. Qed.

Lemma pi_next s L off id l1 p l2 x :
  PInv s L off → L id = l1 ++ p :: l2 → procs s !! p = Some x → next x = head l2.
Proof.
  intros HI E Hx. pose proof (rep_list _ _ (pi_rep _ _ _ HI) id) as Hl. rewrite E in Hl.
  apply lrep_next in Hl. unfold nxt in Hl. by rewrite Hx in Hl.
Qed.

Lemma pi_length s L off id : PInv s L off → (length (L id) ≤ NPROC)%nat.
Proof.
  intros HI. apply NoDup_bounded_length.
  - apply (rep_nodup _ _ (pi_rep _ _ _ HI)).
  - intros p. by apply (pi_range _ _ _ _ _ HI).
Qed.

Lemma wp_head s L off id (Q : option nat → kst → Prop) :
  PInv s L off → valid_list id → Q (head (L id)) s → wp (get_head id) s Q.
Proof.
  intros HI Hv HQ. apply wp_get_head; [done|apply (rep_ready _ _ (pi_rep _ _ _ HI))|].
  by rewrite (lrep_hd _ _ _ (rep_list _ _ (pi_rep _ _ _ HI) id)).
Qed.

Lemma list_iter_loop id body l (J : list nat → kst → Prop) :
  (∀ d s, J d s → ∃ L off, PInv s L off ∧ L id = l) →
  (∀ d q r s, l = d ++ q :: r → J d s → wp (body q) s (λ _ s', J (d ++ [q]) s')) →
  ∀ fuel d r s, l = d ++ r → (length r ≤ fuel)%nat → J d s →
  wp (list_iter fuel (head r) body) s (λ _ s', J l s').
Proof.
  intros HJ Hbody fuel. induction fuel as [|fuel IH]; intros d [|q r] s Hl Hlen Hd;
    simpl in *; try lia.
  - wp_steps. rewrite app_nil_r in Hl. by subst.
  - wp_steps. rewrite app_nil_r in Hl. by subst.
  - wp_steps. eapply wp_mono; [by apply (Hbody d q r)|]. intros ? s' Hd'. wp_steps.
    destruct (HJ _ _ Hd') as (L & off & HI & E). rewrite Hl in E.
    destruct (pi_member s' L off id q HI) as (x & Hx & _); [rewrite E; set_solver|].
    apply (wp_getp _ _ x); [done|]. rewrite (pi_next s' L off id d q r x HI E Hx).
    apply (IH (d ++ [q])); [by rewrite <- app_assoc|lia|done].
Qed.

(** A walk along list [id] whose body keeps that list. *)
Lemma list_iter_rule id body l (J : list nat → kst → Prop) s :
  valid_list id →
  (∀ d s, J d s → ∃ L off, PInv s L off ∧ L id = l) →
  (∀ d q r s, l = d ++ q :: r → J d s → wp (body q) s (λ _ s', J (d ++ [q]) s')) →
  J [] s →
  wp (walk id body) s (λ _ s', J l s').
Proof.
  intros Hv HJ Hbody H0. destruct (HJ _ _ H0) as (L & off & HI & E). unfold walk. wp_steps.
  apply (wp_head s L off); [done|done|]. rewrite E.
  apply (list_iter_loop id body l J HJ Hbody NPROC []); [done| |done].
  rewrite <- E. by eapply pi_length.
Qed.

Lemma walk_find_loop s L off id test :
  PInv s L off → ∀ fuel d r, L id = d ++ r → (length r ≤ fuel)%nat →
  wp (walk_find fuel (head r) test) s (λ res s', s' = s ∧
    match res with
    | Some p => p ∈ r ∧ ∃ x, procs s !! p = Some x ∧ test x = true
    | None => ∀ p x, p ∈ r → procs s !! p = Some x → test x = false
    end).
Proof.
  intros HI fuel. induction fuel as [|fuel IH]; intros d [|q r] E Hlen; simpl in *; try lia.
  - wp_steps. split; [done|]. set_solver.
  - wp_steps. split; [done|]. set_solver.
  - destruct (pi_member s L off id q HI) as (x & Hx & _); [rewrite E; set_solver|].
    wp_steps. apply (wp_getp _ _ x); [done|]. destruct (test x) eqn:Ht.
    + wp_steps. split; [done|]. split; [set_solver|]. eauto.
    + rewrite (pi_next s L off id d q r x HI E Hx).
      eapply wp_mono; [apply (IH (d ++ [q]) r); [by rewrite <- app_assoc|lia]|].
      intros [p|] s' [-> Hr]; (split; [done|]); [set_solver|].
      intros p y [->|Hp]%elem_of_cons Hy; [congruence|eauto].
Qed.

Lemma lists_find_spec s L off ids test :
  PInv s L off → Forall valid_list ids →
  wp (lists_find ids test) s (λ res s', s' = s ∧
    match res with
    | Some p => ∃ id x, id ∈ ids ∧ p ∈ L id ∧ procs s !! p = Some x ∧ test x = true
    | None => ∀ id p x, id ∈ ids → p ∈ L id → procs s !! p = Some x → test x = false
    end).
Proof.
  intros HI. induction 1 as [|id ids Hv _ IH]; simpl.
  { wp_steps. split; [done|]. set_solver. }
  wp_steps. apply (wp_head s L off); [done|done|]. wp_steps.
  eapply wp_mono; [apply (walk_find_loop s L off id test HI NPROC [] (L id)); [done|]|].
  { by eapply pi_length. }
  intros [p|] s' [-> Hr].
  - wp_steps. split; [done|]. destruct Hr as [Hp (x & Hx & Ht)]. exists id, x. set_solver.
  - eapply wp_mono; [apply IH|]. intros [p|] s'' [-> Hr']; (split; [done|]).
    + destruct Hr' as (id' & x & ? & ?). exists id', x. set_solver.
    + intros id' p x [->|Hid]%elem_of_cons; eauto.
Qed.

Lemma ready_ids_valid : Forall valid_list ready_ids.
Proof.
  apply Forall_forall. intros id (i & -> & Hi)%list_elem_of_fmap.
  apply elem_of_seq in Hi. simpl. lia.
Qed.
Lemma elem_of_ready_ids i : 0 ≤ i ≤ Z.of_nat MAX → Ready i ∈ ready_ids.
Proof.
  intros Hi. apply list_elem_of_fmap. exists (Z.to_nat i). split; [f_equal; lia|].
  apply elem_of_seq. lia.
Qed.

(** A walk along [id] that stores [f] into each process it meets. *)
Lemma list_iter_store id body f s L :
  PInv s L None → valid_list id → linkfree f →
  (∀ x, fits id x → prio_ok x → fits id (f x) ∧ prio_ok (f x)) →
  (∀ q s' g x, PInv s' L None → core s' = mapp g (core s) → procs s' !! q = Some x →
    wp (body q) s' (λ _ s'', s'' = upd q f s')) →
  wp (walk id body) s (λ _ s',
    PInv s' L None ∧ core s' = mapp (on_list (L id) f) (core s)).
Proof.
  intros HI Hv Hf Hfit Hbody. pose proof (rep_nodup _ _ (pi_rep _ _ _ HI) id) as Hnd.
  apply (list_iter_rule id body (L id) (λ d s', PInv s' L None ∧
    core s' = mapp (on_list d f) (core s))); [done| | |].
  - intros d s' [HI' _]. by exists L, None.
  - intros d q r s' El [HI' E']. assert (q ∈ L id) as Hq by (rewrite El; set_solver).
    destruct (pi_member _ _ _ _ _ HI' Hq) as (x & Hx & Hfx).
    eapply wp_mono; [by eapply Hbody|]. intros _ s'' ->.
    destruct (Hfit x Hfx) as [? ?]; [by apply (pi_prio _ _ _ HI' q)|]. split.
    + apply (PInv_upd q f s' L None x); try done. right. intros id' Hq'.
      by rewrite <- (rep_disj _ _ (pi_rep _ _ _ HI') id id' q).
    + rewrite core_upd, E' by done. apply on_list_snoc. rewrite El in Hnd.
      apply NoDup_app in Hnd as (_ & Hd & _). intros Hqd. apply (Hd q Hqd). set_solver.
  - by rewrite on_list_nil.
Qed.
End ProcInv.
