(* ===== verification/ProcWake.v ===== *)
(** * Wake-up and promotion (proc.c: wakeup1, the aging part of scheduler)

    The list-based [wakeup1] against the table scan it replaces
    ([wakeup1_scan], the version compiled without CS333_P3P4), and the
    priority promotion as a shift of the ready lists. *)

From S2P Require Import Prelude Spinlock CString ProcState ProcList Proc ProcInv.

Local Open Scope Z_scope.

Section ProcWake.
Context `{KernelEnv}.

(** [wakeup1] without CS333_P3P4: scan the whole table. *)
Definition wakeup1_scan (ch : addr) (s : kst) : kst :=
  mapp (λ _ x, if decide (state x = SLEEPING ∧ chan x = ch) then set_state RUNNABLE x else x) s.

(** ** One process *)

Lemma wp_assert p st s x (Q : unit → kst → Prop) :
  procs s !! p = Some x → state x = st → Q tt s → wp (assert p st) s Q.
Proof.
  intros Hx Hst HQ. unfold assert. wp_steps. eapply wp_getp; [done|].
  by rewrite decide_True.
Qed.

(** Take [p] out of list [id], store [f] into it: it is ready for the list
    that [f x] fits. *)
Lemma take_and_store {A} s L id p x f msg (k : M kst A) (Q : A → kst → Prop) :
  PInv s L None → p ∈ L id → procs s !! p = Some x → linkfree f → prio_ok (f x) →
  (∀ s' x', PInv s' (take_out id p L) (Some p) → procs s' !! p = Some x' →
    set_next None x' = set_next None (f x) → core s' = upd p f (core s) → wp k s' Q) →
  wp (remove_or_panic id p msg;; setp p f;; k) s Q.
Proof.
  intros HI Hp Hx Hf Hpr HQ. wp_steps. eapply wp_mono; [by apply remove_or_panic_spec|].
  intros _ s1 [HI1 E1]. wp_steps. destruct (core_lookup s s1 p x E1 Hx) as (x1 & Hx1 & Ex1).
  assert (set_next None (f x1) = set_next None (f x)) as Efx by (by rewrite <- !Hf, Ex1).
  apply (wp_setp_upd _ _ _ x1); [done|]. apply (HQ _ (f x1)).
  - apply (PInv_upd p f s1 _ _ x1); try done; [by eapply prio_ok_core|by left].
  - rewrite upd_lookup, decide_True, Hx1 by done. done.
  - done.
  - rewrite core_upd by done. by rewrite E1.
Qed.

Lemma wake_sleeper_spec s L p x :
  PInv s L None → p ∈ L Sleep → procs s !! p = Some x →
  wp (wake_sleeper p) s (λ _ s',
    PInv s' (<[Ready (prio x) := L (Ready (prio x)) ++ [p]]> (take_out Sleep p L)) None ∧
    core s' = upd p (set_state RUNNABLE) (core s)).
Proof.
  intros HI Hp Hx. unfold wake_sleeper. wp_steps.
  apply (wp_assert _ _ _ x); [done|by apply (pi_fits _ _ _ HI Sleep p x)|].
  apply (take_and_store s L Sleep p x); try done; [apply (pi_prio _ _ _ HI p x Hx)|].
  intros s' x' HI' Hx' Ex' E'. wp_steps. apply (wp_getp _ _ x'); [done|].
  assert (prio x' = prio x ∧ state x' = RUNNABLE) as [Epr Est].
  { split; [exact (f_equal prio Ex')|exact (f_equal state Ex')]. }
  eapply wp_mono; [apply (addtail_inv s' (take_out Sleep p L) (Ready (prio x')) p x'); [done|done|by split]|].
  intros _ s'' [HI'' E'']. rewrite Epr in HI''. split; [done|]. by rewrite E''.
Qed.

(** ** wakeup1 *)

Definition on_chan (s : kst) (ch : addr) (p : nat) : bool :=
  match procs s !! p with Some x => bool_decide (chan x = ch) | None => false end.
Definition prio_of (s : kst) (p : nat) : Z :=
  match procs s !! p with Some x => prio x | None => 0 end.

(** The lists when the sleepers [d] have been examined and [r] have not. *)
Definition wake_lists (s : kst) (ch : addr) (d r : list nat) (L : listid → list nat)
    (id : listid) : list nat :=
  match id with
  | Sleep => filter (λ p, on_chan s ch p = false) d ++ r
  | Ready i => L (Ready i) ++ filter (λ p, on_chan s ch p = true ∧ prio_of s p = i) d
  | _ => L id
  end.

Definition wake (ch : addr) (x : proc) : proc :=
  if decide (chan x = ch) then set_state RUNNABLE x else x.

Lemma wake_lists_keep s ch d c r L id :
  on_chan s ch c = false →
  wake_lists s ch (d ++ [c]) r L id = wake_lists s ch d (c :: r) L id.
Proof.
  intros Hc. destruct id; simpl; [|done| |done..].
  - rewrite filter_app, filter_cons_False, filter_nil, app_nil_r; [done|]. by rewrite Hc; intros [? _].
  - by rewrite filter_app, filter_cons_True, filter_nil, <- app_assoc by done.
Qed.

Lemma wake_lists_wake s ch d c r L x id :
  procs s !! c = Some x → on_chan s ch c = true → c ∉ d → c ∉ r →
  wake_lists s ch (d ++ [c]) r L id =
  (<[Ready (prio x) := wake_lists s ch d (c :: r) L (Ready (prio x)) ++ [c]]>
    (take_out Sleep c (wake_lists s ch d (c :: r) L))) id.
Proof.
  intros Hx Hc Hd Hr. assert (prio_of s c = prio x) as Hp by (unfold prio_of; by rewrite Hx).
  unfold take_out. rewrite !fn_insert_dec. destruct id as [i| | | | |]; simpl; try done.
  - case_decide as E; simplify_eq.
    + rewrite filter_app, filter_cons_True, filter_nil, app_assoc by done. done.
    + rewrite filter_app, filter_cons_False, filter_nil, app_nil_r; [done|]. intros [_ ?]. congruence.
  - rewrite filter_app, filter_cons_False, filter_nil, app_nil_r by (by rewrite Hc).
    rewrite filter_ne_middle; [done| |done]. rewrite list_elem_of_filter. tauto.
Qed.

Lemma on_list_core d f s s' q x x' :
  core s' = mapp (on_list d f) (core s) → procs s !! q = Some x → procs s' !! q = Some x' →
  q ∉ d → set_next None x' = set_next None x.
Proof.
  intros E Hx Hx' Hd. apply (f_equal procs), (f_equal (.!! q)) in E.
  rewrite mapp_lookup in E. simpl in E. rewrite !list_lookup_fmap, Hx, Hx' in E. simpl in E.
  unfold on_list in E. rewrite decide_False in E by done. by apply (inj Some) in E.
Qed.

Lemma core_lookup_Some s q x :
  procs s !! q = Some x → procs (core s) !! q = Some (set_next None x).
Proof. intros Hx. simpl. by rewrite list_lookup_fmap, Hx. Qed.

Lemma wakeup1_loop_spec s0 L ch :
  PInv s0 L None → ∀ r fuel d s, L Sleep = d ++ r → (length r ≤ fuel)%nat →
  PInv s (wake_lists s0 ch d r L) None → core s = mapp (on_list d (wake ch)) (core s0) →
  wp (wakeup1_loop fuel (head r) ch) s (λ _ s',
    PInv s' (wake_lists s0 ch (L Sleep) [] L) None ∧
    core s' = mapp (on_list (L Sleep) (wake ch)) (core s0)).
Proof.
  intros HI0. induction r as [|c r IH]; intros fuel d s Hl Hlen HI E.
  { rewrite app_nil_r in Hl. rewrite Hl. by destruct fuel; simpl; wp_steps. }
  destruct fuel as [|fuel]; simpl in *; [lia|].
  pose proof (rep_nodup _ _ (pi_rep _ _ _ HI0) Sleep) as Hnd. rewrite Hl in Hnd.
  apply NoDup_app in Hnd as (_ & Hdr & [Hcr _]%NoDup_cons).
  assert (c ∉ d) as Hcd by (intros Hc; apply (Hdr c Hc); set_solver).
  destruct (pi_member s0 L None Sleep c HI0) as (x0 & Hx0 & _); [rewrite Hl; set_solver|].
  assert (c ∈ wake_lists s0 ch d (c :: r) L Sleep) as Hcin by (simpl; set_solver).
  destruct (pi_member _ _ _ Sleep c HI Hcin) as (x & Hx & _).
  pose proof (on_list_core d _ s0 s c x0 x E Hx0 Hx Hcd) as Ex.
  assert (chan x = chan x0) as Ech by exact (f_equal chan Ex).
  assert (prio x = prio x0) as Epr by exact (f_equal prio Ex).
  wp_steps. apply (wp_getp _ _ x); [done|].
  rewrite (pi_next s _ None Sleep (filter (λ p, on_chan s0 ch p = false) d) c r x HI) by done.
  assert (on_chan s0 ch c = bool_decide (chan x = ch)) as Hon.
  { unfold on_chan. by rewrite Hx0, Ech. }
  assert (d ++ c :: r = (d ++ [c]) ++ r) as Eapp by (by rewrite <- app_assoc).
  case_decide as Hch.
  - rewrite bool_decide_eq_true_2 in Hon by done. wp_steps.
    eapply wp_mono; [by apply (wake_sleeper_spec s _ c x HI)|]. intros _ s' [HI' E'].
    apply (IH fuel (d ++ [c])); [by rewrite <- Eapp|lia| |].
    + eapply PInv_ext; [|exact HI']. intros id. rewrite Epr.
      by apply wake_lists_wake.
    + rewrite <- on_list_snoc, <- E, E' by done. apply upd_ext. intros y Hy.
      rewrite (core_lookup_Some s c x Hx) in Hy. injection Hy as <-. unfold wake.
      by rewrite decide_True by done.
  - rewrite bool_decide_eq_false_2 in Hon by done. wp_steps.
    apply (IH fuel (d ++ [c])); [by rewrite <- Eapp|lia| |].
    + eapply PInv_ext; [|exact HI]. intros id. by apply wake_lists_keep.
    + rewrite <- on_list_snoc, <- E by done. symmetry. apply upd_same. intros y Hy.
      rewrite (core_lookup_Some s c x Hx) in Hy. injection Hy as <-. unfold wake.
      by rewrite decide_False by done.
Qed.

(** Membership in a list is the state, so waking the sleep list is the scan. *)
Lemma pi_mem_iff s L p x id :
  PInv s L None → procs s !! p = Some x → p ∈ L id ↔ fits id x.
Proof.
  intros HI Hx. split; [intros Hp; by apply (pi_fits _ _ _ HI id p x)|]. intros [Hst Hpr].
  destruct (pi_cover _ _ _ HI p) as [?|[id' Hp]]; [|done|].
  { rewrite <- (rep_len _ _ (pi_rep _ _ _ HI)). by eapply lookup_lt_Some. }
  destruct (pi_fits _ _ _ HI id' p x Hp Hx) as [Hst' Hpr'].
  rewrite Hst in Hst'. destruct id, id'; simpl in *; congruence.
Qed.

Lemma wakeup1_abs s L ch :
  PInv s L None →
  wp (wakeup1 ch) s (λ _ s',
    PInv s' (wake_lists s ch (L Sleep) [] L) None ∧ core s' = wakeup1_scan ch (core s)).
Proof.
  intros HI. unfold wakeup1. wp_steps. apply (wp_head s L None); [done|done|].
  eapply wp_mono; [apply (wakeup1_loop_spec s L ch HI (L Sleep) NPROC [] s); [done|..]|].
  - by eapply pi_length.
  - eapply PInv_ext; [|exact HI]. intros id. destruct id; simpl; try done. apply app_nil_r.
  - by rewrite on_list_nil.
  - intros _ s' [HI' E']. split; [done|]. rewrite E'. apply mapp_ext. intros q y Hy.
    simpl in Hy. rewrite list_lookup_fmap in Hy. destruct (procs s !! q) as [x|] eqn:Hx; [|done].
    injection Hy as <-. unfold on_list, wake. simpl.
    pose proof (pi_mem_iff s L q x Sleep HI Hx) as Hq. unfold fits in Hq. simpl in Hq.
    repeat case_decide; tauto.
Qed.

(** ** Promotion *)

Definition bump (x : proc) : proc :=
  if decide (0 < prio x) then set_prio (prio x - 1) x else x.

(** What promotion does to the table: one level up for every process that is
    sleeping, running or runnable. *)
Definition promoted (x : proc) : proc :=
  match state x with SLEEPING | RUNNING | RUNNABLE => bump x | _ => x end.

(** Level [i] is appended to level [i-1]. *)
Definition promote_level (i : Z) (L : listid → list nat) : listid → list nat :=
  <[Ready i := []]> (<[Ready (i - 1) := L (Ready (i - 1)) ++ L (Ready i)]> L).

(** All levels together: level 0 keeps its processes first and is followed by
    level 1; every other level takes over the one below it. *)
Definition promote_lists (L : listid → list nat) (id : listid) : list nat :=
  match id with
  | Ready i =>
      if decide (i = 0) then L (Ready 0) ++ L (Ready 1)
      else if decide (1 ≤ i < Z.of_nat MAX) then L (Ready (i + 1)) else []
  | _ => L id
  end.

Lemma linkfree_bump : linkfree bump.
Proof. intros n y. unfold bump. simpl. by case_decide. Qed.

Lemma bump_prio_ok x : prio_ok x → prio_ok (bump x).
Proof. unfold prio_ok, bump. case_decide; simpl; lia. Qed.
Lemma bump_state x : state (bump x) = state x.
Proof. unfold bump. by case_decide. Qed.

Lemma promote_walk s L id :
  PInv s L None → valid_list id → id = Sleep ∨ id = Running →
  wp (walk id promote_one) s (λ _ s',
    PInv s' L None ∧ core s' = mapp (on_list (L id) bump) (core s)).
Proof.
  intros HI Hv Hid. apply list_iter_store; [done|done|apply linkfree_bump| |].
  - intros x [Hst _] Hpr. split; [|by apply bump_prio_ok]. split; [by rewrite bump_state|].
    by destruct Hid as [->| ->].
  - intros q s' g x _ _ Hx. by apply (wp_setp_upd _ _ _ x).
Qed.

(** Halfway through level [i]. *)
Definition level_lists (i : Z) (d r : list nat) (L : listid → list nat) : listid → list nat :=
  <[Ready i := r]> (<[Ready (i - 1) := L (Ready (i - 1)) ++ d]> L).

Lemma level_lists_step i d c r L id :
  c ∉ r →
  (<[Ready (i - 1) := take_out (Ready i) c (level_lists i d (c :: r) L) (Ready (i - 1)) ++ [c]]>
    (take_out (Ready i) c (level_lists i d (c :: r) L))) id = level_lists i (d ++ [c]) r L id.
Proof.
  intros Hc. unfold take_out, level_lists. rewrite !fn_insert_dec.
  assert (Ready i ≠ Ready (i - 1)) by (intros [= ?]; lia).
  rewrite !(decide_True (P := Ready i = Ready i)) by done.
  rewrite !(decide_True (P := Ready (i - 1) = Ready (i - 1))) by done.
  rewrite !(decide_False (P := Ready i = Ready (i - 1))) by done.
  destruct (decide (Ready i = id)) as [<-|].
  - rewrite decide_False by done. rewrite filter_cons_False, filter_ne_notin by tauto. done.
  - case_decide; [|done]. by rewrite app_assoc.
Qed.

Lemma promote_ready_loop_spec s0 L i :
  PInv s0 L None → 1 ≤ i → ∀ r fuel d s,
  L (Ready i) = d ++ r → (length r ≤ fuel)%nat →
  PInv s (level_lists i d r L) None → core s = mapp (on_list d bump) (core s0) →
  wp (promote_ready_loop fuel i (head r)) s (λ _ s',
    PInv s' (promote_level i L) None ∧
    core s' = mapp (on_list (L (Ready i)) bump) (core s0)).
Proof.
  intros HI0 Hi. induction r as [|c r IH]; intros fuel d s Hl Hlen HI E.
  { rewrite app_nil_r in Hl. unfold promote_level. rewrite Hl. by destruct fuel; simpl; wp_steps. }
  destruct fuel as [|fuel]; simpl in *; [lia|].
  pose proof (rep_nodup _ _ (pi_rep _ _ _ HI0) (Ready i)) as Hnd. rewrite Hl in Hnd.
  apply NoDup_app in Hnd as (_ & Hdr & [Hcr _]%NoDup_cons).
  assert (c ∉ d) as Hcd by (intros Hc; apply (Hdr c Hc); set_solver).
  assert (level_lists i d (c :: r) L (Ready i) = c :: r) as Hlev.
  { unfold level_lists. by rewrite fn_insert_dec, decide_True. }
  assert (c ∈ level_lists i d (c :: r) L (Ready i)) as Hcin by (rewrite Hlev; set_solver).
  destruct (pi_member _ _ _ _ c HI Hcin) as (x & Hx & [Hst Hpr]). simpl in Hst, Hpr.
  wp_steps. apply (wp_getp _ _ x); [done|]. rewrite (pi_next s _ None (Ready i) [] c r x HI) by done.
  wp_steps. apply (wp_assert _ _ _ x); [done|done|].
  pose proof (pi_prio _ _ _ HI c x Hx) as Hok. unfold prio_ok in Hok.
  apply (take_and_store s (level_lists i d (c :: r) L) (Ready i) c x); try done; [unfold prio_ok; simpl; lia|].
  intros s' x' HI' Hx' Ex' E'. wp_steps. apply (wp_getp _ _ x'); [done|]. wp_steps.
  assert (prio x' = i - 1) as Epr by (etrans; [exact (f_equal prio Ex')|simpl; lia]).
  assert (state x' = RUNNABLE) as Est by (etrans; [exact (f_equal state Ex')|done]).
  rewrite Epr. eapply wp_mono; [apply (addtail_inv s' _ (Ready (i - 1)) c x' HI'); [done|by split]|].
  intros _ s'' [HI'' E'']. apply (IH fuel (d ++ [c])); [by rewrite <- app_assoc|lia| |].
  - eapply PInv_ext; [|exact HI'']. intros id. symmetry. by apply level_lists_step.
  - rewrite <- on_list_snoc, <- E, E'', E' by done. apply upd_ext. intros y Hy.
    rewrite (core_lookup_Some s c x Hx) in Hy. injection Hy as <-. unfold bump. simpl.
    by rewrite decide_True by lia.
Qed.

(** After the levels 1 .. k. *)
Definition promote_upto (k : Z) (L : listid → list nat) (id : listid) : list nat :=
  match id with
  | Ready i =>
      if decide (k < i ∨ k < 1) then L (Ready i)
      else if decide (i = 0) then L (Ready 0) ++ L (Ready 1)
      else if decide (1 ≤ i < k) then L (Ready (i + 1)) else if decide (i = k) then [] else L (Ready i)
  | _ => L id
  end.
Definition bump_upto (k : Z) (x : proc) : proc :=
  if decide (state x = RUNNABLE ∧ 0 < prio x ≤ k) then bump x else x.

Lemma promote_upto_next k L id :
  0 ≤ k → promote_level (k + 1) (promote_upto k L) id = promote_upto (k + 1) L id.
Proof.
  intros Hk. unfold promote_level. rewrite !fn_insert_dec.
  destruct id as [i| | | | |]; simpl; try done.
  repeat case_decide; simplify_eq; try lia; try done.
  - by replace k with 0 by lia.
  - simpl. do 2 f_equal. lia.
  - match goal with Hn : Ready (k + 1 - 1) ≠ _ |- _ => destruct Hn end. f_equal. lia.
  - match goal with Hn : Ready (k + 1 - 1) ≠ _ |- _ => destruct Hn end. f_equal. lia.
Qed.

Lemma bump_upto_next s L k :
  PInv s L None → 0 ≤ k →
  mapp (on_list (L (Ready (k + 1))) bump) (mapp (λ _, bump_upto k) (core s)) =
  mapp (λ _, bump_upto (k + 1)) (core s).
Proof.
  intros HI Hk. apply (set_procs_ext (core s)). intros q. rewrite !list_lookup_imap.
  change (procs (mapp (λ _, bump_upto k) (core s)))
    with (imap (λ _, bump_upto k) (procs (core s))). rewrite list_lookup_imap.
  destruct (procs s !! q) as [x|] eqn:Hx; simpl; rewrite list_lookup_fmap, Hx; [|done].
  simpl. f_equal. unfold on_list, bump_upto. simpl.
  pose proof (pi_mem_iff s L q x (Ready (k + 1)) HI Hx) as Hq. unfold fits in Hq. simpl in Hq.
  assert (state x = RUNNABLE ∧ 0 < prio x ≤ k + 1 ↔
          (state x = RUNNABLE ∧ 0 < prio x ≤ k) ∨ (state x = RUNNABLE ∧ prio x = k + 1)) as Hor.
  { split; [intros [Hs Hr]|intros [[Hs Hr]|[Hs Hr]]; (split; [done|lia])].
    destruct (decide (prio x = k + 1)); [by right|left; split; [done|lia]]. }
  repeat case_decide; try tauto. destruct Hq as [Hq _]. destruct Hq; [done|lia].
Qed.

Lemma promote_ready_spec s0 L :
  PInv s0 L None → ∀ n k s, (k + n = MAX)%nat →
  PInv s (promote_upto (Z.of_nat k) L) None → core s = mapp (λ _, bump_upto (Z.of_nat k)) (core s0) →
  wp (promote_ready (Z.of_nat <$> seq (S k) n)) s (λ _ s',
    PInv s' (promote_upto (Z.of_nat MAX) L) None ∧
    core s' = mapp (λ _, bump_upto (Z.of_nat MAX)) (core s0)).
Proof.
  intros HI0. induction n as [|n IH]; intros k s Hkn HI E.
  { simpl. wp_steps. by replace k with MAX in * by lia. }
  simpl. wp_steps. replace (Z.of_nat (S k)) with (Z.of_nat k + 1) by lia.
  assert (1 ≤ Z.of_nat k + 1) as Hk1 by lia.
  assert (promote_upto (Z.of_nat k) L (Ready (Z.of_nat k + 1)) = L (Ready (Z.of_nat k + 1))) as Hl.
  { simpl. by rewrite decide_True by lia. }
  apply (wp_head s (promote_upto (Z.of_nat k) L) None); [done|unfold valid_list; lia|]. wp_steps.
  eapply wp_mono; [apply (promote_ready_loop_spec s _ (Z.of_nat k + 1) HI Hk1 _ NPROC [] s); [done|..]|].
  - by eapply pi_length.
  - eapply PInv_ext; [|exact HI]. intros id. unfold level_lists. rewrite !fn_insert_dec, app_nil_r.
    repeat case_decide; by subst.
  - by rewrite on_list_nil.
  - intros _ s' [HI' E']. apply IH; [lia| |].
    + eapply PInv_ext; [|exact HI']. intros id. replace (Z.of_nat (S k)) with (Z.of_nat k + 1) by lia.
      symmetry. apply promote_upto_next. lia.
    + rewrite E', Hl, E. replace (Z.of_nat (S k)) with (Z.of_nat k + 1) by lia.
      apply (bump_upto_next s0 L); [done|lia].
Qed.

Lemma promote_lists_upto L id :
  (∀ i, ¬ (0 ≤ i ≤ Z.of_nat MAX) → L (Ready i) = []) →
  promote_lists L id = promote_upto (Z.of_nat MAX) L id.
Proof.
  intros Hout. destruct id as [i| | | | |]; simpl; try done.
  unfold MAX in *. repeat case_decide; try lia; try done; symmetry; apply Hout; lia.
Qed.

Lemma pi_ready_range s L off i :
  PInv s L off → ¬ (0 ≤ i ≤ Z.of_nat MAX) → L (Ready i) = [].
Proof.
  intros HI Hi. destruct (L (Ready i)) as [|p l] eqn:E; [done|].
  destruct Hi. apply (pi_valid s L off (Ready i) p HI). rewrite E. set_solver.
Qed.

Lemma promoted_split s L :
  PInv s L None →
  mapp (λ _, bump_upto (Z.of_nat MAX)) (mapp (on_list (L Sleep ++ L Running) bump) (core s)) =
  mapp (λ _, promoted) (core s).
Proof.
  intros HI. apply (set_procs_ext (core s)). intros q. rewrite !list_lookup_imap.
  change (procs (mapp (on_list (L Sleep ++ L Running) bump) (core s)))
    with (imap (on_list (L Sleep ++ L Running) bump) (procs (core s))). rewrite list_lookup_imap.
  destruct (procs s !! q) as [x|] eqn:Hx; simpl; rewrite list_lookup_fmap, Hx; [|done].
  simpl. f_equal. unfold on_list, bump_upto, promoted.
  pose proof (pi_mem_iff s L q x Sleep HI Hx) as Hs. pose proof (pi_mem_iff s L q x Running HI Hx) as Hr.
  pose proof (elem_of_app (L Sleep) (L Running) q) as Happ.
  pose proof (pi_prio _ _ _ HI q x Hx) as [Hp0 Hp5]. unfold fits in *. simpl in Hs, Hr.
  set (y := set_next None x). assert (state y = state x ∧ prio y = prio x) as [Ey Ep] by done.
  destruct (decide (q ∈ L Sleep ++ L Running)) as [Hin|Hin].
  - rewrite decide_False; [|rewrite bump_state, Ey; intuition congruence].
    assert (state x = SLEEPING ∨ state x = RUNNING) as [Est|Est] by tauto; by rewrite Ey, Est.
  - rewrite Ey, Ep. destruct (state x) eqn:Est; try (rewrite decide_False by intuition congruence);
      try done; try tauto. case_decide; [done|]. unfold bump. rewrite Ep.
    rewrite decide_False; [done|]. intros ?. tauto.
Qed.

(** Promotion as a whole. *)
Lemma promote_abs s L :
  PInv s L None →
  wp promote s (λ _ s', PInv s' (promote_lists L) None ∧
    core s' = set_PromoteAtTime (u32 (ticks s + TICKS_TO_PROMOTE)) (mapp (λ _, promoted) (core s))).
Proof.
  intros HI. unfold promote. wp_steps.
  eapply wp_mono; [apply (promote_walk s L Sleep HI); by auto|]. intros _ s1 [HI1 E1]. wp_steps.
  eapply wp_mono; [apply (promote_walk s1 L Running HI1); by auto|]. intros _ s2 [HI2 E2]. wp_steps.
  rewrite E1, on_list_app in E2
    by (intros q Hq Hq'; by pose proof (rep_disj _ _ (pi_rep _ _ _ HI) Sleep Running q Hq Hq')).
  eapply wp_mono; [apply (promote_ready_spec s2 L HI2 MAX 0 s2); [done|..]|].
  - eapply PInv_ext; [|exact HI2]. intros [i| | | | |]; simpl; [by rewrite decide_True by lia|done..].
  - rewrite <- (mapp_id (core s2)) at 1. apply mapp_ext. intros q x _. unfold bump_upto.
    rewrite decide_False by (simpl; lia). done.
  - intros _ s3 [HI3 E3]. wp_steps. rewrite E2, (promoted_split s L HI) in E3. split.
    + eapply (PInv_ext _ (promote_upto (Z.of_nat MAX) L)); [|by apply (PInv_frame s3)].
      intros id. apply promote_lists_upto. intros i. by apply (pi_ready_range s L None).
    + assert (ticks s3 = ticks s) as -> by exact (f_equal ticks E3).
      change (core (set_PromoteAtTime ?v s3)) with (set_PromoteAtTime v (core s3)). by rewrite E3.
Qed.
End ProcWake.
