(* ===== verification/KInv.v ===== *)
(** * The kernel invariant around the process table

    [KernelLaws] states what proc.c relies on in the allocator, the page
    tables, the file table and the inode cache.  [VFacts] collects the facts
    about processes that hold between kernel operations; it reads only a
    [pview] of each process, so that operations which change priorities,
    budgets or channels keep it for free.  [HwIdle] and [HwHeld] describe the
    CPUs outside and inside a critical section. *)

From S2P Require Import Prelude Spinlock CString ProcState ProcList Proc ProcInv ProcWake.

Local Open Scope Z_scope.

(** ** What the rest of the kernel promises *)

Class KernelLaws `{KernelEnv} := {
  env_ok : env → Prop;
  held : env → Z → Prop;               (* pages handed out as kernel stacks *)
  vm_size : env → Z → option Z;        (* live address spaces and their size *)
  frefs : env → nat → nat;             (* references processes hold to a file *)
  irefs : env → nat → nat;             (* references processes hold to a cwd *)
  ops : env → nat;                     (* file system operations under way *)

  law_kalloc e : env_ok e → wp kalloc e (λ r e',
    env_ok e' ∧ vm_size e' = vm_size e ∧ frefs e' = frefs e ∧ irefs e' = irefs e ∧ ops e' = ops e ∧
    match r with
    | Some a => ¬ held e a ∧ ∀ b, held e' b ↔ b = a ∨ held e b
    | None => held e' = held e
    end);
  law_kfree e a : env_ok e → held e a → wp (kfree a) e (λ _ e',
    env_ok e' ∧ vm_size e' = vm_size e ∧ frefs e' = frefs e ∧ irefs e' = irefs e ∧ ops e' = ops e ∧
    ∀ b, held e' b ↔ b ≠ a ∧ held e b);
  law_setupkvm e : env_ok e → wp setupkvm e (λ r e',
    env_ok e' ∧ held e' = held e ∧ frefs e' = frefs e ∧ irefs e' = irefs e ∧ ops e' = ops e ∧
    match r with
    | Some pg => vm_size e pg = None ∧ vm_size e' = <[pg := Some 0]> (vm_size e)
    | None => vm_size e' = vm_size e
    end);
  law_inituvm e pg : env_ok e → vm_size e pg = Some 0 → wp (inituvm pg) e (λ _ e',
    env_ok e' ∧ held e' = held e ∧ frefs e' = frefs e ∧ irefs e' = irefs e ∧ ops e' = ops e ∧
    vm_size e' = <[pg := Some PGSIZE]> (vm_size e));
  law_copyuvm e pg n : env_ok e → vm_size e pg = Some n → wp (copyuvm (Some pg) n) e (λ r e',
    env_ok e' ∧ held e' = held e ∧ frefs e' = frefs e ∧ irefs e' = irefs e ∧ ops e' = ops e ∧
    match r with
    | Some pg' => vm_size e pg' = None ∧ vm_size e' = <[pg' := Some n]> (vm_size e)
    | None => vm_size e' = vm_size e
    end);
  law_allocuvm e pg old new : env_ok e → vm_size e pg = Some old →
    wp (allocuvm (Some pg) old new) e (λ r e',
    env_ok e' ∧ held e' = held e ∧ frefs e' = frefs e ∧ irefs e' = irefs e ∧ ops e' = ops e ∧
    vm_size e' = if decide (r = 0) then vm_size e else <[pg := Some r]> (vm_size e));
  law_deallocuvm e pg old new : env_ok e → vm_size e pg = Some old →
    wp (deallocuvm (Some pg) old new) e (λ r e',
    env_ok e' ∧ held e' = held e ∧ frefs e' = frefs e ∧ irefs e' = irefs e ∧ ops e' = ops e ∧
    vm_size e' = <[pg := Some r]> (vm_size e) ∧ r = if decide (old ≤ new) then old else new);
  law_freevm e pg n : env_ok e → vm_size e pg = Some n → wp (freevm (Some pg)) e (λ _ e',
    env_ok e' ∧ held e' = held e ∧ frefs e' = frefs e ∧ irefs e' = irefs e ∧ ops e' = ops e ∧
    vm_size e' = <[pg := None]> (vm_size e));
  law_filedup e f : env_ok e → (1 ≤ frefs e f)%nat → wp (filedup f) e (λ _ e',
    env_ok e' ∧ held e' = held e ∧ vm_size e' = vm_size e ∧ irefs e' = irefs e ∧ ops e' = ops e ∧
    frefs e' = <[f := S (frefs e f)]> (frefs e));
  law_fileclose e f : env_ok e → (1 ≤ frefs e f)%nat → wp (fileclose f) e (λ _ e',
    env_ok e' ∧ held e' = held e ∧ vm_size e' = vm_size e ∧ irefs e' = irefs e ∧ ops e' = ops e ∧
    frefs e' = <[f := pred (frefs e f)]> (frefs e));
  law_idup e i : env_ok e → (1 ≤ irefs e i)%nat → wp (idup i) e (λ _ e',
    env_ok e' ∧ held e' = held e ∧ vm_size e' = vm_size e ∧ frefs e' = frefs e ∧ ops e' = ops e ∧
    irefs e' = <[i := S (irefs e i)]> (irefs e));
  law_iput e i : env_ok e → (1 ≤ irefs e i)%nat → (1 ≤ ops e)%nat → wp (iput i) e (λ _ e',
    env_ok e' ∧ held e' = held e ∧ vm_size e' = vm_size e ∧ frefs e' = frefs e ∧ ops e' = ops e ∧
    irefs e' = <[i := pred (irefs e i)]> (irefs e));
  law_begin_op e : env_ok e → wp begin_op e (λ _ e',
    env_ok e' ∧ held e' = held e ∧ vm_size e' = vm_size e ∧ frefs e' = frefs e ∧ irefs e' = irefs e ∧
    ops e' = S (ops e));
  law_end_op e : env_ok e → (1 ≤ ops e)%nat → wp end_op e (λ _ e',
    env_ok e' ∧ held e' = held e ∧ vm_size e' = vm_size e ∧ frefs e' = frefs e ∧ irefs e' = irefs e ∧
    ops e' = pred (ops e));
  law_namei_root e : env_ok e → wp namei_root e (λ r e',
    env_ok e' ∧ held e' = held e ∧ vm_size e' = vm_size e ∧ frefs e' = frefs e ∧ ops e' = ops e ∧
    ∃ i, r = Some i ∧ irefs e' = <[i := S (irefs e i)]> (irefs e));
  law_iinit e : env_ok e → wp iinit e (λ _ e',
    env_ok e' ∧ held e' = held e ∧ vm_size e' = vm_size e ∧ frefs e' = frefs e ∧
    irefs e' = irefs e ∧ ops e' = ops e);
  law_initlog e : env_ok e → wp initlog e (λ _ e',
    env_ok e' ∧ held e' = held e ∧ vm_size e' = vm_size e ∧ frefs e' = frefs e ∧
    irefs e' = irefs e ∧ ops e' = ops e)
}.

(** ** What the invariant sees of a process *)

Inductive cls := CFree | CEmbryo | CWait | CRun | CZombie.
#[export] Instance cls_eq_dec : EqDecision cls.
Proof. solve_decision. Defined.

Definition class_of (st : procstate) : cls :=
  match st with
  | UNUSED => CFree | EMBRYO => CEmbryo | SLEEPING | RUNNABLE => CWait
  | RUNNING => CRun | ZOMBIE => CZombie
  end.
Definition live (c : cls) : Prop := c = CWait ∨ c = CRun.

(** Saved contexts the scheduler may switch to: not the end of [exit], and not
    a [sleep] on ptable.lock itself other than the one in [wait]. *)
Definition resumable (k : kcontext) : bool :=
  match k with CtxExit => false | CtxSleep (Some Lptable) _ => false | _ => true end.

Record pview := mkView {
  v_cls : cls;
  v_parent : option nat;
  v_kstack : option Z;
  v_pgdir : option Z;
  v_sz : Z;
  v_ofile : list (option nat);
  v_cwd : option nat;
  v_name : nat;              (* the length of the name array *)
  v_ctx : bool;
  v_eprio : Z                (* the priority of an EMBRYO *)
}.

Definition kview (x : proc) : pview :=
  mkView (class_of (state x)) (parent x) (kstack x) (pgdir x) (sz x) (ofile x) (cwd x)
    (length (name x)) (resumable (context x))
    (if decide (state x = EMBRYO) then prio x else 0).

(** How many of the file descriptors are file [f]. *)
Definition fd_count (f : nat) (fds : list (option nat)) : nat :=
  length (filter (.= Some f) fds).
Definition cwd_count (i : nat) (c : option nat) : nat := if decide (c = Some i) then 1 else 0.
Definition sum_over (g : pview → nat) (vs : list pview) : nat := sum_list (g <$> vs).

Section KInv.
Context `{KL : KernelLaws}.

Definition bare (v : pview) : Prop := v_ofile v = replicate NOFILE None ∧ v_cwd v = None.
Definition stack_ok (e : env) (v : pview) : Prop := ∃ a, v_kstack v = Some a ∧ held e a.
Definition vm_ok (e : env) (v : pview) : Prop :=
  ∃ pg, v_pgdir v = Some pg ∧ vm_size e pg = Some (v_sz v).

(** The resources a process has, by its state.  A running process without a
    current directory is on its way out through [exit]. *)
Definition vok (e : env) (v : pview) : Prop :=
  length (v_ofile v) = NOFILE ∧ v_name v = 16%nat ∧
  match v_cls v with
  | CFree => bare v ∧ v_kstack v = None
  | CEmbryo => bare v ∧ stack_ok e v ∧ v_ctx v = true ∧ v_eprio v = 0
  | CWait => v_cwd v ≠ None ∧ stack_ok e v ∧ vm_ok e v ∧ v_ctx v = true
  | CRun => (v_cwd v ≠ None ∨ bare v) ∧ stack_ok e v ∧ vm_ok e v
  | CZombie => bare v ∧ stack_ok e v ∧ vm_ok e v
  end.

(** The address space a process owns. *)
Definition space (v : pview) : option Z :=
  match v_cls v with CFree | CEmbryo => None | _ => v_pgdir v end.

Definition apart {A} (a b : option A) : Prop := a = b → a = None.

Record VFacts (vs : list pview) (ini : option nat) (e : env) : Prop := {
  vf_env : env_ok e;
  vf_loc p v : vs !! p = Some v → vok e v;
  vf_stack p q v w : vs !! p = Some v → vs !! q = Some w → p ≠ q → apart (v_kstack v) (v_kstack w);
  vf_space p q v w : vs !! p = Some v → vs !! q = Some w → p ≠ q → apart (space v) (space w);
  vf_init ip : ini = Some ip → ∃ v, vs !! ip = Some v ∧ live (v_cls v);
  vf_family p v : vs !! p = Some v → live (v_cls v) ∨ v_cls v = CZombie →
    ini = Some p ∨ ∃ q w, v_parent v = Some q ∧ vs !! q = Some w ∧ live (v_cls w);
  vf_files f : (sum_over (λ v, fd_count f (v_ofile v)) vs ≤ frefs e f)%nat;
  vf_cwds i : (sum_over (λ v, cwd_count i (v_cwd v)) vs ≤ irefs e i)%nat
}.

(** The RUNNING processes are the current processes of the CPUs, one each. *)
Record OnCpu (vs : list pview) (po : list (option nat)) : Prop := {
  oc_run p : (∃ v, vs !! p = Some v ∧ v_cls v = CRun) ↔ ∃ i : nat, po !! i = Some (Some p);
  oc_one (i j : nat) p : po !! i = Some (Some p) → po !! j = Some (Some p) → i = j
}.

Definition kviews (s : kst) : list pview := kview <$> procs s.
Definition procs_on (h : hw) : list (option nat) := cpu_proc <$> cpus h.

(** ** Views under updates *)

Lemma kviews_lookup s p : kviews s !! p = kview <$> procs s !! p.
Proof. apply list_lookup_fmap. Qed.

Lemma kviews_core s : kviews (core s) = kviews s.
Proof.
  apply list_eq. intros p. rewrite !kviews_lookup. simpl. rewrite list_lookup_fmap.
  by destruct (procs s !! p).
Qed.

Lemma kviews_upd p f s x :
  procs s !! p = Some x → kviews (upd p f s) = <[p := kview (f x)]> (kviews s).
Proof.
  intros Hx. apply list_eq. intros q. rewrite kviews_lookup, upd_lookup.
  destruct (decide (q = p)) as [->|Hq].
  - rewrite list_lookup_insert_eq, Hx; [done|]. unfold kviews; rewrite length_fmap. by eapply lookup_lt_Some.
  - rewrite list_lookup_insert_ne by done. rewrite kviews_lookup. by destruct (procs s !! q).
Qed.

Lemma kviews_mapp f s : (∀ q x, kview (f q x) = kview x) → kviews (mapp f s) = kviews s.
Proof.
  intros Hf. apply list_eq. intros q. rewrite !kviews_lookup, mapp_lookup.
  destruct (procs s !! q); simpl; [|done]. by rewrite Hf.
Qed.

Lemma kviews_upd_same p f s : (∀ x, kview (f x) = kview x) → kviews (upd p f s) = kviews s.
Proof.
  intros Hf. apply list_eq. intros q. rewrite !kviews_lookup, upd_lookup.
  destruct (procs s !! q); simpl; [|done]. case_decide; [by rewrite Hf|done].
Qed.

Lemma list_insert_same {A} (l : list A) p v w : l !! p = Some v → w = v → <[p := w]> l = l.
Proof. intros Hp ->. by apply list_insert_id. Qed.

(** Sums when one process changes. *)
Lemma sum_over_insert g vs p v w :
  vs !! p = Some v → (sum_over g (<[p := w]> vs) + g v = sum_over g vs + g w)%nat.
Proof.
  unfold sum_over. revert p. induction vs as [|u vs IH]; intros [|p] Hp; simplify_eq/=; [lia|].
  specialize (IH p Hp). lia.
Qed.

Lemma sum_over_lookup g vs p v : vs !! p = Some v → (g v ≤ sum_over g vs)%nat.
Proof.
  unfold sum_over. revert p. induction vs as [|u vs IH]; intros [|p] Hp; simplify_eq/=; [lia|].
  specialize (IH p Hp). lia.
Qed.

Lemma sum_over_insert_same g vs p v w :
  vs !! p = Some v → g w = g v → sum_over g (<[p := w]> vs) = sum_over g vs.
Proof. intros Hp E. pose proof (sum_over_insert g vs p v w Hp). lia. Qed.

Lemma fd_count_insert f fds fd old new :
  fds !! fd = Some old →
  (fd_count f (<[fd := new]> fds) + fd_count f [old] = fd_count f fds + fd_count f [new])%nat.
Proof.
  unfold fd_count. revert fd. induction fds as [|u fds IH]; intros [|fd] Hp; simplify_eq/=.
  - rewrite !filter_cons, filter_nil. repeat case_decide; simpl; lia.
  - specialize (IH fd Hp). rewrite !filter_cons, filter_nil in *.
    repeat case_decide; simpl in *; lia.
Qed.

(** ** CPUs *)

Definition lock_free : spinlock := mkSpinlock false None.
Definition others_idle (h : hw) : Prop :=
  ∀ i c, cpus h !! i = Some c → i ≠ mycpu h → ncli c = 0.

(** Outside critical sections. *)
Record HwIdle (h : hw) : Prop := {
  hi_cpu : ∃ c, cpu_of h = Some c ∧ ncli c = 0;
  hi_others : others_idle h;
  hi_locks lk : locks h lk = lock_free
}.

(** This CPU holds exactly the lock [lk]. *)
Record HwHeld (lk : lockid) (h : hw) : Prop := {
  hh_cpu : ∃ c, cpu_of h = Some c ∧ ncli c = 1 ∧ fl_if c = false;
  hh_others : others_idle h;
  hh_lock : locks h lk = mkSpinlock true (Some (mycpu h));
  hh_locks lk' : lk' ≠ lk → locks h lk' = lock_free
}.

(** Same CPUs running the same processes. *)
Definition same_cpus (h h' : hw) : Prop := procs_on h' = procs_on h ∧ mycpu h' = mycpu h.

Lemma procs_on_with h c c' :
  cpu_of h = Some c → procs_on (hw_with c' h) = <[mycpu h := cpu_proc c']> (procs_on h).
Proof. intros Hc. apply list_fmap_insert. Qed.

Lemma procs_on_my h c : cpu_of h = Some c → procs_on h !! mycpu h = Some (cpu_proc c).
Proof. intros Hc. unfold procs_on. rewrite list_lookup_fmap. unfold cpu_of in Hc. by rewrite Hc. Qed.

Lemma others_idle_with h c : others_idle h → others_idle (hw_with c h).
Proof.
  intros Ho i c'. unfold hw_with. simpl. intros Hc Hi.
  rewrite list_lookup_insert_ne in Hc by done. by apply (Ho i).
Qed.

Lemma same_cpus_with h c c' :
  cpu_of h = Some c → cpu_proc c' = cpu_proc c → same_cpus h (hw_with c' h).
Proof.
  intros Hc E. split; [|done]. rewrite (procs_on_with h c c' Hc), E.
  apply list_insert_id. by apply procs_on_my.
Qed.

Lemma wp_lift_hw {A} (m : M hw A) s (Q : A → kst → Prop) :
  wp m (khw s) (λ a h, Q a (set_khw h s)) → wp (lift_hw m) s Q.
Proof. apply wp_zoom. Qed.

Lemma acquire_idle h lk :
  HwIdle h → wp (acquire lk) h (λ _ h', HwHeld lk h' ∧ same_cpus h h').
Proof.
  intros [(c & Hc & Hn) Ho Hl]. eapply wp_Ret; [apply (acquire_spec h c); [done|by rewrite Hl]|].
  split; [|by apply (same_cpus_with h c)]. split.
  - exists (cpu_push c). split; [by eapply (cpu_of_with c)|]. unfold cpu_push. simpl. rewrite Hn. done.
  - by apply others_idle_with.
  - simpl. by rewrite fn_insert_dec, decide_True.
  - intros lk' Hne. simpl. by rewrite fn_insert_dec, decide_False by done.
Qed.

Lemma release_held h lk :
  HwHeld lk h → wp (release lk) h (λ _ h', HwIdle h' ∧ same_cpus h h').
Proof.
  intros [(c & Hc & Hn & Hf) Ho Hl Hls].
  eapply wp_Ret; [apply (release_spec h c); [done|done|lia|done]|].
  split; [|by apply (same_cpus_with (upd_lock _ _ (upd_lock _ _ h)) c)]. split.
  - exists (cpu_pop c). split; [by eapply (cpu_of_with c)|]. unfold cpu_pop. simpl. lia.
  - by apply (others_idle_with (upd_lock _ _ (upd_lock _ _ h))).
  - intros lk'. simpl. rewrite !fn_insert_dec. case_decide; [done|]. by apply Hls.
Qed.

(** The hand-over in [sleep]: take ptable.lock, then give up [lk]. *)
Lemma acquire_release_held h lk :
  HwHeld lk h → lk ≠ Lptable →
  wp (acquire Lptable) h (λ _ h1, wp (release lk) h1 (λ _ h2, HwHeld Lptable h2 ∧ same_cpus h h2)).
Proof.
  intros [(c & Hc & Hn & Hf) Ho Hl Hls] Hne.
  eapply wp_Ret; [apply (acquire_spec h c); [done|by rewrite Hls]|].
  set (h1 := upd_lock Lptable _ (hw_with (cpu_push c) h)).
  assert (cpu_of h1 = Some (cpu_push c)) as Hc1 by (by eapply (cpu_of_with c)).
  eapply wp_Ret; [apply (release_spec h1 (cpu_push c)); [done|done|simpl; lia|]|].
  { simpl. by rewrite fn_insert_dec, decide_False. }
  assert (cpu_pop (cpu_push c) = c) as Epp.
  { destruct c as [n ie fl pr]. unfold cpu_pop, cpu_push. simpl in *. subst. done. }
  rewrite Epp. split.
  - split.
    + exists c. split; [by eapply (cpu_of_with (cpu_push c))|done].
    + apply others_idle_with. intros i c'. simpl. apply (others_idle_with h (cpu_push c) Ho).
    + simpl. rewrite !fn_insert_dec. by rewrite !decide_False, decide_True by done.
    + intros lk' Hlk'. simpl. rewrite !fn_insert_dec. case_decide; [done|].
      rewrite !decide_False by done. by apply Hls.
  - split; [|done]. unfold procs_on. simpl. rewrite list_insert_insert_eq, list_fmap_insert.
    apply list_insert_id. by apply procs_on_my.
Qed.

(** Changes to this CPU's record that keep the lock discipline. *)
Lemma upd_cpu_held h lk f :
  HwHeld lk h → (∀ c, ncli (f c) = ncli c ∧ fl_if (f c) = fl_if c) → HwHeld lk (upd_cpu f h).
Proof.
  intros [(c & Hc & Hn & Hf) Ho Hl Hls] Hcf. rewrite (upd_cpu_with f c h Hc). split.
  - exists (f c). split; [by eapply cpu_of_with|]. destruct (Hcf c) as [-> ->]. done.
  - by apply others_idle_with.
  - done.
  - done.
Qed.

Lemma procs_on_upd h f c :
  cpu_of h = Some c → procs_on (upd_cpu f h) = <[mycpu h := cpu_proc (f c)]> (procs_on h).
Proof. intros Hc. rewrite (upd_cpu_with f c h Hc). by apply procs_on_with with c. Qed.

Lemma sti_idle h : HwIdle h → wp sti h (λ _ h', HwIdle h' ∧ same_cpus h h').
Proof.
  intros [(c & Hc & Hn) Ho Hl]. unfold sti. wp_steps. rewrite (upd_cpu_with _ c h Hc).
  split; [|by apply (same_cpus_with h c)]. split; [|by apply others_idle_with|done].
  exists (set_fl_if true c). split; [by eapply cpu_of_with|done].
Qed.

Lemma proc_of_on s p : proc_of s = Some p ↔ procs_on (khw s) !! mycpu (khw s) = Some (Some p).
Proof.
  unfold proc_of, procs_on, cpu_of. rewrite list_lookup_fmap.
  destruct (cpus (khw s) !! mycpu (khw s)) as [c|]; simpl; [|done]. split; congruence.
Qed.

(** ** One process changes *)

Lemma apart_sym {A} (a b : option A) : apart a b → apart b a.
Proof. unfold apart. intros Ha <-. by apply Ha. Qed.

Lemma insert_lookup_cases {A} (l : list A) p w q u :
  <[p := w]> l !! q = Some u → (q = p ∧ u = w) ∨ (q ≠ p ∧ l !! q = Some u).
Proof.
  destruct (decide (q = p)) as [->|Hq].
  - intros Hu. left. split; [done|]. rewrite list_lookup_insert_eq in Hu; [congruence|].
    rewrite <- (length_insert l p w). by eapply lookup_lt_Some.
  - rewrite list_lookup_insert_ne by done. by right.
Qed.

Definition kin (c : cls) : Prop := live c ∨ c = CZombie.

Lemma VFacts_update vs ini e e' p v w :
  VFacts vs ini e → vs !! p = Some v → env_ok e' → vok e' w →
  (∀ q u, q ≠ p → vs !! q = Some u → vok e' u ∧
    apart (v_kstack w) (v_kstack u) ∧ apart (space w) (space u)) →
  (ini = Some p → live (v_cls w)) →
  (kin (v_cls w) → ini = Some p ∨ ∃ q u,
    v_parent w = Some q ∧ <[p := w]> vs !! q = Some u ∧ live (v_cls u)) →
  (live (v_cls w) ∨ ∀ q u, q ≠ p → vs !! q = Some u → kin (v_cls u) → ini ≠ Some q →
    v_parent u ≠ Some p) →
  (∀ f, frefs e f + fd_count f (v_ofile w) ≤ frefs e' f + fd_count f (v_ofile v))%nat →
  (∀ i, irefs e i + cwd_count i (v_cwd w) ≤ irefs e' i + cwd_count i (v_cwd v))%nat →
  VFacts (<[p := w]> vs) ini e'.
Proof.
  intros HV Hv He Hw Hoth Hini Hkin Hpar Hf Hc. split.
  - done.
  - intros q u [[-> ->]|[Hq Hu]]%insert_lookup_cases; [done|]. by destruct (Hoth q u).
  - intros a b ua ub [[-> ->]|[Ha Hua]]%insert_lookup_cases [[-> ->]|[Hb Hub]]%insert_lookup_cases Hab;
      [done|by destruct (Hoth b ub) as (_ & ? & _)| |by apply (vf_stack _ _ _ HV a b)].
    apply apart_sym. by destruct (Hoth a ua) as (_ & ? & _).
  - intros a b ua ub [[-> ->]|[Ha Hua]]%insert_lookup_cases [[-> ->]|[Hb Hub]]%insert_lookup_cases Hab;
      [done|by destruct (Hoth b ub) as (_ & _ & ?)| |by apply (vf_space _ _ _ HV a b)].
    apply apart_sym. by destruct (Hoth a ua) as (_ & _ & ?).
  - intros ip Hip. destruct (vf_init _ _ _ HV ip Hip) as (u & Hu & Hl).
    destruct (decide (ip = p)) as [->|Hne].
    + exists w. split; [|auto]. apply list_lookup_insert_eq. by eapply lookup_lt_Some.
    + exists u. by rewrite list_lookup_insert_ne by done.
  - intros q u [[-> ->]|[Hq Hu]]%insert_lookup_cases Hk; [by apply Hkin|].
    destruct (vf_family _ _ _ HV q u Hu Hk) as [?|(r & z & Hr & Hz & Hlz)]; [by left|].
    destruct (decide (r = p)) as [->|Hne].
    + destruct (decide (ini = Some q)) as [?|Hnq]; [by left|right].
      destruct Hpar as [Hlw|Hno]; [|by destruct (Hno q u)].
      exists p, w. split; [done|]. split; [|done]. apply list_lookup_insert_eq. by eapply lookup_lt_Some.
    + right. exists r, z. by rewrite list_lookup_insert_ne by done.
  - intros f. pose proof (sum_over_insert (λ v, fd_count f (v_ofile v)) vs p v w Hv).
    pose proof (vf_files _ _ _ HV f). specialize (Hf f). simpl in *. lia.
  - intros i. pose proof (sum_over_insert (λ v, cwd_count i (v_cwd v)) vs p v w Hv).
    pose proof (vf_cwds _ _ _ HV i). specialize (Hc i). simpl in *. lia.
Qed.

(** A live process moves between CWait and CRun. *)
Lemma VFacts_move vs ini e p v w :
  VFacts vs ini e → vs !! p = Some v → live (v_cls v) → live (v_cls w) → vok e w →
  v_parent w = v_parent v → v_kstack w = v_kstack v → v_pgdir w = v_pgdir v →
  v_ofile w = v_ofile v → v_cwd w = v_cwd v →
  VFacts (<[p := w]> vs) ini e.
Proof.
  intros HV Hv Hlv Hlw Hw Ep Ek Epg Eo Ec. eapply (VFacts_update vs ini e e p v w); try done.
  - apply HV.
  - intros q u Hq Hu. split; [by apply (vf_loc _ _ _ HV q)|]. rewrite Ek. split.
    + by apply (vf_stack _ _ _ HV p q).
    + replace (space w) with (space v); [by apply (vf_space _ _ _ HV p q)|].
      unfold space. rewrite Epg. by destruct Hlv as [->| ->], Hlw as [->| ->].
  - intros _. destruct (vf_family _ _ _ HV p v Hv) as [?|(q & u & Hq & Hu & Hl)]; [by left|by left|right].
    rewrite Ep. destruct (decide (q = p)) as [->|Hne].
    + exists p, w. split; [done|]. split; [|done]. apply list_lookup_insert_eq. by eapply lookup_lt_Some.
    + exists q, u. by rewrite list_lookup_insert_ne by done.
  - by left.
  - intros f. rewrite Eo. lia.
  - intros i. rewrite Ec. lia.
Qed.

Lemma OnCpu_out vs (po : list (option nat)) i p w :
  OnCpu vs po → po !! i = Some (Some p) → v_cls w ≠ CRun → OnCpu (<[p := w]> vs) (<[i := None]> po).
Proof.
  intros [Hr Ho] Hi Hw. split.
  - intros q. split.
    + intros (u & Hu & Hcu). apply insert_lookup_cases in Hu as [[-> ->]|[Hq Hu]]; [done|].
      destruct (proj1 (Hr q)) as [j Hj]; [eauto|]. exists j.
      rewrite list_lookup_insert_ne; [done|]. intros <-. congruence.
    + intros [j Hj]. apply insert_lookup_cases in Hj as [[_ ?]|[Hji Hj]]; [done|].
      destruct (proj2 (Hr q)) as (u & Hu & Hcu); [eauto|]. exists u.
      rewrite list_lookup_insert_ne; [done|]. intros <-. by apply Hji, (Ho j i p).
  - intros a b q Ha Hb. apply insert_lookup_cases in Ha as [[_ ?]|[? Ha]]; [done|].
    apply insert_lookup_cases in Hb as [[_ ?]|[? Hb]]; [done|]. by apply (Ho a b q).
Qed.

Lemma OnCpu_in vs (po : list (option nat)) i p v w :
  OnCpu vs po → po !! i = Some None → vs !! p = Some v → v_cls v ≠ CRun → v_cls w = CRun →
  OnCpu (<[p := w]> vs) (<[i := Some p]> po).
Proof.
  intros [Hr Ho] Hi Hv Hvc Hwc.
  assert (∀ j, po !! j ≠ Some (Some p)) as Hnp.
  { intros j Hj. destruct (proj2 (Hr p)) as (u & Hu & Hcu); [eauto|]. congruence. }
  split.
  - intros q. destruct (decide (q = p)) as [->|Hq].
    + split; [intros _; exists i; apply list_lookup_insert_eq; by eapply lookup_lt_Some|].
      intros _. exists w. split; [|done]. apply list_lookup_insert_eq. by eapply lookup_lt_Some.
    + rewrite list_lookup_insert_ne by done. rewrite Hr. split; intros [j Hj]; exists j.
      * rewrite list_lookup_insert_ne; [done|]. intros <-. congruence.
      * apply insert_lookup_cases in Hj as [[-> ?]|[? Hj]]; [congruence|done].
  - intros a b q Ha Hb. apply insert_lookup_cases in Ha as [[-> ?]|[? Ha]];
      apply insert_lookup_cases in Hb as [[-> ?]|[? Hb]]; simplify_eq; try done.
    + by destruct (Hnp b).
    + by destruct (Hnp a).
    + by apply (Ho a b q).
Qed.

Lemma OnCpu_same vs po p v w :
  OnCpu vs po → vs !! p = Some v → (v_cls w = CRun ↔ v_cls v = CRun) → OnCpu (<[p := w]> vs) po.
Proof.
  intros [Hr Ho] Hv Hvw. split; [|done]. intros q. rewrite <- Hr. split.
  - intros (u & [[-> ->]|[? Hu]]%insert_lookup_cases & Hcu); [|eauto]. exists v. tauto.
  - intros (u & Hu & Hcu). destruct (decide (q = p)) as [->|Hq].
    + exists w. split; [apply list_lookup_insert_eq; by eapply lookup_lt_Some|]. simplify_eq. tauto.
    + exists u. by rewrite list_lookup_insert_ne by done.
Qed.
End KInv.
