(* ===== verification/ProcSafe.v ===== *)
(** * Safety of the process operations

    Every routine of proc.c, started in a state that satisfies the kernel
    invariant, returns (no panic, no wild access, no endless loop) and
    re-establishes the invariant. *)

From S2P Require Import Prelude Spinlock CString ProcState ProcList Proc ProcInv ProcWake KInv.

Local Open Scope Z_scope.

Section ProcSafe.
Context `{KL : KernelLaws}.

(** The lists, the CPUs, and the facts about the processes seen as [vs]. *)
Record GoodV (Hw : hw → Prop) (s : kst) (L : listid → list nat) (vs : list pview) : Prop := {
  g_p : PInv s L None;
  g_v : VFacts vs (initproc s) (kenv s);
  g_c : OnCpu vs (procs_on (khw s));
  g_h : Hw (khw s)
}.
#[local] Arguments g_p {_ _ _ _}.
#[local] Arguments g_v {_ _ _ _}.
#[local] Arguments g_c {_ _ _ _}.
#[local] Arguments g_h {_ _ _ _}.

Definition Good (Hw : hw → Prop) (s : kst) (L : listid → list nat) : Prop :=
  GoodV Hw s L (kviews s).

(** Every running process has its current directory; only [exit] drops it. *)
Definition has_cwd (vs : list pview) : Prop :=
  ∀ p v, vs !! p = Some v → v_cls v = CRun → v_cwd v ≠ None.

(** ** Frames *)

Lemma good_frame Hw s s' L L' vs :
  GoodV Hw s L vs → PInv s' L' None → initproc s' = initproc s →
  kenv s' = kenv s → khw s' = khw s → GoodV Hw s' L' vs.
Proof. intros [HP HV HC HH] HP' E2 E3 E4. split; by rewrite ?E2, ?E3, ?E4. Qed.

Lemma kviews_core_eq s s' c : core s' = c → kviews c = kviews s → kviews s' = kviews s.
Proof. intros E <-. by rewrite <- E, kviews_core. Qed.

Lemma good_mapp Hw s s' L L' f :
  Good Hw s L → PInv s' L' None → core s' = mapp f (core s) →
  (∀ q x, kview (f q x) = kview x) → Good Hw s' L'.
Proof.
  intros HG HP E Hf. unfold Good. rewrite (kviews_core_eq s s' _ E).
  - apply (good_frame Hw s s' L L'); [done|done|exact (f_equal initproc E)|
      exact (f_equal kenv E)|exact (f_equal khw E)].
  - rewrite kviews_mapp by done. apply kviews_core.
Qed.

Lemma good_upd Hw s s' L L' p f :
  Good Hw s L → PInv s' L' None → core s' = upd p f (core s) →
  (∀ x, kview (f x) = kview x) → Good Hw s' L'.
Proof.
  intros HG HP E Hf. unfold Good. rewrite (kviews_core_eq s s' _ E).
  - apply (good_frame Hw s s' L L'); [done|done|exact (f_equal initproc E)|
      exact (f_equal kenv E)|exact (f_equal khw E)].
  - rewrite kviews_upd_same by done. apply kviews_core.
Qed.

(** A store that keeps state, priority and view. *)
Lemma good_store Hw s L p f :
  Good Hw s L → inert f → (∀ x, kview (f x) = kview x) → Good Hw (upd p f s) L.
Proof.
  intros HG Hf Hk. apply (good_upd Hw s _ L L p f); [done| | |done].
  - apply PInv_inert; [apply HG|done].
  - apply core_upd, Hf.
Qed.

Lemma good_hw (Hw Hw' : hw → Prop) s L vs h :
  GoodV Hw s L vs → Hw' h → same_cpus (khw s) h → GoodV Hw' (set_khw h s) L vs.
Proof.
  intros [HP HV HC HH] Hh [E _]. split; try done.
  - by apply (PInv_frame s).
  - change (OnCpu vs (procs_on h)). by rewrite E.
Qed.

Lemma good_acquire s L vs :
  GoodV HwIdle s L vs → wp (lift_hw (acquire Lptable)) s (λ _ s',
    GoodV (HwHeld Lptable) s' L vs ∧ ∃ h, s' = set_khw h s ∧ same_cpus (khw s) h).
Proof.
  intros HG. apply wp_lift_hw. eapply wp_mono; [apply acquire_idle, HG|].
  intros _ h [Hh Hs]. split; [|by exists h]. by eapply good_hw.
Qed.

Lemma good_release s L vs :
  GoodV (HwHeld Lptable) s L vs → wp (lift_hw (release Lptable)) s (λ _ s',
    GoodV HwIdle s' L vs ∧ ∃ h, s' = set_khw h s ∧ same_cpus (khw s) h).
Proof.
  intros HG. apply wp_lift_hw. eapply wp_mono; [apply release_held, HG|].
  intros _ h [Hh Hs]. split; [|by exists h]. by eapply good_hw.
Qed.

Lemma good_member Hw s L id p :
  Good Hw s L → p ∈ L id → ∃ x, procs s !! p = Some x ∧ fits id x.
Proof. intros HG. apply (pi_member s L None), HG. Qed.

(** ** wakeup *)

Lemma kview_runnable x : state x = SLEEPING → kview (set_state RUNNABLE x) = kview x.
Proof. intros E. unfold kview. simpl. by rewrite E. Qed.

Lemma kviews_scan ch s : kviews (wakeup1_scan ch s) = kviews s.
Proof.
  apply kviews_mapp. intros q x. case_decide; [|done]. apply kview_runnable. tauto.
Qed.

Lemma wakeup1_safe s L vs ch :
  GoodV (HwHeld Lptable) s L vs →
  wp (wakeup1 ch) s (λ _ s', GoodV (HwHeld Lptable) s' (wake_lists s ch (L Sleep) [] L) vs ∧
    core s' = wakeup1_scan ch (core s) ∧ kviews s' = kviews s).
Proof.
  intros HG. eapply wp_mono; [apply wakeup1_abs, HG|]. intros _ s' [HP E]. split.
  - apply (good_frame _ s s' L _ vs HG HP); [exact (f_equal initproc E)|
      exact (f_equal kenv E)|exact (f_equal khw E)].
  - split; [done|]. apply (kviews_core_eq s s' _ E). rewrite kviews_scan. apply kviews_core.
Qed.

Lemma wakeup_safe s L vs ch :
  GoodV HwIdle s L vs →
  wp (wakeup ch) s (λ _ s', ∃ L', GoodV HwIdle s' L' vs ∧ same_cpus (khw s) (khw s') ∧
    core s' = set_khw (khw s') (wakeup1_scan ch (core s)) ∧ kviews s' = kviews s).
Proof.
  intros HG. unfold wakeup. wp_steps. wp_call good_acquire; [done|].
  intros _ s1 (HG1 & h1 & -> & Hs1). wp_steps. wp_call wakeup1_safe; [done|].
  intros _ s2 (HG2 & E2 & Ek). wp_call good_release; [done|].
  intros _ s3 (HG3 & h3 & -> & Hs3). eexists. split; [done|]. simpl in *.
  assert (khw s2 = h1) as Eh by exact (f_equal khw E2). rewrite Eh in Hs3. split; [|split].
  - destruct Hs1, Hs3. split; congruence.
  - change (core (set_khw h3 s2)) with (set_khw h3 (core s2)). by rewrite E2.
  - exact Ek.
Qed.

Lemma wakeups_safe chs s L vs :
  GoodV HwIdle s L vs → wp (wakeups chs) s (λ _ s', ∃ L', GoodV HwIdle s' L' vs ∧
    same_cpus (khw s) (khw s') ∧ kviews s' = kviews s ∧ initproc s' = initproc s ∧ kenv s' = kenv s).
Proof.
  revert s L. induction chs as [|ch chs IH]; intros s L HG; simpl; wp_steps.
  { exists L. split; [done|]. repeat split. }
  wp_call wakeup_safe; [done|]. intros _ s1 (L1 & HG1 & [Hs1 Hm1] & E1 & Ek1).
  eapply wp_mono; [by eapply IH|]. intros _ s2 (L2 & HG2 & [Hs2 Hm2] & E2 & E3 & E4).
  exists L2. split; [done|]. split; [split; congruence|].
  rewrite E2, E3, E4, Ek1. split; [done|].
  split; [exact (f_equal initproc E1)|exact (f_equal kenv E1)].
Qed.

(** ** sched: off the CPU *)

Definition switched (t : Z) (k : kcontext) (x : proc) : proc :=
  set_context k (set_cpu_ticks_total (u32 (cpu_ticks_total x + (t - cpu_ticks_in x))) x).

Lemma inert_switched t k : inert (switched t k).
Proof. by split. Qed.

Lemma wp_myproc s p (Q : nat → kst → Prop) : proc_of s = Some p → Q p s → wp myproc s Q.
Proof. apply (wp_lookupM proc_of). Qed.

Lemma scheduler_return_spec s L :
  PInv s L None → HwHeld Lptable (khw s) →
  wp scheduler_return s (λ _ s', PInv s' L None ∧ HwIdle (khw s') ∧
    procs_on (khw s') = <[mycpu (khw s) := None]> (procs_on (khw s)) ∧
    mycpu (khw s') = mycpu (khw s) ∧ s' = set_khw (khw s') s).
Proof.
  intros HP HH. unfold scheduler_return. wp_steps. apply wp_lift_hw. wp_steps. apply wp_lift_hw.
  set (h1 := upd_cpu (set_cpu_proc None) (khw s)).
  assert (HwHeld Lptable h1) as HH1 by (by apply upd_cpu_held).
  eapply wp_mono; [apply release_held; exact HH1|]. intros _ h2 [HH2 [Eo Em]].
  split; [by apply (PInv_frame s)|]. split; [done|].
  destruct (hh_cpu _ _ HH) as (c & Hc & _). simpl in *.
  rewrite Eo, Em. unfold h1. by rewrite (procs_on_upd _ _ c).
Qed.

(** A read of the CPU state. *)
Lemma wp_hw_read {A} (m : M hw A) s a (Q : A → kst → Prop) :
  m (khw s) = Ret a (khw s) → Q a s → wp (lift_hw m) s Q.
Proof.
  intros E HQ. apply wp_lift_hw. unfold wp. rewrite E.
  by replace (set_khw (khw s) s) with s by (by destruct s).
Qed.

Lemma sched_spec s L me x ctx :
  PInv s L None → HwHeld Lptable (khw s) → proc_of s = Some me →
  procs s !! me = Some x → state x ≠ RUNNING →
  wp (sched ctx) s (λ _ s', ∃ b, PInv s' L None ∧ HwIdle (khw s') ∧
    procs_on (khw s') = <[mycpu (khw s) := None]> (procs_on (khw s)) ∧
    mycpu (khw s') = mycpu (khw s) ∧
    core s' = set_khw (khw s') (upd me (switched (ticks s) (ctx b)) (core s))).
Proof.
  intros HP HH Hme Hx Hst. destruct (hh_cpu _ _ HH) as (c & Hc & Hn & Hf).
  unfold sched. wp_steps. apply (wp_hw_read _ _ true).
  { unfold holding, gets. rewrite (hh_lock _ _ HH). simpl. by rewrite bool_decide_eq_true_2. }
  simpl. wp_steps. apply (wp_hw_read _ _ c).
  { unfold this_cpu, lookupM. by rewrite Hc. }
  rewrite decide_False by (rewrite Hn; tauto).
  wp_steps. apply (wp_myproc _ me); [done|]. wp_steps. apply (wp_getp _ _ x); [done|].
  rewrite decide_False, Hf by done. wp_steps.
  apply (wp_setp_upd _ _ _ x); [done|]. wp_steps.
  eapply wp_setp_upd; [by rewrite upd_lookup, decide_True, Hx|]. rewrite upd_upd.
  rewrite (upd_ext me _ (switched (ticks s) (ctx (intena c)))); last first.
  { intros y Hy. rewrite Hx in Hy. by injection Hy as <-. }
  eapply wp_mono; [apply (scheduler_return_spec _ L)|].
  - by apply PInv_inert, inert_switched.
  - done.
  - intros _ s' (HP' & HH' & Ho & Hm & E). exists (intena c). split; [done|]. split; [done|].
    split; [done|]. split; [done|]. rewrite E at 1.
    change (core (set_khw ?h ?s)) with (set_khw h (core s)). f_equal.
    by apply core_upd, inert_switched.
Qed.

(** The view of a process whose state (and saved context) changes. *)
Definition reclass (c : cls) (b : bool) (v : pview) : pview :=
  mkView c (v_parent v) (v_kstack v) (v_pgdir v) (v_sz v) (v_ofile v) (v_cwd v) (v_name v) b 0.

Lemma good_current Hw s L me :
  Good Hw s L → proc_of s = Some me →
  me ∈ L Running ∧ ∃ x, procs s !! me = Some x ∧ state x = RUNNING ∧
  procs_on (khw s) !! mycpu (khw s) = Some (Some me).
Proof.
  intros HG Hme. apply proc_of_on in Hme.
  destruct (proj2 (oc_run _ _ (g_c HG) me)) as (v & Hv & Hc); [eauto|].
  rewrite kviews_lookup in Hv. destruct (procs s !! me) as [x|] eqn:Hx; [|done].
  assert (state x = RUNNING) as Hst.
  { injection Hv as <-. simpl in Hc. by destruct (state x). }
  split; [|by eauto]. by apply (pi_mem_iff s L me x Running (g_p HG) Hx).
Qed.

Lemma vok_reclass e v c :
  vok e v → live (v_cls v) → v_cwd v ≠ None → live c → vok e (reclass c true v).
Proof.
  intros (H1 & H2 & H3) Hv Hcw Hc. split; [done|]. split; [done|].
  destruct Hv as [Hv|Hv]; rewrite Hv in H3; destruct Hc as [->| ->]; simpl; tauto.
Qed.

(** A running process that stops but lives on. *)
Lemma wait_view_ok Hw s L me x :
  Good Hw s L → procs s !! me = Some x → state x = RUNNING → cwd x ≠ None →
  VFacts (<[me := reclass CWait true (kview x)]> (kviews s)) (initproc s) (kenv s).
Proof.
  intros HG Hx Hst Hcw.
  assert (kviews s !! me = Some (kview x)) as Hv by (by rewrite kviews_lookup, Hx).
  assert (live (v_cls (kview x))) as Hl by (right; simpl; by rewrite Hst).
  apply (VFacts_move _ _ _ me (kview x)); try done; [apply HG|by left|].
  apply vok_reclass; [by apply (vf_loc _ _ _ (g_v HG) me)|done|done|by left].
Qed.

(** A running process leaves its CPU; [w] is its view from then on. *)
Lemma good_leave s L me x F w s2 L2 :
  Good (HwHeld Lptable) s L → proc_of s = Some me → procs s !! me = Some x →
  VFacts (<[me := w]> (kviews s)) (initproc s) (kenv s) → v_cls w ≠ CRun →
  kview (F (set_next None x)) = w →
  PInv s2 L2 None → HwIdle (khw s2) →
  procs_on (khw s2) = <[mycpu (khw s) := None]> (procs_on (khw s)) →
  core s2 = set_khw (khw s2) (upd me F (core s)) →
  Good HwIdle s2 L2 ∧ kviews s2 = <[me := w]> (kviews s).
Proof.
  intros HG Hme Hx HV Hw HF HP2 HH2 Ho E. destruct (good_current _ _ _ _ HG Hme) as (_ & y & Hy & Hst & Hpo).
  rewrite Hx in Hy. injection Hy as <-.
  assert (kviews s2 = <[me := w]> (kviews s)) as EK.
  { rewrite <- (kviews_core s2), E, <- HF, <- (kviews_core s).
    change (kviews (set_khw ?h ?s)) with (kviews s).
    by apply kviews_upd, core_lookup_Some. }
  split; [|done]. unfold Good. rewrite EK. split; [done| | |done].
  - assert (initproc s2 = initproc s) as -> by exact (f_equal initproc E).
    by assert (kenv s2 = kenv s) as -> by exact (f_equal kenv E).
  - rewrite Ho. by apply OnCpu_out; [apply HG|..].
Qed.

Lemma charge_facts t x :
  state (charge t x) = state x ∧ (state x ≠ EMBRYO → kview (charge t x) = kview x) ∧
  (prio_ok x → prio_ok (charge t x)).
Proof.
  unfold charge, prio_ok. split; [by repeat case_decide|]. split.
  - intros Hst. unfold kview. repeat case_decide; simpl in *; by rewrite ?decide_False by done.
  - repeat case_decide; simpl; lia.
Qed.
Lemma linkfree_charge t : linkfree (charge t).
Proof. intros n y. unfold charge. simpl. repeat case_decide; done. Qed.

(** ** yield *)

(** The record of a process that stops running: charged for its slice. *)
Definition off_record (st : procstate) (t : Z) (k : kcontext) (x : proc) : proc :=
  switched t k (charge t (set_state st x)).

Lemma kview_off st t k x :
  state x = RUNNING → class_of st = CWait → resumable k = true →
  kview (off_record st t k x) = reclass CWait true (kview x).
Proof.
  intros Hst Hc Hk. assert (st ≠ EMBRYO) by (by intros ->).
  destruct (charge_facts t (set_state st x)) as (Hs & Hv & _). simpl in Hs.
  specialize (Hv ltac:(done)). unfold kview in Hv.
  injection Hv as Hv1 Hv2 Hv3 Hv4 Hv5 Hv6 Hv7 Hv8 Hv9 Hv10.
  unfold off_record, kview, reclass. simpl. simpl in *.
  rewrite Hs, Hc, Hk, Hv2, Hv3, Hv4, Hv5, Hv6, Hv7, Hv8. by rewrite decide_False.
Qed.

Lemma core_store s s' p f x x' :
  core s' = upd p f (core s) → procs s !! p = Some x → procs s' !! p = Some x' →
  set_next None x' = f (set_next None x).
Proof.
  intros E Hx Hx'. apply (core_lookup_Some s) in Hx. apply (core_lookup_Some s') in Hx'.
  rewrite E, upd_lookup, decide_True, Hx in Hx' by done. by apply (inj Some).
Qed.

(** [remove] from the running list, the new state, and the charge. *)
Lemma take_charge {A} s L me x st msg (k : M kst A) (Q : A → kst → Prop) :
  PInv s L None → me ∈ L Running → procs s !! me = Some x →
  (∀ s' x', PInv s' (take_out Running me L) (Some me) → procs s' !! me = Some x' →
    set_next None x' = set_next None (charge (ticks s) (set_state st x)) →
    core s' = upd me (charge (ticks s) ∘ set_state st) (core s) → wp k s' Q) →
  wp (remove_or_panic Running me msg;; setp me (set_state st);;
      t ← gets ticks; setp me (charge t);; k) s Q.
Proof.
  intros HP Hrun Hx HQ. apply (take_and_store s L Running me x); try done.
  { apply (pi_prio _ _ _ HP me x Hx). }
  intros s2 x2 HP2 Hx2 Ex2 E2. wp_steps.
  assert (ticks s2 = ticks s) as -> by exact (f_equal ticks E2).
  destruct (charge_facts (ticks s) x2) as (_ & _ & Hpr2).
  apply (wp_setp_upd _ _ _ x2); [done|]. apply (HQ _ (charge (ticks s) x2)).
  - apply (PInv_upd _ _ _ _ _ x2); try done; [apply linkfree_charge| |by left].
    apply Hpr2, (pi_prio _ _ _ HP2 me x2 Hx2).
  - by rewrite upd_lookup, decide_True, Hx2.
  - rewrite <- !linkfree_charge. by rewrite Ex2.
  - rewrite core_upd by apply linkfree_charge. by rewrite E2, upd_upd.
Qed.

(** [sched] at the end of a routine that has moved [me] off the running list. *)
Definition left_cpu (s s' : kst) : Prop :=
  procs_on (khw s') = <[mycpu (khw s) := None]> (procs_on (khw s)) ∧
  mycpu (khw s') = mycpu (khw s).

Lemma sched_leave s L me x G ctx w s4 L4 :
  Good (HwHeld Lptable) s L → proc_of s = Some me → procs s !! me = Some x →
  VFacts (<[me := w]> (kviews s)) (initproc s) (kenv s) → v_cls w ≠ CRun →
  PInv s4 L4 None → core s4 = upd me G (core s) →
  (∀ b, kview (switched (ticks s) (ctx b) (G (set_next None x))) = w) →
  wp (sched ctx) s4 (λ _ s', ∃ b, Good HwIdle s' L4 ∧ left_cpu s s' ∧
    kviews s' = <[me := w]> (kviews s) ∧
    core s' = set_khw (khw s') (upd me (switched (ticks s) (ctx b) ∘ G) (core s))).
Proof.
  intros HG Hme Hx HV Hw HP4 E4 Hk.
  assert (khw s4 = khw s) as Eh by exact (f_equal khw E4).
  assert (ticks s4 = ticks s) as Et by exact (f_equal ticks E4).
  destruct (rep_lookup s4 L4 me (pi_rep _ _ _ HP4)) as [x4 Hx4].
  { rewrite <- (rep_len _ _ (pi_rep _ _ _ (g_p HG))). by eapply lookup_lt_Some. }
  pose proof (core_store s s4 me G x x4 E4 Hx Hx4) as Ex4.
  eapply wp_mono; [apply (sched_spec s4 L4 me x4); [done| | |done|]|].
  - rewrite Eh. apply HG.
  - unfold proc_of. by rewrite Eh.
  - intros E. apply Hw. rewrite <- (Hk true). simpl.
    assert (state (G (set_next None x)) = RUNNING) as -> by (by rewrite <- Ex4). done.
  - intros _ s' (b & HP' & HH' & Ho & Hm & E'). rewrite Et, E4, upd_upd in E'. rewrite Eh in Ho, Hm.
    exists b. destruct (good_leave s L me x (switched (ticks s) (ctx b) ∘ G) w s' L4) as [? ?]; try done.
    apply Hk.
Qed.

Lemma proc_of_same s h me :
  proc_of s = Some me → same_cpus (khw s) h → proc_of (set_khw h s) = Some me.
Proof. rewrite !proc_of_on. simpl. by intros ? [-> ->]. Qed.

Lemma left_cpu_same s h s' : same_cpus (khw s) h → left_cpu (set_khw h s) s' → left_cpu s s'.
Proof. intros [E1 E2] [E3 E4]. simpl in *. split; congruence. Qed.

Lemma yield_spec s L me x :
  Good HwIdle s L → proc_of s = Some me → procs s !! me = Some x → cwd x ≠ None →
  wp yield s (λ _ s', ∃ b, let i := prio (charge (ticks s) x) in
    Good HwIdle s' (<[Ready i := L (Ready i) ++ [me]]> (take_out Running me L)) ∧
    left_cpu s s' ∧ kviews s' = <[me := reclass CWait true (kview x)]> (kviews s) ∧
    core s' = set_khw (khw s') (upd me (off_record RUNNABLE (ticks s) (CtxYield b)) (core s))).
Proof.
  intros HG Hme Hx Hcw. destruct (good_current _ _ _ _ HG Hme) as (Hrun & y & Hy & Hst & Hpo).
  rewrite Hx in Hy. injection Hy as <-. unfold yield. wp_steps. wp_call good_acquire; [done|].
  intros _ s1 (HG1 & h1 & -> & Hs1). pose proof (proc_of_same s h1 me Hme Hs1) as Hme1.
  wp_steps. apply (wp_myproc _ me); [done|]. wp_steps. apply (wp_assert _ _ _ x); [done|done|].
  apply (take_charge _ L me x); [apply HG1|done|done|]. intros s2 x2 HP2 Hx2 Ex2 E2. wp_steps.
  apply (wp_getp _ _ x2); [done|].
  assert (prio x2 = prio (charge (ticks s) x)) as ->.
  { etrans; [exact (f_equal prio Ex2)|]. unfold charge. simpl. by repeat case_decide. }
  wp_steps. eapply wp_mono; [eapply (addtail_inv _ _ (Ready (prio (charge (ticks s) x)))); [done|done|]|].
  { split; [|].
    - etrans; [exact (f_equal state Ex2)|]. apply charge_facts.
    - etrans; [exact (f_equal prio Ex2)|]. unfold charge. simpl. by repeat case_decide. }
  intros _ s3 [HP3 E3]. rewrite E2 in E3.
  pose proof (wait_view_ok _ _ L me x HG1 Hx Hst Hcw) as HVw.
  eapply wp_mono; [apply (sched_leave _ L me x _ CtxYield _ s3 _ HG1 Hme1 Hx HVw ltac:(done) HP3 E3)|].
  - intros b. by apply (kview_off RUNNABLE _ _ (set_next None x)).
  - intros _ s4 (b & HG4 & Ho & EK & E4). exists b. cbn zeta.
    split; [exact HG4|]. split; [by apply (left_cpu_same s h1)|]. by split.
Qed.

(** ** sleep *)

Definition sleep_record (t : Z) (ch : addr) (k : kcontext) (x : proc) : proc :=
  off_record SLEEPING t k (set_chan ch x).

Lemma sleep_locked_spec s L me x ctx ch :
  Good (HwHeld Lptable) s L → proc_of s = Some me → procs s !! me = Some x → cwd x ≠ None →
  (∀ b, resumable (ctx b) = true) →
  wp (sleep_locked ctx ch me) s (λ _ s', ∃ b,
    Good HwIdle s' (<[Sleep := me :: L Sleep]> (take_out Running me L)) ∧ left_cpu s s' ∧
    kviews s' = <[me := reclass CWait true (kview x)]> (kviews s) ∧
    core s' = set_khw (khw s') (upd me (sleep_record (ticks s) ch (ctx b)) (core s))).
Proof.
  intros HG Hme Hx Hcw Hctx. destruct (good_current _ _ _ _ HG Hme) as (Hrun & y & Hy & Hst & Hpo).
  rewrite Hx in Hy. injection Hy as <-. unfold sleep_locked. wp_steps.
  apply (wp_setp_upd _ _ _ x); [done|]. set (s1 := upd me (set_chan ch) s).
  assert (Good (HwHeld Lptable) s1 L) as HG1 by (by apply good_store).
  assert (procs s1 !! me = Some (set_chan ch x)) as Hx1 by (by unfold s1; rewrite upd_lookup, decide_True, Hx).
  wp_steps. apply (wp_assert _ _ _ (set_chan ch x)); [done|done|].
  apply (take_charge s1 L me (set_chan ch x)); [apply HG1|done|done|].
  intros s2 x2 HP2 Hx2 Ex2 E2. wp_steps.
  eapply wp_mono; [eapply (addhead_inv _ _ Sleep); [done|done|]|].
  { split; [|done]. etrans; [exact (f_equal state Ex2)|]. apply charge_facts. }
  intros _ s3 [HP3 E3]. rewrite E2 in E3.
  pose proof (wait_view_ok _ _ L me (set_chan ch x) HG1 Hx1 Hst Hcw) as HVw.
  eapply wp_mono; [apply (sched_leave s1 L me (set_chan ch x) _ ctx _ s3 _ HG1 Hme Hx1 HVw ltac:(done) HP3 E3)|].
  - intros b. by apply (kview_off SLEEPING _ _ (set_next None (set_chan ch x))).
  - intros _ s4 (b & HG4 & Ho & EK & E4). exists b. split; [exact HG4|]. split; [exact Ho|]. split.
    + rewrite EK. unfold s1. by rewrite kviews_upd_same.
    + rewrite E4. f_equal. unfold s1. rewrite core_upd by done. by rewrite upd_upd.
Qed.

(** The lock [sleep] is called with: none, or one this CPU holds. *)
Definition sleep_hw (lk : option lockid) (h : hw) : Prop :=
  match lk with Some l => HwHeld l h | None => HwIdle h end.

Lemma sleep_with_spec s L me x ctx ch lk :
  Good (sleep_hw lk) s L → proc_of s = Some me → procs s !! me = Some x → cwd x ≠ None →
  (∀ b, resumable (ctx b) = true) →
  wp (sleep_with ctx ch lk) s (λ _ s', ∃ b,
    Good HwIdle s' (<[Sleep := me :: L Sleep]> (take_out Running me L)) ∧ left_cpu s s' ∧
    kviews s' = <[me := reclass CWait true (kview x)]> (kviews s) ∧
    core s' = set_khw (khw s') (upd me (sleep_record (ticks s) ch (ctx b)) (core s))).
Proof.
  intros HG Hme Hx Hcw Hctx. unfold sleep_with. wp_steps. rewrite Hme. wp_steps.
  assert (∀ h, same_cpus (khw s) h → HwHeld Lptable h →
    wp (sleep_locked ctx ch me) (set_khw h s) (λ _ s', ∃ b,
      Good HwIdle s' (<[Sleep := me :: L Sleep]> (take_out Running me L)) ∧ left_cpu s s' ∧
      kviews s' = <[me := reclass CWait true (kview x)]> (kviews s) ∧
      core s' = set_khw (khw s') (upd me (sleep_record (ticks s) ch (ctx b)) (core s)))) as Hgo.
  { intros h Hs Hh. eapply wp_mono; [eapply (sleep_locked_spec (set_khw h s) L me x)|].
    - by eapply good_hw.
    - by apply proc_of_same.
    - done.
    - done.
    - done.
    - intros _ s' (b & HG' & Ho & E). exists b. split; [done|].
      split; [by apply (left_cpu_same s h)|done]. }
  case_decide as Hlk.
  - subst lk. wp_steps. replace s with (set_khw (khw s) s) by (by destruct s).
    apply Hgo; [done|apply HG].
  - wp_steps. destruct lk as [l|]; apply wp_lift_hw.
    + eapply wp_mono; [apply (acquire_release_held (khw s) l); [apply HG|congruence]|].
      intros ? h1 Hrel. apply wp_lift_hw. eapply wp_mono; [exact Hrel|].
      intros _ h2 [Hh Hs]. by apply Hgo.
    + eapply wp_mono; [apply acquire_idle, HG|]. intros _ h1 [Hh Hs]. wp_steps. by apply Hgo.
Qed.
End ProcSafe.

Arguments g_p {_ _ _ _ _ _}.
Arguments g_v {_ _ _ _ _ _}.
Arguments g_c {_ _ _ _ _ _}.
Arguments g_h {_ _ _ _ _ _}.
