(* ===== verification/ProcExit.v ===== *)
(** * exit and wait (proc.c)

    [exit] closes the files, drops the current directory, hands the children
    to init and leaves a zombie; [wait] reaps one. *)

From S2P Require Import Prelude Spinlock CString ProcState ProcList Proc ProcSteady ProcInv ProcWake KInv ProcSafe.

Local Open Scope Z_scope.

Definition with_ofile (o : list (option nat)) (v : pview) : pview :=
  mkView (v_cls v) (v_parent v) (v_kstack v) (v_pgdir v) (v_sz v) o (v_cwd v) (v_name v) (v_ctx v) (v_eprio v).
Definition with_cwd (c : option nat) (v : pview) : pview :=
  mkView (v_cls v) (v_parent v) (v_kstack v) (v_pgdir v) (v_sz v) (v_ofile v) c (v_name v) (v_ctx v) (v_eprio v).
Definition with_parent (q : option nat) (v : pview) : pview :=
  mkView (v_cls v) q (v_kstack v) (v_pgdir v) (v_sz v) (v_ofile v) (v_cwd v) (v_name v) (v_ctx v) (v_eprio v).

Section ProcExit.
Context `{KL : KernelLaws}.

Lemma wp_lift_env {A} (m : M env A) s (Q : A → kst → Prop) :
  wp m (kenv s) (λ a e, Q a (set_kenv e s)) → wp (lift_env m) s Q.
Proof. apply wp_zoom. Qed.

Lemma vok_env e e' v : held e' = held e → vm_size e' = vm_size e → vok e v → vok e' v.
Proof. intros E1 E2. unfold vok, stack_ok, vm_ok. by rewrite E1, E2. Qed.

Lemma VFacts_env vs ini e e' :
  VFacts vs ini e → env_ok e' → held e' = held e → vm_size e' = vm_size e →
  frefs e' = frefs e → irefs e' = irefs e → VFacts vs ini e'.
Proof.
  intros [V1 V2 V3 V4 V5 V6 V7 V8] He E1 E2 E3 E4. split; try done.
  - intros p v Hv. by eapply (vok_env e), V2.
  - by rewrite E3.
  - by rewrite E4.
Qed.

(** One process's descriptors and directory change along with the counts. *)
Lemma VFacts_refs vs ini e e' p v o c :
  VFacts vs ini e → vs !! p = Some v → env_ok e' → held e' = held e → vm_size e' = vm_size e →
  vok e' (with_ofile o (with_cwd c v)) →
  (∀ f, frefs e f + fd_count f o ≤ frefs e' f + fd_count f (v_ofile v))%nat →
  (∀ i, irefs e i + cwd_count i c ≤ irefs e' i + cwd_count i (v_cwd v))%nat →
  VFacts (<[p := with_ofile o (with_cwd c v)]> vs) ini e'.
Proof.
  intros HV Hv He E1 E2 Hw Hf Hc. apply (VFacts_update vs ini e e' p v); try done.
  - intros q u Hq Hu. split; [|split].
    + by eapply (vok_env e), (vf_loc _ _ _ HV q).
    + by apply (vf_stack _ _ _ HV p q v u).
    + by apply (vf_space _ _ _ HV p q v u).
  - intros ->. destruct (vf_init _ _ _ HV p eq_refl) as (u & Hu & Hl). simpl. congruence.
  - intros Hk. destruct (vf_family _ _ _ HV p v Hv Hk) as [?|(q & u & Hq & Hu & Hl)]; [by left|right].
    destruct (decide (q = p)) as [->|Hne].
    + exists p, (with_ofile o (with_cwd c v)). split; [done|].
      split; [apply list_lookup_insert_eq; by eapply lookup_lt_Some|]. simpl. congruence.
    + exists q, u. by rewrite list_lookup_insert_ne by done.
  - destruct (decide (live (v_cls v))) as [?|Hn]; [by left|right]. intros q u Hq Hu Hk Hi Hp.
    destruct (vf_family _ _ _ HV q u Hu Hk) as [?|(r & z & Hr & Hz & Hl)]; [done|].
    destruct Hn. congruence.
Qed.

Lemma kview_same_lookup s s' p x :
  kviews s' = kviews s → procs s !! p = Some x → ∃ x', procs s' !! p = Some x' ∧ kview x' = kview x.
Proof.
  intros E Hx. apply (f_equal (.!! p)) in E. rewrite !kviews_lookup, Hx in E.
  destruct (procs s' !! p) as [x'|]; [|done]. exists x'. split; [done|]. by apply (inj Some) in E.
Qed.

(** ** Closing the files *)

Definition closed (fds : list nat) (o o' : list (option nat)) : Prop :=
  (∀ fd, fd ∈ fds → o' !! fd = Some None) ∧ (∀ fd, o !! fd = Some None → o' !! fd = Some None).

Lemma fd_count_lookup f o fd : o !! fd = Some (Some f) → (1 ≤ fd_count f o)%nat.
Proof.
  intros Hfd. unfold fd_count. assert (Some f ∈ filter (.= Some f) o) as Hin.
  { apply list_elem_of_filter. split; [done|]. by eapply list_elem_of_lookup_2. }
  destruct (filter (.= Some f) o); [by apply not_elem_of_nil in Hin|simpl; lia].
Qed.

Lemma frefs_pos vs ini e p v fd f :
  VFacts vs ini e → vs !! p = Some v → v_ofile v !! fd = Some (Some f) → (1 ≤ frefs e f)%nat.
Proof.
  intros HV Hv Hf. pose proof (vf_files _ _ _ HV f) as Hs.
  pose proof (sum_over_lookup (λ v, fd_count f (v_ofile v)) vs p v Hv) as H1.
  pose proof (fd_count_lookup f (v_ofile v) fd Hf). simpl in *. lia.
Qed.

Lemma vok_close e v fd f :
  vok e v → v_cls v = CRun → v_ofile v !! fd = Some (Some f) →
  vok e (with_ofile (<[fd := None]> (v_ofile v)) v).
Proof.
  intros (H1 & H2 & H3) Hc Hf. split; [|split]; simpl; [by rewrite length_insert|done|].
  rewrite Hc in *. destruct H3 as (H3 & H4 & H5). split; [|done].
  destruct H3 as [?|[Ho _]]; [by left|]. rewrite Ho in Hf. by apply lookup_replicate in Hf as [? _].
Qed.

(** After [fileclose] the invariant holds of the table as it will be once the
    descriptor is cleared. *)
Lemma fileclose_safe s L me x fd f :
  Good HwIdle s L → procs s !! me = Some x → state x = RUNNING → ofile x !! fd = Some (Some f) →
  wp (lift_env (fileclose f)) s (λ _ s', ∃ e', s' = set_kenv e' s ∧ ops e' = ops (kenv s) ∧
    GoodV HwIdle s' L (<[me := with_ofile (<[fd := None]> (ofile x)) (kview x)]> (kviews s))).
Proof.
  intros HG Hx Hst Hf. destruct HG as [HP HV HC HH].
  assert (kviews s !! me = Some (kview x)) as Hv by (by rewrite kviews_lookup, Hx).
  apply wp_lift_env. eapply wp_mono; [apply law_fileclose; [apply HV|]|].
  { by eapply (frefs_pos _ _ _ me (kview x)). }
  intros _ e' (He & E1 & E2 & E3 & E4 & E5). exists e'. split; [done|]. split; [done|].
  pose proof (frefs_pos _ _ _ me (kview x) fd f HV Hv Hf) as Hpos.
  split; [by apply (PInv_frame s)| | |done].
  - change (with_ofile ?o (kview x)) with (with_ofile o (with_cwd (v_cwd (kview x)) (kview x))).
    apply (VFacts_refs _ _ (kenv s)); try done.
    + eapply (vok_env (kenv s)); [done|done|]. apply (vok_close _ (kview x) fd f); [|simpl; by rewrite Hst|done].
      by apply (vf_loc _ _ _ HV me).
    + intros g. pose proof (fd_count_insert g (ofile x) fd (Some f) None Hf) as Hc.
      simpl. rewrite E5, fn_insert_dec. unfold fd_count in *. rewrite !filter_cons, filter_nil in Hc.
      repeat case_decide; simplify_eq/=; lia.
    + intros i. simpl. rewrite E3. lia.
  - apply (OnCpu_same _ _ me (kview x)); done.
Qed.

Lemma good_inert_store Hw s L me x f w :
  GoodV Hw s L (<[me := w]> (kviews s)) → procs s !! me = Some x → inert f → kview (f x) = w →
  Good Hw (upd me f s) L.
Proof.
  intros HG Hx Hf <-. unfold Good. rewrite (kviews_upd me f s x Hx).
  apply (good_frame Hw s (upd me f s) L); try done. apply PInv_inert; [apply HG|done].
Qed.

(** Other processes keep all but their parent. *)
Definition noparent (v : pview) : pview := with_parent None v.
Definition others_same (me : nat) (s s' : kst) : Prop :=
  ∀ q, q ≠ me → kviews s' !! q = kviews s !! q.

Lemma others_same_upd me f s s' : kviews s' = kviews s → others_same me s (upd me f s').
Proof.
  intros E q Hq. rewrite kviews_lookup, upd_lookup, decide_False, option_fmap_id by done.
  by rewrite <- kviews_lookup, E.
Qed.
Lemma others_same_trans me s1 s2 s3 :
  others_same me s1 s2 → others_same me s2 s3 → others_same me s1 s3.
Proof. intros H1 H2 q Hq. by rewrite H2, H1. Qed.

Lemma exit_files_spec me fds : ∀ s L x,
  Good HwIdle s L → proc_of s = Some me → procs s !! me = Some x →
  Forall (λ fd, (fd < NOFILE)%nat) fds →
  wp (exit_files me fds) s (λ _ s', ∃ L' x', Good HwIdle s' L' ∧ same_cpus (khw s) (khw s') ∧
    initproc s' = initproc s ∧ ops (kenv s') = ops (kenv s) ∧ procs s' !! me = Some x' ∧
    cwd x' = cwd x ∧ closed fds (ofile x) (ofile x') ∧ others_same me s s').
Proof.
  induction fds as [|fd fds IH]; intros s L x HG Hme Hx Hfds; simpl; wp_steps.
  { exists L, x. split; [done|]. repeat split; try done. intros fd. by rewrite elem_of_nil. }
  inversion Hfds as [|? ? Hfd Hfds']; subst.
  destruct (good_current _ _ _ _ HG Hme) as (_ & y & Hy & Hst & _). rewrite Hx in Hy. injection Hy as <-.
  assert (length (ofile x) = NOFILE) as Hlen.
  { assert (kviews s !! me = Some (kview x)) as Hv by (by rewrite kviews_lookup, Hx).
    apply (vf_loc _ _ _ (g_v HG) me _ Hv). }
  destruct (lookup_lt_is_Some_2 (ofile x) fd) as [fo Hof]; [lia|].
  apply (wp_getp _ _ x); [done|]. wp_steps. apply (wp_lookupM _ _ fo); [done|]. wp_steps.
  destruct fo as [f|]; last first.
  { wp_steps. eapply wp_mono; [by apply (IH s L x)|].
    intros _ s' (L' & x' & HG' & Hs & Ei & Eo & Hx' & Ec & (Hc1 & Hc2) & Hoth). exists L', x'.
    split; [done|]. do 5 (split; [done|]). split; [|done]. split; [|done].
    intros fd' [->|?]%elem_of_cons; auto. }
  wp_steps. eapply wp_mono; [by apply (fileclose_safe s L me x fd f)|].
  intros chs s1 (e1 & -> & Eops & HG1). wp_steps. wp_call wakeups_safe; [exact HG1|].
  intros _ s2 (L2 & HG2 & Hs2 & Ek2 & Ei2 & Ee2). change (kviews (set_kenv e1 s)) with (kviews s) in Ek2.
  destruct (kview_same_lookup s s2 me x Ek2 Hx) as (x2 & Hx2 & Evx).
  apply (wp_setp_upd _ _ _ x2); [done|].
  assert (ofile x2 = ofile x) as Eof by exact (f_equal v_ofile Evx).
  rewrite <- Ek2 in HG2. eapply (good_inert_store _ _ _ _ x2 (λ y, set_ofile (<[fd := None]> (ofile y)) y)) in HG2;
    [|done|by split|]; last first.
  { rewrite <- Eof, <- Evx. done. }
  eapply wp_mono; [apply (IH _ L2 (set_ofile (<[fd := None]> (ofile x2)) x2) HG2); [| |done]|].
  - apply proc_of_on. destruct Hs2 as [E1 E2]. simpl in *. rewrite E1, E2. by apply proc_of_on.
  - by rewrite upd_lookup, decide_True, Hx2.
  - intros _ s' (L' & x' & HG' & [Hs3 Hs4] & Ei & Eo & Hx' & Ec & (Hc1 & Hc2) & Hoth). exists L', x'.
    destruct Hs2 as [Hs5 Hs6]. simpl in *.
    split; [done|]. split; [split; congruence|]. split; [congruence|]. split; [congruence|].
    split; [done|]. split; [rewrite Ec; exact (f_equal v_cwd Evx)|]. rewrite Eof in Hc2.
    split; [split|by eapply others_same_trans; [apply others_same_upd|]].
    + intros fd' [->|?]%elem_of_cons; [|auto]. apply Hc2. apply list_lookup_insert_eq. lia.
    + intros fd' Hfd'. apply Hc2. destruct (decide (fd' = fd)) as [->|]; [congruence|].
      by rewrite list_lookup_insert_ne.
Qed.

(** ** Handing the children to init *)

(** [parent = me] becomes [parent = init]. *)
Definition rehome (me : nat) (ini : option nat) (x : proc) : proc :=
  if decide (parent x = Some me) then set_parent ini x else x.

Lemma inert_rehome me ini : inert (rehome me ini).
Proof.
  split; [intros n y|intros y]; unfold rehome; simpl; by case_decide.
Qed.

Lemma VFacts_rehome vs ini e p v :
  VFacts vs ini e → ini ≠ None → vs !! p = Some v → VFacts (<[p := with_parent ini v]> vs) ini e.
Proof.
  intros HV Hini Hv. destruct ini as [ip|] eqn:Hip; [|done]. rewrite <- Hip in *.
  destruct (vf_init _ _ _ HV ip Hip) as (u & Hu & Hl).
  assert (∃ u', <[p := with_parent ini v]> vs !! ip = Some u' ∧ live (v_cls u')) as (u' & Hu' & Hl').
  { destruct (decide (ip = p)) as [->|Hne].
    - exists (with_parent ini v). split; [apply list_lookup_insert_eq; by eapply lookup_lt_Some|].
      simpl. congruence.
    - exists u. by rewrite list_lookup_insert_ne by done. }
  apply (VFacts_update vs ini e e p v); try done; [apply HV|by apply (vf_loc _ _ _ HV p v)|..].
  - intros q z Hq Hz. split; [by apply (vf_loc _ _ _ HV q)|].
    split; [by apply (vf_stack _ _ _ HV p q v z)|by apply (vf_space _ _ _ HV p q v z)].
  - intros ->. simplify_eq. simpl. congruence.
  - intros _. right. exists ip, u'. split; [exact Hip|done].
  - destruct (decide (live (v_cls v))) as [?|Hn]; [by left|right]. intros q z Hq Hz Hk Hi Hp.
    destruct (vf_family _ _ _ HV q z Hz Hk) as [?|(r & w & Hr & Hw & Hlw)]; [done|].
    destruct Hn. congruence.
Qed.

Lemma kview_rehome me ini x :
  kview (rehome me ini x) = kview x ∨ kview (rehome me ini x) = with_parent ini (kview x).
Proof. unfold rehome. case_decide; [by right|by left]. Qed.

Lemma good_rehome Hw s L p me ini ip :
  Good Hw s L → ini = initproc s → initproc s = Some ip → Good Hw (upd p (rehome me ini) s) L.
Proof.
  intros HG -> Hip. destruct (procs s !! p) as [x|] eqn:Hx; last first.
  { by rewrite upd_same; [|congruence]. }
  assert (kviews s !! p = Some (kview x)) as Hv by (by rewrite kviews_lookup, Hx).
  assert (PInv (upd p (rehome me (initproc s)) s) L None) as HP.
  { apply PInv_inert; [apply HG|apply inert_rehome]. }
  unfold Good. rewrite (kviews_upd p _ s x Hx).
  destruct (kview_rehome me (initproc s) x) as [->| ->].
  - rewrite list_insert_id by done. by apply (good_frame Hw s _ L).
  - split; [done| | |apply HG].
    + apply VFacts_rehome; [apply HG|change (initproc s ≠ None); by rewrite Hip|done].
    + apply (OnCpu_same _ _ p (kview x)); [apply HG|done|done].
Qed.

(** A parent changes only from [me] to init. *)
Definition to_init (me : nat) (s s' : kst) : Prop :=
  ∀ q v v', kviews s !! q = Some v → kviews s' !! q = Some v' →
    v_parent v' = v_parent v ∨ (v_parent v = Some me ∧ v_parent v' = initproc s).

Lemma to_init_trans me s1 s2 s3 :
  initproc s2 = initproc s1 → (∀ q, is_Some (kviews s1 !! q) → is_Some (kviews s2 !! q)) →
  to_init me s1 s2 → to_init me s2 s3 → to_init me s1 s3.
Proof.
  intros Ei Hd H1 H2 q v1 v3 Hv1 Hv3. destruct (Hd q) as [v2 Hv2]; [by rewrite Hv1|].
  destruct (H1 q v1 v2 Hv1 Hv2) as [E1|[E1 F1]], (H2 q v2 v3 Hv2 Hv3) as [E2|[E2 F2]];
    [left|right; split|right; split|right; split]; congruence.
Qed.

(** The part of the state the walks of [exit] leave alone. *)
Definition Rp (me : nat) (s s' : kst) : Prop :=
  initproc s' = initproc s ∧ khw s' = khw s ∧ kenv s' = kenv s ∧ ticks s' = ticks s ∧
  noparent <$> kviews s' = noparent <$> kviews s ∧ to_init me s s'.

Lemma Rp_refl me s : Rp me s s.
Proof. repeat (split; [done|]). intros q v v' Hv Hv'. left. congruence. Qed.
Lemma Rp_trans me s1 s2 s3 : Rp me s1 s2 → Rp me s2 s3 → Rp me s1 s3.
Proof.
  intros (E1&E2&E3&E4&E5&H1) (F1&F2&F3&F4&F5&H2). do 5 (split; [congruence|]).
  apply (to_init_trans me s1 s2 s3); [done| |done|done]. intros q.
  pose proof (f_equal (.!! q) E5) as E. rewrite !list_lookup_fmap in E.
  by destruct (kviews s1 !! q), (kviews s2 !! q).
Qed.

Lemma Rp_rehome s p me : Rp me s (upd p (rehome me (initproc s)) s).
Proof.
  split; [done|]. do 3 (split; [done|]). split.
  - apply list_eq. intros q. rewrite !list_lookup_fmap, !kviews_lookup, upd_lookup.
    destruct (procs s !! q) as [x|]; simpl; [|done]. case_decide; [|done].
    by destruct (kview_rehome me (initproc s) x) as [->| ->].
  - intros q v v' Hv Hv'. rewrite kviews_lookup in Hv, Hv'. rewrite upd_lookup in Hv'.
    destruct (procs s !! q) as [x|]; [|done]. injection Hv as <-. injection Hv' as <-.
    case_decide; [|by left]. unfold rehome. case_decide; [by right|by left].
Qed.

(** No process of [D] is a child of [me]. *)
Definition no_child (me : nat) (D : list nat) (s : kst) : Prop :=
  ∀ q v, q ∈ D → kviews s !! q = Some v → v_parent v ≠ Some me.

Lemma no_child_rehome me D s p ip :
  no_child me D s → initproc s = Some ip → ip ≠ me →
  no_child me (D ++ [p]) (upd p (rehome me (initproc s)) s).
Proof.
  intros HD Hip Hne q v Hq. rewrite kviews_lookup, upd_lookup.
  destruct (procs s !! q) as [x|] eqn:Hx; simpl; [|done]. intros [= <-].
  case_decide as E; simpl.
  - unfold rehome. case_decide; simpl; [congruence|done].
  - apply (HD q (kview x)); [set_solver|]. by rewrite kviews_lookup, Hx.
Qed.

Lemma wp_reparent_one me p s x (Q : unit → kst → Prop) :
  procs s !! p = Some x → Q tt (upd p (rehome me (initproc s)) s) → wp (reparent_one me p) s Q.
Proof.
  intros Hx HQ. unfold reparent_one. wp_steps. apply (wp_getp _ _ x); [done|]. case_decide as E.
  - wp_steps. apply (wp_setp_upd _ _ _ x); [done|].
    rewrite (upd_ext p _ (rehome me (initproc s))); [done|].
    intros y Hy. rewrite Hx in Hy. injection Hy as <-. unfold rehome. by rewrite decide_True.
  - wp_steps. rewrite upd_same in HQ; [done|]. intros y Hy. rewrite Hx in Hy. injection Hy as <-.
    unfold rehome. by rewrite decide_False.
Qed.

Lemma reparent_walk s L me id D ip :
  Good (HwHeld Lptable) s L → valid_list id → no_child me D s → initproc s = Some ip → ip ≠ me →
  wp (walk id (reparent_one me)) s (λ _ s',
    Good (HwHeld Lptable) s' L ∧ no_child me (D ++ L id) s' ∧ Rp me s s').
Proof.
  intros HG Hv HD Hip Hne.
  apply (list_iter_rule id _ (L id) (λ d s', Good (HwHeld Lptable) s' L ∧
    no_child me (D ++ d) s' ∧ Rp me s s')); [done| | |].
  - intros d s' [HG' _]. exists L, None. split; [apply HG'|done].
  - intros d q r s' El (HG' & HD' & HR').
    destruct (good_member _ s' L id q HG') as (x & Hx & _); [rewrite El; set_solver|].
    assert (initproc s' = Some ip) as Hip' by (destruct HR' as (-> & _); done).
    apply (wp_reparent_one _ _ _ x); [done|]. split; [by eapply good_rehome|]. split.
    + rewrite app_assoc. by apply (no_child_rehome me (D ++ d) s' q ip).
    + eapply Rp_trans; [done|apply Rp_rehome].
  - rewrite app_nil_r. split; [done|]. split; [done|apply Rp_refl].
Qed.

Lemma reparent_ready_spec ids : ∀ s L me D ip,
  Good (HwHeld Lptable) s L → Forall valid_list ids → no_child me D s → initproc s = Some ip →
  ip ≠ me →
  wp (reparent_ready me ids) s (λ _ s',
    Good (HwHeld Lptable) s' L ∧ no_child me (D ++ concat (L <$> ids)) s' ∧ Rp me s s').
Proof.
  induction ids as [|id ids IH]; intros s L me D ip HG Hv HD Hip Hne; simpl; wp_steps.
  { rewrite app_nil_r. split; [done|]. split; [done|apply Rp_refl]. }
  inversion Hv; subst. eapply wp_mono; [by apply (reparent_walk s L me id D ip)|].
  intros _ s1 (HG1 & HD1 & HR1). eapply wp_mono; [apply (IH s1 L me (D ++ L id) ip); try done|].
  { destruct HR1 as (-> & _). done. }
  intros _ s2 (HG2 & HD2 & HR2). rewrite <- app_assoc in HD2. split; [done|]. split; [done|].
  by eapply Rp_trans.
Qed.

(** The lists [wakeup1] leaves alone. *)
Definition same_rest (L L' : listid → list nat) : Prop :=
  L' Zombie = L Zombie ∧ L' Running = L Running ∧ L' Embryo = L Embryo ∧ L' Free = L Free.

Lemma no_child_kviews me D s s' : kviews s' = kviews s → no_child me D s → no_child me D s'.
Proof. unfold no_child. by intros ->. Qed.

Lemma wakeup1_Rp me s L ch :
  Good (HwHeld Lptable) s L →
  wp (wakeup1 ch) s (λ _ s', ∃ L', Good (HwHeld Lptable) s' L' ∧ same_rest L L' ∧ Rp me s s' ∧
    kviews s' = kviews s).
Proof.
  intros HG. eapply wp_mono; [apply (wakeup1_safe s L _ ch HG)|]. intros _ s' (HG' & E & Ek).
  eexists. split; [unfold Good; rewrite Ek; exact HG'|]. split; [done|]. split; [|done].
  split; [exact (f_equal initproc E)|]. split; [exact (f_equal khw E)|].
  split; [exact (f_equal kenv E)|]. split; [exact (f_equal ticks E)|]. split; [by rewrite Ek|].
  intros q v v' Hv Hv'. left. congruence.
Qed.

Lemma wp_reparent_zombie me p s x (Q : unit → kst → Prop) :
  procs s !! p = Some x →
  Q tt (upd p (rehome me (initproc s)) s) →
  wp (wakeup1 (proc_addr (initproc s))) (upd p (rehome me (initproc s)) s) Q →
  wp (reparent_zombie me p) s Q.
Proof.
  intros Hx HQ HQ'. unfold reparent_zombie. wp_steps. apply (wp_getp _ _ x); [done|]. case_decide as E.
  - wp_steps. apply (wp_setp_upd _ _ _ x); [done|].
    rewrite (upd_ext p _ (rehome me (initproc s))); [done|].
    intros y Hy. rewrite Hx in Hy. injection Hy as <-. unfold rehome. by rewrite decide_True.
  - wp_steps. rewrite upd_same in HQ; [done|]. intros y Hy. rewrite Hx in Hy. injection Hy as <-.
    unfold rehome. by rewrite decide_False.
Qed.

Lemma zombie_walk s L me D ip :
  Good (HwHeld Lptable) s L → no_child me D s → initproc s = Some ip → ip ≠ me →
  wp (walk Zombie (reparent_zombie me)) s (λ _ s', ∃ L',
    Good (HwHeld Lptable) s' L' ∧ same_rest L L' ∧ no_child me (D ++ L Zombie) s' ∧ Rp me s s').
Proof.
  intros HG HD Hip Hne.
  apply (list_iter_rule Zombie _ (L Zombie) (λ d s', ∃ L', Good (HwHeld Lptable) s' L' ∧
    same_rest L L' ∧ no_child me (D ++ d) s' ∧ Rp me s s')); [done| | |].
  - intros d s' (L' & HG' & (HZ & _) & _). exists L', None. split; [apply HG'|done].
  - intros d q r s' El (L' & HG' & HS' & HD' & HR').
    assert (q ∈ L' Zombie) as Hq by (rewrite (proj1 HS'), El; set_solver).
    destruct (good_member _ s' L' Zombie q HG' Hq) as (x & Hx & _).
    assert (initproc s' = Some ip) as Hip' by (destruct HR' as (-> & _); done).
    assert (no_child me (D ++ d ++ [q]) (upd q (rehome me (initproc s')) s')) as HD''.
    { rewrite app_assoc. by apply (no_child_rehome me (D ++ d) s' q ip). }
    assert (Rp me s (upd q (rehome me (initproc s')) s')) as HR'' by (eapply Rp_trans, Rp_rehome; done).
    assert (Good (HwHeld Lptable) (upd q (rehome me (initproc s')) s') L') as HG'' by (by eapply good_rehome).
    apply (wp_reparent_zombie _ _ _ x); [done|by exists L'|].
    eapply wp_mono; [by apply (wakeup1_Rp me _ L')|]. intros _ s2 (L2 & HG2 & HS2 & HR2 & Ek). exists L2.
    split; [done|]. split; [|split].
    + destruct HS' as (? & ? & ? & ?), HS2 as (? & ? & ? & ?). repeat split; congruence.
    + by eapply no_child_kviews.
    + by eapply Rp_trans.
  - exists L. rewrite app_nil_r. split; [done|]. split; [done|]. split; [done|apply Rp_refl].
Qed.

(** ** The end of [exit] *)

Lemma Rp_lookup me s s' p x :
  Rp me s s' → procs s !! p = Some x →
  ∃ x', procs s' !! p = Some x' ∧ noparent (kview x') = noparent (kview x).
Proof.
  intros (_ & _ & _ & _ & E & _) Hx. apply (f_equal (.!! p)) in E.
  rewrite !list_lookup_fmap, !kviews_lookup, Hx in E. destruct (procs s' !! p) as [x'|]; [|done].
  exists x'. split; [done|]. by apply (inj Some) in E.
Qed.

Lemma elem_of_ready_concat (L : listid → list nat) q i :
  q ∈ L (Ready i) → valid_list (Ready i) → q ∈ concat (L <$> ready_ids).
Proof.
  intros Hq Hi. apply list_elem_of_In, in_concat. exists (L (Ready i)).
  split; [|by apply list_elem_of_In]. apply list_elem_of_In, list_elem_of_fmap.
  exists (Ready i). split; [done|]. by apply elem_of_ready_ids.
Qed.

(** All five walks. *)
Lemma reparent_all s L me ip (k : M kst unit) (Q : unit → kst → Prop) :
  Good (HwHeld Lptable) s L → initproc s = Some ip → ip ≠ me →
  (∀ s' L', Good (HwHeld Lptable) s' L' → Rp me s s' → L' Running = L Running →
    (∀ q v, kviews s' !! q = Some v → kin (v_cls v) → v_parent v ≠ Some me) → wp k s' Q) →
  wp (reparent_ready me ready_ids;; walk Sleep (reparent_one me);; walk Zombie (reparent_zombie me);;
      walk Running (reparent_one me);; walk Embryo (reparent_one me);; k) s Q.
Proof.
  intros HG Hip Hne HQ. wp_steps.
  assert (no_child me [] s) as HD0 by (intros q v Hq; by apply elem_of_nil in Hq).
  eapply wp_mono; [apply (reparent_ready_spec ready_ids s L me [] ip); try done; apply ready_ids_valid|].
  intros _ s1 (HG1 & HD1 & HR1). wp_steps.
  assert (∀ s', Rp me s s' → initproc s' = Some ip) as Hips by (intros s' (-> & _); done).
  eapply wp_mono; [apply (reparent_walk s1 L me Sleep _ ip HG1 I HD1 (Hips _ HR1) Hne)|].
  intros _ s2 (HG2 & HD2 & HR2). pose proof (Rp_trans _ _ _ _ HR1 HR2) as HR12. wp_steps.
  eapply wp_mono; [apply (zombie_walk s2 L me _ ip HG2 HD2 (Hips _ HR12) Hne)|].
  intros _ s3 (L3 & HG3 & HS3 & HD3 & HR3). pose proof (Rp_trans _ _ _ _ HR12 HR3) as HR13. wp_steps.
  eapply wp_mono; [apply (reparent_walk s3 L3 me Running _ ip HG3 I HD3 (Hips _ HR13) Hne)|].
  intros _ s4 (HG4 & HD4 & HR4). pose proof (Rp_trans _ _ _ _ HR13 HR4) as HR14. wp_steps.
  eapply wp_mono; [apply (reparent_walk s4 L3 me Embryo _ ip HG4 I HD4 (Hips _ HR14) Hne)|].
  intros _ s5 (HG5 & HD5 & HR5). pose proof (Rp_trans _ _ _ _ HR14 HR5) as HR15.
  destruct HS3 as (HS1 & HS2 & HS3 & HS4).
  apply (HQ s5 L3); [done|done|done|]. intros q v Hv Hk. apply (HD5 q v); [|done].
  rewrite HS2, HS3. destruct HR15 as (_ & _ & _ & _ & ER & _). apply (f_equal (.!! q)) in ER.
  rewrite !list_lookup_fmap, Hv, kviews_lookup in ER. destruct (procs s !! q) as [x|] eqn:Hx; [|done].
  assert (v_cls v = class_of (state x)) as Ec by (apply (inj Some) in ER; exact (f_equal v_cls ER)).
  rewrite Ec in Hk. destruct (pi_cover _ _ _ (g_p HG) q) as [?|[id Hid]]; [|done|].
  { rewrite <- (rep_len _ _ (pi_rep _ _ _ (g_p HG))). by eapply lookup_lt_Some. }
  destruct (pi_fits _ _ _ (g_p HG) id q x Hid Hx) as [Hst _].
  assert (∀ i, id = Ready i → q ∈ concat (L <$> ready_ids)) as Hr.
  { intros i ->. apply (elem_of_ready_concat L q i Hid), (pi_valid s L None (Ready i) q (g_p HG) Hid). }
  revert Hr. generalize (concat (L <$> ready_ids)). intros l Hr. rewrite !elem_of_app.
  rewrite Hst in Hk. destruct id as [i| | | | |]; try tauto.
  - specialize (Hr i eq_refl). tauto.
  - by destruct Hk as [[]|].
Qed.

Lemma zombie_view_ok s L me x ip :
  Good (HwHeld Lptable) s L → procs s !! me = Some x → state x = RUNNING → bare (kview x) →
  initproc s = Some ip → ip ≠ me →
  (∀ q v, kviews s !! q = Some v → kin (v_cls v) → v_parent v ≠ Some me) →
  VFacts (<[me := reclass CZombie false (kview x)]> (kviews s)) (initproc s) (kenv s).
Proof.
  intros HG Hx Hst Hb Hip Hne Hch. pose proof (g_v HG) as HV.
  assert (kviews s !! me = Some (kview x)) as Hv by (by rewrite kviews_lookup, Hx).
  assert (v_cls (kview x) = CRun) as Hc by (simpl; by rewrite Hst).
  assert (kin (v_cls (kview x))) as Hk by (left; by right).
  apply (VFacts_update _ _ (kenv s) _ me (kview x)); try done.
  - apply HV.
  - destruct (vf_loc _ _ _ HV me _ Hv) as (H1 & H2 & H3). rewrite Hc in H3.
    split; [done|]. split; [done|]. simpl. tauto.
  - intros q u Hq Hu. split; [by apply (vf_loc _ _ _ HV q)|].
    split; [by apply (vf_stack _ _ _ HV me q (kview x) u)|].
    change (space (reclass CZombie false (kview x))) with (v_pgdir (kview x)).
    replace (v_pgdir (kview x)) with (space (kview x)) by (unfold space; by rewrite Hc).
    by apply (vf_space _ _ _ HV me q).
  - congruence.
  - intros _. right. destruct (vf_family _ _ _ HV me _ Hv Hk) as [?|(q & u & Hq & Hu & Hl)]; [congruence|].
    exists q, u. split; [done|]. split; [|done]. rewrite list_lookup_insert_ne; [done|].
    intros <-. by apply (Hch me (kview x)).
  - right. intros q u _ Hu Hk' _. by apply (Hch q u).
Qed.

(** [me] has become a zombie without children. *)
Definition zombied (me : nat) (x : proc) (s s' : kst) : Prop :=
  ∃ L', Good HwIdle s' L' ∧ left_cpu s s' ∧ initproc s' = initproc s ∧ kenv s' = kenv s ∧
    noparent <$> kviews s' = <[me := noparent (reclass CZombie false (kview x))]> (noparent <$> kviews s) ∧
    to_init me s s' ∧ ∀ q v, kviews s' !! q = Some v → kin (v_cls v) → v_parent v ≠ Some me.

(** After the parent has been woken. *)
Lemma exit_rest_spec s h1 s2 L2 me x ip :
  same_cpus (khw s) h1 → proc_of (set_khw h1 s) = Some me → procs s !! me = Some x → bare (kview x) → initproc s = Some ip → ip ≠ me →
  Good (HwHeld Lptable) s2 L2 → Rp me (set_khw h1 s) s2 →
  wp (reparent_ready me ready_ids;; walk Sleep (reparent_one me);; walk Zombie (reparent_zombie me);; walk Running (reparent_one me);;
      walk Embryo (reparent_one me);; assert me RUNNING;; remove_or_panic Running me "Error removing from running list";;
      setp me (set_state ZOMBIE);; addhead Zombie me;; sched (λ _, CtxExit)) s2 (λ _ s', zombied me x s s').
Proof.
  intros Hs1 Hme1 Hx Hb Hip Hne HG2 HR2.
  apply (reparent_all s2 L2 me ip); [done|by destruct HR2 as (-> & _)|done|].
  intros s3 L3 HG3 HR3 HrL Hch. pose proof (Rp_trans _ _ _ _ HR2 HR3) as HR.
  destruct (Rp_lookup me _ _ me x HR Hx) as (x3 & Hx3 & Ev3).
  assert (proc_of s3 = Some me) as Hme3.
  { unfold proc_of in *. destruct HR as (_ & -> & _). done. }
  destruct (good_current _ _ _ _ HG3 Hme3) as (Hrun & y & Hy & Hst & _).
  rewrite Hx3 in Hy. injection Hy as <-. wp_steps.
  apply (wp_assert _ _ _ x3); [done|done|].
  apply (take_and_store s3 L3 Running me x3); try done; [apply HG3|apply (pi_prio _ _ _ (g_p HG3) me x3 Hx3)|].
  intros s4 x4 HP4 Hx4 Ex4 E4. wp_steps.
  eapply wp_mono; [apply (addhead_inv _ _ Zombie me x4 HP4 Hx4); split; [exact (f_equal state Ex4)|done]|].
  intros _ s5 [HP5 E5]. rewrite E4 in E5.
  assert (bare (kview x3)) as Hb3.
  { destruct Hb as [Ho Hc]. split; [rewrite <- Ho; exact (f_equal v_ofile Ev3)|
      rewrite <- Hc; exact (f_equal v_cwd Ev3)]. }
  assert (initproc s3 = Some ip) as Hip3 by (destruct HR as (-> & _); done).
  pose proof (zombie_view_ok s3 L3 me x3 ip HG3 Hx3 Hst Hb3 Hip3 Hne Hch) as HVw.
  eapply wp_mono; [apply (sched_leave s3 L3 me x3 _ (λ _, CtxExit) _ s5 _ HG3 Hme3 Hx3 HVw ltac:(done) HP5 E5)|].
  { done. }
  intros _ s6 (b & HG6 & Hl6 & EK6 & E6). eexists. split; [done|].
  destruct HR as (R1 & R2 & R3 & R4 & R5 & R6). split; [|split; [|split; [|split; [|split]]]].
  - apply (left_cpu_same s h1 _ Hs1). unfold left_cpu in *. by rewrite R2 in Hl6.
  - etrans; [exact (f_equal initproc E6)|done].
  - etrans; [exact (f_equal kenv E6)|done].
  - rewrite EK6, list_fmap_insert, R5. f_equal.
    change (kviews (set_khw h1 s)) with (kviews s).
    transitivity (reclass CZombie false (noparent (kview x3))); [done|]. by rewrite Ev3.
  - intros q v v' Hv. rewrite EK6. intros [[-> ->]|[Hq Hv']]%insert_lookup_cases; [|by apply (R6 q)].
    apply (R6 me v (kview x3) Hv). by rewrite kviews_lookup, Hx3.
  - intros q v. rewrite EK6. intros [[-> ->]|[Hq Hv]]%insert_lookup_cases Hk; [|by apply (Hch q)].
    simpl. apply (Hch me (kview x3)); [by rewrite kviews_lookup, Hx3|].
    left. right. simpl. by rewrite Hst.
Qed.

(** The wake-up of exit reaches a parent that waits. *)
Lemma wakeup1_wakes me s L q :
  Good (HwHeld Lptable) s L → wp (wakeup1 (AddrProc q)) s (λ _ s', (∃ L', Good (HwHeld Lptable) s' L' ∧ Rp me s s') ∧
    (slot_is q (waits q) s → slot_is q woken s')).
Proof.
  intros HG. pose proof (wakeup1_Rp me s L (AddrProc q) HG) as H1. pose proof (wakeup1_safe s L _ (AddrProc q) HG) as H2.
  unfold wp in *. destruct (wakeup1 (AddrProc q) s) as [a s'| | |]; [|done..]. destruct H1 as (L' & HG' & _ & HR & _), H2 as (_ & E & _).
  split; [by exists L'|]. intros (y & Hy & Hw). apply core_lookup_Some in Hy.
  assert (procs (core s') !! q = Some (if decide (state y = SLEEPING ∧ chan y = AddrProc q) then set_state RUNNABLE (set_next None y) else set_next None y)) as Hc.
  { rewrite E. unfold wakeup1_scan. by rewrite mapp_lookup, Hy. }
  simpl in Hc. rewrite list_lookup_fmap in Hc. destruct (procs s' !! q) as [y'|] eqn:Hy'; [|done]. exists y'. split; [done|]. apply (inj Some) in Hc.
  apply (f_equal state) in Hc. simpl in Hc. unfold woken. rewrite Hc. case_decide as Hd; [done|]. destruct Hw as [Hw|Hw]; [done|by destruct Hd].
Qed.

Lemma exit_ptable_spec s L me x ip :
  Good HwIdle s L → proc_of s = Some me → procs s !! me = Some x → bare (kview x) →
  initproc s = Some ip → ip ≠ me →
  wp (exit_ptable me) s (λ _ s', zombied me x s s' ∧ ∀ q, parent x = Some q → q ≠ me → slot_is q (waits q) s → slot_is q woken s').
Proof.
  intros HG Hme Hx Hb Hip Hne. unfold exit_ptable. wp_steps. wp_call good_acquire; [done|].
  intros _ s1 (HG1 & h1 & -> & Hs1). pose proof (proc_of_same s h1 me Hme Hs1) as Hme1.
  wp_steps. apply (wp_getp _ _ x); [done|]. wp_steps.
  eapply (wp_mono _ _ (λ _ s2, (∃ L2, Good (HwHeld Lptable) s2 L2 ∧ Rp me (set_khw h1 s) s2) ∧
    ∀ q, parent x = Some q → slot_is q (waits q) s → slot_is q woken s2)).
  { destruct (parent x) as [q|].
    - eapply wp_mono; [by apply (wakeup1_wakes me _ L q)|]. intros _ s2 [H2 Hw]. split; [done|]. by intros q' [= <-].
    - eapply wp_mono; [by apply (wakeup1_Rp me _ L)|]. intros _ s2 (L2 & ? & _ & ? & _). split; [by exists L2|done]. }
  intros _ s2 [(L2 & HG2 & HR2) Hw].
  pose proof (exit_rest_spec s h1 s2 L2 me x ip Hs1 Hme1 Hx Hb Hip Hne HG2 HR2) as HZ. pose proof (λ q Hq, steady_exit_rest me q Hq s2) as HS.
  unfold wp in *. match goal with |- match ?r with _ => _ end => destruct r as [a s3| | |] end; [|done..]. split; [done|]. intros q Hp Hq Hqw. by apply HS, Hw.
Qed.

(** ** exit as a whole *)

Lemma good_env Hw s L vs e' :
  GoodV Hw s L vs → env_ok e' → held e' = held (kenv s) → vm_size e' = vm_size (kenv s) →
  frefs e' = frefs (kenv s) → irefs e' = irefs (kenv s) → GoodV Hw (set_kenv e' s) L vs.
Proof.
  intros [HP HV HC HH] He E1 E2 E3 E4. split; [by apply (PInv_frame s)| |done|done].
  by apply (VFacts_env _ _ (kenv s)).
Qed.

Lemma irefs_pos vs ini e p v i :
  VFacts vs ini e → vs !! p = Some v → v_cwd v = Some i → (1 ≤ irefs e i)%nat.
Proof.
  intros HV Hv Hi. pose proof (vf_cwds _ _ _ HV i) as Hs.
  pose proof (sum_over_lookup (λ v, cwd_count i (v_cwd v)) vs p v Hv) as H1.
  unfold cwd_count in *. rewrite Hi, decide_True in H1 by done. lia.
Qed.

Lemma iput_safe s L me x c :
  Good HwIdle s L → procs s !! me = Some x → state x = RUNNING → cwd x = Some c →
  ofile x = replicate NOFILE None → (1 ≤ ops (kenv s))%nat →
  wp (lift_env (iput c)) s (λ _ s', ∃ e', s' = set_kenv e' s ∧ ops e' = ops (kenv s) ∧
    GoodV HwIdle s' L (<[me := with_cwd None (kview x)]> (kviews s))).
Proof.
  intros HG Hx Hst Hc Hof Hops. destruct HG as [HP HV HC HH].
  assert (kviews s !! me = Some (kview x)) as Hv by (by rewrite kviews_lookup, Hx).
  pose proof (irefs_pos _ _ _ me (kview x) c HV Hv Hc) as Hpos.
  apply wp_lift_env. eapply wp_mono; [apply law_iput; [apply HV|done|done]|].
  intros _ e' (He & E1 & E2 & E3 & E4 & E5). exists e'. split; [done|]. split; [done|].
  split; [by apply (PInv_frame s)| | |done].
  - change (with_cwd None (kview x)) with (with_ofile (v_ofile (kview x)) (with_cwd None (kview x))).
    apply (VFacts_refs _ _ (kenv s)); try done.
    + eapply (vok_env (kenv s)); [done|done|].
      destruct (vf_loc _ _ _ HV me _ Hv) as (H1 & H2 & H3). split; [done|]. split; [done|].
      simpl in *. rewrite Hst in *. simpl in *. split; [by right|tauto].
    + intros f. simpl. rewrite E3. lia.
    + intros i. simpl. rewrite E5, fn_insert_dec, Hc. unfold cwd_count.
      repeat case_decide; simplify_eq; try done; lia.
  - by apply (OnCpu_same _ _ me (kview x)).
Qed.

Lemma closed_all o o' :
  length o' = NOFILE → closed (seq 0 NOFILE) o o' → o' = replicate NOFILE None.
Proof.
  intros Hl [Hc _]. apply list_eq. intros fd. destruct (decide (fd < NOFILE)%nat) as [Hfd|Hfd].
  - rewrite Hc by (apply elem_of_seq; lia). symmetry. apply lookup_replicate. done.
  - rewrite !lookup_ge_None_2; [done|rewrite length_replicate; lia|lia].
Qed.

Lemma proc_of_eq s s' me :
  same_cpus (khw s) (khw s') → proc_of s = Some me → proc_of s' = Some me.
Proof. rewrite !proc_of_on. by intros [-> ->]. Qed.

Lemma upd_kview p f s x :
  procs s !! p = Some x → kviews (upd p f s) !! p = Some (kview (f x)).
Proof. intros Hx. by rewrite kviews_lookup, upd_lookup, decide_True, Hx. Qed.

Lemma zombie_record s' vs me w :
  noparent <$> kviews s' = <[me := noparent (reclass CZombie false w)]> (noparent <$> vs) →
  is_Some (vs !! me) → ∃ x', procs s' !! me = Some x' ∧ state x' = ZOMBIE.
Proof.
  intros E [v Hv]. apply (f_equal (.!! me)) in E. rewrite list_lookup_insert_eq, list_lookup_fmap, kviews_lookup in E.
  - destruct (procs s' !! me) as [x'|]; [|done]. exists x'. split; [done|].
    injection E as E _. by destruct (state x').
  - rewrite length_fmap. by eapply lookup_lt_Some.
Qed.

Lemma slot_is_upd q P p f s : (∀ z, P z → P (f z)) → slot_is q P s → slot_is q P (upd p f s).
Proof.
  intros Hf (y & Hy & HP). unfold slot_is. rewrite upd_lookup, Hy. case_decide; simpl; eauto.
Qed.

(** Closing the files and the working directory, up to [exit_ptable]. *)
Lemma exit_close s L me x (k : M kst unit) (Q : unit → kst → Prop) :
  Good HwIdle s L → proc_of s = Some me → procs s !! me = Some x → cwd x ≠ None →
  (∀ s' L' x', Good HwIdle s' L' → same_cpus (khw s) (khw s') → initproc s' = initproc s → ops (kenv s') = ops (kenv s) →
     procs s' !! me = Some x' → bare (kview x') → others_same me s s' →
     (∀ q P, stable P → slot_is q P s → slot_is q P s') → wp k s' Q) →
  wp (exit_files me (seq 0 NOFILE);; lift_env begin_op;; y ← getp me; c ← lookupM (λ _, cwd y); chs ← lift_env (iput c);
      wakeups chs;; chs ← lift_env end_op; wakeups chs;; setp me (set_cwd None);; k) s Q.
Proof.
  intros HG Hme Hx Hcw HQ. wp_steps.
  eapply wp_mono; [eapply wp_steady; [intros; by apply steady_exit_files|apply (exit_files_spec me _ s L x HG Hme Hx)]|].
  { apply Forall_forall. intros fd Hfd. apply elem_of_seq in Hfd. lia. }
  intros _ s1 [(L1 & x1 & HG1 & Hs1 & Ei1 & Eo1 & Hx1 & Ec1 & Hcl & Hoth1) K1].
  pose proof (proc_of_eq s s1 me Hs1 Hme) as Hme1.
  destruct (good_current _ _ _ _ HG1 Hme1) as (_ & y & Hy & Hst & _).
  rewrite Hx1 in Hy. injection Hy as <-.
  assert (kviews s1 !! me = Some (kview x1)) as Hv1 by (by rewrite kviews_lookup, Hx1).
  assert (ofile x1 = replicate NOFILE None) as Hof.
  { apply (closed_all (ofile x)); [|done]. apply (vf_loc _ _ _ (g_v HG1) me _ Hv1). }
  destruct (cwd x1) as [c|] eqn:Hc; [|congruence].
  wp_steps. apply wp_lift_env. eapply wp_mono; [apply law_begin_op, HG1|].
  intros _ e2 (He & F1 & F2 & F3 & F4 & F5). wp_steps.
  assert (Good HwIdle (set_kenv e2 s1) L1) as HG2 by (by apply good_env).
  apply (wp_getp _ _ x1); [done|]. wp_steps. apply (wp_lookupM _ _ c); [by rewrite Hc|]. wp_steps.
  eapply wp_mono; [apply (iput_safe _ L1 me x1 c HG2); try done; simpl; lia|].
  intros chs s3 (e3 & -> & Eo3 & HG3). wp_steps.
  eapply wp_mono; [eapply wp_steady; [intros; by apply steady_wakeups|eapply wakeups_safe; exact HG3]|].
  intros _ s4 [(L4 & HG4 & Hs4 & Ek4 & Ei4 & Ee4) K4]. simpl in Eo3, Ee4, Ei4.
  change (kviews (set_kenv _ _)) with (kviews s1) in *. wp_steps. apply wp_lift_env.
  eapply wp_mono; [apply law_end_op; [apply HG4|rewrite Ee4; lia]|].
  intros chs' e5 (He5 & G1 & G2 & G3 & G4 & G5). wp_steps.
  assert (GoodV HwIdle (set_kenv e5 s4) L4 (<[me := with_cwd None (kview x1)]> (kviews s1))) as HG5
    by (by apply good_env).
  eapply wp_mono; [eapply wp_steady; [intros; by apply steady_wakeups|eapply wakeups_safe; exact HG5]|].
  intros _ s6 [(L6 & HG6 & Hs6 & Ek6 & Ei6 & Ee6) K6]. simpl in Ei6, Ee6, Hs6.
  change (kviews (set_kenv e5 s4)) with (kviews s4) in Ek6. wp_steps.
  assert (kviews s6 = kviews s1) as Ek by congruence.
  destruct (kview_same_lookup s1 s6 me x1 Ek Hx1) as (x6 & Hx6 & Ev6).
  apply (wp_setp_upd _ _ _ x6); [done|]. rewrite <- Ek in HG6.
  apply (good_inert_store _ _ _ _ x6 (set_cwd None)) in HG6; [|done|done|by rewrite <- Ev6].
  apply (HQ _ L6 (set_cwd None x6)); try done.
  - destruct Hs1, Hs4, Hs6. simpl in *. split; congruence.
  - simpl. congruence.
  - simpl. rewrite Ee6, G5, Ee4, Eo3, F5. simpl. done.
  - by rewrite upd_lookup, decide_True, Hx6.
  - split; [|done]. rewrite <- Hof. exact (f_equal v_ofile Ev6).
  - eapply others_same_trans; [exact Hoth1|by apply others_same_upd].
  - intros q P HP Hq. apply (slot_is_upd q P me); [|by apply K6, K4, K1]. intros z. by apply stable_eq.
Qed.

Lemma exit_spec s L me x ip :
  Good HwIdle s L → proc_of s = Some me → procs s !! me = Some x → cwd x ≠ None →
  initproc s = Some ip → ip ≠ me →
  wp exit s (λ _ s', ∃ L' x', Good HwIdle s' L' ∧ left_cpu s s' ∧ initproc s' = initproc s ∧
    ops (kenv s') = ops (kenv s) ∧ procs s' !! me = Some x' ∧ state x' = ZOMBIE ∧
    (∀ q, q ≠ me → noparent <$> kviews s' !! q = noparent <$> kviews s !! q) ∧
    (∀ q v v', q ≠ me → kviews s !! q = Some v → kviews s' !! q = Some v' →
       v_parent v' = v_parent v ∨ (v_parent v = Some me ∧ v_parent v' = initproc s)) ∧
    (∀ q v, kviews s' !! q = Some v → kin (v_cls v) → v_parent v ≠ Some me) ∧
    ∀ q, parent x = Some q → q ≠ me → slot_is q (waits q) s → slot_is q woken s').
Proof.
  intros HG Hme Hx Hcw Hip Hne. unfold exit. wp_steps. rewrite Hme, Hip, decide_False by congruence.
  wp_steps. apply (wp_deref _ _ me); [done|]. apply (exit_close s L me x _ _ HG Hme Hx Hcw).
  intros s6 L6 x6 HG6 Hs Ei6 Ee6 Hx6 Hb6 Hoth K.
  destruct (K me _ (parent_stable (parent x))) as (z & Hz & Ep); [by exists x|]. rewrite Hx6 in Hz. injection Hz as <-.
  eapply wp_mono; [apply (exit_ptable_spec s6 L6 me x6 ip HG6); [by apply (proc_of_eq s)|done|done|congruence|done]|].
  intros _ s7 [(L7 & HG7 & Hl7 & Ei7 & Ee7 & Ek7 & Hto & Hch) Hwk].
  assert (kviews s6 !! me = Some (kview x6)) as Hv6 by (by rewrite kviews_lookup, Hx6).
  destruct (zombie_record s7 _ me _ Ek7 (ex_intro _ _ Hv6)) as (x7 & Hx7 & Hst7).
  exists L7, x7. split; [done|]. split; [|split; [congruence|split]]; [..|do 2 (split; [done|])].
  - destruct Hl7 as [A B], Hs as [C D]. split; simpl in *; congruence.
  - by rewrite Ee7.
  - split; [|split; [|split; [done|]]].
    + intros q Hq. rewrite <- list_lookup_fmap, Ek7, list_lookup_insert_ne, list_lookup_fmap, Hoth by done. done.
    + intros q v v' Hq Hv Hv'. rewrite <- (Hoth q Hq) in Hv.
      destruct (Hto q v v' Hv Hv') as [?|[? E]]; [by left|right]. split; [done|]. rewrite E. congruence.
    + intros q Hq Hqm Hw. apply Hwk; [congruence|done|]. by apply K; [apply waits_stable|].
Qed.
End ProcExit.
