(* ===== verification/ProcWait.v ===== *)
(** * wait (proc.c): reaping a child

    One turn of the loop of [wait], with ptable.lock held: a zombie child is
    reaped and its slot freed, or the caller has nobody to wait for, or it
    goes to sleep on its own process structure. *)

From S2P Require Import Prelude Spinlock CString ProcState ProcList Proc ProcInv ProcWake KInv ProcSafe ProcExit.

Local Open Scope Z_scope.

Section ProcWait.
Context `{KL : KernelLaws}.

(** The slot of a reaped process. *)
Definition reaped (x : proc) : proc :=
  set_killed 0 (set_name (<[0%nat := 0]> (name x)) (set_parent None (set_pid 0
    (set_state UNUSED (set_kstack None x))))).

Lemma PInv_env s L off e : PInv s L off → PInv (set_kenv e s) L off.
Proof. by apply PInv_frame. Qed.

(** The table after [reap], ignoring the rest of the kernel. *)
Lemma reap_table s L p x e1 e2 :
  PInv s L None → p ∈ L Zombie → procs s !! p = Some x →
  kfree (default 0 (kstack x)) (kenv s) = Ret tt e1 → freevm (pgdir x) e1 = Ret tt e2 →
  wp (reap p) s (λ r s', r = i32 (pid x) ∧
    PInv s' (<[Free := p :: L Free]> (take_out Zombie p L)) None ∧
    core s' = set_kenv e2 (upd p reaped (core s))).
Proof.
  intros HP Hp Hx Ek Ef. unfold reap. wp_steps. apply (wp_getp _ _ x); [done|]. wp_steps.
  apply wp_lift_env. eapply wp_Ret; [exact Ek|]. wp_steps.
  apply (wp_setp_upd _ _ _ x); [done|]. wp_steps. apply wp_lift_env. eapply wp_Ret; [exact Ef|].
  set (s1 := set_kenv e2 (upd p (set_kstack None) (set_kenv e1 s))).
  assert (PInv s1 L None) as HP1 by (apply PInv_env, PInv_inert; [by apply PInv_env|done]).
  assert (procs s1 !! p = Some (set_kstack None x)) as Hx1.
  { change (procs (upd p (set_kstack None) s) !! p = Some (set_kstack None x)).
    by rewrite upd_lookup, decide_True, Hx. }
  assert (fits Zombie x) as [Hst _] by (by apply (pi_fits _ _ _ HP Zombie p)).
  wp_steps. apply (wp_assert _ _ _ (set_kstack None x)); [done|done|].
  apply (take_and_store s1 L Zombie p (set_kstack None x)); try done.
  { apply (pi_prio _ _ _ HP p x Hx). }
  intros s2 x2 HP2 Hx2 Ex2 E2. wp_steps.
  eapply wp_mono; [apply (addhead_inv _ _ Free p x2 HP2 Hx2); split; [exact (f_equal state Ex2)|done]|].
  intros _ s3 [HP3 E3]. rewrite E2 in E3.
  destruct (rep_lookup s3 _ p (pi_rep _ _ _ HP3)) as [x3 Hx3].
  { rewrite <- (rep_len _ _ (pi_rep _ _ _ HP)). by eapply lookup_lt_Some. }
  pose proof (core_store s1 s3 p (set_state UNUSED) _ x3 E3 Hx1 Hx3) as Ex3.
  wp_steps. apply (wp_setp_upd _ _ _ x3); [done|]. wp_steps.
  eapply wp_setp_upd; [by rewrite upd_lookup, decide_True, Hx3|]. rewrite upd_upd. wp_steps.
  eapply wp_setp_upd; [by rewrite upd_lookup, decide_True, Hx3|]. rewrite upd_upd. wp_steps.
  eapply wp_setp_upd; [by rewrite upd_lookup, decide_True, Hx3|]. rewrite upd_upd. wp_steps.
  split; [done|]. split; [by apply PInv_inert|].
  rewrite core_upd, E3, upd_upd by done. unfold s1.
  change (core (set_kenv e2 ?z)) with (set_kenv e2 (core z)).
  rewrite core_upd by done.
  change (set_kenv e2 (upd p ?f (set_kenv e1 ?z))) with (set_kenv e2 (upd p f z)).
  transitivity (set_kenv e2 (upd p (set_killed 0 ∘ (λ y, set_name (<[0%nat:=0]> (name y)) y) ∘
    set_parent None ∘ set_pid 0 ∘ set_state UNUSED) (upd p (set_kstack None) (core s)))); [done|].
  by rewrite upd_upd.
Qed.

Lemma fd_count_bare f : fd_count f (replicate NOFILE None) = 0%nat.
Proof. done. Qed.

(** A process that is not live, with stack [a], gives its slot back. *)
Lemma VFacts_gone vs ini e e' p v w a :
  VFacts vs ini e → vs !! p = Some v → ¬ live (v_cls v) → v_kstack v = Some a →
  env_ok e' → (∀ b, held e' b ↔ b ≠ a ∧ held e b) →
  (∀ pg, space v ≠ Some pg → vm_size e' pg = vm_size e pg) →
  frefs e' = frefs e → irefs e' = irefs e →
  v_cls w = CFree → bare w → v_kstack w = None → v_name w = 16%nat →
  VFacts (<[p := w]> vs) ini e'.
Proof.
  intros HV Hv Hnl Ha He Hh Hvm Fr Ir Hc Hb Hk Hn.
  apply (VFacts_update vs ini e e' p v); try done.
  - split; [by rewrite (proj1 Hb)|]. split; [done|]. by rewrite Hc.
  - intros q u Hq Hu. unfold space at 1. rewrite Hc, Hk. split; [|by split].
    pose proof (vf_loc _ _ _ HV q u Hu) as (H1 & H2 & H3). split; [done|]. split; [done|].
    assert (stack_ok e u → stack_ok e' u) as Ks.
    { intros (b & Eb & Hhb). exists b. split; [done|]. apply Hh. split; [|done]. intros ->.
      pose proof (vf_stack _ _ _ HV p q v u Hv Hu ltac:(done) ltac:(congruence)). congruence. }
    assert (space u = v_pgdir u → vm_ok e u → vm_ok e' u) as Kv.
    { intros Esp (pg & Epg & Esz). exists pg. split; [done|]. rewrite Hvm; [done|]. intros Esv.
      pose proof (vf_space _ _ _ HV p q v u Hv Hu ltac:(done) ltac:(congruence)). congruence. }
    unfold space in Kv. destruct (v_cls u); tauto.
  - intros ->. destruct (vf_init _ _ _ HV p eq_refl) as (u & Hu & Hl). congruence.
  - rewrite Hc. by intros [[]|].
  - right. intros q u Hq Hu Hku Hi Hpar.
    destruct (vf_family _ _ _ HV q u Hu Hku) as [?|(r & z & Hr & Hz & Hl)]; [done|]. congruence.
  - intros f. rewrite Fr, (proj1 Hb), fd_count_bare. lia.
  - intros i. rewrite Ir, (proj2 Hb). unfold cwd_count at 1. rewrite decide_False by done. lia.
Qed.

Lemma reap_spec s L p x :
  Good (HwHeld Lptable) s L → p ∈ L Zombie → procs s !! p = Some x →
  wp (reap p) s (λ r s', r = i32 (pid x) ∧
    Good (HwHeld Lptable) s' (<[Free := p :: L Free]> (take_out Zombie p L)) ∧
    khw s' = khw s ∧ initproc s' = initproc s ∧
    kviews s' = <[p := kview (reaped x)]> (kviews s)).
Proof.
  intros HG Hp Hx. pose proof (g_v HG) as HV. pose proof (vf_env _ _ _ HV) as He.
  destruct (good_member _ s L Zombie p HG Hp) as (y & Hy & Hst & _). rewrite Hx in Hy. injection Hy as <-.
  assert (kviews s !! p = Some (kview x)) as Hv by (by rewrite kviews_lookup, Hx).
  pose proof (vf_loc _ _ _ HV p _ Hv) as (Hlo & Hln & Hcls).
  assert (v_cls (kview x) = CZombie) as Hc by (simpl; by rewrite Hst). rewrite Hc in Hcls.
  destruct Hcls as (Hb & (a & Ha & Hha) & (pg & Hpg & Hsz)). simpl in Ha, Hpg, Hsz.
  destruct (wp_inv _ _ _ (law_kfree _ a He Hha)) as (u1 & e1 & Ek & He1 & Vm1 & F1 & I1 & O1 & Hd1).
  destruct (wp_inv _ _ _ (law_freevm e1 pg (sz x) He1 ltac:(by rewrite Vm1)))
    as (u2 & e2 & Ef & He2 & Hd2 & F2 & I2 & O2 & Vm2).
  destruct u1, u2.
  eapply wp_mono; [apply (reap_table s L p x e1 e2 (g_p HG) Hp Hx); [by rewrite Ha|by rewrite Hpg]|].
  intros r s' (-> & HP' & E'). split; [done|].
  assert (kviews s' = <[p := kview (reaped x)]> (kviews s)) as EK.
  { rewrite <- (kviews_core s'), E', <- (kviews_core s).
    exact (kviews_upd p reaped (core s) _ (core_lookup_Some s p x Hx)). }
  assert (initproc s' = initproc s) as Ei by exact (f_equal initproc E').
  assert (khw s' = khw s) as Eh by exact (f_equal khw E').
  assert (kenv s' = e2) as Ee by exact (f_equal kenv E').
  split; [|done]. unfold Good. rewrite EK. split; [done| | |rewrite Eh; apply HG].
  - rewrite Ei, Ee. apply (VFacts_gone _ _ (kenv s) _ p (kview x) _ a); try done; try congruence.
    + rewrite Hc. by intros [].
    + by rewrite Hd2.
    + unfold space. rewrite Hc. simpl. intros pg' Hpg'. rewrite Vm2, Vm1, fn_insert_dec, decide_False; congruence.
    + simpl. by rewrite length_insert.
  - rewrite Eh. apply (OnCpu_same _ _ p (kview x)); [apply HG|done|]. by rewrite Hc.
Qed.

(** ** One turn *)

Definition child_in (s : kst) (me : nat) (c : procstate → Prop) : Prop :=
  ∃ p x, procs s !! p = Some x ∧ parent x = Some me ∧ c (state x).
Definition waitable (st : procstate) : Prop :=
  st = SLEEPING ∨ st = RUNNABLE ∨ st = RUNNING ∨ st = EMBRYO.

Definition kid_lists : list listid := [Sleep] ++ ready_ids ++ [Running; Embryo].

Lemma kid_lists_valid : Forall valid_list kid_lists.
Proof.
  apply Forall_app. split; [by repeat constructor|]. apply Forall_app.
  split; [apply ready_ids_valid|by repeat constructor].
Qed.

Lemma kid_lists_state s L p x :
  PInv s L None → procs s !! p = Some x →
  (∃ id, id ∈ kid_lists ∧ p ∈ L id) ↔ waitable (state x).
Proof.
  intros HP Hx. unfold waitable. split.
  - intros (id & Hid & Hp). destruct (pi_fits _ _ _ HP id p x Hp Hx) as [-> _].
    unfold kid_lists in Hid. rewrite !elem_of_app in Hid. destruct id; simpl; try tauto; exfalso;
      destruct Hid as [Hid|[(i & ? & _)%list_elem_of_fmap|Hid]]; try done; set_solver.
  - intros Hst. assert (∃ id, fits id x ∧ id ∈ kid_lists) as (id & Hf & Hid).
    { unfold kid_lists. setoid_rewrite elem_of_app. setoid_rewrite elem_of_app.
      destruct Hst as [E|[E|[E|E]]].
      - exists Sleep. split; [by split|]. left. set_solver.
      - exists (Ready (prio x)). split; [by split|]. right. left. apply elem_of_ready_ids.
        apply (pi_prio _ _ _ HP p x Hx).
      - exists Running. split; [by split|]. right. right. set_solver.
      - exists Embryo. split; [by split|]. right. right. set_solver. }
    exists id. split; [done|]. by apply (pi_mem_iff s L p x id).
Qed.

Lemma no_child_state s L me (ids : list listid) (c : procstate → Prop) :
  PInv s L None →
  (∀ p x, procs s !! p = Some x → c (state x) → ∃ id, id ∈ ids ∧ p ∈ L id) →
  (∀ id p x, id ∈ ids → p ∈ L id → procs s !! p = Some x → is_child me x = false) →
  ¬ child_in s me c.
Proof.
  intros HP Hc Hno (p & x & Hx & Hpar & Hst). destruct (Hc p x Hx Hst) as (id & Hid & Hp).
  specialize (Hno id p x Hid Hp Hx). by apply bool_decide_eq_false in Hno.
Qed.

(** What a turn returns, and when. *)
Definition wait_post (s s' : kst) (me : nat) (x : proc) (r : wait_result) : Prop :=
  match r with
  | WaitReturn n =>
      same_cpus (khw s) (khw s') ∧
      ((∃ p y, procs s !! p = Some y ∧ parent y = Some me ∧ state y = ZOMBIE ∧ n = i32 (pid y) ∧
          kviews s' = <[p := kview (reaped y)]> (kviews s)) ∨
       (n = -1 ∧ ¬ child_in s me (eq ZOMBIE) ∧ (¬ child_in s me waitable ∨ killed x ≠ 0) ∧
          kviews s' = kviews s))
  | WaitSleep =>
      left_cpu s s' ∧ ¬ child_in s me (eq ZOMBIE) ∧ child_in s me waitable ∧ killed x = 0 ∧
      kviews s' = <[me := reclass CWait true (kview x)]> (kviews s) ∧
      ∃ x', procs s' !! me = Some x' ∧ state x' = SLEEPING ∧ chan x' = AddrProc me
  end.

Lemma sleep_record_facts t ch k x :
  state (sleep_record t ch k x) = SLEEPING ∧ chan (sleep_record t ch k x) = ch.
Proof.
  unfold sleep_record, off_record, switched. simpl.
  rewrite (proj1 (charge_facts _ _)). split; [done|]. unfold charge. by repeat case_decide.
Qed.

Lemma wait_turn_spec s L me x :
  Good (HwHeld Lptable) s L → proc_of s = Some me → procs s !! me = Some x → cwd x ≠ None →
  wp (wait_turn me) s (λ r s', (∃ L', Good HwIdle s' L') ∧ initproc s' = initproc s ∧ wait_post s s' me x r).
Proof.
  intros HG Hme Hx Hcw. pose proof (g_p HG) as HP. unfold wait_turn. wp_steps.
  eapply wp_mono; [apply (lists_find_spec s L None [Zombie] _ HP); by repeat constructor|].
  intros [p|] s1 [-> Hr]; wp_steps.
  { destruct Hr as (id & y & ->%list_elem_of_singleton & Hp & Hy & Hch). apply bool_decide_eq_true in Hch.
    eapply wp_mono; [by apply (reap_spec s L p y HG)|]. intros r s2 (-> & HG2 & Eh & Ei & Ek). wp_steps.
    wp_call good_release; [exact HG2|]. intros _ s3 (HG3 & h3 & -> & Hs3). wp_steps.
    split; [by eexists|]. split; [done|]. split; [by rewrite <- Eh|]. left. exists p, y.
    split; [done|]. split; [done|]. split; [by apply (pi_fits _ _ _ HP Zombie p y)|by split]. }
  assert (¬ child_in s me (eq ZOMBIE)) as Hnz.
  { apply (no_child_state s L me [Zombie]); [done| |done]. intros p y Hy Hst. exists Zombie.
    split; [set_solver|]. apply (pi_mem_iff s L p y Zombie HP Hy). by split. }
  eapply wp_mono; [apply (lists_find_spec s L None kid_lists _ HP kid_lists_valid)|].
  intros k s2 [-> Hk]. wp_steps. apply (wp_getp _ _ x); [done|].
  assert (k = None → ¬ child_in s me waitable) as Hnk.
  { intros ->. apply (no_child_state s L me kid_lists); [done| |done]. intros p y Hy.
    by apply (kid_lists_state s L p y HP Hy). }
  case_decide as Hd.
  - wp_steps. wp_call good_release; [exact HG|]. intros _ s3 (HG3 & h3 & -> & Hs3). wp_steps.
    split; [by eexists|]. split; [done|]. split; [done|]. right. split; [done|]. split; [done|].
    split; [tauto|done].
  - assert (child_in s me waitable) as Hkid.
    { destruct k as [p|]; [|tauto]. destruct Hk as (id & y & Hid & Hp & Hy & Hch). exists p, y.
      split; [done|]. split; [by apply bool_decide_eq_true in Hch|]. apply (kid_lists_state s L p y HP Hy). eauto. }
    wp_steps. eapply wp_mono; [apply (sleep_with_spec s L me x CtxWait (AddrProc me) (Some Lptable)); done|].
    intros _ s3 (b & HG3 & Hl & Ek & E). wp_steps. split; [by eexists|].
    split; [exact (f_equal initproc E)|]. split; [done|]. split; [done|]. split; [done|].
    split; [destruct (decide (killed x = 0)); tauto|]. split; [done|].
    assert (procs (core s3) !! me = Some (sleep_record (ticks s) (AddrProc me) (CtxWait b) (set_next None x))) as Hx3.
    { rewrite E. change (procs (set_khw ?h ?z)) with (procs z).
      by rewrite upd_lookup, decide_True, (core_lookup_Some s me x Hx). }
    simpl in Hx3. rewrite list_lookup_fmap in Hx3. destruct (procs s3 !! me) as [x3|]; [|done].
    apply (inj Some) in Hx3. exists x3. split; [done|].
    destruct (sleep_record_facts (ticks s) (AddrProc me) (CtxWait b) (set_next None x)) as [F1 F2].
    rewrite <- Hx3 in F1, F2. done.
Qed.

Lemma wait_spec s L me x :
  Good HwIdle s L → proc_of s = Some me → procs s !! me = Some x → cwd x ≠ None →
  wp wait s (λ r s', (∃ L', Good HwIdle s' L') ∧ initproc s' = initproc s ∧ wait_post s s' me x r).
Proof.
  intros HG Hme Hx Hcw. unfold wait. wp_steps. wp_call good_acquire; [done|].
  intros _ s1 (HG1 & h1 & -> & Hs1). pose proof (proc_of_same s h1 me Hme Hs1) as Hme1.
  wp_steps. apply (wp_myproc _ me); [done|].
  eapply wp_mono; [apply (wait_turn_spec _ L me x HG1 Hme1 Hx Hcw)|].
  intros r s2 (HG2 & Ei & Hp). split; [done|]. split; [done|]. destruct r; simpl in *.
  - destruct Hp as [[? ?] ?]. destruct Hs1. split; [split; congruence|done].
  - destruct Hp as [Hl ?]. split; [by apply (left_cpu_same s h1)|done].
Qed.
End ProcWait.
