(* ===== verification/ProcFork.v ===== *)
(** * allocproc and fork (proc.c)

    A slot of the free list becomes an EMBRYO with a kernel stack of its own,
    then a RUNNABLE copy of its parent; every failure path gives back what it
    took. *)

From S2P Require Import Prelude Spinlock CString ProcState ProcList Proc ProcInv ProcWake KInv ProcSafe ProcExit ProcWait.

Local Open Scope Z_scope.

Section ProcFork.
Context `{KL : KernelLaws}.

Lemma wp_acquire s (Q : unit → kst → Prop) :
  HwIdle (khw s) →
  (∀ h, HwHeld Lptable h → same_cpus (khw s) h → Q tt (set_khw h s)) →
  wp (lift_hw (acquire Lptable)) s Q.
Proof.
  intros HI HQ. apply wp_lift_hw. eapply wp_mono; [by apply acquire_idle|].
  intros [] h [? ?]. by apply HQ.
Qed.

Lemma wp_release s (Q : unit → kst → Prop) :
  HwHeld Lptable (khw s) →
  (∀ h, HwIdle h → same_cpus (khw s) h → Q tt (set_khw h s)) →
  wp (lift_hw (release Lptable)) s Q.
Proof.
  intros HI HQ. apply wp_lift_hw. eapply wp_mono; [by apply release_held|].
  intros [] h [? ?]. by apply HQ.
Qed.

Lemma same_cpus_trans h1 h2 h3 : same_cpus h1 h2 → same_cpus h2 h3 → same_cpus h1 h3.
Proof. intros [] []. split; congruence. Qed.

Lemma PInv_khw s L off h : PInv s L off → PInv (set_khw h s) L off.
Proof. by apply PInv_frame. Qed.

(** ** Back to the free list *)
Lemma release_embryo_spec s L p x :
  PInv s L None → HwIdle (khw s) → p ∈ L Embryo → procs s !! p = Some x →
  wp (release_embryo p) s (λ _ s', ∃ h,
    PInv s' (<[Free := p :: L Free]> (take_out Embryo p L)) None ∧
    HwIdle h ∧ same_cpus (khw s) h ∧ core s' = set_khw h (upd p (set_state UNUSED) (core s))).
Proof.
  intros HP HI Hp Hx. unfold release_embryo. wp_steps. apply wp_acquire; [done|]. intros h1 HH1 HS1.
  pose proof (PInv_khw s L None h1 HP) as HP1. wp_steps.
  apply (wp_assert _ _ _ x); [done|by apply (pi_fits _ _ _ HP Embryo p x)|].
  apply (take_and_store (set_khw h1 s) L Embryo p x); try done; [apply (pi_prio _ _ _ HP p x Hx)|].
  intros s2 x2 HP2 Hx2 Ex2 E2. wp_steps.
  eapply wp_mono; [apply (addhead_inv _ _ Free p x2 HP2 Hx2); split; [exact (f_equal state Ex2)|done]|].
  intros _ s3 [HP3 E3]. rewrite E2 in E3. assert (khw s3 = h1) as Eh by exact (f_equal khw E3).
  apply wp_release; [by rewrite Eh|]. intros h4 HH4 HS4. exists h4.
  split; [by apply PInv_khw|]. split; [done|]. split; [rewrite Eh in HS4; by eapply same_cpus_trans|].
  change (core (set_khw h4 s3)) with (set_khw h4 (core s3)). by rewrite E3.
Qed.

(** ** allocproc *)

(** The record of a fresh EMBRYO whose stack is the page [base]. *)
Definition stack_record (t base : Z) (x : proc) : proc :=
  set_prio 0 (set_budget BUDGET (set_cpu_ticks_in 0 (set_cpu_ticks_total 0 (set_start_ticks t
    (set_context CtxForkret
      (set_context_addr (base + KSTACKSIZE - sizeof_trapframe - 4 - sizeof_context)
        (set_tf_addr (base + KSTACKSIZE - sizeof_trapframe) (set_kstack (Some base) x)))))))).
Definition alloc_record (n t base : Z) (x : proc) : proc :=
  stack_record t base (set_pid (u32 n) (set_state EMBRYO x)).

Lemma wp_setp_same p f g s x (Q : unit → kst → Prop) :
  procs s !! p = Some x → Q tt (upd p (f ∘ g) s) → wp (setp p f) (upd p g s) Q.
Proof.
  intros Hx HQ. eapply wp_setp_upd; [by rewrite upd_lookup, decide_True, Hx|]. by rewrite upd_upd.
Qed.

(** The first critical section: free list to embryo list. *)
Lemma alloc_take s L p x {A} (k : M kst A) (Q : A → kst → Prop) :
  PInv s L None → HwHeld Lptable (khw s) → p ∈ L Free → procs s !! p = Some x →
  (∀ s' h x', PInv s' (<[Embryo := p :: L Embryo]> (take_out Free p L)) None → HwIdle h →
    same_cpus (khw s) h → procs s' !! p = Some x' →
    set_next None x' = set_pid (u32 (nextpid s)) (set_state EMBRYO (set_next None x)) →
    core s' = set_khw h (set_nextpid (i32 (nextpid s + 1))
      (upd p (set_pid (u32 (nextpid s)) ∘ set_state EMBRYO) (core s))) → wp k s' Q) →
  wp (assert p UNUSED;; remove_or_panic Free p "Error removing from free list";;
      setp p (set_state EMBRYO);; addhead Embryo p;; n ← gets nextpid; setp p (set_pid (u32 n));;
      modify (set_nextpid (i32 (n + 1)));; lift_hw (release Lptable);; k) s Q.
Proof.
  intros HP HH Hp Hx HQ. wp_steps.
  apply (wp_assert _ _ _ x); [done|by apply (pi_fits _ _ _ HP Free p x)|].
  apply (take_and_store s L Free p x); try done; [apply (pi_prio _ _ _ HP p x Hx)|].
  intros s2 x2 HP2 Hx2 Ex2 E2. wp_steps.
  eapply wp_mono; [apply (addhead_inv _ _ Embryo p x2 HP2 Hx2); split; [exact (f_equal state Ex2)|done]|].
  intros _ s3 [HP3 E3]. rewrite E2 in E3. wp_steps.
  destruct (rep_lookup s3 _ p (pi_rep _ _ _ HP3)) as [x3 Hx3].
  { rewrite <- (rep_len _ _ (pi_rep _ _ _ HP)). by eapply lookup_lt_Some. }
  pose proof (core_store s s3 p (set_state EMBRYO) x x3 E3 Hx Hx3) as Ex3.
  assert (nextpid s3 = nextpid s) as -> by exact (f_equal nextpid E3).
  assert (khw s3 = khw s) as Eh by exact (f_equal khw E3).
  apply (wp_setp_upd _ _ _ x3); [done|]. wp_steps. apply wp_release; [simpl; by rewrite Eh|].
  intros h HI HS. apply (HQ _ h (set_pid (u32 (nextpid s)) x3)); [|done|by simpl in HS; rewrite Eh in HS|..].
  - apply PInv_khw. by apply (PInv_frame (upd p (set_pid (u32 (nextpid s))) s3)), PInv_inert.
  - change (procs (upd p (set_pid (u32 (nextpid s))) s3) !! p = Some (set_pid (u32 (nextpid s)) x3)).
    by rewrite upd_lookup, decide_True, Hx3.
  - by rewrite <- Ex3.
  - change (core (set_khw h (set_nextpid ?n ?z))) with (set_khw h (set_nextpid n (core z))).
    by rewrite core_upd, E3, upd_upd.
Qed.

Lemma list_insert_eq_id {A} (l : list A) p v : l !! p = Some v → <[p := v]> l = l.
Proof. apply list_insert_id. Qed.

Lemma vok_free s L p x :
  Good HwIdle s L → p ∈ L Free → procs s !! p = Some x →
  kviews s !! p = Some (kview x) ∧ state x = UNUSED ∧ kstack x = None ∧
  length (ofile x) = NOFILE ∧ length (name x) = 16%nat ∧ bare (kview x).
Proof.
  intros HG Hp Hx. destruct (good_member _ s L Free p HG Hp) as (y & Hy & Hst & _).
  rewrite Hx in Hy. injection Hy as <-.
  assert (kviews s !! p = Some (kview x)) as Hv by (by rewrite kviews_lookup, Hx).
  destruct (vf_loc _ _ _ (g_v HG) p _ Hv) as (H1 & H2 & H3).
  simpl in *. rewrite Hst in H3. simpl in H3. tauto.
Qed.

(** A new stack: nobody else's. *)
Lemma alloc_view_ok s L p x a e' :
  Good HwIdle s L → p ∈ L Free → procs s !! p = Some x →
  env_ok e' → vm_size e' = vm_size (kenv s) → frefs e' = frefs (kenv s) → irefs e' = irefs (kenv s) →
  ¬ held (kenv s) a → (∀ b, held e' b ↔ b = a ∨ held (kenv s) b) → ∀ n t,
  VFacts (<[p := kview (alloc_record n t a x)]> (kviews s)) (initproc s) e' ∧
  OnCpu (<[p := kview (alloc_record n t a x)]> (kviews s)) (procs_on (khw s)).
Proof.
  intros HG Hp Hx He Vm Fr Ir Hna Hh n t. pose proof (g_v HG) as HV.
  destruct (vok_free s L p x HG Hp Hx) as (Hv & Hst & Hks & Ho & Hn & Hb).
  assert (v_cls (kview x) = CFree) as Hc by (simpl; by rewrite Hst).
  split; [|apply (OnCpu_same _ _ p (kview x)); [apply HG|done|]; rewrite Hc; done].
  apply (VFacts_update _ _ (kenv s) _ p (kview x)); try done.
  - split; [done|]. split; [done|]. split; [done|]. split; [|done].
    exists a. split; [done|]. apply Hh. by left.
  - intros q u Hq Hu. pose proof (vf_loc _ _ _ HV q u Hu) as Hok. split; [|split].
    + destruct Hok as (K1 & K2 & K3). split; [done|]. split; [done|].
      assert (stack_ok (kenv s) u → stack_ok e' u) as Ks.
      { intros (b & Hb1 & Hb2). exists b. split; [done|]. apply Hh. by right. }
      assert (vm_ok (kenv s) u → vm_ok e' u) as Kv by (unfold vm_ok; by rewrite Vm).
      destruct (v_cls u); tauto.
    + simpl. intros Ea. destruct Hok as (_ & _ & K3). destruct Hna.
      assert (stack_ok (kenv s) u ∨ v_kstack u = None) as [(b & Hb1 & Hb2)|Hnone]
        by (destruct (v_cls u); tauto); congruence.
    + by intros ?.
  - intros Hi. destruct (vf_init _ _ _ HV p Hi) as (u & Hu & Hl).
    rewrite Hv in Hu. injection Hu as <-. rewrite Hc in Hl.
    by destruct Hl.
  - by intros [[]|].
  - right. intros q u Hq Hu Hk Hi Hpar.
    destruct (vf_family _ _ _ HV q u Hu Hk) as [?|(r & z & Hr & Hz & Hl)]; [done|].
    assert (r = p) as -> by congruence. rewrite Hv in Hz. injection Hz as <-.
    rewrite Hc in Hl. by destruct Hl.
  - intros f. rewrite Fr. simpl. lia.
  - intros i. rewrite Ir. simpl. lia.
Qed.

(** The environment after a successful or failed [kalloc]. *)
Definition kalloc_post (e : env) (r : option Z) (e' : env) : Prop :=
  env_ok e' ∧ vm_size e' = vm_size e ∧ frefs e' = frefs e ∧ irefs e' = irefs e ∧ ops e' = ops e ∧
  match r with
  | Some a => ¬ held e a ∧ ∀ b, held e' b ↔ b = a ∨ held e b
  | None => held e' = held e
  end.

Lemma alloc_stack_spec s L p x :
  PInv s L None → HwIdle (khw s) → p ∈ L Embryo → procs s !! p = Some x → env_ok (kenv s) →
  wp (alloc_stack p) s (λ r s',
    match r with
    | None => ∃ L' h e', PInv s' L' None ∧ HwIdle h ∧ same_cpus (khw s) h ∧
        kalloc_post (kenv s) None e' ∧ kalloc (kenv s) = Ret None e' ∧
        core s' = set_khw h (set_kenv e' (upd p (set_state UNUSED ∘ set_kstack None) (core s)))
    | Some q => q = p ∧ ∃ a e', PInv s' L None ∧ kalloc_post (kenv s) (Some a) e' ∧
        kalloc (kenv s) = Ret (Some a) e' ∧
        core s' = set_kenv e' (upd p (stack_record (ticks s) a) (core s))
    end).
Proof.
  intros HP HI Hp Hx He. destruct (pi_fits _ _ _ HP Embryo p x Hp Hx) as [Hst _].
  unfold alloc_stack. wp_steps. apply wp_lift_env.
  destruct (wp_inv _ _ _ (law_kalloc _ He)) as (ks & e' & Ek & Hk). eapply wp_Ret; [exact Ek|]. wp_steps.
  apply (wp_setp_upd _ _ _ x); [done|]. destruct ks as [a|].
  - wp_steps. do 3 (apply (wp_setp_same _ _ _ _ x); [done|]; wp_steps).
    do 5 (apply (wp_setp_same _ _ _ _ x); [done|]; wp_steps).
    split; [done|]. exists a, e'. split; [|split; [done|split; [done|]]].
    + eapply (PInv_upd _ _ _ _ _ x); [by apply PInv_env|done|done|by unfold prio_ok|].
      right. intros id Hid. by rewrite <- (rep_disj _ _ (pi_rep _ _ _ HP) Embryo id p Hp Hid).
    + by rewrite core_upd.
  - wp_steps. eapply wp_mono; [apply (release_embryo_spec _ L p (set_kstack None x)); [|done|done|]|].
    + apply PInv_inert; [by apply PInv_env|done].
    + by apply upd_lookup_eq.
    + intros _ s' (h & HP' & HI' & HS' & E'). wp_steps. eexists _, h, e'.
      split; [done|]. split; [done|]. split; [done|]. split; [done|]. split; [done|].
      rewrite E', core_upd by done.
      change (core (set_kenv e' s)) with (set_kenv e' (core s)).
      change (upd p ?f (upd p ?g (set_kenv e' ?z))) with (set_kenv e' (upd p f (upd p g z))).
      by rewrite upd_upd.
Qed.

(** What [allocproc] returns. *)
Definition alloc_post (s : kst) (L : listid → list nat) (r : option nat) (s' : kst) : Prop :=
  same_cpus (khw s) (khw s') ∧ initproc s' = initproc s ∧
  match r with
  | None => (∃ L', Good HwIdle s' L') ∧ kviews s' = kviews s ∧
      (L Free = [] ∨ ∃ e', kalloc (kenv s) = Ret None e')
  | Some p => ∃ x a, head (L Free) = Some p ∧ procs s !! p = Some x ∧ ¬ held (kenv s) a ∧
      kalloc (kenv s) = Ret (Some a) (kenv s') ∧
      Good HwIdle s' (<[Embryo := p :: L Embryo]> (take_out Free p L)) ∧
      kviews s' = <[p := kview (alloc_record (nextpid s) (ticks s) a x)]> (kviews s) ∧
      core s' = set_kenv (kenv s') (set_khw (khw s') (set_nextpid (i32 (nextpid s + 1))
        (upd p (alloc_record (nextpid s) (ticks s) a) (core s))))
  end.

Lemma alloc_some s L p x a e' h s' :
  Good HwIdle s L → head (L Free) = Some p → p ∈ L Free → procs s !! p = Some x →
  kalloc_post (kenv s) (Some a) e' → kalloc (kenv s) = Ret (Some a) e' → HwIdle h → same_cpus (khw s) h →
  PInv s' (<[Embryo := p :: L Embryo]> (take_out Free p L)) None →
  core s' = set_kenv e' (set_khw h (set_nextpid (i32 (nextpid s + 1))
    (upd p (alloc_record (nextpid s) (ticks s) a) (core s)))) →
  alloc_post s L (Some p) s'.
Proof.
  intros HG Hhd Hp Hx (He & Vm & Fr & Ir & Op & Hna & Hh) Hka HI HS HP E.
  destruct (alloc_view_ok s L p x a e' HG Hp Hx He Vm Fr Ir Hna Hh (nextpid s) (ticks s)) as [HV HC].
  assert (kviews s' = <[p := kview (alloc_record (nextpid s) (ticks s) a x)]> (kviews s)) as EK.
  { rewrite <- (kviews_core s'), E, <- (kviews_core s).
    exact (kviews_upd p (alloc_record (nextpid s) (ticks s) a) (core s) _ (core_lookup_Some s p x Hx)). }
  assert (khw s' = h) as Eh by exact (f_equal khw E).
  assert (kenv s' = e') as Ee by exact (f_equal kenv E).
  assert (initproc s' = initproc s) as Ei by exact (f_equal initproc E).
  split; [by rewrite Eh|]. split; [done|]. exists x, a. do 3 (split; [done|]). split; [by rewrite Ee|].
  split; [|split; [done|]].
  - unfold Good. rewrite EK. split; [done|by rewrite Ei, Ee|by rewrite Eh, (proj1 HS)|by rewrite Eh].
  - by rewrite Eh, Ee.
Qed.

Lemma alloc_none s L p x e' h s' L' :
  Good HwIdle s L → p ∈ L Free → procs s !! p = Some x →
  kalloc_post (kenv s) None e' → kalloc (kenv s) = Ret None e' → HwIdle h → same_cpus (khw s) h → PInv s' L' None →
  core s' = set_khw h (set_kenv e' (set_nextpid (i32 (nextpid s + 1)) (upd p ((set_state UNUSED ∘
    set_kstack None) ∘ (set_pid (u32 (nextpid s)) ∘ set_state EMBRYO)) (core s)))) →
  alloc_post s L None s'.
Proof.
  intros HG Hp Hx (He & Vm & Fr & Ir & Op & Hh) Hka HI HS HP E.
  destruct (vok_free s L p x HG Hp Hx) as (Hv & Hst & Hks & _).
  assert (kviews s' = kviews s) as EK.
  { rewrite <- (kviews_core s'), E. etrans; [exact (kviews_upd p _ (core s) _ (core_lookup_Some s p x Hx))|].
    rewrite kviews_core. apply (list_insert_same _ _ (kview x)); [done|].
    unfold kview. simpl. by rewrite Hst, Hks. }
  assert (khw s' = h) as Eh by exact (f_equal khw E).
  assert (kenv s' = e') as Ee by exact (f_equal kenv E).
  assert (initproc s' = initproc s) as Ei by exact (f_equal initproc E).
  split; [by rewrite Eh|]. split; [done|]. split; [|by eauto]. exists L'. unfold Good. rewrite EK.
  split; [done| |rewrite Eh, (proj1 HS); apply HG|by rewrite Eh].
  rewrite Ei, Ee. apply (VFacts_env _ _ (kenv s)); try done. apply HG.
Qed.

Lemma allocproc_spec s L : Good HwIdle s L → wp allocproc s (alloc_post s L).
Proof.
  intros HG. unfold allocproc. wp_steps. wp_call good_acquire; [done|].
  intros _ s1 (HG1 & h1 & -> & HS1). wp_steps. change (free (set_khw h1 s)) with (head_of (set_khw h1 s) Free).
  rewrite (lrep_hd _ _ _ (rep_list _ _ (pi_rep _ _ _ (g_p HG1)) Free)).
  destruct (L Free) as [|p l] eqn:EL; simpl.
  { wp_steps. wp_call good_release; [done|]. intros _ s2 (HG2 & h2 & -> & HS2). wp_steps.
    split; [by eapply same_cpus_trans|]. split; [done|]. split; [by exists L|]. split; [done|by left]. }
  assert (p ∈ L Free) as Hp by (rewrite EL; set_solver).
  destruct (good_member _ s L Free p HG Hp) as (x & Hx & _).
  destruct (vok_free s L p x HG Hp Hx) as (Hv & Hst & Hks & Hlo & Hln & Hb).
  apply (alloc_take _ L p x); [apply HG1|apply HG1|done|done|].
  intros s2 h2 x2 HP2 HI2 HS2 Hx2 Ex2 E2.
  assert (kenv s2 = kenv s) as Ee by exact (f_equal kenv E2).
  assert (khw s2 = h2) as Eh by exact (f_equal khw E2).
  assert (ticks s2 = ticks s) as Et by exact (f_equal ticks E2).
  assert (same_cpus (khw s) h2) as HS by (by eapply same_cpus_trans).
  eapply wp_mono; [apply (alloc_stack_spec s2 _ p x2 HP2)|].
  - by rewrite Eh.
  - rewrite fn_insert_dec, decide_True by done. set_solver.
  - done.
  - rewrite Ee. apply HG.
  - rewrite Ee, Eh, Et, E2. intros [q|] s'.
    + intros (-> & a & e' & HP' & Hk & Hka & E'). apply (alloc_some s L p x a e' h2 s'); try done.
      * by rewrite EL.
      * rewrite E'. exact (f_equal (λ z, set_kenv e' (set_khw h2 (set_nextpid _ z))) (upd_upd p _ _ (core s))).
    + intros (L' & h & e' & HP' & HI' & HS' & Hk & Hka & E').
      apply (alloc_none s L p x e' h s' L'); try done; [by eapply same_cpus_trans|].
      rewrite E'. exact (f_equal (λ z, set_khw h (set_kenv e' (set_nextpid _ z))) (upd_upd p _ _ (core s))).
Qed.

(** ** fork *)

Lemma safestrcpy_loop_total k : ∀ s t,
  (k < length s)%nat → (k ≤ length t)%nat →
  ∃ s', safestrcpy_loop k s t = Some s' ∧ length s' = length s.
Proof.
  induction k as [|k IH]; intros [|a s] [|c t] Hs Ht; simpl in *; try lia; eauto.
  case_decide.
  - destruct s as [|b s]; simpl in *; [lia|]. eexists. split; [done|]. simpl. lia.
  - destruct (IH s t) as (s' & -> & Hl); [lia|lia|]. eexists. split; [done|]. simpl. lia.
Qed.

(** The descriptors from [k] on are shared, and counted. *)
Lemma fork_files_spec me np n : ∀ k s x y,
  procs s !! me = Some x → procs s !! np = Some y → me ≠ np → (k + n = NOFILE)%nat →
  length (ofile x) = NOFILE → length (ofile y) = NOFILE → drop k (ofile y) = replicate n None →
  env_ok (kenv s) → (∀ fd f, ofile x !! fd = Some (Some f) → (1 ≤ frefs (kenv s) f)%nat) →
  wp (fork_files me np (seq k n)) s (λ _ s', ∃ e',
    s' = set_kenv e' (upd np (set_ofile (take k (ofile y) ++ drop k (ofile x))) s) ∧
    env_ok e' ∧ held e' = held (kenv s) ∧ vm_size e' = vm_size (kenv s) ∧
    irefs e' = irefs (kenv s) ∧ ops e' = ops (kenv s) ∧
    ∀ f, frefs e' f = (frefs (kenv s) f + fd_count f (drop k (ofile x)))%nat).
Proof.
  induction n as [|n IH]; intros k s x y Hx Hy Hne Hkn Hlx Hly Hdy He Hrefs; simpl.
  { wp_steps. exists (kenv s). assert (k = NOFILE) as -> by lia.
    rewrite !drop_ge by lia. rewrite take_ge, app_nil_r by lia.
    rewrite upd_same by (intros z Hz; rewrite Hy in Hz; injection Hz as <-; by destruct y).
    split; [by destruct s|]. do 5 (split; [done|]). intros f. unfold fd_count. rewrite filter_nil. simpl. lia. }
  wp_steps. apply (wp_getp _ _ x); [done|]. wp_steps.
  destruct (lookup_lt_is_Some_2 (ofile x) k) as [fo Hfo]; [lia|].
  destruct (lookup_lt_is_Some_2 (ofile y) k) as [yo Hyo]; [lia|].
  rewrite (drop_S _ yo _ Hyo) in Hdy. simpl in Hdy. injection Hdy as -> Hdy.
  apply (wp_lookupM _ _ fo); [done|]. wp_steps. rewrite (drop_S _ fo _ Hfo).
  destruct fo as [f|].
  - wp_steps. apply wp_lift_env. eapply wp_mono; [apply law_filedup; [done|by eapply Hrefs]|].
    intros _ e1 (He1 & E1 & E2 & E3 & E4 & E5). wp_steps. apply (wp_setp_upd _ _ _ y); [done|].
    set (y1 := set_ofile (<[k := Some f]> (ofile y)) y).
    eapply wp_mono; [apply (IH (S k) _ x y1)|]; try done; try lia.
    + rewrite upd_lookup, decide_False, option_fmap_id by done. done.
    + by apply (upd_lookup_eq np (λ y, set_ofile (<[k := Some f]> (ofile y)) y)).
    + simpl. by rewrite length_insert.
    + simpl. rewrite drop_insert_lt by lia. done.
    + intros fd g Hg. simpl. rewrite E5, fn_insert_dec. specialize (Hrefs fd g Hg). case_decide; lia.
    + intros _ s' (e' & -> & He' & F1 & F2 & F3 & F4 & F5). exists e'. simpl in *. split.
      * change (upd np ?g (upd np ?f (set_kenv e1 s))) with (set_kenv e1 (upd np g (upd np f s))).
        rewrite upd_upd. change (set_kenv e' (set_kenv e1 ?z)) with (set_kenv e' z). f_equal.
        apply upd_ext. intros z Hz. rewrite Hy in Hz. injection Hz as <-. simpl.
        rewrite (take_S_r _ k (Some f)), take_insert_ge by (lia || (apply list_lookup_insert_eq; lia)).
        by rewrite <- app_assoc.
      * do 5 (split; [congruence|]). intros g. rewrite F5, E5, fn_insert_dec. unfold fd_count.
        rewrite filter_cons. repeat case_decide; simplify_eq; simpl; lia.
  - wp_steps. eapply wp_mono; [apply (IH (S k) s x y)|]; try done; try lia.
    intros _ s' (e' & -> & He' & F1 & F2 & F3 & F4 & F5). exists e'. split.
    + f_equal. rewrite (take_S_r _ k None) by done. by rewrite <- app_assoc.
    + do 5 (split; [done|]). intros g. rewrite F5. unfold fd_count. by rewrite filter_cons_False.
Qed.

(** The child's record: a copy of the parent's, returning 0 from fork. *)
Definition fork_record (me : nat) (x : proc) (nm : list Z) (y : proc) : proc :=
  set_name nm (set_cwd (cwd x) (set_ofile (ofile x) (set_tf (set_tf_eax 0 (tf x)) (set_gid (gid x)
    (set_uid (uid x) (set_parent (Some me) (set_sz (sz x) y))))))).

(** References after [fork_copy]: one more for each of the parent's. *)
Definition shared (x : proc) (e e' : env) : Prop :=
  env_ok e' ∧ held e' = held e ∧ vm_size e' = vm_size e ∧ ops e' = ops e ∧
  (∀ f, frefs e' f = (frefs e f + fd_count f (ofile x))%nat) ∧
  (∀ i, irefs e' i = (irefs e i + cwd_count i (cwd x))%nat).

Lemma upd_lookup_other p q f s : q ≠ p → procs (upd p f s) !! q = procs s !! q.
Proof. intros Hq. by rewrite upd_lookup, decide_False, option_fmap_id. Qed.

Lemma fork_copy_spec me np s x y c :
  procs s !! me = Some x → procs s !! np = Some y → me ≠ np →
  length (ofile x) = NOFILE → ofile y = replicate NOFILE None →
  length (name x) = 16%nat → length (name y) = 16%nat →
  env_ok (kenv s) → (∀ fd f, ofile x !! fd = Some (Some f) → (1 ≤ frefs (kenv s) f)%nat) →
  cwd x = Some c → (1 ≤ irefs (kenv s) c)%nat →
  wp (fork_copy me np x) s (λ _ s', ∃ e' nm,
    s' = set_kenv e' (upd np (fork_record me x nm) s) ∧ shared x (kenv s) e' ∧
    safestrcpy (name y) (name x) 16 = Some nm ∧ length nm = 16%nat).
Proof.
  intros Hx Hy Hne Hlx Hoy Hnx Hny He Hrefs Hc Hi. unfold fork_copy. wp_steps.
  apply (wp_setp_upd _ _ _ y); [done|]. wp_steps.
  do 5 (apply (wp_setp_same _ _ _ _ y); [done|]; wp_steps).
  set (G := (λ y : proc, set_tf (set_tf_eax 0 (tf y)) y) ∘ _).
  eapply wp_mono; [apply (fork_files_spec me np NOFILE 0 (upd np G s) x (G y))|].
  - by rewrite upd_lookup_other.
  - by apply upd_lookup_eq.
  - done.
  - done.
  - done.
  - change (length (ofile y) = NOFILE). by rewrite Hoy, length_replicate.
  - exact Hoy.
  - done.
  - done.
  - intros _ s1 (e1 & -> & He1 & E1 & E2 & E3 & E4 & E5). simpl in E1, E2, E3, E4, E5.
    wp_steps. apply (wp_lookupM _ _ c); [by rewrite Hc|]. wp_steps. apply wp_lift_env.
    eapply wp_mono; [apply law_idup; [done|simpl; by rewrite E3]|].
    intros _ e2 (He2 & F1 & F2 & F3 & F4 & F5). simpl in F1, F2, F3, F4, F5. wp_steps.
    change (set_kenv e2 (set_kenv e1 (upd np ?f (upd np G s))))
      with (upd np f (upd np G (set_kenv e2 s))). rewrite upd_upd.
    apply (wp_setp_same _ _ _ _ y); [done|]. wp_steps.
    eapply wp_getp; [by apply upd_lookup_eq|]. wp_steps.
    destruct (safestrcpy_loop_total 15 (name y) (name x)) as (nm & Enm & Hnm); [lia|lia|].
    apply (wp_lookupM _ _ nm); [exact Enm|]. wp_steps. apply (wp_setp_same _ _ _ _ y); [done|].
    exists e2, nm. split; [|split; [|split; [exact Enm|lia]]].
    + change (set_kenv e2 (upd np ?f s)) with (upd np f (set_kenv e2 s)). apply upd_ext.
      intros z Hz. unfold fork_record. rewrite Hc. done.
    + split; [done|]. split; [congruence|]. split; [congruence|]. split; [congruence|]. split.
      * intros f. rewrite F3. apply E5.
      * intros i. rewrite F5, E3, Hc, fn_insert_dec. unfold cwd_count.
        repeat case_decide; simplify_eq; lia.
Qed.

Lemma fork_publish_spec s L np y :
  PInv s L None → HwIdle (khw s) → np ∈ L Embryo → procs s !! np = Some y → prio y = 0 →
  wp (fork_publish np) s (λ _ s', ∃ h,
    PInv s' (<[Ready 0 := L (Ready 0) ++ [np]]> (take_out Embryo np L)) None ∧
    HwIdle h ∧ same_cpus (khw s) h ∧ core s' = set_khw h (upd np (set_state RUNNABLE) (core s))).
Proof.
  intros HP HI Hp Hx Hpr. unfold fork_publish. wp_steps. apply wp_acquire; [done|]. intros h1 HH1 HS1.
  pose proof (PInv_khw s L None h1 HP) as HP1. wp_steps.
  apply (wp_assert _ _ _ y); [done|by apply (pi_fits _ _ _ HP Embryo np y)|].
  apply (take_and_store (set_khw h1 s) L Embryo np y); try done; [apply (pi_prio _ _ _ HP np y Hx)|].
  intros s2 x2 HP2 Hx2 Ex2 E2. wp_steps.
  eapply wp_mono; [apply (addtail_inv _ _ (Ready 0) np x2 HP2 Hx2)|].
  { split; [exact (f_equal state Ex2)|]. by rewrite <- Hpr; exact (f_equal prio Ex2). }
  intros _ s3 [HP3 E3]. rewrite E2 in E3. assert (khw s3 = h1) as Eh by exact (f_equal khw E3).
  apply wp_release; [by rewrite Eh|]. intros h4 HH4 HS4. exists h4.
  split; [by apply PInv_khw|]. split; [done|]. split; [rewrite Eh in HS4; by eapply same_cpus_trans|].
  change (core (set_khw h4 s3)) with (set_khw h4 (core s3)). by rewrite E3.
Qed.

Lemma embryo_facts Hw s L np y :
  Good Hw s L → np ∈ L Embryo → procs s !! np = Some y →
  kviews s !! np = Some (kview y) ∧ v_cls (kview y) = CEmbryo ∧ prio y = 0 ∧
  length (name y) = 16%nat ∧ bare (kview y) ∧ stack_ok (kenv s) (kview y) ∧ resumable (context y) = true.
Proof.
  intros HG Hp Hy. destruct (good_member _ s L Embryo np HG Hp) as (z & Hz & Hst & _).
  rewrite Hy in Hz. injection Hz as <-.
  assert (kviews s !! np = Some (kview y)) as Hv by (by rewrite kviews_lookup, Hy).
  destruct (vf_loc _ _ _ (g_v HG) np _ Hv) as (H1 & H2 & H3).
  assert (v_cls (kview y) = CEmbryo) as Hc by (simpl; by rewrite Hst). rewrite Hc in H3.
  simpl in *. rewrite Hst in H3. simpl in H3. tauto.
Qed.

(** The child joins the family. *)
Lemma fork_view_ok s L me np x y pg nm e1 e' :
  Good HwIdle s L → procs s !! me = Some x → state x = RUNNING → cwd x ≠ None →
  np ∈ L Embryo → procs s !! np = Some y → me ≠ np → length nm = 16%nat →
  vm_size (kenv s) pg = None → vm_size e1 = <[pg := Some (sz x)]> (vm_size (kenv s)) →
  held e1 = held (kenv s) → frefs e1 = frefs (kenv s) → irefs e1 = irefs (kenv s) →
  shared x e1 e' →
  VFacts (<[np := kview (set_state RUNNABLE (fork_record me x nm (set_pgdir (Some pg) y)))]> (kviews s))
    (initproc s) e'.
Proof.
  intros HG Hx Hst Hcw Hp Hy Hne Hnm Hfresh Vm Hd Fr Ir (He' & Hd' & Vm' & _ & Fr' & Ir').
  pose proof (g_v HG) as HV. destruct (embryo_facts _ s L np y HG Hp Hy) as (Hv & Hc & Hpr & Hn & Hb & Hs & Hctx).
  assert (kviews s !! me = Some (kview x)) as Hvx by (by rewrite kviews_lookup, Hx).
  assert (vm_size e' = <[pg := Some (sz x)]> (vm_size (kenv s))) as Vm2 by congruence.
  assert (held e' = held (kenv s)) as Hd2 by congruence.
  set (w := kview _). apply (VFacts_update _ _ (kenv s) _ np (kview y)); try done.
  - split; [apply (vf_loc _ _ _ HV me _ Hvx)|]. split; [done|]. simpl. split; [done|].
    unfold stack_ok, vm_ok. rewrite Hd2, Vm2. split; [exact Hs|]. split; [|done].
    exists pg. split; [done|]. by rewrite fn_insert_dec, decide_True.
  - intros q u Hq Hu. pose proof (vf_loc _ _ _ HV q u Hu) as (H1 & H2 & H3).
    assert (vm_ok (kenv s) u → vm_ok e' u) as Kv.
    { intros (pg' & Epg & Esz). exists pg'. split; [done|]. rewrite Vm2, fn_insert_dec, decide_False; congruence. }
    split; [|split].
    + split; [done|]. split; [done|]. unfold stack_ok. rewrite Hd2. destruct (v_cls u); tauto.
    + by apply (vf_stack _ _ _ HV np q _ u Hv Hu).
    + unfold w, space at 1. simpl. intros Esp. exfalso. unfold space in Esp.
      assert (vm_ok (kenv s) u ∨ space u = None) as [(pg' & Epg & Esz)|Hsp]
        by (unfold space; destruct (v_cls u); tauto); [|by unfold space in Hsp; rewrite Hsp in Esp].
      destruct (v_cls u); congruence.
  - intros _. by left.
  - intros _. right. exists me, (kview x). split; [done|]. split; [by rewrite list_lookup_insert_ne by done|].
    right. simpl. by rewrite Hst.
  - left. by left.
  - intros f. rewrite Fr', Fr. rewrite (proj1 Hb), fd_count_bare. simpl. lia.
  - intros i. rewrite Ir', Ir. rewrite (proj2 Hb). simpl. lia.
Qed.

Definition child_record (me : nat) (x : proc) (pg : Z) (nm : list Z) (y : proc) : proc :=
  set_state RUNNABLE (fork_record me x nm (set_pgdir (Some pg) y)).

(** What [fork] leaves behind, given the EMBRYO [np] of [allocproc]. *)
Definition fork_post (s : kst) (L : listid → list nat) (me np : nat) (x y : proc) (r : Z) (s' : kst) : Prop :=
  same_cpus (khw s) (khw s') ∧ initproc s' = initproc s ∧
  ((r = -1 ∧ (∃ e', copyuvm (pgdir x) (sz x) (kenv s) = Ret None e') ∧ (∃ L', Good HwIdle s' L') ∧
      ∃ w, v_cls w = CFree ∧ kviews s' = <[np := w]> (kviews s)) ∨
   (r = i32 (pid y) ∧ ∃ pg nm, safestrcpy (name y) (name x) 16 = Some nm ∧
      vm_size (kenv s) pg = None ∧ vm_size (kenv s') pg = Some (sz x) ∧
      Good HwIdle s' (<[Ready 0 := L (Ready 0) ++ [np]]> (take_out Embryo np L)) ∧
      kviews s' = <[np := kview (child_record me x pg nm y)]> (kviews s) ∧
      core s' = set_khw (khw s') (set_kenv (kenv s') (upd np (child_record me x pg nm) (core s))))).

Lemma fork_undo s L me np x y e1 :
  Good HwIdle s L → np ∈ L Embryo → procs s !! np = Some y →
  env_ok e1 → held e1 = held (kenv s) → vm_size e1 = vm_size (kenv s) →
  frefs e1 = frefs (kenv s) → irefs e1 = irefs (kenv s) →
  copyuvm (pgdir x) (sz x) (kenv s) = Ret None e1 →
  wp (y ← getp np; lift_env (kfree (default 0 (kstack y)));; setp np (set_kstack None);;
      release_embryo np;; mret (-1)) (upd np (set_pgdir None) (set_kenv e1 s)) (fork_post s L me np x y).
Proof.
  intros HG Hp Hy He Hd Vm Fr Ir Ecp.
  destruct (embryo_facts _ s L np y HG Hp Hy) as (Hv & Hc & Hpr & Hn & Hb & (a & Ha & Hha) & Hctx).
  wp_steps. eapply wp_getp; [by apply upd_lookup_eq|]. wp_steps. apply wp_lift_env. simpl in Ha. simpl. rewrite Ha.
  eapply wp_mono; [apply (law_kfree e1 a He); by rewrite Hd|].
  intros _ e2 (He2 & Vm2 & Fr2 & Ir2 & Op2 & Hd2). wp_steps.
  change (set_kenv e2 (upd np ?f (set_kenv e1 s))) with (upd np f (set_kenv e2 s)).
  apply (wp_setp_same _ _ _ _ y); [done|]. wp_steps.
  eapply wp_mono; [eapply (release_embryo_spec _ L np); [|apply HG|done|by apply upd_lookup_eq]|].
  { apply PInv_inert; [apply PInv_env, HG|done]. }
  intros _ s' (h & HP' & HI' & HS' & E'). wp_steps.
  assert (core s' = set_khw h (set_kenv e2 (upd np (set_state UNUSED ∘ (set_kstack None ∘ set_pgdir None)) (core s)))) as E.
  { rewrite E', core_upd by done.
    exact (f_equal (λ z, set_khw h (set_kenv e2 z)) (upd_upd np _ _ (core s))). }
  set (w := kview (set_state UNUSED (set_kstack None (set_pgdir None y)))).
  assert (kviews s' = <[np := w]> (kviews s)) as EK.
  { rewrite <- (kviews_core s'), E, <- (kviews_core s).
    exact (kviews_upd np _ (core s) _ (core_lookup_Some s np y Hy)). }
  assert (khw s' = h) as Eh by exact (f_equal khw E).
  assert (kenv s' = e2) as Ee by exact (f_equal kenv E).
  assert (initproc s' = initproc s) as Ei by exact (f_equal initproc E).
  split; [by rewrite Eh|]. split; [done|]. left. split; [done|]. split; [by exists e1|]. split; [|by exists w].
  eexists. unfold Good. rewrite EK. split; [done| | |by rewrite Eh].
  - rewrite Ei, Ee. apply (VFacts_gone _ _ (kenv s) _ np (kview y) _ a); try done; try congruence.
    + apply HG.
    + rewrite Hc. by intros [].
    + by rewrite Hd in Hd2.
  - rewrite Eh, (proj1 HS'). apply (OnCpu_same _ _ np (kview y)); [apply HG|done|]. by rewrite Hc.
Qed.

Lemma fork_child_spec s L me np x y :
  Good HwIdle s L → proc_of s = Some me → procs s !! me = Some x → cwd x ≠ None →
  np ∈ L Embryo → procs s !! np = Some y →
  wp (fork_child np) s (fork_post s L me np x y).
Proof.
  intros HG Hme Hx Hcw Hp Hy. pose proof (g_v HG) as HV.
  destruct (good_current _ _ _ _ HG Hme) as (_ & z & Hz & Hst & _). rewrite Hx in Hz. injection Hz as <-.
  destruct (embryo_facts _ s L np y HG Hp Hy) as (Hv & Hc & Hpr & Hn & Hb & Hs & Hctx).
  assert (kviews s !! me = Some (kview x)) as Hvx by (by rewrite kviews_lookup, Hx).
  assert (me ≠ np) as Hne by (intros ->; rewrite Hx in Hy; injection Hy as <-; simpl in Hc; by rewrite Hst in Hc).
  destruct (vf_loc _ _ _ HV me _ Hvx) as (Hlo & Hln & Hcls). simpl in Hcls, Hlo, Hln. rewrite Hst in Hcls.
  destruct Hcls as (_ & _ & (pg0 & Hpg & Hsz)). simpl in Hpg, Hsz.
  destruct (cwd x) as [c|] eqn:Hc'; [|done].
  unfold fork_child. wp_steps. apply (wp_myproc _ me); [done|]. wp_steps.
  apply (wp_getp _ _ x); [done|]. wp_steps. apply wp_lift_env. rewrite Hpg.
  destruct (wp_inv _ _ _ (law_copyuvm _ _ _ (vf_env _ _ _ HV) Hsz)) as (r & e1 & Ecp & He1 & Hd1 & Fr1 & Ir1 & Op1 & Hr).
  eapply wp_Ret; [exact Ecp|]. rewrite <- Hpg in Ecp. wp_steps.
  apply (wp_setp_upd _ _ _ y); [done|]. destruct r as [pg|]; [|by apply fork_undo].
  destruct Hr as [Hfresh Vm1]. wp_steps.
  eapply wp_mono; [eapply (fork_copy_spec me np _ x (set_pgdir (Some pg) y) c); try done|].
  - by rewrite upd_lookup_other.
  - by apply upd_lookup_eq.
  - apply Hb.
  - intros fd f Hf. simpl. rewrite Fr1. by eapply (frefs_pos _ _ _ me (kview x) fd).
  - simpl. rewrite Ir1. by eapply (irefs_pos _ _ _ me (kview x)).
  - intros _ s2 (e2 & nm & -> & Hsh & Enm & Hnm). simpl in Hsh. wp_steps.
    change (set_kenv e2 (upd np ?f (upd np ?g (set_kenv e1 s)))) with (upd np f (upd np g (set_kenv e2 s))).
    rewrite upd_upd. eapply wp_getp; [by apply upd_lookup_eq|]. wp_steps.
    eapply wp_mono; [eapply (fork_publish_spec _ L np); [|apply HG|done|by apply upd_lookup_eq|done]|].
    { apply PInv_inert; [apply PInv_env, HG|done]. }
    intros _ s3 (h & HP3 & HI3 & HS3 & E3). wp_steps.
    assert (core s3 = set_khw h (set_kenv e2 (upd np (child_record me x pg nm) (core s)))) as E.
    { rewrite E3, core_upd by done.
      exact (f_equal (λ z, set_khw h (set_kenv e2 z)) (upd_upd np _ _ (core s))). }
    assert (kviews s3 = <[np := kview (child_record me x pg nm y)]> (kviews s)) as EK.
    { rewrite <- (kviews_core s3), E, <- (kviews_core s).
      exact (kviews_upd np _ (core s) _ (core_lookup_Some s np y Hy)). }
    assert (khw s3 = h) as Eh by exact (f_equal khw E).
    assert (kenv s3 = e2) as Ee by exact (f_equal kenv E).
    assert (initproc s3 = initproc s) as Ei by exact (f_equal initproc E).
    split; [by rewrite Eh|]. split; [done|]. right. split; [done|]. exists pg, nm.
    split; [done|]. split; [done|]. split.
    { rewrite Ee. destruct Hsh as (_ & _ & -> & _). by rewrite Vm1, fn_insert_dec, decide_True. }
    split; [|split; [done|by rewrite Eh, Ee]].
    unfold Good. rewrite EK. split; [done| | |by rewrite Eh].
    + rewrite Ei, Ee. eapply (fork_view_ok s L me np x y pg nm e1 e2); try done. by rewrite Hc'.
    + rewrite Eh, (proj1 HS3). apply (OnCpu_same _ _ np (kview y)); [apply HG|done|]. by rewrite Hc.
Qed.
End ProcFork.
