(* ===== verification/ProcSched.v ===== *)
(** * The scheduler, kill, setpriority and growproc (proc.c) *)

From S2P Require Import Prelude Spinlock CString ProcState ProcList Proc ProcInv ProcWake KInv ProcSafe ProcExit ProcWait ProcFork.

Local Open Scope Z_scope.

Section ProcSched.
Context `{KL : KernelLaws}.

(** ** Promotion under the invariant *)

Lemma kview_promoted x : kview (promoted x) = kview x.
Proof.
  destruct x as [x0 x1 x2 st]. unfold promoted, bump. simpl. destruct st; try done; by case_decide.
Qed.

Definition promote_due (s : kst) : Prop := PromoteAtTime s ≤ ticks s.
#[global] Instance promote_due_dec s : Decision (promote_due s).
Proof. unfold promote_due. apply _. Defined.

Definition after_promotion (s : kst) (L : listid → list nat) : listid → list nat :=
  if decide (promote_due s) then promote_lists L else L.

Lemma promote_if_due_spec s L :
  Good (HwHeld Lptable) s L →
  wp promote_if_due s (λ _ s', Good (HwHeld Lptable) s' (after_promotion s L) ∧
    kviews s' = kviews s ∧ khw s' = khw s ∧ initproc s' = initproc s ∧ kenv s' = kenv s ∧ ticks s' = ticks s ∧
    ∀ p x, procs s !! p = Some x → ∃ x', procs s' !! p = Some x' ∧
      set_next None x' = (if decide (promote_due s) then promoted else id) (set_next None x)).
Proof.
  intros HG. unfold promote_if_due, after_promotion. wp_steps.
  destruct (decide (promote_due s)) as [Hd|Hd]; unfold promote_due in Hd.
  - rewrite decide_True by done. eapply wp_mono; [apply promote_abs, HG|]. intros _ s' [HP E].
    assert (kviews s' = kviews s) as EK.
    { apply (kviews_core_eq s s' _ E). change (kviews (set_PromoteAtTime ?t ?z)) with (kviews z).
      rewrite kviews_mapp; [apply kviews_core|]. intros. apply kview_promoted. }
    assert (initproc s' = initproc s) as Ei by exact (f_equal initproc E).
    assert (khw s' = khw s) as Eh by exact (f_equal khw E).
    assert (kenv s' = kenv s) as Ee by exact (f_equal kenv E).
    split; [unfold Good; rewrite EK; by apply (good_frame _ s s' L)|].
    do 4 (split; [done|]). split; [exact (f_equal ticks E)|]. intros p x Hx.
    assert (procs (core s') !! p = Some (promoted (set_next None x))) as Hx'.
    { rewrite E. change (procs (set_PromoteAtTime ?t ?z)) with (procs z).
      by rewrite mapp_lookup, (core_lookup_Some s p x Hx). }
    simpl in Hx'. rewrite list_lookup_fmap in Hx'. destruct (procs s' !! p) as [x'|]; [|done].
    exists x'. split; [done|]. by apply (inj Some) in Hx'.
  - rewrite decide_False by done. wp_steps. split; [done|]. do 5 (split; [done|]). eauto.
Qed.

(** ** The choice *)

Lemma pick_spec s L ids :
  PInv s L None → Forall valid_list ids →
  wp (pick ids) s (λ r s', s' = s ∧
    match r with
    | Some (id, p) => ∃ before after, ids = before ++ id :: after ∧
        (∀ id', id' ∈ before → L id' = []) ∧ head (L id) = Some p
    | None => ∀ id, id ∈ ids → L id = []
    end).
Proof.
  intros HP. induction 1 as [|id ids Hv _ IH]; simpl; wp_steps.
  { split; [done|]. intros id Hid. by apply elem_of_nil in Hid. }
  apply (wp_head s L None); [done|done|]. destruct (L id) as [|p l] eqn:EL; simpl.
  - eapply wp_mono; [apply IH|]. intros [[id' p]|] s' [-> Hr]; (split; [done|]).
    + destruct Hr as (b & a & -> & Hb & Hh). exists (id :: b), a. split; [done|]. split; [|done].
      intros id'' [->|?]%elem_of_cons; auto.
    + intros id' [->|?]%elem_of_cons; auto.
  - wp_steps. split; [done|]. exists [], ids. split; [done|]. split; [|by rewrite EL].
    intros id' Hid. by apply elem_of_nil in Hid.
Qed.

Definition run_record (t : Z) (x : proc) : proc := set_cpu_ticks_in t (set_state RUNNING x).

Lemma dispatch_spec s L id p x :
  Good (HwHeld Lptable) s L → p ∈ L id → (∃ i, id = Ready i) → procs s !! p = Some x →
  proc_of s = None →
  wp (dispatch id p) s (λ _ s',
    Good (HwHeld Lptable) s' (<[Running := p :: L Running]> (take_out id p L)) ∧
    proc_of s' = Some p ∧ mycpu (khw s') = mycpu (khw s) ∧
    procs_on (khw s') = <[mycpu (khw s) := Some p]> (procs_on (khw s)) ∧
    kviews s' = <[p := reclass CRun true (kview x)]> (kviews s) ∧
    core s' = set_khw (khw s') (upd p (run_record (ticks s)) (core s))).
Proof.
  intros HG Hp [i ->] Hx Hno. destruct (g_h HG) as [(c & Hc & Hn & Hf) _ _ _].
  destruct (pi_fits _ _ _ (g_p HG) (Ready i) p x Hp Hx) as [Hst Hpr]. simpl in Hst.
  assert (procs_on (khw s) !! mycpu (khw s) = Some None) as Hidle.
  { rewrite (procs_on_my _ c Hc). unfold proc_of in Hno. rewrite Hc in Hno. simpl in Hno. by rewrite Hno. }
  unfold dispatch. wp_steps. apply wp_lift_hw. wp_steps.
  set (h1 := upd_cpu (set_cpu_proc (Some p)) (khw s)).
  assert (HwHeld Lptable h1) as HH1 by (apply upd_cpu_held; [apply HG|done]).
  assert (procs_on h1 = <[mycpu (khw s) := Some p]> (procs_on (khw s))) as Hpo by exact (procs_on_upd _ (set_cpu_proc (Some p)) c Hc).
  apply (wp_assert _ _ _ x); [done|done|].
  apply (take_and_store (set_khw h1 s) L (Ready i) p x); try done; [apply PInv_khw, HG|apply (pi_prio _ _ _ (g_p HG) p x Hx)|].
  intros s2 x2 HP2 Hx2 Ex2 E2. wp_steps.
  eapply wp_mono; [apply (addhead_inv _ _ Running p x2 HP2 Hx2); split; [exact (f_equal state Ex2)|done]|].
  intros _ s3 [HP3 E3]. rewrite E2 in E3. wp_steps.
  assert (ticks s3 = ticks s) as -> by exact (f_equal ticks E3).
  destruct (rep_lookup s3 _ p (pi_rep _ _ _ HP3)) as [x3 Hx3]; [by eapply pi_range, Hp; apply HG|].
  apply (wp_setp_upd _ _ _ x3); [done|].
  assert (core (upd p (set_cpu_ticks_in (ticks s)) s3) = set_khw h1 (upd p (run_record (ticks s)) (core s))) as E4.
  { rewrite core_upd, E3 by done. exact (f_equal (set_khw h1) (upd_upd p _ _ (core s))). }
  assert (kviews s !! p = Some (kview x)) as Hv by (by rewrite kviews_lookup, Hx).
  set (s4 := upd p _ s3) in *.
  assert (kviews s4 = <[p := reclass CRun true (kview x)]> (kviews s)) as EK.
  { rewrite <- (kviews_core s4), E4, <- (kviews_core s).
    etrans; [exact (kviews_upd p (run_record (ticks s)) (core s) _ (core_lookup_Some s p x Hx))|].
    f_equal. destruct (vf_loc _ _ _ (g_v HG) p _ Hv) as (_ & _ & Hk). simpl in Hk. rewrite Hst in Hk.
    simpl in Hk. unfold kview, reclass. simpl. by rewrite (proj2 (proj2 (proj2 Hk))). }
  assert (khw s4 = h1) as Eh by exact (f_equal khw E4). rewrite Eh.
  assert (live (v_cls (kview x))) as Hl by (left; simpl; by rewrite Hst).
  split; [|split; [apply proc_of_on; rewrite Eh, Hpo; apply list_lookup_insert_eq; by eapply lookup_lt_Some|by rewrite E4]].
  unfold Good. rewrite EK. split; [by apply PInv_inert| | |by rewrite Eh].
  - assert (initproc s4 = initproc s) as -> by exact (f_equal initproc E4).
    assert (kenv s4 = kenv s) as -> by exact (f_equal kenv E4).
    apply (VFacts_move _ _ _ p (kview x)); try done; [apply HG|by right|].
    apply vok_reclass; [by apply (vf_loc _ _ _ (g_v HG) p)|done| |by right].
    destruct (vf_loc _ _ _ (g_v HG) p _ Hv) as (_ & _ & Hk). simpl in Hk. rewrite Hst in Hk. apply Hk.
  - rewrite Eh, Hpo. apply (OnCpu_in _ _ _ _ (kview x)); [apply HG|done|done|simpl; by rewrite Hst|done].
Qed.

(** ** What the chosen process does first *)

Lemma good_sched_return s L vs b :
  GoodV (HwHeld Lptable) s L vs → wp (sched_return b) s (λ _ s',
    GoodV (HwHeld Lptable) s' L vs ∧ ∃ h, s' = set_khw h s ∧ same_cpus (khw s) h).
Proof.
  intros HG. unfold sched_return. apply wp_lift_hw. wp_steps.
  destruct (g_h HG) as [(c & Hc & _) _ _ _].
  assert (same_cpus (khw s) (upd_cpu (set_intena b) (khw s))) as Hs.
  { rewrite (upd_cpu_with _ c _ Hc). by apply (same_cpus_with _ c). }
  split; [|by eexists]. eapply good_hw; [done| |done]. by apply upd_cpu_held; [apply HG|].
Qed.

Definition resume_post (s s' : kst) (p : nat) (x : proc) (r : resumed) : Prop :=
  match r with
  | Waited w => wait_post s s' p (set_chan Null x) w
  | Reacquires lk => same_cpus (khw s) (khw s') ∧ kviews s' = kviews s ∧ lk ≠ Lptable ∧
      ∃ b, context x = CtxSleep (Some lk) b
  | RunsOn => same_cpus (khw s) (khw s') ∧ kviews s' = kviews s
  end.

Lemma forkret_spec s L :
  Good (HwHeld Lptable) s L →
  wp forkret s (λ _ s', Good HwIdle s' L ∧ same_cpus (khw s) (khw s') ∧ kviews s' = kviews s ∧
    initproc s' = initproc s).
Proof.
  intros HG. unfold forkret. wp_steps. wp_call good_release; [exact HG|].
  intros _ s1 (HG1 & h1 & -> & Hs1). wp_steps. destruct (first _).
  - wp_steps. apply wp_lift_env. eapply wp_mono; [apply law_iinit, HG1|].
    intros _ e1 (He & E1 & E2 & E3 & E4 & E5). apply wp_lift_env.
    eapply wp_mono; [by apply law_initlog|]. intros _ e2 (He2 & F1 & F2 & F3 & F4 & F5). simpl in *.
    split; [|done]. assert (GoodV HwIdle (set_first false (set_khw h1 s)) L (kviews s)) as HG2.
    { apply (good_frame _ (set_khw h1 s) _ L); try done. by apply (PInv_frame (set_khw h1 s)), HG1. }
    apply (good_env _ (set_first false (set_khw h1 s)) L (kviews s) e2 HG2); simpl; congruence.
  - by wp_steps.
Qed.

Lemma wait_post_core s s1 s' me x r :
  same_cpus (khw s) (khw s1) → kviews s1 = kviews s →
  (∀ q y, procs s1 !! q = Some y → ∃ z, procs s !! q = Some z ∧ parent y = parent z ∧ state y = state z ∧
    pid y = pid z ∧ kview (reaped y) = kview (reaped z)) →
  (∀ q z, procs s !! q = Some z → ∃ y, procs s1 !! q = Some y ∧ parent y = parent z ∧ state y = state z) →
  wait_post s1 s' me x r → wait_post s s' me x r.
Proof.
  intros [Hc1 Hc2] Ek Hb Hf. assert (∀ c, child_in s1 me c ↔ child_in s me c) as Hch.
  { intros c. split; intros (q & y & Hy & Hp & Hst).
    - destruct (Hb q y Hy) as (z & Hz & E1 & E2 & _). exists q, z. rewrite <- E1, <- E2. done.
    - destruct (Hf q y Hy) as (z & Hz & E1 & E2). exists q, z. rewrite E1, E2. done. }
  destruct r as [n|]; simpl; rewrite Ek, !Hch.
  - intros [[? ?] [(p & y & Hy & Hp & Hst & Hn & Hk)|?]]; (split; [split; congruence|]).
    + left. destruct (Hb p y Hy) as (z & Hz & E1 & E2 & E3 & E4). exists p, z.
      rewrite <- E1, <- E2, <- E3, <- E4. done.
    + by right.
  - intros [[? ?] ?]. split; [split; congruence|done].
Qed.

Lemma upd_chan_wait_post s h p x s' me y r :
  procs s !! p = Some x → same_cpus (khw s) h →
  wait_post (upd p (set_chan Null) (set_khw h s)) s' me y r → wait_post s s' me y r.
Proof.
  intros Hx Hs. apply wait_post_core; [done|exact (kviews_upd_same p (set_chan Null) s (λ y, eq_refl))|..].
  - intros q z. rewrite upd_lookup. simpl. destruct (procs s !! q) as [w|]; [|done].
    intros [= <-]. exists w. by case_decide.
  - intros q z Hz. rewrite upd_lookup. simpl. rewrite Hz. eexists. split; [done|]. by case_decide.
Qed.

Lemma resume_spec s L p x :
  Good (HwHeld Lptable) s L → proc_of s = Some p → procs s !! p = Some x → cwd x ≠ None →
  resumable (context x) = true →
  wp (resume p) s (λ r s', (∃ L', Good HwIdle s' L') ∧ initproc s' = initproc s ∧ resume_post s s' p x r).
Proof.
  intros HG Hme Hx Hcw Hres. unfold resume. wp_steps. apply (wp_getp _ _ x); [done|].
  destruct (context x) as [|b|lk b|b|] eqn:Ectx; [..|done].
  - wp_steps. eapply wp_mono; [by apply (forkret_spec s L)|]. intros _ s1 (HG1 & Hs1 & Ek & Ei). wp_steps.
    split; [by exists L|done].
  - wp_steps. wp_call good_sched_return; [exact HG|]. intros _ s1 (HG1 & h1 & -> & Hs1). wp_steps.
    wp_call good_release; [exact HG1|]. intros _ s2 (HG2 & h2 & -> & Hs2). wp_steps.
    split; [by exists L|]. split; [done|]. split; [by eapply same_cpus_trans|done].
  - wp_steps. wp_call good_sched_return; [exact HG|]. intros _ s1 (HG1 & h1 & -> & Hs1). wp_steps.
    apply (wp_setp_upd _ _ _ x); [done|].
    assert (lk ≠ Some Lptable) as Hlk by (intros ->; done). rewrite decide_False by done. wp_steps.
    assert (Good (HwHeld Lptable) (upd p (set_chan Null) (set_khw h1 s)) L) as HG2 by (by apply good_store).
    wp_call good_release; [exact HG2|]. intros _ s3 (HG3 & h3 & -> & Hs3). wp_steps.
    split; [by exists L|]. split; [done|].
    assert (same_cpus (khw s) h3) as Hs by (by eapply same_cpus_trans).
    assert (kviews (set_khw h3 (upd p (set_chan Null) (set_khw h1 s))) = kviews s) as Ek
      by exact (kviews_upd_same p (set_chan Null) s (λ y, eq_refl)).
    destruct lk as [l|]; [|done]. do 2 (split; [done|]). split; [congruence|eauto].
  - wp_steps. wp_call good_sched_return; [exact HG|]. intros _ s1 (HG1 & h1 & -> & Hs1). wp_steps.
    apply (wp_setp_upd _ _ _ x); [done|]. wp_steps.
    assert (Good (HwHeld Lptable) (upd p (set_chan Null) (set_khw h1 s)) L) as HG2 by (by apply good_store).
    eapply wp_mono; [apply (wait_turn_spec _ L p (set_chan Null x) HG2); [|by apply upd_lookup_eq|done]|].
    { by apply (proc_of_same s h1 p). }
    intros r s' (HG' & Ei & Hp). wp_steps. split; [done|]. split; [done|].
    by apply (upd_chan_wait_post s h1 p x).
Qed.

(** ** The scheduler *)

Lemma ready_ids_lookup k : ready_ids !! k = if decide (k < S MAX)%nat then Some (Ready (Z.of_nat k)) else None.
Proof.
  unfold ready_ids. rewrite list_lookup_fmap. case_decide.
  - by rewrite lookup_seq_lt by done.
  - by rewrite lookup_seq_ge by lia.
Qed.

Lemma ready_ids_split b id a :
  ready_ids = b ++ id :: a → ∃ i, id = Ready i ∧ 0 ≤ i ≤ Z.of_nat MAX ∧ ∀ j, 0 ≤ j < i → Ready j ∈ b.
Proof.
  intros E. pose proof (ready_ids_lookup (length b)) as Hl.
  rewrite E, list_lookup_middle in Hl by done. case_decide as Hb; [|done]. injection Hl as ->.
  exists (Z.of_nat (length b)). split; [done|]. split; [lia|]. intros j Hj.
  pose proof (ready_ids_lookup (Z.to_nat j)) as Hlj. rewrite decide_True in Hlj by lia.
  rewrite E, lookup_app_l in Hlj by lia. replace (Z.of_nat (Z.to_nat j)) with j in Hlj by lia.
  by eapply list_elem_of_lookup_2.
Qed.

(** What a turn of the scheduler does: run the first process of the highest
    non-empty priority, or find every ready list empty. *)
Definition sched_post (s : kst) (L : listid → list nat) (r : option nat) (s' : kst) : Prop :=
  let L1 := after_promotion s L in
  match r with
  | None => (∀ i, L1 (Ready i) = []) ∧ same_cpus (khw s) (khw s') ∧ kviews s' = kviews s
  | Some p => ∃ i, 0 ≤ i ≤ Z.of_nat MAX ∧ head (L1 (Ready i)) = Some p ∧
      (∀ j, 0 ≤ j < i → L1 (Ready j) = []) ∧
      ∃ s1 x1 w, kviews s1 = <[p := reclass CRun true (kview x1)]> (kviews s) ∧ cwd x1 ≠ None ∧
        procs_on (khw s1) = <[mycpu (khw s) := Some p]> (procs_on (khw s)) ∧
        proc_of s1 = Some p ∧ mycpu (khw s1) = mycpu (khw s) ∧
        ∃ x2, procs s1 !! p = Some x2 ∧ cwd x2 ≠ None ∧ state x2 = RUNNING ∧
          resume p s1 = Ret w s' ∧ resume_post s1 s' p x2 w
  end.

Lemma scheduler_spec s L :
  Good HwIdle s L → proc_of s = None →
  wp scheduler s (λ r s', (∃ L', Good HwIdle s' L') ∧ initproc s' = initproc s ∧ sched_post s L r s').
Proof.
  intros HG Hno. unfold scheduler. wp_steps. apply wp_lift_hw.
  eapply wp_mono; [apply sti_idle, HG|]. intros _ h0 [HI0 HS0].
  assert (Good HwIdle (set_khw h0 s) L) as HG0 by (by eapply good_hw). wp_steps.
  wp_call good_acquire; [exact HG0|]. intros _ s1 (HG1 & h1 & -> & HS1). wp_steps.
  eapply wp_mono; [apply (promote_if_due_spec _ L HG1)|].
  intros _ s2 (HG2 & Ek2 & Eh2 & Ei2 & Ee2 & Et2 & Hx2).
  change (after_promotion (set_khw h1 (set_khw h0 s)) L) with (after_promotion s L) in HG2.
  assert (same_cpus (khw s) (khw s2)) as HS by (rewrite Eh2; by eapply same_cpus_trans).
  wp_steps. eapply wp_mono; [apply (pick_spec s2 _ ready_ids (g_p HG2) ready_ids_valid)|].
  intros [[id p]|] s3 [-> Hr].
  - destruct Hr as (b & a & Eids & Hb & Hhd).
    destruct (ready_ids_split b id a Eids) as (i & -> & Hi & Hj).
    assert (p ∈ after_promotion s L (Ready i)) as Hp.
    { destruct (after_promotion s L (Ready i)); simplify_eq/=. set_solver. }
    destruct (good_member _ s2 _ (Ready i) p HG2 Hp) as (x & Hx & Hst & _). simpl in Hst.
    assert (kviews s2 !! p = Some (kview x)) as Hv by (by rewrite kviews_lookup, Hx).
    destruct (vf_loc _ _ _ (g_v HG2) p _ Hv) as (_ & _ & Hk). simpl in Hk. rewrite Hst in Hk.
    destruct Hk as (Hcw & _ & _ & Hctx). simpl in Hcw, Hctx.
    wp_steps. eapply wp_mono; [apply (dispatch_spec s2 _ (Ready i) p x HG2 Hp); [by exists i|done|]|].
    { destruct (proc_of s2) as [q|] eqn:Eq; [|done]. apply proc_of_on in Eq. destruct HS as [E1 E2].
      rewrite E1, E2 in Eq. apply proc_of_on in Eq. congruence. }
    intros _ s4 (HG4 & Hme4 & Hm4 & Hpo4 & Ek4 & E4). wp_steps.
    destruct (good_current _ _ _ _ HG4 Hme4) as (_ & x4 & Hx4 & Hst4 & _).
    assert (set_next None x4 = run_record (ticks s2) (set_next None x)) as Ex4.
    { apply (core_store s2 (set_khw (khw s2) s4) p); [|done|done].
      change (core (set_khw (khw s2) s4)) with (set_khw (khw s2) (core s4)). rewrite E4. by destruct s2. }
    assert (cwd x4 = cwd x) as Ec by exact (f_equal cwd Ex4).
    assert (context x4 = context x) as Ectx by exact (f_equal context Ex4).
    eapply wp_mono; [apply wp_eqn, (resume_spec s4 _ p x4 HG4 Hme4 Hx4); [by rewrite Ec|by rewrite Ectx]|].
    intros w s5 [Ers (HG5 & Ei5 & Hres)]. wp_steps. split; [done|].
    split; [etrans; [exact Ei5|]; etrans; [exact (f_equal initproc E4)|exact Ei2]|].
    exists i. split; [done|]. split; [done|]. split; [intros j Hj'; by apply Hb, Hj|].
    exists s4, x, w. destruct HS as [E1 E2]. rewrite Ek4, Ek2, Hpo4, E1, E2, Hm4, E2.
    do 5 (split; [done|]). exists x4. rewrite Ec. done.
  - wp_steps. wp_call good_release; [exact HG2|]. intros _ s3 (HG3 & h3 & -> & HS3). wp_steps.
    apply wp_lift_hw. eapply wp_mono; [apply sti_idle, HG3|]. intros _ h4 [HI4 HS4]. wp_steps.
    assert (Good HwIdle (set_khw h4 (set_khw h3 s2)) (after_promotion s L)) as HG4 by (by eapply good_hw).
    split; [by eexists|]. split; [exact Ei2|]. split; [|split].
    + intros i. destruct (decide (0 ≤ i ≤ Z.of_nat MAX)) as [Hi|Hi].
      * by apply Hr, elem_of_ready_ids.
      * by apply (pi_ready_range s2 _ None i (g_p HG2)).
    + eapply same_cpus_trans; [exact HS|]. by eapply same_cpus_trans.
    + exact Ek2.
Qed.
End ProcSched.
