(* ===== verification/ProcCtl.v ===== *)
(** * kill, setpriority and growproc (proc.c) *)

From S2P Require Import Prelude Spinlock CString ProcState ProcList Proc ProcInv ProcWake KInv ProcSafe ProcExit ProcWait ProcFork.

Local Open Scope Z_scope.

Section ProcCtl.
Context `{KL : KernelLaws}.

(** ** kill *)

(** [kill] without CS333_P3P4: scan the table for the pid. *)
Definition kill_record (x : proc) : proc :=
  let y := set_killed 1 x in
  if decide (state y = SLEEPING) then set_state RUNNABLE y else y.
Definition kill_scan (n : Z) (s : kst) : Z * kst :=
  match list_find (λ x, pid x = u32 n) (procs s) with
  | Some (p, _) => (0, upd p kill_record s)
  | None => (-1, s)
  end.

Definition killable (st : procstate) : Prop :=
  st = SLEEPING ∨ st = RUNNING ∨ st = EMBRYO ∨ st = RUNNABLE.

Definition kill_lists : list listid := [Running; Embryo] ++ ready_ids.
Lemma kill_lists_valid : Forall valid_list kill_lists.
Proof. apply Forall_app. split; [by repeat constructor|apply ready_ids_valid]. Qed.

Lemma kill_lists_state s L p x :
  PInv s L None → procs s !! p = Some x →
  (∃ id, id ∈ Sleep :: kill_lists ∧ p ∈ L id) ↔ killable (state x).
Proof.
  intros HP Hx. unfold killable. split.
  - intros (id & Hid & Hp). destruct (pi_fits _ _ _ HP id p x Hp Hx) as [-> _].
    rewrite elem_of_cons in Hid. unfold kill_lists in Hid. rewrite elem_of_app in Hid.
    destruct id; simpl; try tauto; exfalso;
      destruct Hid as [Hid|[Hid|(i & ? & _)%list_elem_of_fmap]]; try done; set_solver.
  - intros Hst. assert (∃ id, fits id x ∧ id ∈ Sleep :: kill_lists) as (id & Hf & Hid).
    { unfold kill_lists. setoid_rewrite elem_of_cons. setoid_rewrite elem_of_app.
      destruct Hst as [E|[E|[E|E]]].
      - exists Sleep. split; [by split|]. by left.
      - exists Running. split; [by split|]. right. left. set_solver.
      - exists Embryo. split; [by split|]. right. left. set_solver.
      - exists (Ready (prio x)). split; [by split|]. right. right. apply elem_of_ready_ids.
        apply (pi_prio _ _ _ HP p x Hx). }
    exists id. split; [done|]. by apply (pi_mem_iff s L p x id).
Qed.

Lemma kview_kill x : kview (kill_record x) = kview x.
Proof.
  unfold kill_record. simpl. case_decide as E; [|done].
  by rewrite (kview_runnable (set_killed 1 x) E).
Qed.

(** The effect of [kill], found or not. *)
Definition kill_post (n : Z) (s : kst) (r : Z) (s' : kst) : Prop :=
  (∃ L', Good HwIdle s' L') ∧ same_cpus (khw s) (khw s') ∧ kviews s' = kviews s ∧
  ((r = 0 ∧ ∃ p x, procs s !! p = Some x ∧ pid x = u32 n ∧ killable (state x) ∧
      core s' = set_khw (khw s') (upd p kill_record (core s))) ∨
   (r = -1 ∧ (∀ p x, procs s !! p = Some x → pid x = u32 n → ¬ killable (state x)) ∧
      core s' = set_khw (khw s') (core s))).

Lemma kill_found s L s' L' n p x h :
  Good HwIdle s L → procs s !! p = Some x → pid x = u32 n → killable (state x) →
  Good (HwHeld Lptable) s' L' → khw s' = h → same_cpus (khw s) h →
  core s' = set_khw h (upd p kill_record (core s)) →
  wp (lift_hw (release Lptable);; mret 0) s' (kill_post n s).
Proof.
  intros HG Hx Hpid Hst HG' <- HS E. wp_steps. wp_call good_release; [exact HG'|].
  intros _ s2 (HG2 & h2 & -> & HS2). wp_steps.
  assert (kviews s' = kviews s) as Ek.
  { apply (kviews_core_eq s s' _ E). etrans; [exact (kviews_upd_same p kill_record (core s) kview_kill)|].
    apply kviews_core. }
  split; [by exists L'|]. split; [by eapply same_cpus_trans|]. split; [done|]. left. split; [done|].
  exists p, x. do 3 (split; [done|]). change (core (set_khw h2 s')) with (set_khw h2 (core s')).
  by rewrite E.
Qed.

Lemma kill_spec s L n : Good HwIdle s L → wp (kill n) s (kill_post n s).
Proof.
  intros HG. unfold kill. wp_steps. wp_call good_acquire; [exact HG|].
  intros _ s1 (HG1 & h1 & -> & HS1). pose proof (g_p HG1) as HP1. wp_steps.
  eapply wp_mono; [apply (lists_find_spec _ L None [Sleep] _ HP1); by repeat constructor|].
  intros [p|] s2 [-> Hr].
  - destruct Hr as (id & x & ->%list_elem_of_singleton & Hp & Hx & Hpid). apply bool_decide_eq_true in Hpid.
    destruct (pi_fits _ _ _ HP1 Sleep p x Hp Hx) as [Hst _].
    wp_steps. apply (wp_setp_upd _ _ _ x); [done|].
    assert (Good (HwHeld Lptable) (upd p (set_killed 1) (set_khw h1 s)) L) as HG2 by (by apply good_store).
    wp_steps. eapply wp_mono; [apply (wake_sleeper_spec _ L p (set_killed 1 x)); [apply HG2|done|by apply upd_lookup_eq]|].
    intros _ s3 [HP3 E3]. rewrite core_upd, upd_upd in E3 by done.
    rewrite (upd_ext p _ kill_record) in E3.
    + eapply (kill_found s L s3 _ n p x h1); try done; [by left|..].
      * eapply (good_upd _ (set_khw h1 s) s3 L _ p kill_record); [exact HG1|exact HP3|exact E3|apply kview_kill].
      * exact (f_equal khw E3).
    + intros y. rewrite (core_lookup_Some (set_khw h1 s) p x Hx). intros [= <-]. unfold kill_record. simpl.
      by rewrite decide_True.
  - wp_steps. eapply wp_mono; [apply (lists_find_spec _ L None kill_lists _ HP1 kill_lists_valid)|].
    intros [p|] s2 [-> Hr2].
    + destruct Hr2 as (id & x & Hid & Hp & Hx & Hpid). apply bool_decide_eq_true in Hpid.
      assert (killable (state x)) as Hk.
      { apply (kill_lists_state _ L p x HP1 Hx). exists id. split; [by right|done]. }
      assert (state x ≠ SLEEPING) as Hns.
      { intros Hs. assert (p ∈ L Sleep) as Hps by (by apply (pi_mem_iff _ L p x Sleep HP1 Hx)).
        specialize (Hr Sleep p x ltac:(set_solver) Hps Hx). by apply bool_decide_eq_false in Hr. }
      wp_steps. apply (wp_setp_upd _ _ _ x); [done|].
      assert (Good (HwHeld Lptable) (upd p (set_killed 1) (set_khw h1 s)) L) as HG2 by (by apply good_store).
      apply (kill_found s L _ L n p x h1); try done. rewrite core_upd by done.
      change (core (set_khw h1 s)) with (set_khw h1 (core s)).
      change (upd p ?f (set_khw h1 ?z)) with (set_khw h1 (upd p f z)). f_equal. apply upd_ext.
      intros y. rewrite (core_lookup_Some s p x Hx). intros [= <-]. unfold kill_record. simpl.
      by rewrite decide_False.
    + wp_steps. wp_call good_release; [exact HG1|]. intros _ s2 (HG2 & h2 & -> & HS2). wp_steps.
      split; [by exists L|]. split; [by eapply same_cpus_trans|]. split; [done|]. right. split; [done|].
      split; [|done]. intros p x Hx Hpid Hk.
      apply (kill_lists_state _ L p x HP1 Hx) in Hk as (id & [->|Hid]%elem_of_cons & Hp).
      * specialize (Hr Sleep p x ltac:(set_solver) Hp Hx). by apply bool_decide_eq_false in Hr.
      * specialize (Hr2 id p x Hid Hp Hx). by apply bool_decide_eq_false in Hr2.
Qed.

(** ** setpriority *)

Definition schedulable (st : procstate) : Prop := st = SLEEPING ∨ st = RUNNING ∨ st = RUNNABLE.
Definition prio_record (pr : Z) (x : proc) : proc := set_budget BUDGET (set_prio pr x).

(** Where the process goes: a RUNNABLE one to the back of its new list, unless
    it is already of that priority. *)
Definition prio_lists (p : nat) (x : proc) (pr : Z) (L : listid → list nat) : listid → list nat :=
  if decide (state x = RUNNABLE ∧ prio x ≠ pr)
  then <[Ready pr := L (Ready pr) ++ [p]]> (take_out (Ready (prio x)) p L) else L.

Definition bad_priority (n pr : Z) : Prop := Z.of_nat MAX < pr ∨ pr < 0 ∨ n < 0.

Definition prio_post (n pr : Z) (s : kst) (L : listid → list nat) (r : Z) (s' : kst) : Prop :=
  (r = -1 ∧ (bad_priority n pr ∨ ∀ p x, procs s !! p = Some x → pid x = u32 n → ¬ schedulable (state x)) ∧
     Good HwIdle s' L ∧ same_cpus (khw s) (khw s') ∧ core s' = set_khw (khw s') (core s)) ∨
  (r = 0 ∧ ∃ p x, procs s !! p = Some x ∧ pid x = u32 n ∧ schedulable (state x) ∧
     Good HwIdle s' (prio_lists p x pr L) ∧ same_cpus (khw s) (khw s') ∧
     core s' = set_khw (khw s') (upd p (prio_record pr) (core s))).

Lemma prio_done s L s' L' n pr p x h :
  Good HwIdle s L → procs s !! p = Some x → pid x = u32 n → schedulable (state x) →
  same_cpus (khw s) h → HwHeld Lptable h → PInv s' L' None → L' = prio_lists p x pr L →
  core s' = set_khw h (upd p (prio_record pr) (core s)) →
  wp (lift_hw (release Lptable);; mret 0) s' (prio_post n pr s L).
Proof.
  intros HG Hx Hpid Hst HS HH HP -> E. wp_steps. assert (khw s' = h) as Eh by exact (f_equal khw E).
  assert (kviews s' = kviews s) as Ek.
  { apply (kviews_core_eq s s' _ E). change (kviews (set_khw ?h ?z)) with (kviews z).
    rewrite (kviews_upd p _ (core s) _ (core_lookup_Some s p x Hx)), kviews_core.
    apply (list_insert_same _ _ (kview x)); [by rewrite kviews_lookup, Hx|].
    unfold kview. simpl. by destruct Hst as [->|[->| ->]]. }
  apply wp_release; [by rewrite Eh|]. intros h2 HI2 HS2. rewrite Eh in HS2.
  assert (same_cpus (khw s) h2) as HS' by (by eapply same_cpus_trans). wp_steps.
  right. split; [done|]. exists p, x. do 3 (split; [done|]).
  split; [|split; [done|change (core (set_khw h2 s')) with (set_khw h2 (core s')); by rewrite E]].
  unfold Good. change (kviews (set_khw h2 s')) with (kviews s'). rewrite Ek.
  split; [by apply PInv_khw| | |done].
  - change (VFacts (kviews s) (initproc s') (kenv s')).
    assert (initproc s' = initproc s) as -> by exact (f_equal initproc E).
    assert (kenv s' = kenv s) as -> by exact (f_equal kenv E). apply HG.
  - change (OnCpu (kviews s) (procs_on h2)). rewrite (proj1 HS'). apply HG.
Qed.

Lemma upd_khw p f h s : upd p f (set_khw h s) = set_khw h (upd p f s).
Proof. done. Qed.

Lemma setpriority_ready s L n pr p x h :
  Good HwIdle s L → 0 ≤ pr ≤ Z.of_nat MAX → same_cpus (khw s) h → HwHeld Lptable h →
  p ∈ L (Ready (prio x)) → procs s !! p = Some x → pid x = u32 n →
  wp (x ← getp p;
      (if decide (prio x = pr) then setp p (set_budget BUDGET) else
         assert p RUNNABLE;; remove (Ready (prio x)) p;; setp p (set_prio pr);;
         addtail (Ready pr) p;; setp p (set_budget BUDGET));;
      lift_hw (release Lptable);; mret 0) (set_khw h s) (prio_post n pr s L).
Proof.
  intros HG Hpr HS HH Hp Hx Hpid. pose proof (PInv_khw s L None h (g_p HG)) as HP.
  destruct (pi_fits _ _ _ HP (Ready (prio x)) p x Hp Hx) as [Hst _]. simpl in Hst.
  assert (schedulable (state x)) as Hsc by (rewrite Hst; right; by right).
  wp_steps. apply (wp_getp _ _ x); [done|]. wp_steps. case_decide as Hd.
  - apply (wp_setp_upd _ _ _ x); [done|]. apply (prio_done s L _ L n pr p x h); try done.
    + by apply PInv_inert.
    + unfold prio_lists. rewrite decide_False by tauto. done.
    + rewrite core_upd, <- upd_khw by done. apply upd_ext. intros y Hy.
      change (procs (core s) !! p = Some y) in Hy. rewrite (core_lookup_Some s p x Hx) in Hy.
      injection Hy as <-. subst pr. by destruct x.
  - wp_steps. apply (wp_assert _ _ _ x); [done|done|]. wp_steps.
    eapply wp_mono; [by apply (remove_inv _ L (Ready (prio x)) p HP)|]. intros r s2 (-> & HP2 & E2). wp_steps.
    destruct (core_lookup (set_khw h s) s2 p x E2 Hx) as (x2 & Hx2 & Ex2).
    apply (wp_setp_upd _ _ _ x2); [done|]. wp_steps.
    assert (PInv (upd p (set_prio pr) s2) (take_out (Ready (prio x)) p L) (Some p)) as HP3.
    { apply (PInv_upd _ _ _ _ _ x2); try done. by left. }
    eapply wp_mono; [apply (addtail_inv _ _ (Ready pr) p (set_prio pr x2) HP3)|].
    + by apply upd_lookup_eq.
    + split; [|done]. etrans; [exact (f_equal state Ex2)|exact Hst].
    + intros _ s4 [HP4 E4]. rewrite core_upd, E2 in E4 by done.
      destruct (rep_lookup s4 _ p (pi_rep _ _ _ HP4)) as [x4 Hx4]; [by eapply (pi_range _ L None)|].
      assert (take_out (Ready (prio x)) p L (Ready pr) = L (Ready pr)) as El.
      { unfold take_out. rewrite fn_insert_dec, decide_False by congruence. done. }
      rewrite El in HP4.
      apply (wp_setp_upd _ _ _ x4); [done|]. apply (prio_done s L _ (prio_lists p x pr L) n pr p x h); try done.
      * unfold prio_lists. rewrite decide_True by done. by apply PInv_inert.
      * by rewrite core_upd, E4, upd_upd.
Qed.

Lemma lists_none s L (ids : list listid) n (c : procstate → Prop) :
  PInv s L None →
  (∀ p x, procs s !! p = Some x → c (state x) → ∃ id, id ∈ ids ∧ p ∈ L id) →
  (∀ id p x, id ∈ ids → p ∈ L id → procs s !! p = Some x → has_pid n x = false) →
  ∀ p x, procs s !! p = Some x → pid x = u32 n → ¬ c (state x).
Proof.
  intros HP Hc Hno p x Hx Hpid Hst. destruct (Hc p x Hx Hst) as (id & Hid & Hp).
  specialize (Hno id p x Hid Hp Hx). by apply bool_decide_eq_false in Hno.
Qed.

Lemma setpriority_spec s L n pr :
  Good HwIdle s L → wp (setpriority n pr) s (prio_post n pr s L).
Proof.
  intros HG. unfold setpriority. case_decide as Hbad.
  { wp_steps. left. split; [done|]. split; [by left|]. split; [done|]. by destruct s. }
  assert (0 ≤ pr ≤ Z.of_nat MAX) as Hpr by lia.
  wp_steps. wp_call good_acquire; [exact HG|].
  intros _ s1 (HG1 & h1 & -> & HS1). pose proof (g_p HG1) as HP1. wp_steps.
  eapply wp_mono; [apply (lists_find_spec _ L None [Sleep; Running] _ HP1); by repeat constructor|].
  intros [p|] s2 [-> Hr].
  - destruct Hr as (id & x & Hid & Hp & Hx & Hpid). apply bool_decide_eq_true in Hpid.
    destruct (pi_fits _ _ _ HP1 id p x Hp Hx) as [Hst _].
    assert (id = Sleep ∨ id = Running) as Hid' by set_solver.
    assert (schedulable (state x) ∧ state x ≠ RUNNABLE) as [Hsc Hnr].
    { rewrite Hst. unfold schedulable. by destruct Hid' as [->| ->]; simpl; auto. }
    wp_steps. apply (wp_setp_upd _ _ _ x); [done|]. wp_steps. apply (wp_setp_same _ _ _ _ x); [done|].
    apply (prio_done s L _ L n pr p x h1); try done; [apply HG1| | |].
    + apply (PInv_upd _ _ _ _ _ x); try done. right. intros id' Hp'.
      rewrite <- (rep_disj _ _ (pi_rep _ _ _ HP1) id id' p Hp Hp').
      split; [exact Hst|]. by destruct Hid' as [->| ->].
    + unfold prio_lists. rewrite decide_False by tauto. done.
    + by rewrite core_upd.
  - wp_steps. eapply wp_mono; [apply (lists_find_spec _ L None ready_ids _ HP1 ready_ids_valid)|].
    intros [p|] s2 [-> Hr2].
    + destruct Hr2 as (id & x & Hid & Hp & Hx & Hpid). apply bool_decide_eq_true in Hpid.
      apply list_elem_of_fmap in Hid as (i & -> & _).
      destruct (pi_fits _ _ _ HP1 _ p x Hp Hx) as [_ Hpx]. simpl in Hpx.
      apply (setpriority_ready s L n pr p x h1); try done; [apply HG1|by rewrite Hpx].
    + wp_steps. wp_call good_release; [exact HG1|]. intros _ s2 (HG2 & h2 & -> & HS2). wp_steps.
      left. split; [done|]. split; [right|split; [done|split; [by eapply same_cpus_trans|done]]].
      apply (lists_none (set_khw h1 s) L ([Sleep; Running] ++ ready_ids) n schedulable HP1).
      * intros p x Hx Hst. destruct Hst as [E|[E|E]].
        -- exists Sleep. split; [set_solver|]. by apply (pi_mem_iff _ L p x Sleep HP1 Hx).
        -- exists Running. split; [set_solver|]. by apply (pi_mem_iff _ L p x Running HP1 Hx).
        -- exists (Ready (prio x)). split; [|by apply (pi_mem_iff _ L p x (Ready (prio x)) HP1 Hx)].
           apply elem_of_app. right. apply elem_of_ready_ids, (pi_prio _ _ _ HP1 p x Hx).
      * intros id p x [Hid|Hid]%elem_of_app; [by apply Hr|by apply Hr2].
Qed.

(** ** growproc *)

(** The current process's address space takes a new size. *)
Lemma VFacts_resize vs ini e e' p v pg n :
  VFacts vs ini e → vs !! p = Some v → v_cls v = CRun → v_pgdir v = Some pg →
  env_ok e' → held e' = held e → frefs e' = frefs e → irefs e' = irefs e →
  vm_size e' = <[pg := Some n]> (vm_size e) →
  VFacts (<[p := mkView (v_cls v) (v_parent v) (v_kstack v) (v_pgdir v) n (v_ofile v) (v_cwd v)
    (v_name v) (v_ctx v) (v_eprio v)]> vs) ini e'.
Proof.
  intros HV Hv Hc Hpg He Hd Fr Ir Vm. set (w := mkView _ _ _ _ _ _ _ _ _ _).
  apply (VFacts_update vs ini e e' p v); try done.
  - destruct (vf_loc _ _ _ HV p v Hv) as (H1 & H2 & H3). split; [done|]. split; [done|]. rewrite Hc in H3.
    unfold w. simpl. rewrite Hc. destruct H3 as (H3 & H4 & _). split; [done|].
    unfold stack_ok. rewrite Hd. split; [done|]. exists pg. split; [done|].
    by rewrite Vm, fn_insert_dec, decide_True.
  - intros q u Hq Hu. pose proof (vf_loc _ _ _ HV q u Hu) as (H1 & H2 & H3).
    split; [|split; [by apply (vf_stack _ _ _ HV p q v u)|by apply (vf_space _ _ _ HV p q v u)]].
    split; [done|]. split; [done|]. unfold stack_ok. rewrite Hd.
    assert (space u = v_pgdir u → vm_ok e u → vm_ok e' u) as Kv.
    { intros Esp (pg' & Epg & Esz). exists pg'. split; [done|]. rewrite Vm, fn_insert_dec.
      case_decide as E; [|done]. subst pg'. exfalso.
      assert (space v = v_pgdir v) as Esv by (unfold space; by rewrite Hc).
      pose proof (vf_space _ _ _ HV p q v u Hv Hu ltac:(done) ltac:(congruence)). congruence. }
    unfold space in Kv. destruct (v_cls u); tauto.
  - intros ->. destruct (vf_init _ _ _ HV p eq_refl) as (u & Hu & Hl). simpl. congruence.
  - intros Hk. destruct (vf_family _ _ _ HV p v Hv Hk) as [?|(q & u & Hq & Hu & Hl)]; [by left|right].
    destruct (decide (q = p)) as [->|Hne].
    + exists p, w. split; [done|]. split; [apply list_lookup_insert_eq; by eapply lookup_lt_Some|].
      unfold w. simpl. congruence.
    + exists q, u. by rewrite list_lookup_insert_ne by done.
  - left. right. done.
  - intros f. rewrite Fr. done.
  - intros i. rewrite Ir. done.
Qed.

(** The size [growproc] asks for, and the one it ends up with. *)
Definition grow_post (n : Z) (me : nat) (x : proc) (s : kst) (r : Z) (s' : kst) : Prop :=
  (r = -1 ∧ kviews s' = kviews s) ∨
  (r = 0 ∧ ∃ sz', kviews s' = <[me := kview (set_sz sz' x)]> (kviews s) ∧ sz' ≠ 0 ∧
     (n < 0 → sz' = if decide (sz x ≤ u32 (sz x + n)) then sz x else u32 (sz x + n))) ∨
  (r = 0 ∧ n = 0 ∧ kviews s' = kviews s).

Lemma good_resize s L me x pg n e' :
  Good HwIdle s L → procs s !! me = Some x → state x = RUNNING → pgdir x = Some pg →
  env_ok e' → held e' = held (kenv s) → frefs e' = frefs (kenv s) → irefs e' = irefs (kenv s) →
  vm_size e' = <[pg := Some n]> (vm_size (kenv s)) →
  Good HwIdle (upd me (set_sz n) (set_kenv e' s)) L ∧
  kviews (upd me (set_sz n) (set_kenv e' s)) = <[me := kview (set_sz n x)]> (kviews s).
Proof.
  intros HG Hx Hst Hpg He Hd Fr Ir Vm.
  assert (kviews (upd me (set_sz n) (set_kenv e' s)) = <[me := kview (set_sz n x)]> (kviews s)) as EK
    by exact (kviews_upd me (set_sz n) s x Hx).
  split; [|done]. unfold Good. rewrite EK.
  assert (kviews s !! me = Some (kview x)) as Hv by (by rewrite kviews_lookup, Hx).
  split; [apply PInv_inert; [apply PInv_env, HG|done]| | |apply HG].
  - eapply (VFacts_resize _ _ (kenv s) e' me (kview x) pg n); try done; [apply HG|simpl; by rewrite Hst].
  - apply (OnCpu_same _ _ me (kview x)); [apply HG|done|done].
Qed.

Lemma growproc_spec s L me x n :
  Good HwIdle s L → proc_of s = Some me → procs s !! me = Some x →
  (n < 0 → u32 (sz x + n) ≠ 0 ∧ sz x ≠ 0) →
  wp (growproc n) s (λ r s', Good HwIdle s' L ∧ khw s' = khw s ∧ initproc s' = initproc s ∧
    grow_post n me x s r s').
Proof.
  intros HG Hme Hx Hn0. pose proof (g_v HG) as HV.
  destruct (good_current _ _ _ _ HG Hme) as (_ & z & Hz & Hst & _). rewrite Hx in Hz. injection Hz as <-.
  assert (kviews s !! me = Some (kview x)) as Hv by (by rewrite kviews_lookup, Hx).
  destruct (vf_loc _ _ _ HV me _ Hv) as (_ & _ & Hcls). simpl in Hcls. rewrite Hst in Hcls.
  destruct Hcls as (_ & _ & (pg & Hpg & Hsz)). simpl in Hpg, Hsz.
  unfold growproc. wp_steps. apply (wp_myproc _ me); [done|]. wp_steps. apply (wp_getp _ _ x); [done|].
  rewrite Hpg. case_decide as Hpos; [|case_decide as Hneg].
  - wp_steps. apply wp_lift_env. eapply wp_mono; [apply law_allocuvm; [apply HV|done]|].
    intros sz' e' (He & Hd & Fr & Ir & Op & Vm). case_decide as Hz.
    + wp_steps. split; [by apply good_env|]. do 2 (split; [done|]). by left.
    + wp_steps. apply (wp_setp_upd _ _ _ x); [done|]. wp_steps.
      destruct (good_resize s L me x pg sz' e' HG Hx Hst Hpg He Hd Fr Ir Vm) as [HG' EK].
      split; [done|]. do 2 (split; [done|]). right. left. split; [done|]. exists sz'.
      split; [done|]. split; [done|lia].
  - destruct (Hn0 Hneg) as [Hnz Hoz].
    wp_steps. apply wp_lift_env. eapply wp_mono; [apply law_deallocuvm; [apply HV|done]|].
    intros sz' e' (He & Hd & Fr & Ir & Op & Vm & Hr). rewrite decide_False by (subst sz'; case_decide; done).
    wp_steps. apply (wp_setp_upd _ _ _ x); [done|]. wp_steps.
    destruct (good_resize s L me x pg sz' e' HG Hx Hst Hpg He Hd Fr Ir Vm) as [HG' EK].
    split; [done|]. do 2 (split; [done|]). right. left. split; [done|]. exists sz'.
    split; [done|]. split; [subst sz'; by case_decide|done].
  - wp_steps. apply (wp_setp_upd _ _ _ x); [done|]. wp_steps. assert (n = 0) as -> by lia.
    rewrite upd_same by (intros y Hy; rewrite Hx in Hy; injection Hy as <-; by destruct x).
    split; [done|]. do 2 (split; [done|]). by right; right.
Qed.

(** Shrinking to nothing: the pages are gone, [growproc] reports failure and
    the process keeps its old size. *)
Lemma growproc_to_zero s L me x n :
  Good HwIdle s L → proc_of s = Some me → procs s !! me = Some x → n < 0 → u32 (sz x + n) = 0 → 0 < sz x →
  wp (growproc n) s (λ r s', r = -1 ∧ procs s' = procs s ∧
    ∃ pg, pgdir x = Some pg ∧ vm_size (kenv s) pg = Some (sz x) ∧ vm_size (kenv s') pg = Some 0).
Proof.
  intros HG Hme Hx Hneg Hnz Hoz. pose proof (g_v HG) as HV.
  destruct (good_current _ _ _ _ HG Hme) as (_ & z & Hz & Hst & _). rewrite Hx in Hz. injection Hz as <-.
  assert (kviews s !! me = Some (kview x)) as Hv by (by rewrite kviews_lookup, Hx).
  destruct (vf_loc _ _ _ HV me _ Hv) as (_ & _ & Hcls). simpl in Hcls. rewrite Hst in Hcls.
  destruct Hcls as (_ & _ & (pg & Hpg & Hsz)). simpl in Hpg, Hsz.
  unfold growproc. wp_steps. apply (wp_myproc _ me); [done|]. wp_steps. apply (wp_getp _ _ x); [done|].
  rewrite Hpg, decide_False, decide_True, Hnz by lia. wp_steps. apply wp_lift_env.
  eapply wp_mono; [apply law_deallocuvm; [apply HV|done]|].
  intros sz' e' (He & Hd & Fr & Ir & Op & Vm & Hr). rewrite decide_False in Hr by lia. subst sz'.
  rewrite decide_True by done. wp_steps. split; [done|]. split; [done|]. exists pg.
  split; [done|]. split; [done|]. simpl. by rewrite Vm, fn_insert_dec, decide_True.
Qed.
End ProcCtl.
