(* ===== verification/ProcBoot.v ===== *)
(** * userinit (proc.c): the first process

    From the zeroed process table, [userinit] builds the free list, allocates
    slot 0 and makes it the RUNNABLE init process: the state it leaves
    satisfies the kernel invariant. *)

From S2P Require Import Prelude Spinlock CString ProcState ProcList Proc ProcInv ProcWake KInv ProcSafe ProcExit ProcWait ProcFork.

Local Open Scope Z_scope.

Section ProcBoot.
Context `{KL : KernelLaws}.

(** Static data as the loader leaves it, and a CPU outside any lock. *)
Record Boot (s : kst) : Prop := {
  bt_procs : procs s = replicate NPROC zero_proc;
  bt_heads : free s = None ∧ sleep_head s = None ∧ zombie s = None ∧ running s = None ∧ embryo s = None;
  bt_init : initproc s = None;
  bt_hw : HwIdle (khw s);
  bt_cpus : Forall (eq None) (procs_on (khw s));
  bt_env : env_ok (kenv s)
}.

Lemma Rep_ext s L L' : (∀ id, L' id = L id) → Rep s L → Rep s L'.
Proof.
  intros E [R1 R2 R3 R4 R5 R6]. split; try done; try (intros id; rewrite E; eauto; fail).
  intros id id' p. rewrite !E. apply R3.
Qed.

Lemma userinit_free_spec ps : ∀ s L,
  Rep s L → NoDup ps → (∀ p, p ∈ ps → (p < NPROC)%nat ∧ off_lists L p) →
  wp (userinit_free ps) s (λ _ s', Rep s' (<[Free := L Free ++ ps]> L) ∧ core s' = core s).
Proof.
  induction ps as [|p ps IH]; intros s L HR Hnd Hps; simpl; wp_steps.
  { rewrite app_nil_r. split; [|done]. apply (Rep_ext _ L); [|done].
    intros id. rewrite fn_insert_dec. case_decide; by subst. }
  apply NoDup_cons in Hnd as [Hp Hnd]. destruct (Hps p) as [Hlt Hoff]; [set_solver|].
  eapply wp_mono; [by apply (addtail_spec s L Free p HR I Hoff Hlt)|]. intros _ s1 [HR1 E1].
  eapply wp_mono; [apply (IH s1 _ HR1 Hnd)|].
  - intros q Hq. destruct (Hps q) as [Hq1 Hq2]; [set_solver|]. split; [done|]. intros id.
    fn_cases; [|apply Hq2]. rewrite elem_of_app. intros [Hf| ->%list_elem_of_singleton]; [by apply (Hq2 Free)|done].
  - intros _ s2 [HR2 E2]. split; [|congruence].
    eapply Rep_ext; [|exact HR2]. intros id. rewrite !fn_insert_dec.
    rewrite (decide_True (P := Free = Free)) by done. case_decide; [by rewrite <- app_assoc|done].
Qed.

Definition boot_lists (id : listid) : list nat := if decide (id = Free) then seq 0 NPROC else [].

Lemma userinit_lists_spec s :
  Boot s →
  wp userinit_lists s (λ _ s', PInv s' boot_lists None ∧ HwIdle (khw s') ∧ same_cpus (khw s) (khw s') ∧
    initproc s' = None ∧ kenv s' = kenv s ∧ set_next None <$> procs s' = replicate NPROC zero_proc).
Proof.
  intros [Hp (Hf & Hsl & Hz & Hr & He) Hi HI Hc Hev]. unfold userinit_lists. wp_steps.
  apply wp_acquire; [done|]. intros h1 HH1 HS1. wp_steps.
  set (s1 := set_free None _).
  assert (Rep s1 (λ _, [])) as HR1.
  { split; try (intros; set_solver).
    - intros id. simpl. unfold head_of. destruct id; simpl; try done.
      case_decide; [|done]. by destruct (Z.to_nat i) as [|[|[|[|[|[|]]]]]].
    - intros id. apply NoDup_nil_2.
    - simpl. by rewrite Hp, length_replicate. }
  eapply wp_mono; [apply (userinit_free_spec (seq 0 NPROC) s1 _ HR1 (NoDup_seq _ _))|].
  { intros p Hpin. apply elem_of_seq in Hpin. split; [lia|]. intros id. set_solver. }
  intros _ s2 [HR2 E2]. wp_steps.
  assert (khw s2 = h1) as Eh by exact (f_equal khw E2).
  apply wp_release; [simpl; by rewrite Eh|]. simpl. rewrite Eh. intros h3 HI3 HS3.
  assert (set_next None <$> procs s2 = replicate NPROC zero_proc) as Ep.
  { change (procs (core s2) = replicate NPROC zero_proc). rewrite E2. simpl. rewrite Hp. done. }
  split; [|split; [done|split; [by eapply same_cpus_trans|split; [etrans; [exact (f_equal initproc E2)|done]|
    split; [exact (f_equal kenv E2)|done]]]]].
  assert (Rep s2 boot_lists) as HR.
  { eapply Rep_ext; [|exact HR2]. intros id. rewrite fn_insert_dec. unfold boot_lists.
    repeat case_decide; by subst. }
  apply (PInv_frame s2).
  - repeat split; symmetry.
    + exact (rep_list _ _ HR Sleep).
    + exact (rep_list _ _ HR Zombie).
    + exact (rep_list _ _ HR Running).
    + exact (rep_list _ _ HR Embryo).
  - assert (∀ p x, procs s2 !! p = Some x → set_next None x = zero_proc) as Hx.
    { intros p x Hx. apply (f_equal (.!! p)) in Ep. rewrite list_lookup_fmap, Hx in Ep. symmetry in Ep.
      by apply lookup_replicate in Ep as [-> _]. }
    split; [done| |done| |].
    + intros p Hlt. right. exists Free. unfold boot_lists. rewrite decide_True by done. apply elem_of_seq. lia.
    + intros id p x Hp' Hpx. specialize (Hx p x Hpx). unfold boot_lists in Hp'. case_decide; [|set_solver].
      subst. split; [exact (f_equal state Hx)|done].
    + intros p x Hpx. specialize (Hx p x Hpx). unfold prio_ok.
      assert (prio x = 0) as -> by exact (f_equal prio Hx). lia.
Qed.

(** ** The invariant before there is an init process *)

Lemma sum_over_zero g vs : (∀ p v, vs !! p = Some v → g v = 0%nat) → sum_over g vs = 0%nat.
Proof.
  unfold sum_over. induction vs as [|v vs IH]; intros Hz; [done|].
  change (g v + sum_list (g <$> vs) = 0)%nat. rewrite (Hz 0%nat v), IH; [done| |done].
  intros p w Hw. by apply (Hz (S p)).
Qed.

Lemma boot_good s :
  PInv s boot_lists None → HwIdle (khw s) → Forall (eq None) (procs_on (khw s)) → initproc s = None →
  env_ok (kenv s) → set_next None <$> procs s = replicate NPROC zero_proc →
  Good HwIdle s boot_lists.
Proof.
  intros HP HI Hc Hi He Ep.
  assert (∀ p v, kviews s !! p = Some v → v = kview zero_proc) as Hz.
  { intros p v. rewrite kviews_lookup. apply (f_equal (.!! p)) in Ep. rewrite list_lookup_fmap in Ep.
    destruct (procs s !! p) as [x|]; [|done]. symmetry in Ep. apply lookup_replicate in Ep as [Ex _].
    intros [= <-]. change (kview x) with (kview (set_next None x)). by rewrite Ex. }
  split; [done| | |done].
  - split; [done|..].
    + intros p v ->%Hz. by repeat split.
    + intros p q v w ->%Hz ->%Hz _. by intros ?.
    + intros p q v w ->%Hz ->%Hz _. by intros ?.
    + intros ip. by rewrite Hi.
    + intros p v ->%Hz. by intros [[]|].
    + intros f. rewrite sum_over_zero; [lia|]. by intros p v ->%Hz.
    + intros i. rewrite sum_over_zero; [lia|]. by intros p v ->%Hz.
  - assert (∀ i p, procs_on (khw s) !! i ≠ Some (Some p)) as Hno.
    { intros i p Hp. by apply (Forall_lookup_1 _ _ _ _ Hc) in Hp. }
    split; [|by intros i j p Hp; apply Hno in Hp]. intros p. split.
    + by intros (v & ->%Hz & ?).
    + by intros [i Hp%Hno].
Qed.

(** The first process becomes init. *)
Lemma VFacts_first vs e e' p v w pg i :
  VFacts vs None e → vs !! p = Some v → (∀ q u, q ≠ p → vs !! q = Some u → v_cls u = CFree) →
  env_ok e' → held e' = held e → frefs e' = frefs e → irefs e' = <[i := S (irefs e i)]> (irefs e) →
  vm_size e' pg = Some (v_sz w) → v_cls v = CEmbryo →
  v_cls w = CWait → v_kstack w = v_kstack v → v_pgdir w = Some pg → v_ofile w = v_ofile v →
  v_cwd w = Some i → v_name w = 16%nat → v_ctx w = true →
  VFacts (<[p := w]> vs) (Some p) e'.
Proof.
  intros HV Hv Hfree He Hd Fr Ir Vm Hcv Hcw Hk Hpg Ho Hcwd Hn Hctx.
  destruct (vf_loc _ _ _ HV p v Hv) as (V1 & V2 & V3). rewrite Hcv in V3.
  destruct V3 as ((Vo & Vc) & (a & Ha & Hha) & V4 & V5).
  assert (vs !! p = Some v → <[p := w]> vs !! p = Some w) as Hins.
  { intros _. apply list_lookup_insert_eq. by eapply lookup_lt_Some. }
  assert (∀ q u, q ≠ p → vs !! q = Some u → vok e' u ∧ v_kstack u = None ∧ space u = None) as Hoth.
  { intros q u Hq Hu. destruct (vf_loc _ _ _ HV q u Hu) as (U1 & U2 & U3).
    unfold vok, space. rewrite (Hfree q u Hq Hu) in *. tauto. }
  split; [done|..].
  - intros q u [[-> ->]|[Hq Hu]]%insert_lookup_cases; [|by destruct (Hoth q u Hq Hu)].
    split; [by rewrite Ho|]. split; [done|]. rewrite Hcw. split; [by rewrite Hcwd|]. split; [|split; [by exists pg|done]].
    exists a. by rewrite Hk, Hd.
  - intros q r u z [[-> ->]|[Hq Hu]]%insert_lookup_cases [[-> ->]|[Hr Hz]]%insert_lookup_cases Hne; [done|..].
    + intros E. by rewrite E; destruct (Hoth r z Hr Hz) as (_ & ? & _).
    + intros _. by destruct (Hoth q u Hq Hu) as (_ & ? & _).
    + intros _. by destruct (Hoth q u Hq Hu) as (_ & ? & _).
  - intros q r u z [[-> ->]|[Hq Hu]]%insert_lookup_cases [[-> ->]|[Hr Hz]]%insert_lookup_cases Hne; [done|..].
    + intros E. by rewrite E; destruct (Hoth r z Hr Hz) as (_ & _ & ?).
    + intros _. by destruct (Hoth q u Hq Hu) as (_ & _ & ?).
    + intros _. by destruct (Hoth q u Hq Hu) as (_ & _ & ?).
  - intros ip [= <-]. exists w. split; [by apply Hins|by left].
  - intros q u [[-> ->]|[Hq Hu]]%insert_lookup_cases Hkin; [by left|].
    rewrite (Hfree q u Hq Hu) in Hkin. by destruct Hkin as [[]|].
  - intros f. rewrite (sum_over_insert_same _ _ _ v), Fr by (done || by rewrite Ho). apply HV.
  - intros j. pose proof (sum_over_insert (λ v, cwd_count j (v_cwd v)) vs p v w Hv) as Hs.
    pose proof (vf_cwds _ _ _ HV j) as Hj. cbn beta in *. rewrite Vc, Hcwd in Hs. rewrite Ir, fn_insert_dec.
    unfold cwd_count in *. repeat case_decide; simplify_eq; lia.
Qed.

(** ** userinit *)

Definition init_record (pg : Z) (c : nat) (nm : list Z) (x : proc) : proc :=
  set_cwd (Some c) (set_name nm (set_tf init_trapframe (set_sz PGSIZE (set_pgdir (Some pg)
    (set_gid DEFGID (set_uid DEFUID x)))))).

Lemma userinit_image_spec s ip x :
  procs s !! ip = Some x → env_ok (kenv s) → length (name x) = 16%nat →
  (∃ pg e', setupkvm (kenv s) = Ret (Some pg) e') →
  wp (userinit_image ip) s (λ _ s', ∃ pg c nm e', s' = set_kenv e' (upd ip (init_record pg c nm) s) ∧
    length nm = 16%nat ∧ env_ok e' ∧ held e' = held (kenv s) ∧ frefs e' = frefs (kenv s) ∧
    irefs e' = <[c := S (irefs (kenv s) c)]> (irefs (kenv s)) ∧ vm_size e' pg = Some PGSIZE).
Proof.
  intros Hx He Hn Hset. unfold userinit_image. wp_steps. apply (wp_setp_upd _ _ _ x); [done|]. wp_steps.
  apply (wp_setp_same _ _ _ _ x); [done|]. wp_steps. apply wp_lift_env.
  destruct (wp_inv _ _ _ (law_setupkvm _ He)) as (r & e1 & Er & He1 & Hd1 & Fr1 & Ir1 & Op1 & Hr).
  eapply wp_Ret; [exact Er|]. destruct Hset as (pg & e1' & Es).
  change (kenv (upd ip _ s)) with (kenv s) in Er. rewrite Es in Er. injection Er as <- ->.
  destruct Hr as [_ Vm1]. wp_steps.
  change (set_kenv e1 (upd ip ?f s)) with (upd ip f (set_kenv e1 s)).
  apply (wp_setp_same _ _ _ _ x); [done|]. wp_steps. apply wp_lift_env.
  eapply wp_mono; [apply law_inituvm; [done|simpl; by rewrite Vm1, fn_insert_dec, decide_True]|].
  intros _ e2 (He2 & Hd2 & Fr2 & Ir2 & Op2 & Vm2). simpl in Hd2, Fr2, Ir2, Vm2. wp_steps.
  change (set_kenv e2 (upd ip ?f (set_kenv e1 s))) with (upd ip f (set_kenv e2 s)).
  do 2 (apply (wp_setp_same _ _ _ _ x); [done|]; wp_steps).
  eapply wp_getp; [by apply upd_lookup_eq|]. wp_steps.
  assert (∃ nm, safestrcpy (name x) initcode_name 16 = Some nm ∧ length nm = 16%nat) as (nm & Enm & Hnm).
  { destruct (name x) as [|n0 [|n1 [|n2 [|n3 [|n4 [|n5 [|n6 [|n7 [|n8 [|n9 l]]]]]]]]]]; try discriminate Hn.
    eexists. split; [reflexivity|]. exact Hn. }
  apply (wp_lookupM _ _ nm); [exact Enm|]. wp_steps. apply (wp_setp_same _ _ _ _ x); [done|]. wp_steps.
  apply wp_lift_env. eapply wp_mono; [by apply law_namei_root|].
  intros r e3 (He3 & Hd3 & Vm3 & Fr3 & Op3 & c & -> & Ir3). simpl in Hd3, Vm3, Fr3, Ir3. wp_steps.
  change (set_kenv e3 (upd ip ?f (set_kenv e2 s))) with (upd ip f (set_kenv e3 s)).
  apply (wp_setp_same _ _ _ _ x); [done|].
  exists pg, c, nm, e3. split; [done|]. split; [done|]. split; [done|].
  split; [congruence|]. split; [congruence|]. split; [by rewrite Ir3, Ir2, Ir1|].
  by rewrite Vm3, Vm2, fn_insert_dec, decide_True.
Qed.

(** On an empty list, storing head and link is [addtail]. *)
Lemma store_as_addtail {A} s L off id p (k : M kst A) (Q : A → kst → Prop) :
  PInv s L off → valid_list id → L id = [] →
  wp (addtail id p) s (λ _ s', wp k s' Q) → wp (set_head id (Some p);; setp p (set_next None);; k) s Q.
Proof.
  intros HP Hv El Hadd. unfold addtail in Hadd.
  assert (get_head id s = Ret None s) as Eh.
  { unfold get_head, lookupM. rewrite (head_at_valid s id Hv (rep_ready _ _ (pi_rep _ _ _ HP))).
    by rewrite (lrep_hd _ _ _ (rep_list _ _ (pi_rep _ _ _ HP) id)), El. }
  unfold wp, mbind, M_bind in *. rewrite Eh in Hadd. destruct (set_head id (Some p) s) as [u s'| | |]; try done.
  by destruct (setp p (set_next None) s').
Qed.

Lemma userinit_publish_spec s L ip x :
  PInv s L None → HwIdle (khw s) → ip ∈ L Embryo → procs s !! ip = Some x → prio x = 0 → L (Ready 0) = [] →
  wp (userinit_publish ip) s (λ _ s', ∃ h,
    PInv s' (<[Ready 0 := [ip]]> (take_out Embryo ip L)) None ∧
    HwIdle h ∧ same_cpus (khw s) h ∧ core s' = set_khw h (upd ip (set_state RUNNABLE) (core s))).
Proof.
  intros HP HI Hp Hx Hpr Hr0. unfold userinit_publish. wp_steps. apply wp_acquire; [done|]. intros h1 HH1 HS1.
  pose proof (PInv_khw s L None h1 HP) as HP1. wp_steps.
  apply (wp_assert _ _ _ x); [done|by apply (pi_fits _ _ _ HP Embryo ip x)|].
  apply (take_and_store (set_khw h1 s) L Embryo ip x); try done; [apply (pi_prio _ _ _ HP ip x Hx)|].
  intros s2 x2 HP2 Hx2 Ex2 E2.
  apply (store_as_addtail s2 _ _ (Ready 0) ip _ _ HP2); [simpl; lia|done|].
  eapply wp_mono; [apply (addtail_inv _ _ (Ready 0) ip x2 HP2 Hx2)|].
  { split; [exact (f_equal state Ex2)|]. etrans; [exact (f_equal prio Ex2)|exact Hpr]. }
  intros _ s3 [HP3 E3]. rewrite E2 in E3. assert (khw s3 = h1) as Eh by exact (f_equal khw E3).
  apply wp_release; [by rewrite Eh|]. intros h4 HH4 HS4. exists h4.
  change (take_out Embryo ip L (Ready 0)) with (L (Ready 0)) in HP3. rewrite Hr0 in HP3.
  split; [by apply PInv_khw|]. split; [done|]. split; [rewrite Eh in HS4; by eapply same_cpus_trans|].
  change (core (set_khw h4 s3)) with (set_khw h4 (core s3)). by rewrite E3.
Qed.

(** The free list without slot 0, and init alone on ready[0]. *)
Definition started (s : kst) : Prop :=
  ∃ L x, Good HwIdle s L ∧ initproc s = Some 0%nat ∧ procs s !! 0%nat = Some x ∧ state x = RUNNABLE ∧
    prio x = 0 ∧ uid x = DEFUID ∧ gid x = DEFGID ∧ sz x = PGSIZE ∧ tf x = init_trapframe ∧
    L (Ready 0) = [0%nat] ∧ L Free = seq 1 63 ∧ (∀ id, id ≠ Ready 0 → id ≠ Free → L id = []).

(** After [allocproc] at boot: slot 0 is the only one in use. *)
Definition boot_lists1 : listid → list nat :=
  <[Embryo := 0%nat :: boot_lists Embryo]> (take_out Free 0%nat boot_lists).

Lemma boot_others_free s q u :
  Good HwIdle s boot_lists1 → q ≠ 0%nat → kviews s !! q = Some u → v_cls u = CFree.
Proof.
  intros HG Hq. rewrite kviews_lookup. destruct (procs s !! q) as [x|] eqn:Hx; [|done]. intros [= <-].
  destruct (pi_cover _ _ _ (g_p HG) q) as [?|[id Hid]]; [|done|].
  { rewrite <- (rep_len _ _ (pi_rep _ _ _ (g_p HG))). by eapply lookup_lt_Some. }
  destruct (pi_fits _ _ _ (g_p HG) id q x Hid Hx) as [Hst _].
  destruct id; [by apply elem_of_nil in Hid|simpl; by rewrite Hst|by apply elem_of_nil in Hid..|].
  by apply list_elem_of_singleton in Hid.
Qed.

Lemma boot_finish s2 x2 pg c nm e3 h s4 :
  Good HwIdle s2 boot_lists1 → procs s2 !! 0%nat = Some x2 → initproc s2 = None →
  length nm = 16%nat → env_ok e3 → held e3 = held (kenv s2) → frefs e3 = frefs (kenv s2) →
  irefs e3 = <[c := S (irefs (kenv s2) c)]> (irefs (kenv s2)) → vm_size e3 pg = Some PGSIZE →
  PInv s4 (<[Ready 0 := [0%nat]]> (take_out Embryo 0%nat boot_lists1)) None → HwIdle h → same_cpus (khw s2) h →
  core s4 = set_khw h (set_kenv e3 (set_initproc (Some 0%nat)
    (upd 0%nat (set_state RUNNABLE ∘ init_record pg c nm) (core s2)))) →
  started s4 ∧ has_cwd (kviews s4).
Proof.
  intros HG2 Hx2 Hi2 Hnm He Hd Fr Ir Vm HP4 HI HS E4.
  assert (0%nat ∈ boot_lists1 Embryo) as Hemb by (apply list_elem_of_singleton; done).
  destruct (embryo_facts _ s2 _ 0%nat x2 HG2 Hemb Hx2) as (Hv & Hc & Hpr & Hn & Hb & Hs & Hctx).
  set (F := set_state RUNNABLE ∘ init_record pg c nm) in *.
  assert (kviews s4 = <[0%nat := kview (F x2)]> (kviews s2)) as EK.
  { rewrite <- (kviews_core s4), E4, <- (kviews_core s2).
    exact (kviews_upd 0%nat F (core s2) _ (core_lookup_Some s2 _ x2 Hx2)). }
  assert (khw s4 = h) as Eh by exact (f_equal khw E4).
  assert (kenv s4 = e3) as Ee by exact (f_equal kenv E4).
  assert (initproc s4 = Some 0%nat) as Ei by exact (f_equal initproc E4).
  assert (procs (core s4) !! 0%nat = Some (F (set_next None x2))) as Hx4.
  { rewrite E4. exact (upd_lookup_eq 0%nat F (core s2) _ (core_lookup_Some s2 _ x2 Hx2)). }
  simpl in Hx4. rewrite list_lookup_fmap in Hx4. destruct (procs s4 !! 0%nat) as [x4|] eqn:Hx4'; [|done].
  apply (inj Some) in Hx4. split.
  - exists (<[Ready 0 := [0%nat]]> (take_out Embryo 0%nat boot_lists1)), x4. split.
    + unfold Good. rewrite EK. split; [done| | |by rewrite Eh].
      * rewrite Ei, Ee. pose proof (g_v HG2) as HV2. rewrite Hi2 in HV2.
        apply (VFacts_first _ (kenv s2) e3 0%nat (kview x2) _ pg c); try done.
        intros q u Hq Hu. by apply (boot_others_free s2 q u).
      * rewrite Eh, (proj1 HS). apply (OnCpu_same _ _ 0%nat (kview x2)); [apply HG2|done|]. by rewrite Hc.
    + split; [done|]. split; [done|]. split; [exact (f_equal state Hx4)|].
      split; [etrans; [exact (f_equal prio Hx4)|done]|]. split; [exact (f_equal uid Hx4)|].
      split; [exact (f_equal gid Hx4)|]. split; [exact (f_equal sz Hx4)|]. split; [exact (f_equal tf Hx4)|].
      split; [done|]. split; [done|]. intros id H1 H2. rewrite fn_insert_dec, decide_False by done.
      unfold take_out. rewrite fn_insert_dec. by destruct id.
  - intros q v. rewrite EK. intros [[-> ->]|[Hq Hu]]%insert_lookup_cases Hr; [done|].
    rewrite (boot_others_free s2 q v HG2 Hq Hu) in Hr. done.
Qed.

(** Memory for the first kernel stack and page directory. *)
Definition boot_memory (s : kst) : Prop :=
  ∃ a e1 pg e2, kalloc (kenv s) = Ret (Some a) e1 ∧ setupkvm e1 = Ret (Some pg) e2.

Lemma userinit_spec s :
  Boot s → boot_memory s →
  wp userinit s (λ _ s', started s' ∧ has_cwd (kviews s') ∧ same_cpus (khw s) (khw s')).
Proof.
  intros HB (a0 & e1 & pg0 & e0 & Hka & Hset). unfold userinit. wp_steps. eapply wp_mono; [by apply userinit_lists_spec|].
  intros _ s1 (HP1 & HI1 & HS1 & Ei1 & Ee1 & Ep1).
  assert (Good HwIdle s1 boot_lists) as HG1.
  { apply boot_good; try done; [rewrite (proj1 HS1); apply HB|rewrite Ee1; apply HB]. }
  wp_steps. eapply wp_mono; [by apply (allocproc_spec s1 boot_lists)|].
  intros [p|] s2 (HS2 & Ei2 & Hr2); last first.
  { destruct Hr2 as (_ & _ & [?|[e' He']]); [done|]. congruence. }
  destruct Hr2 as (x & a & Hp & Hx & Hna & Hka2 & HG2 & EK2 & E2). injection Hp as <-.
  change (Good HwIdle s2 boot_lists1) in HG2. rewrite Ei1 in Ei2.
  destruct (rep_lookup s2 _ 0%nat (pi_rep _ _ _ (g_p HG2))) as [x2 Hx2]; [unfold NPROC; lia|].
  assert (0%nat ∈ boot_lists1 Embryo) as Hemb by (apply list_elem_of_singleton; done).
  destruct (embryo_facts _ s2 _ 0%nat x2 HG2 Hemb Hx2) as (Hv & Hc & Hpr & Hn & Hb & Hs & Hctx).
  wp_steps. apply (wp_deref _ _ 0%nat); [done|]. wp_steps.
  eapply wp_mono; [apply (userinit_image_spec (set_initproc (Some 0%nat) s2) 0%nat x2); try done; [apply HG2|]|].
  { exists pg0, e0. simpl. congruence. }
  intros _ s3 (pg & c & nm & e3 & -> & Hnm & He3 & Hd3 & Fr3 & Ir3 & Vm3). simpl in Hd3, Fr3, Ir3.
  eapply wp_mono; [apply (userinit_publish_spec _ boot_lists1 0%nat (init_record pg c nm x2)); try done; [|apply HG2|]|].
  { apply PInv_env, PInv_inert; [|done]. apply (PInv_frame s2); [done|apply HG2]. }
  { exact (upd_lookup_eq 0%nat (init_record pg c nm) s2 x2 Hx2). }
  intros _ s4 (h & HP4 & HI4 & HS4 & E4). simpl in HS4.
  destruct (boot_finish s2 x2 pg c nm e3 h s4) as [Hst Hcw]; try done.
  { rewrite E4. change (core (set_kenv e3 ?z)) with (set_kenv e3 (core z)). rewrite core_upd by done.
    exact (f_equal (λ z, set_khw h (set_kenv e3 (set_initproc (Some 0%nat) z))) (upd_upd 0%nat _ _ (core s2))). }
  split; [done|]. split; [done|]. assert (khw s4 = h) as -> by exact (f_equal khw E4).
  eapply same_cpus_trans; [exact HS1|]. by eapply same_cpus_trans.
Qed.
End ProcBoot.
