(* ===== verification/Kernel.v ===== *)
(** * The process subsystem as a state machine

    Any CPU may execute any routine of proc.c that its situation allows: the
    scheduler when it runs no process, the system calls and [yield] when it
    does, [wakeup] always, and the clock may tick.  [kinv] holds after boot,
    every step keeps it, and no step that is allowed can panic, fault or hang. *)

From S2P Require Import Prelude Spinlock CString ProcState ProcList Proc ProcInv ProcWake KInv ProcSafe ProcExit ProcWait ProcFork ProcSched ProcCtl ProcBoot.

Local Open Scope Z_scope.

(** The routines of proc.c as the rest of the kernel invokes them. *)
Inductive kop :=
  | OpScheduler
  | OpYield
  | OpSleep (ch : addr)                       (* sleep(chan, 0) *)
  | OpSleepOn (ch : addr) (lk : lockid)       (* acquire(lk); sleep(chan, lk) *)
  | OpWakeup (ch : addr)
  | OpExit
  | OpWait
  | OpAllocproc
  | OpForkChild (np : nat)                    (* the rest of fork, on its EMBRYO *)
  | OpFork
  | OpKill (n : Z)
  | OpSetpriority (n pr : Z)
  | OpGrowproc (n : Z).

Section Kernel.
Context `{KL : KernelLaws}.

Definition run_op (op : kop) : M kst unit :=
  match op with
  | OpScheduler => scheduler;; mret tt
  | OpYield => yield
  | OpSleep ch => sleep ch None
  | OpSleepOn ch lk => lift_hw (acquire lk);; sleep ch (Some lk)
  | OpWakeup ch => wakeup ch
  | OpExit => exit
  | OpWait => wait;; mret tt
  | OpAllocproc => allocproc;; mret tt
  | OpForkChild np => fork_child np;; mret tt
  | OpFork => fork;; mret tt
  | OpKill n => kill n;; mret tt
  | OpSetpriority n pr => setpriority n pr;; mret tt
  | OpGrowproc n => growproc n;; mret tt
  end.

(** When the code calls it: the scheduler on an idle CPU, a system call in a
    process; init does not exit, and sbrk does not give back all the memory. *)
Definition allowed (op : kop) (s : kst) : Prop :=
  match op with
  | OpScheduler => proc_of s = None
  | OpWakeup _ | OpKill _ | OpSetpriority _ _ | OpAllocproc => True
  | OpYield | OpSleep _ | OpWait | OpFork => ∃ me, proc_of s = Some me
  | OpSleepOn _ lk => lk ≠ Lptable ∧ ∃ me, proc_of s = Some me
  | OpForkChild np => (∃ me, proc_of s = Some me) ∧ ∃ y, procs s !! np = Some y ∧ state y = EMBRYO
  | OpExit => ∃ me, proc_of s = Some me ∧ initproc s ≠ Some me
  | OpGrowproc n => ∃ me x, proc_of s = Some me ∧ procs s !! me = Some x ∧
      (n < 0 → u32 (sz x + n) ≠ 0 ∧ sz x ≠ 0)
  end.

(** CPU [i] takes over. *)
Definition on_cpu (i : nat) (s : kst) : kst := set_khw (mkHw (cpus (khw s)) i (locks (khw s))) s.

Inductive kstep : kst → kst → Prop :=
  | step_op i op s s' :
      (i < length (cpus (khw s)))%nat → allowed op (on_cpu i s) → run_op op (on_cpu i s) = Ret tt s' →
      kstep s s'
  | step_tick s : kstep s (set_ticks (u32 (ticks s + 1)) s).

(** The kernel invariant, between operations. *)
Definition kinv (s : kst) : Prop :=
  (∃ L, Good HwIdle s L) ∧ has_cwd (kviews s) ∧ ∃ ip, initproc s = Some ip.

(** ** Keeping [has_cwd] *)

Lemma has_cwd_insert vs p w : has_cwd vs → (v_cls w = CRun → v_cwd w ≠ None) → has_cwd (<[p := w]> vs).
Proof. intros Hc Hw q v [[-> ->]|[Hq Hv]]%insert_lookup_cases; [done|by apply (Hc q)]. Qed.

Lemma wait_post_cwd s s' me x r : has_cwd (kviews s) → wait_post s s' me x r → has_cwd (kviews s').
Proof.
  intros Hc. destruct r as [n|]; simpl.
  - intros [_ [(p & y & _ & _ & _ & _ & ->)|(_ & _ & _ & ->)]]; [by apply has_cwd_insert|done].
  - intros (_ & _ & _ & _ & -> & _). by apply has_cwd_insert.
Qed.

Lemma resume_post_cwd s s' p x r : has_cwd (kviews s) → resume_post s s' p x r → has_cwd (kviews s').
Proof.
  intros Hc. destruct r as [|lk|w]; simpl.
  - by intros [_ ->].
  - by intros (_ & -> & _).
  - by apply wait_post_cwd.
Qed.

Lemma current_record s L me :
  Good HwIdle s L → has_cwd (kviews s) → proc_of s = Some me →
  ∃ x, procs s !! me = Some x ∧ state x = RUNNING ∧ cwd x ≠ None.
Proof.
  intros HG Hc Hme. destruct (good_current _ _ _ _ HG Hme) as (_ & x & Hx & Hst & _).
  exists x. split; [done|]. split; [done|]. apply (Hc me (kview x)); [by rewrite kviews_lookup, Hx|].
  simpl. by rewrite Hst.
Qed.

(** ** One operation *)

Lemma fork_post_kinv s L me np x y r s' :
  kinv s → fork_post s L me np x y r s' → kinv s'.
Proof.
  intros (_ & Hc & ip & Hip) (_ & Ei & [(_ & _ & HG & w & Hw & Ek)|(_ & pg & nm & _ & _ & _ & HG & Ek & _)]).
  - split; [done|]. rewrite Ek, Ei. split; [|eauto]. apply has_cwd_insert; [done|congruence].
  - split; [by eexists|]. rewrite Ek, Ei. split; [|eauto]. by apply has_cwd_insert.
Qed.

Lemma alloc_post_kinv s L r s' : kinv s → alloc_post s L r s' → kinv s'.
Proof.
  intros (_ & Hc & ip & Hip) (_ & Ei & Hr). destruct r as [p|].
  - destruct Hr as (x & a & _ & _ & _ & _ & HG & Ek & _). split; [by eexists|]. rewrite Ek, Ei.
    split; [|eauto]. by apply has_cwd_insert.
  - destruct Hr as (HG & Ek & _). split; [done|]. rewrite Ek, Ei. eauto.
Qed.

(** The child [allocproc] hands to [fork]. *)
Lemma alloc_post_child s L p s' me x :
  Good HwIdle s L → alloc_post s L (Some p) s' → proc_of s = Some me → procs s !! me = Some x →
  state x = RUNNING →
  ∃ L' x' y, Good HwIdle s' L' ∧ proc_of s' = Some me ∧ procs s' !! me = Some x' ∧
    set_next None x' = set_next None x ∧ p ∈ L' Embryo ∧ procs s' !! p = Some y ∧
    pid y = u32 (nextpid s).
Proof.
  intros HG (HS & Ei & z & a & Hhd & Hz & _ & _ & HG' & Ek & E) Hme Hx Hst.
  assert (p ∈ L Free) as Hp by (destruct (L Free); simplify_eq/=; set_solver).
  assert (me ≠ p) as Hne.
  { intros ->. destruct (good_member _ s L Free p HG Hp) as (u & Hu & Hst' & _). simpl in Hst'. congruence. }
  set (F := alloc_record (nextpid s) (ticks s) a) in *.
  assert (∀ q, procs (core s') !! q = procs (upd p F (core s)) !! q) as Hq by (intros q; by rewrite E).
  pose proof (Hq me) as Hqm. pose proof (Hq p) as Hqp.
  rewrite upd_lookup_other, (core_lookup_Some s me x Hx) in Hqm by done.
  rewrite (upd_lookup_eq p F (core s) _ (core_lookup_Some s p z Hz)) in Hqp.
  simpl in Hqm, Hqp. rewrite list_lookup_fmap in Hqm, Hqp.
  destruct (procs s' !! me) as [x'|]; [|done]. destruct (procs s' !! p) as [y|] eqn:Ey; [|done].
  apply (inj Some) in Hqm, Hqp. eexists _, x', y. split; [exact HG'|].
  split; [by apply (proc_of_eq s)|]. split; [done|]. split; [done|].
  split; [rewrite fn_insert_dec, decide_True by done; set_solver|]. split; [done|]. exact (f_equal pid Hqp).
Qed.

Lemma kinv_intro s' : (∃ L, Good HwIdle s' L) → has_cwd (kviews s') → (∃ ip, initproc s' = Some ip) → kinv s'.
Proof. by split. Qed.

Lemma scheduler_safe s : kinv s → proc_of s = None → wp scheduler s (λ _ s', kinv s').
Proof.
  intros ((L & HG) & Hc & Hip) Hno. eapply wp_mono; [by apply (scheduler_spec s L)|].
  intros r s' (HG' & Ei & Hr). split; [done|]. rewrite Ei. split; [|done].
  destruct r as [p|]; [|by destruct Hr as (_ & _ & ->)].
  destruct Hr as (i & _ & _ & _ & s1 & x1 & w & Ek & Hcw & _ & _ & _ & x2 & _ & _ & _ & _ & Hres).
  eapply resume_post_cwd; [|exact Hres]. rewrite Ek. by apply has_cwd_insert.
Qed.

Lemma leave_kinv s s' me x :
  kinv s → (∃ L, Good HwIdle s' L) → initproc s' = initproc s →
  kviews s' = <[me := reclass CWait true (kview x)]> (kviews s) → kinv s'.
Proof.
  intros (_ & Hc & Hip) HG Ei Ek. split; [done|]. rewrite Ek, Ei. split; [by apply has_cwd_insert|done].
Qed.

Lemma yield_safe s me : kinv s → proc_of s = Some me → wp yield s (λ _ s', kinv s').
Proof.
  intros HK Hme. pose proof HK as ((L & HG) & Hc & Hip).
  destruct (current_record s L me HG Hc Hme) as (x & Hx & _ & Hcw).
  eapply wp_mono; [by apply (yield_spec s L me x)|]. intros _ s' (b & HG' & _ & Ek & E).
  apply (leave_kinv s s' me x); [done|by eexists|exact (f_equal initproc E)|done].
Qed.

Lemma sleep_safe s me ch lk :
  (∃ L, Good (sleep_hw lk) s L) → has_cwd (kviews s) → (∃ ip, initproc s = Some ip) →
  proc_of s = Some me → lk ≠ Some Lptable → wp (sleep ch lk) s (λ _ s', kinv s').
Proof.
  intros (L & HG) Hc Hip Hme Hlk. destruct (good_current _ _ _ _ HG Hme) as (_ & x & Hx & Hst & _).
  assert (cwd x ≠ None) as Hcw.
  { apply (Hc me (kview x)); [by rewrite kviews_lookup, Hx|]. simpl. by rewrite Hst. }
  eapply wp_mono; [apply (sleep_with_spec s L me x (CtxSleep lk) ch lk); try done|].
  { intros b. destruct lk as [[]|]; try done. }
  intros _ s' (b & HG' & _ & Ek & E). split; [by eexists|]. rewrite Ek.
  assert (initproc s' = initproc s) as -> by exact (f_equal initproc E).
  split; [by apply has_cwd_insert|done].
Qed.

Lemma exit_safe s me : kinv s → proc_of s = Some me → initproc s ≠ Some me → wp exit s (λ _ s', kinv s').
Proof.
  intros ((L & HG) & Hc & ip & Hip) Hme Hni.
  destruct (current_record s L me HG Hc Hme) as (x & Hx & _ & Hcw).
  eapply wp_mono; [apply (exit_spec s L me x ip); try done; congruence|].
  intros _ s' (L' & x' & HG' & _ & Ei & _ & Hx' & Hst' & Hoth & _). split; [by eexists|].
  rewrite Ei. split; [|eauto]. intros q v Hv Hr. destruct (decide (q = me)) as [->|Hq].
  - rewrite kviews_lookup, Hx' in Hv. injection Hv as <-. simpl in Hr. by rewrite Hst' in Hr.
  - specialize (Hoth q Hq). rewrite Hv in Hoth. destruct (kviews s !! q) as [u|] eqn:Hu; [|done].
    apply (inj Some) in Hoth. assert (v_cls v = v_cls u) as E1 by exact (f_equal v_cls Hoth).
    assert (v_cwd v = v_cwd u) as -> by exact (f_equal v_cwd Hoth). apply (Hc q u Hu). congruence.
Qed.

Lemma fork_child_safe s me np y :
  kinv s → proc_of s = Some me → procs s !! np = Some y → state y = EMBRYO →
  wp (fork_child np) s (λ _ s', kinv s').
Proof.
  intros HK Hme Hy Hst. pose proof HK as ((L & HG) & Hc & Hip).
  destruct (current_record s L me HG Hc Hme) as (x & Hx & _ & Hcw).
  eapply wp_mono; [apply (fork_child_spec s L me np x y); try done|].
  - by apply (pi_mem_iff s L np y Embryo (g_p HG) Hy).
  - intros r s' Hp. by eapply fork_post_kinv.
Qed.

Lemma fork_safe s me : kinv s → proc_of s = Some me → wp fork s (λ _ s', kinv s').
Proof.
  intros HK Hme. pose proof HK as ((L & HG) & Hc & Hip).
  destruct (current_record s L me HG Hc Hme) as (x & Hx & Hst & Hcw). unfold fork. wp_steps.
  eapply wp_mono; [by apply (allocproc_spec s L)|]. intros [np|] s1 Hp.
  - pose proof (alloc_post_kinv s L _ s1 HK Hp) as HK1.
    destruct (alloc_post_child s L np s1 me x HG Hp Hme Hx Hst) as (L1 & x1 & y & HG1 & Hme1 & Hx1 & Ex & Hnp & Hy & _).
    eapply fork_child_safe; [done|done|done|]. by apply (pi_fits _ _ _ (g_p HG1) Embryo np y).
  - wp_steps. by eapply alloc_post_kinv.
Qed.

Lemma op_safe op s : kinv s → allowed op s → wp (run_op op) s (λ _ s', kinv s').
Proof.
  intros HK Ha. pose proof HK as ((L & HG) & Hc & Hip).
  destruct op; simpl in Ha |- *.
  - wp_steps. eapply wp_mono; [by apply scheduler_safe|]. intros r s' ?. by wp_steps.
  - destruct Ha as [me Hme]. by eapply yield_safe.
  - destruct Ha as [me Hme]. apply (sleep_safe s me); try done. by exists L.
  - destruct Ha as [Hlk [me Hme]]. wp_steps. apply wp_lift_hw.
    eapply wp_mono; [apply acquire_idle, HG|]. intros _ h [Hh Hs].
    apply (sleep_safe _ me); try done; [|by apply proc_of_same|congruence].
    exists L. by eapply good_hw.
  - eapply wp_mono; [by apply (wakeup_safe s L (kviews s) ch)|]. intros _ s' (L' & HG' & _ & E & Ek).
    split; [exists L'; unfold Good; by rewrite Ek|]. rewrite Ek. split; [done|].
    assert (initproc s' = initproc s) as -> by exact (f_equal initproc E). done.
  - destruct Ha as (me & Hme & Hni). by eapply exit_safe.
  - destruct Ha as [me Hme]. destruct (current_record s L me HG Hc Hme) as (x & Hx & _ & Hcw). wp_steps.
    eapply wp_mono; [by apply (wait_spec s L me x)|]. intros r s' (HG' & Ei & Hp). wp_steps.
    split; [done|]. rewrite Ei. split; [by eapply wait_post_cwd|done].
  - wp_steps. eapply wp_mono; [by apply (allocproc_spec s L)|]. intros r s' Hp. wp_steps.
    by eapply alloc_post_kinv.
  - destruct Ha as ([me Hme] & y & Hy & Hst). wp_steps.
    eapply wp_mono; [by eapply fork_child_safe|]. intros r s' ?. by wp_steps.
  - destruct Ha as [me Hme]. wp_steps. eapply wp_mono; [by eapply fork_safe|]. intros r s' ?. by wp_steps.
  - wp_steps. eapply wp_mono; [by apply (kill_spec s L n)|]. intros r s' (HG' & _ & Ek & Hr). wp_steps.
    split; [done|]. rewrite Ek. split; [done|].
    destruct Hr as [(_ & p & x & _ & _ & _ & E)|(_ & _ & E)];
      assert (initproc s' = initproc s) as -> by exact (f_equal initproc E); done.
  - wp_steps. eapply wp_mono; [by apply (setpriority_spec s L n pr)|].
    intros r s' [(_ & _ & HG' & _ & E)|(_ & p & x & Hx & _ & Hst & HG' & _ & E)]; wp_steps.
    + split; [by eexists|]. assert (initproc s' = initproc s) as -> by exact (f_equal initproc E).
      split; [|done]. by rewrite (kviews_core_eq s s' _ E (kviews_core s : kviews (set_khw _ _) = _)).
    + split; [by eexists|]. assert (initproc s' = initproc s) as -> by exact (f_equal initproc E).
      split; [|done]. rewrite <- (kviews_core s'), E. change (kviews (set_khw ?h ?z)) with (kviews z).
      rewrite (kviews_upd p _ (core s) _ (core_lookup_Some s p x Hx)), kviews_core.
      apply has_cwd_insert; [done|]. apply (Hc p (kview x)). by rewrite kviews_lookup, Hx.
  - destruct Ha as (me & x & Hme & Hx & Hn). wp_steps.
    eapply wp_mono; [by apply (growproc_spec s L me x n)|]. intros r s' (HG' & _ & Ei & Hg). wp_steps.
    split; [by eexists|]. rewrite Ei. split; [|done].
    destruct Hg as [(_ & ->)|[(_ & sz' & -> & _)|(_ & _ & ->)]]; [done| |done].
    apply has_cwd_insert; [done|]. apply (Hc me (kview x)). by rewrite kviews_lookup, Hx.
Qed.

Lemma on_cpu_kinv s i : kinv s → (i < length (cpus (khw s)))%nat → kinv (on_cpu i s).
Proof.
  intros ((L & [HP HV HCp HH]) & Hc & Hip) Hi. split; [|done]. exists L. split; try done.
  - by apply (PInv_frame s).
  - destruct HH as [(c & Hcpu & Hn) Ho Hl]. destruct (lookup_lt_is_Some_2 _ _ Hi) as [ci Hci].
    assert (∀ j cj, cpus (khw s) !! j = Some cj → ncli cj = 0) as Hall.
    { intros j cj Hj. destruct (decide (j = mycpu (khw s))) as [->|Hne]; [|by apply (Ho j)].
      unfold cpu_of in Hcpu. congruence. }
    split; [|by intros j cj Hj _; apply (Hall j)|done]. exists ci. split; [done|by apply (Hall i)].
Qed.

Lemma kstep_kinv s s' : kinv s → kstep s s' → kinv s'.
Proof.
  intros HK Hs. destruct Hs as [i op s1 s2 Hi Ha Hr|s1].
  - pose proof (op_safe op _ (on_cpu_kinv s1 i HK Hi) Ha) as Hw. unfold wp in Hw. by rewrite Hr in Hw.
  - destruct HK as ((L & [HP HV HCp HH]) & Hc & Hip). split; [|done]. exists L. split; try done.
    by apply (PInv_frame s1).
Qed.
End Kernel.
