(* ===== verification/ToyEnv.v ===== *)
(** * A concrete environment for the process table

    An instance of [KernelEnv] and [KernelLaws] small enough to compute with:
    pages are handed out in address order, an address space is its size, and
    files and inodes are their reference counts.  It shows that the laws are
    consistent, and the theorems about proc.c are exercised on it. *)

From S2P Require Import Prelude Spinlock CString ProcState ProcList Proc KInv.

Local Open Scope Z_scope.

Record toy := mkToy {
  y_page : Z;                 (* the next page, and the end of memory *)
  y_top : Z;
  y_held : Z → bool;
  y_vm : Z → option Z;
  y_f : nat → nat;
  y_i : nat → nat;
  y_ops : nat
}.

Definition set_vm (pg : Z) (v : option Z) (e : toy) : toy :=
  mkToy (y_page e) (y_top e) (y_held e) (<[pg := v]> (y_vm e)) (y_f e) (y_i e) (y_ops e).
Definition set_f (f n : nat) (e : toy) : toy :=
  mkToy (y_page e) (y_top e) (y_held e) (y_vm e) (<[f := n]> (y_f e)) (y_i e) (y_ops e).
Definition set_i (i n : nat) (e : toy) : toy :=
  mkToy (y_page e) (y_top e) (y_held e) (y_vm e) (y_f e) (<[i := n]> (y_i e)) (y_ops e).
Definition set_ops (n : nat) (e : toy) : toy :=
  mkToy (y_page e) (y_top e) (y_held e) (y_vm e) (y_f e) (y_i e) n.
Definition next_page (e : toy) : toy :=
  mkToy (y_page e + 4096) (y_top e) (y_held e) (y_vm e) (y_f e) (y_i e) (y_ops e).
Definition hold (a : Z) (b : bool) (e : toy) : toy :=
  mkToy (y_page e) (y_top e) (<[a := b]> (y_held e)) (y_vm e) (y_f e) (y_i e) (y_ops e).

Definition new_space (n : Z) : M toy (option Z) :=
  a ← gets y_page;
  top ← gets y_top;
  if decide (a < top) then modify next_page;; modify (set_vm a (Some n));; mret (Some a)
  else mret None.

(** A live address space of the size given. *)
Definition check_space (pg : option Z) (n : Z) : M toy Z :=
  a ← lookupM (λ _, pg);
  v ← gets (λ e, y_vm e a);
  if decide (v = Some n) then mret a else panic "space".

Definition toy_kalloc : M toy (option Z) :=
  a ← gets y_page;
  top ← gets y_top;
  if decide (a < top) then modify next_page;; modify (hold a true);; mret (Some a) else mret None.
Definition toy_kfree (a : Z) : M toy unit :=
  b ← gets (λ e, y_held e a);
  if (b : bool) then modify (hold a false) else panic "kfree".
Definition toy_allocuvm (pg : option Z) (old new : Z) : M toy Z :=
  a ← check_space pg old;
  if decide (new < 0x80000000 ∧ old ≤ new ∧ new ≠ 0) then modify (set_vm a (Some new));; mret new else mret 0.
Definition toy_deallocuvm (pg : option Z) (old new : Z) : M toy Z :=
  a ← check_space pg old;
  let r := if decide (old ≤ new) then old else new in
  modify (set_vm a (Some r));; mret r.
Definition toy_freevm (pg : option Z) : M toy unit :=
  a ← lookupM (λ _, pg);
  modify (set_vm a None).
Definition toy_filedup (f : nat) : M toy unit :=
  n ← gets (λ e, y_f e f);
  if decide (n = 0%nat) then panic "filedup" else modify (set_f f (S n)).
Definition toy_fileclose (f : nat) : M toy (list addr) :=
  n ← gets (λ e, y_f e f);
  if decide (n = 0%nat) then panic "fileclose" else modify (set_f f (pred n));; mret [AddrLog].
Definition toy_idup (i : nat) : M toy unit :=
  n ← gets (λ e, y_i e i); modify (set_i i (S n)).
Definition toy_iput (i : nat) : M toy (list addr) :=
  n ← gets (λ e, y_i e i);
  o ← gets y_ops;
  if decide (n = 0%nat ∨ o = 0%nat) then panic "iput" else modify (set_i i (pred n));; mret [].
Definition toy_begin : M toy unit := o ← gets y_ops; modify (set_ops (S o)).
Definition toy_end : M toy (list addr) :=
  o ← gets y_ops;
  if decide (o = 0%nat) then panic "end_op" else modify (set_ops (pred o));; mret [AddrLog].
Definition toy_root : M toy (option nat) := toy_idup 0;; mret (Some 0%nat).

#[export] Instance ToyEnv : KernelEnv := {|
  env := toy;
  sizeof_trapframe := 76;
  kalloc := toy_kalloc;
  kfree := toy_kfree;
  setupkvm := new_space 0;
  inituvm := λ pg, a ← check_space (Some pg) 0; modify (set_vm a (Some PGSIZE));
  copyuvm := λ pg n, check_space pg n;; new_space n;
  allocuvm := toy_allocuvm;
  deallocuvm := toy_deallocuvm;
  freevm := toy_freevm;
  filedup := toy_filedup;
  fileclose := toy_fileclose;
  idup := toy_idup;
  iput := toy_iput;
  begin_op := toy_begin;
  end_op := toy_end;
  namei_root := toy_root;
  iinit := mret tt;
  initlog := mret tt
|}.

(** Pages below [y_page] have been handed out, none above. *)
Definition toy_ok (e : toy) : Prop :=
  ∀ a, y_page e ≤ a → y_held e a = false ∧ y_vm e a = None.

Ltac toy_run :=
  repeat first
    [ progress wp_steps
    | match goal with
      | |- wp (lookupM _) _ _ => eapply wp_lookupM; [reflexivity|]
      | |- wp (if ?b then _ else _) _ _ => case_decide
      end ].

Lemma toy_new_space e n :
  toy_ok e → wp (new_space n) e (λ r e', toy_ok e' ∧ y_held e' = y_held e ∧ y_f e' = y_f e ∧
    y_i e' = y_i e ∧ y_ops e' = y_ops e ∧
    match r with
    | Some pg => y_vm e pg = None ∧ y_vm e' = <[pg := Some n]> (y_vm e)
    | None => y_vm e' = y_vm e
    end).
Proof.
  intros Hok. unfold new_space. toy_run; [|by split].
  split; [|by repeat split; apply (Hok (y_page e)); lia].
  intros a Ha. simpl in *. destruct (Hok a) as [? ?]; [lia|]. split; [done|].
  rewrite fn_insert_dec, decide_False by lia. done.
Qed.

Lemma toy_check e pg n (Q : Z → toy → Prop) :
  y_vm e pg = Some n → Q pg e → wp (check_space (Some pg) n) e Q.
Proof. intros Hn HQ. unfold check_space. toy_run; [done|congruence]. Qed.

Lemma toy_set_vm e pg n v : toy_ok e → y_vm e pg = Some n → toy_ok (set_vm pg v e).
Proof.
  intros Hok Hn a Ha. destruct (Hok a Ha) as [? Hv]. split; [done|]. simpl.
  rewrite fn_insert_dec, decide_False; [done|]. congruence.
Qed.

#[export] Instance ToyLaws : KernelLaws.
Proof.
  refine (Build_KernelLaws ToyEnv (toy_ok : env → Prop) (λ e a, y_held e a = true) y_vm y_f y_i y_ops
    _ _ _ _ _ _ _ _ _ _ _ _ _ _ _ _ _).
  - intros e Hok. cbn. unfold toy_kalloc. toy_run; [|by repeat (split; [done|])].
    split; [|do 4 (split; [done|]); split].
    + intros a Ha. simpl in *. destruct (Hok a) as [? ?]; [lia|]. split; [|done].
      rewrite fn_insert_dec, decide_False by lia. done.
    + destruct (Hok (y_page e)) as [-> _]; [lia|done].
    + intros b. simpl. rewrite fn_insert_dec. case_decide; subst; intuition congruence.
  - intros e a Hok Ha. cbn. unfold toy_kfree. wp_steps. rewrite Ha. wp_steps.
    split; [|do 4 (split; [done|])].
    + intros b Hb. destruct (Hok b Hb) as [? ?]. split; [|done]. simpl. rewrite fn_insert_dec. by case_decide.
    + intros b. simpl. rewrite fn_insert_dec. case_decide; subst; intuition congruence.
  - intros e Hok. cbn. eapply wp_mono; [by apply toy_new_space|].
    intros [pg|] e' (H1 & H2 & H3 & H4 & H5 & H6); rewrite H2; by repeat (split; [done|]).
  - intros e pg Hok Hn. cbn. wp_steps. apply toy_check; [done|]. wp_steps.
    split; [by eapply toy_set_vm|done].
  - intros e pg n Hok Hn. cbn. wp_steps. apply toy_check; [done|]. eapply wp_mono; [by apply toy_new_space|].
    intros [pg'|] e' (H1 & H2 & H3 & H4 & H5 & H6); rewrite H2; by repeat (split; [done|]).
  - intros e pg old new Hok Hn. cbn. unfold toy_allocuvm. wp_steps. apply toy_check; [done|].
    case_decide as Hd; wp_steps.
    + rewrite decide_False by lia. split; [by eapply toy_set_vm|done].
    + by rewrite decide_True.
  - intros e pg old new Hok Hn. cbn. unfold toy_deallocuvm. wp_steps. apply toy_check; [done|]. wp_steps.
    split; [by eapply toy_set_vm|done].
  - intros e pg n Hok Hn. cbn. unfold toy_freevm. wp_steps. apply (wp_lookupM _ _ pg); [done|]. wp_steps.
    split; [by eapply toy_set_vm|done].
  - intros e f Hok Hf. cbn. unfold toy_filedup. wp_steps. rewrite decide_False by lia. by wp_steps.
  - intros e f Hok Hf. cbn. unfold toy_fileclose. wp_steps. rewrite decide_False by lia. by wp_steps.
  - intros e i Hok Hi. cbn. unfold toy_idup. by wp_steps.
  - intros e i Hok Hi Ho. cbn. unfold toy_iput. wp_steps. rewrite decide_False by lia. by wp_steps.
  - intros e Hok. cbn. unfold toy_begin. by wp_steps.
  - intros e Hok Ho. cbn. unfold toy_end. wp_steps. rewrite decide_False by lia. by wp_steps.
  - intros e Hok. cbn. unfold toy_root, toy_idup. wp_steps. repeat (split; [done|]). by exists 0%nat.
  - intros e Hok. cbn. wp_steps. done.
  - intros e Hok. cbn. wp_steps. done.
Defined.
