(* ===== verification/Scenario.v ===== *)
(** * A concrete run of the process subsystem

    Two CPUs over the environment of ToyEnv.v: boot, schedule init, fork, run
    the child on the other CPU, let it exit and reap it.  The states of this
    run are where the theorems about proc.c are exercised. *)

From S2P Require Import Prelude Spinlock CString ProcState ProcList Proc ProcInv ProcWake KInv ProcSafe ProcExit ProcWait ProcFork ProcSched ProcCtl ProcBoot Kernel ToyEnv.

Local Open Scope Z_scope.

Definition toy0 : toy :=
  mkToy 0x100000 0x200000 (λ _, false) (λ _, None) (λ _, 0%nat) (λ _, 0%nat) 0.
Definition cpu0 : cpu := mkCpu 0 false true None.
Definition boot0 : kst :=
  mkKst (replicate NPROC zero_proc) (replicate (S MAX) None) None None None None None
    0 None 1 true 100 (mkHw [cpu0; cpu0] 0 (λ _, lock_free)) toy0.

Definition after (m : M kst unit) (s : kst) : kst :=
  match m s with Ret _ s' => s' | _ => s end.

Definition booted : kst := after userinit boot0.
Definition init_runs : kst := after (run_op OpScheduler) (on_cpu 0 booted).
Definition forked : kst := after (run_op OpFork) (on_cpu 0 init_runs).
Definition child_runs : kst := after (run_op OpScheduler) (on_cpu 1 forked).
Definition init_waits : kst := after (run_op OpWait) (on_cpu 0 child_runs).
Definition child_gone : kst := after (run_op OpExit) (on_cpu 1 init_waits).

Lemma boot0_boot : Boot boot0.
Proof.
  split; try done.
  - split; [by eexists|intros i c Hc _|done]. by destruct i as [|[|i]]; simplify_eq/=.
  - by repeat constructor.
Qed.

Lemma boot0_memory : boot_memory boot0.
Proof. do 4 eexists. split; reflexivity. Qed.

Lemma after_run m s (Q : unit → kst → Prop) :
  wp m s Q → m s = Ret tt (after m s) ∧ Q tt (after m s).
Proof. unfold wp, after. by destruct (m s) as [[] s'| | |]. Qed.

Lemma booted_run : userinit boot0 = Ret tt booted.
Proof. apply (after_run userinit boot0 _ (userinit_spec boot0 boot0_boot boot0_memory)). Qed.

Lemma after_kinv op s : kinv s → allowed op s → kinv (after (run_op op) s).
Proof. intros HK Ha. apply (after_run _ _ _ (op_safe op s HK Ha)). Qed.

Lemma booted_kinv : kinv booted.
Proof.
  destruct (after_run userinit boot0 _ (userinit_spec boot0 boot0_boot boot0_memory))
    as (_ & (L & x & HG & Hi & _) & Hc & _).
  split; [by exists L|]. split; [done|by exists 0%nat].
Qed.

Lemma two_cpus i s :
  bool_decide (i < length (cpus (khw s)))%nat = true → (i < length (cpus (khw s)))%nat.
Proof. apply bool_decide_eq_true. Qed.

Lemma step_after i op s :
  kinv s → bool_decide (i < length (cpus (khw s)))%nat = true → allowed op (on_cpu i s) →
  kstep s (after (run_op op) (on_cpu i s)).
Proof.
  intros HK Hi%two_cpus Ha. apply (step_op i op); [done|done|].
  apply (after_run _ _ _ (op_safe op _ (on_cpu_kinv s i HK Hi) Ha)).
Qed.

Lemma init_runs_step : kstep booted init_runs.
Proof. apply step_after; [apply booted_kinv|vm_compute; reflexivity|vm_compute; reflexivity]. Qed.

Lemma init_runs_kinv : kinv init_runs.
Proof.
  apply after_kinv; [apply on_cpu_kinv; [apply booted_kinv|apply two_cpus; vm_compute; reflexivity]|].
  vm_compute. reflexivity.
Qed.

Lemma forked_kinv : kinv forked.
Proof.
  apply after_kinv; [apply on_cpu_kinv; [apply init_runs_kinv|apply two_cpus; vm_compute; reflexivity]|].
  exists 0%nat. vm_compute. reflexivity.
Qed.

Lemma child_runs_kinv : kinv child_runs.
Proof.
  apply after_kinv; [apply on_cpu_kinv; [apply forked_kinv|apply two_cpus; vm_compute; reflexivity]|].
  vm_compute. reflexivity.
Qed.

Lemma init_waits_kinv : kinv init_waits.
Proof.
  apply after_kinv; [apply on_cpu_kinv; [apply child_runs_kinv|apply two_cpus; vm_compute; reflexivity]|].
  exists 0%nat. vm_compute. reflexivity.
Qed.

Lemma child_gone_kinv : kinv child_gone.
Proof.
  apply after_kinv; [apply on_cpu_kinv; [apply init_waits_kinv|apply two_cpus; vm_compute; reflexivity]|].
  exists 1%nat. split; [vm_compute; reflexivity|vm_compute; discriminate].
Qed.

(** The record of slot [p]. *)
Definition proc_at (s : kst) (p : nat) : proc := default zero_proc (procs s !! p).

Lemma at_slot s p :
  bool_decide (is_Some (procs s !! p)) = true → procs s !! p = Some (proc_at s p).
Proof. intros [x Hx]%bool_decide_eq_true. unfold proc_at. by rewrite Hx. Qed.

(** The slots that carry pid [n]. *)
Definition slots_with (n : Z) (s : kst) : list nat :=
  filter (λ p, pid (proc_at s p) = u32 n) (seq 0 (length (procs s))).

Lemma elem_of_slots_with n s p x :
  procs s !! p = Some x → pid x = u32 n → p ∈ slots_with n s ∧ proc_at s p = x.
Proof.
  intros Hx Hp. unfold slots_with, proc_at. rewrite list_elem_of_filter, Hx. split; [|done].
  split; [done|]. apply elem_of_seq. apply lookup_lt_Some in Hx. lia.
Qed.

Lemma one_with_pid n s :
  bool_decide (length (slots_with n s) ≤ 1)%nat = true →
  ∀ p q x y, procs s !! p = Some x → procs s !! q = Some y → pid x = u32 n → pid y = u32 n → p = q.
Proof.
  intros Hl%bool_decide_eq_true p q x y Hx Hy Hp Hq.
  destruct (elem_of_slots_with n s p x Hx Hp) as [Ip _]. destruct (elem_of_slots_with n s q y Hy Hq) as [Iq _].
  destruct (slots_with n s) as [|a [|b l]]; simpl in Hl; [set_solver|set_solver|lia].
Qed.

Lemma all_with_pid n s :
  forallb (λ p, match state (proc_at s p) with UNUSED | ZOMBIE => false | _ => true end) (slots_with n s) = true →
  ∀ p x, procs s !! p = Some x → pid x = u32 n → killable (state x).
Proof.
  intros Hl p x Hx Hp. destruct (elem_of_slots_with n s p x Hx Hp) as [Ip E].
  apply forallb_forall with (x := p) in Hl; [|by apply list_elem_of_In]. rewrite E in Hl.
  unfold killable. destruct (state x); try done; tauto.
Qed.
