(* ===== verification/ProcProps.v ===== *)
(** * What is proved of proc.c

    The properties of the process subsystem, over any environment that keeps
    [KernelLaws], with the runs of Scenario.v as witnesses. *)

From S2P Require Import Prelude Spinlock CString ProcState ProcList Proc ProcInv ProcWake KInv ProcSafe ProcExit ProcWait ProcFork ProcSched ProcCtl ProcBoot Kernel ToyEnv Scenario.

Local Open Scope Z_scope.

Section Reachable.
Context `{KL : KernelLaws}.


(** C5: in a state that satisfies the invariant no routine of proc.c that a
    CPU may call panics, follows a bad pointer or loops for ever: it returns,
    with the invariant re-established. *)
Theorem proc_ops_never_panic (s : kst) (i : nat) (op : kop) :
  kinv s → (i < length (cpus (khw s)))%nat → allowed op (on_cpu i s) →
  ∃ s', run_op op (on_cpu i s) = Ret tt s' ∧ kinv s'.
Proof.
  intros HK Hi Ha. destruct (wp_inv _ _ _ (op_safe op _ (on_cpu_kinv s i HK Hi) Ha)) as ([] & s' & E & HK').
  by exists s'.
Qed.


(** no two processes share a kernel stack, every process that is not
    UNUSED has one, and no two live or zombie processes share an address
    space. *)
Theorem no_shared_resources (s : kst) (p q : nat) (x y : proc) :
  kinv s → p ≠ q → procs s !! p = Some x → procs s !! q = Some y →
  state x ≠ UNUSED → state y ≠ UNUSED →
  kstack x ≠ None ∧ kstack x ≠ kstack y ∧
  (state x ≠ EMBRYO → state y ≠ EMBRYO → pgdir x ≠ None ∧ pgdir x ≠ pgdir y).
Proof.
  intros ((L & HG) & _) Hne Hx Hy Hsx Hsy. pose proof (g_v HG) as HV.
  assert (kviews s !! p = Some (kview x)) as Hvx by (by rewrite kviews_lookup, Hx).
  assert (kviews s !! q = Some (kview y)) as Hvy by (by rewrite kviews_lookup, Hy).
  pose proof (vf_stack _ _ _ HV p q _ _ Hvx Hvy Hne) as Hs.
  pose proof (vf_space _ _ _ HV p q _ _ Hvx Hvy Hne) as Hp.
  destruct (vf_loc _ _ _ HV p _ Hvx) as (_ & _ & Hlx). unfold apart, space in *. simpl in *.
  assert (stack_ok (kenv s) (kview x)) as (a & Ha & _) by (destruct (state x); simpl in *; tauto).
  simpl in Ha. split; [congruence|]. split; [intros E; specialize (Hs E); congruence|]. intros Hex Hey.
  assert (vm_ok (kenv s) (kview x)) as (pg & Hpg & _) by (destruct (state x); simpl in *; tauto).
  simpl in Hpg. split; [congruence|]. intros E.
  assert (∀ st (v : option Z), st ≠ UNUSED → st ≠ EMBRYO →
    (match class_of st with CFree | CEmbryo => None | _ => v end) = v) as Hsp by (by intros [] v).
  rewrite !Hsp in Hp by done. specialize (Hp E). congruence.
Qed.


(** a process is RUNNING exactly when it is some CPU's current process,
    and then of only one CPU. *)
Theorem running_iff_on_cpu (s : kst) (p : nat) :
  kinv s →
  ((∃ x, procs s !! p = Some x ∧ state x = RUNNING) ↔
   ∃ i c, cpus (khw s) !! i = Some c ∧ cpu_proc c = Some p) ∧
  (∀ i j c d, cpus (khw s) !! i = Some c → cpus (khw s) !! j = Some d →
     cpu_proc c = Some p → cpu_proc d = Some p → i = j).
Proof.
  intros ((L & HG) & _). destruct (g_c HG) as [Hr Ho].
  assert (∀ i c, cpus (khw s) !! i = Some c → procs_on (khw s) !! i = Some (cpu_proc c)) as Hpo.
  { intros i c Hc. unfold procs_on. by rewrite list_lookup_fmap, Hc. }
  split.
  - split.
    + intros (x & Hx & Hst). destruct (proj1 (Hr p)) as [i Hi].
      { exists (kview x). rewrite kviews_lookup, Hx. split; [done|]. simpl. by rewrite Hst. }
      unfold procs_on in Hi. rewrite list_lookup_fmap in Hi.
      destruct (cpus (khw s) !! i) as [c|] eqn:Hc; [|done]. injection Hi as Hi. by exists i, c.
    + intros (i & c & Hc & Hp). destruct (proj2 (Hr p)) as (v & Hv & Hcl).
      { exists i. by rewrite (Hpo i c Hc), Hp. }
      rewrite kviews_lookup in Hv. destruct (procs s !! p) as [x|] eqn:Hx; [|done]. injection Hv as <-.
      exists x. split; [done|]. simpl in Hcl. by destruct (state x).
  - intros i j c d Hc Hd Hpc Hpd. apply (Ho i j p); [by rewrite (Hpo i c Hc), Hpc|by rewrite (Hpo j d Hd), Hpd].
Qed.
End Reachable.

(** ** Witnesses *)


Lemma proc_ops_never_panic_witness :
  ∃ s', run_op OpFork (on_cpu 0 init_runs) = Ret tt s' ∧ kinv s'.
Proof.
  apply (proc_ops_never_panic init_runs 0 OpFork init_runs_kinv).
  - apply two_cpus. vm_compute. reflexivity.
  - exists 0%nat. vm_compute. reflexivity.
Defined.


Lemma no_shared_resources_witness :
  kstack (proc_at forked 0) ≠ kstack (proc_at forked 1) ∧
  pgdir (proc_at forked 0) ≠ pgdir (proc_at forked 1).
Proof.
  destruct (no_shared_resources forked 0 1 (proc_at forked 0) (proc_at forked 1) forked_kinv)
    as (_ & Hk & Hp);
    [done|by apply at_slot; vm_compute|by apply at_slot; vm_compute|by vm_compute|by vm_compute|].
  split; [exact Hk|]. apply Hp; vm_compute; discriminate.
Defined.


Lemma running_iff_on_cpu_witness :
  ∃ i c, cpus (khw child_runs) !! i = Some c ∧ cpu_proc c = Some 1%nat.
Proof.
  apply (running_iff_on_cpu child_runs 1 child_runs_kinv). exists (proc_at child_runs 1).
  split; [apply at_slot; vm_compute; reflexivity|vm_compute; reflexivity].
Defined.
