(* ===== verification/SchedProps.v ===== *)
(** * Scheduling, sleeping and signalling: what is proved

    The multi-level feedback queue, sleep and wake-up, kill and setpriority,
    stated on the state lists of the kernel. *)

From S2P Require Import Prelude Spinlock CString ProcState ProcList Proc ProcInv ProcWake KInv ProcSafe ProcExit ProcWait ProcFork ProcSched ProcCtl ProcBoot Kernel ToyEnv Scenario.

Local Open Scope Z_scope.

Section SchedProps.
Context `{KL : KernelLaws}.

Lemma kinv_rep s : kinv s → ∃ L, Rep s L ∧ PInv s L None ∧ Good HwIdle s L.
Proof. intros ((L & HG) & _). exists L. split; [apply HG|]. split; [apply HG|done]. Qed.

Lemma after_promotion_empty s L :
  PInv s L None → (∀ i, after_promotion s L (Ready i) = []) →
  ∀ p x, procs s !! p = Some x → state x ≠ RUNNABLE.
Proof.
  intros HP He p x Hx Hst. pose proof (pi_prio _ _ _ HP p x Hx) as Hpr. unfold prio_ok in Hpr.
  assert (p ∈ L (Ready (prio x))) as Hin.
  { apply (pi_mem_iff s L p x (Ready (prio x)) HP Hx). by split. }
  unfold after_promotion in He. case_decide as Hd.
  - pose proof (He 0) as H0. pose proof (He (prio x - 1)) as H1. unfold promote_lists in H0, H1.
    rewrite decide_True in H0 by done. apply app_eq_nil in H0 as [H0 H0'].
    destruct (decide (prio x = 0)) as [E|E]; [rewrite E, H0 in Hin; set_solver|].
    destruct (decide (prio x = 1)) as [E'|E']; [rewrite E', H0' in Hin; set_solver|].
    rewrite decide_False, decide_True in H1 by lia.
    replace (prio x - 1 + 1) with (prio x) in H1 by lia. rewrite H1 in Hin. set_solver.
  - rewrite He in Hin. set_solver.
Qed.


(** C17: the list-based [wakeup1] does to the table exactly what the original
    scan of the whole table did, and it appends the woken processes to the
    ready lists of their priorities in the order of the sleep list. *)
Theorem wakeup1_refines_scan (s : kst) (ch : addr) :
  kinv s → ∃ L s', Rep s L ∧ wakeup1 ch s = Ret tt s' ∧ core s' = wakeup1_scan ch (core s) ∧
    Rep s' (wake_lists s ch (L Sleep) [] L).
Proof.
  intros HK. destruct (kinv_rep s HK) as (L & HR & HP & _).
  destruct (wp_inv _ _ _ (wakeup1_abs s L ch HP)) as ([] & s' & E & HP' & Ec).
  exists L, s'. split; [done|]. split; [done|]. split; [done|apply HP'].
Qed.

(** C20: promotion moves every sleeping, running or ready process one level up
    (level 0 stays), queue i+1 becomes queue i in the same order, queue 1 is
    appended to queue 0, nothing else changes, and the next promotion is
    TICKS_TO_PROMOTE later. *)
Theorem promotion_shifts_queues (s : kst) :
  kinv s → ∃ L s', Rep s L ∧ promote s = Ret tt s' ∧ Rep s' (promote_lists L) ∧
    core s' = set_PromoteAtTime (u32 (ticks s + TICKS_TO_PROMOTE)) (mapp (λ _, promoted) (core s)).
Proof.
  intros HK. destruct (kinv_rep s HK) as (L & HR & HP & _).
  destruct (wp_inv _ _ _ (promote_abs s L HP)) as ([] & s' & E & HP' & Ec).
  exists L, s'. split; [done|]. split; [done|]. split; [apply HP'|done].
Qed.

(** [yield] puts the running process at the back of the ready list of
    its priority after the charge for its time slice, leaves the CPU to the
    scheduler, and changes no other process. *)
Theorem yield_requeues (s : kst) (me : nat) (x : proc) :
  kinv s → proc_of s = Some me → procs s !! me = Some x →
  ∃ L s' b, let i := prio (charge (ticks s) x) in
    Rep s L ∧ yield s = Ret tt s' ∧ kinv s' ∧ left_cpu s s' ∧
    Rep s' (<[Ready i := L (Ready i) ++ [me]]> (take_out Running me L)) ∧
    core s' = set_khw (khw s') (upd me (off_record RUNNABLE (ticks s) (CtxYield b)) (core s)).
Proof.
  intros HK Hme Hx. destruct (kinv_rep s HK) as (L & HR & _ & HG).
  pose proof HK as (_ & Hc & _). destruct (current_record s L me HG Hc Hme) as (y & Hy & _ & Hcw).
  rewrite Hx in Hy. injection Hy as <-.
  destruct (wp_inv _ _ _ (yield_spec s L me x HG Hme Hx Hcw)) as ([] & s' & E & b & HG' & Hl & _ & Ec).
  pose proof (yield_safe s me HK Hme) as HK'. unfold wp in HK'. rewrite E in HK'.
  exists L, s', b. split; [done|]. split; [done|]. split; [done|]. split; [done|]. split; [apply HG'|done].
Qed.

(** the charge for a time slice of less than 2^31 ticks takes the elapsed
    ticks off the budget; when none is left the process drops one level, but
    never below MAX, and gets a full budget.  So the budget stays in
    1..BUDGET and the priority in 0..MAX. *)
Theorem charge_demotes_when_spent (t : Z) (x : proc) :
  0 < budget x ≤ BUDGET → prio_ok x → 0 ≤ t - cpu_ticks_in x < 2 ^ 31 →
  let used := t - cpu_ticks_in x in
  let y := charge t x in
  (used < budget x → budget y = budget x - used ∧ prio y = prio x) ∧
  (budget x ≤ used → budget y = BUDGET ∧ prio y = Z.min (prio x + 1) (Z.of_nat MAX)) ∧
  0 < budget y ≤ BUDGET ∧ prio_ok y.
Proof.
  intros Hb Hp Ht. unfold prio_ok in *. unfold charge. rewrite (u32_small (t - cpu_ticks_in x)) by (unfold is_u32; lia).
  rewrite i32_small by (unfold is_i32, BUDGET in *; lia). simpl.
  repeat case_decide; simpl; unfold BUDGET in *; repeat split; intros; lia.
Qed.

Lemma list_find_pid n (ps : list proc) p x :
  ps !! p = Some x → pid x = u32 n → (∀ q y, ps !! q = Some y → pid y = u32 n → q = p) →
  list_find (λ z, pid z = u32 n) ps = Some (p, x).
Proof.
  intros Hx Hpid Hu. apply list_find_Some. split; [done|]. split; [done|].
  intros q y Hy Hq Hpy. specialize (Hu q y Hy Hpy). lia.
Qed.

(** C18: where at most one process has the pid and it is neither a zombie nor
    unused, the list-based [kill] returns what the original scan of the table
    returned and does to the table what it did: mark the process killed, and
    make it RUNNABLE if it slept. *)
Theorem kill_refines_scan (s : kst) (n : Z) :
  kinv s →
  (∀ p q x y, procs s !! p = Some x → procs s !! q = Some y → pid x = u32 n → pid y = u32 n → p = q) →
  (∀ p x, procs s !! p = Some x → pid x = u32 n → killable (state x)) →
  ∃ s', kill n s = Ret (kill_scan n (core s)).1 s' ∧ kinv s' ∧
    core s' = set_khw (khw s') (kill_scan n (core s)).2.
Proof.
  intros HK Hu Hk. destruct (kinv_rep s HK) as (L & _ & _ & HG).
  destruct (wp_inv _ _ _ (kill_spec s L n HG)) as (r & s' & E & HG' & _ & Ek & Hr).
  assert (kinv s') as HK'.
  { pose proof (op_safe (OpKill n) s HK I) as Hw. unfold wp, run_op, mbind, M_bind in Hw. by rewrite E in Hw. }
  exists s'. unfold kill_scan. destruct Hr as [(-> & p & x & Hx & Hpid & Hst & Ec)|(-> & Hno & Ec)].
  - rewrite (list_find_pid n (procs (core s)) p (set_next None x)); [done|by apply core_lookup_Some|done|].
    intros q y Hy Hpy. simpl in Hy. rewrite list_lookup_fmap in Hy.
    destruct (procs s !! q) as [z|] eqn:Hz; [|done]. injection Hy as <-. by apply (Hu q p z x).
  - rewrite (proj2 (list_find_None _ _)); [done|]. apply Forall_forall. intros y Hy Hpy.
    apply list_elem_of_lookup in Hy as [q Hy]. simpl in Hy. rewrite list_lookup_fmap in Hy.
    destruct (procs s !! q) as [z|] eqn:Hz; [|done]. injection Hy as <-. by apply (Hno q z Hz Hpy), (Hk q z).
Qed.

(** [setpriority] rejects a priority outside 0..MAX, a negative pid and
    a pid no sleeping, running or runnable process has, changing nothing;
    otherwise it gives the process the priority and a full budget, and moves
    it to the back of its new ready list if it is RUNNABLE and its priority
    changes. *)
Theorem setpriority_moves_process (s : kst) (n pr : Z) :
  kinv s → ∃ L r s', Rep s L ∧ setpriority n pr s = Ret r s' ∧ kinv s' ∧
    ((r = -1 ∧ core s' = set_khw (khw s') (core s) ∧
      (bad_priority n pr ∨ ∀ p x, procs s !! p = Some x → pid x = u32 n → ¬ schedulable (state x))) ∨
     (r = 0 ∧ ∃ p x, procs s !! p = Some x ∧ pid x = u32 n ∧ schedulable (state x) ∧
       core s' = set_khw (khw s') (upd p (prio_record pr) (core s)) ∧ Rep s' (prio_lists p x pr L))).
Proof.
  intros HK. destruct (kinv_rep s HK) as (L & HR & _ & HG).
  destruct (wp_inv _ _ _ (setpriority_spec s L n pr HG)) as (r & s' & E & Hr).
  pose proof (op_safe (OpSetpriority n pr) s HK I) as HK'.
  unfold wp, run_op, mbind, M_bind in HK'. rewrite E in HK'. simpl in HK'.
  exists L, r, s'. split; [done|]. split; [done|]. split; [done|].
  destruct Hr as [(-> & Hb & _ & _ & Ec)|(-> & p & x & Hx & Hpid & Hst & HG' & _ & Ec)]; [by left|right].
  split; [done|]. exists p, x. repeat (split; [done|]). apply HG'.
Qed.

Lemma wakeup1_scan_lookup ch s p x :
  procs s !! p = Some x → state x = SLEEPING → chan x = ch →
  procs (wakeup1_scan ch s) !! p = Some (set_state RUNNABLE x).
Proof.
  intros Hx Hst Hch. unfold wakeup1_scan. rewrite mapp_lookup, Hx. simpl. by rewrite decide_True.
Qed.

End SchedProps.

(** ** Witnesses *)


Lemma wakeup1_refines_scan_witness :
  ∃ L s', Rep init_waits L ∧ wakeup1 (AddrProc 0) init_waits = Ret tt s' ∧
    core s' = wakeup1_scan (AddrProc 0) (core init_waits) ∧
    Rep s' (wake_lists init_waits (AddrProc 0) (L Sleep) [] L).
Proof. exact (wakeup1_refines_scan init_waits (AddrProc 0) init_waits_kinv). Defined.

Lemma promotion_shifts_queues_witness :
  ∃ L s', Rep forked L ∧ promote forked = Ret tt s' ∧ Rep s' (promote_lists L) ∧
    core s' = set_PromoteAtTime (u32 (ticks forked + TICKS_TO_PROMOTE)) (mapp (λ _, promoted) (core forked)).
Proof. exact (promotion_shifts_queues forked forked_kinv). Defined.

Lemma yield_requeues_witness :
  ∃ s', yield init_runs = Ret tt s' ∧ kinv s' ∧ left_cpu init_runs s'.
Proof.
  destruct (yield_requeues init_runs 0 (proc_at init_runs 0) init_runs_kinv)
    as (L & s' & b & _ & E & HK & Hl & _);
    [by vm_compute|by apply at_slot; vm_compute|]. exact (ex_intro _ s' (conj E (conj HK Hl))).
Defined.

Lemma charge_demotes_when_spent_witness :
  let x := set_prio 2 (set_budget 40 (set_cpu_ticks_in 1000 zero_proc)) in
  budget (charge 1100 x) = BUDGET ∧ prio (charge 1100 x) = 3.
Proof.
  intros x. destruct (charge_demotes_when_spent 1100 x) as (_ & H & _);
    [vm_compute; repeat split; discriminate || reflexivity|vm_compute; split; discriminate|
     vm_compute; split; [discriminate|reflexivity]|].
  apply H. vm_compute. discriminate.
Defined.

(** The child of [init_waits], pid 2, is killed while it runs. *)
Lemma kill_refines_scan_witness :
  ∃ s', kill 2 init_waits = Ret (kill_scan 2 (core init_waits)).1 s' ∧ kinv s' ∧
    core s' = set_khw (khw s') (kill_scan 2 (core init_waits)).2.
Proof.
  apply (kill_refines_scan init_waits 2 init_waits_kinv).
  - apply one_with_pid. vm_compute. reflexivity.
  - apply all_with_pid. vm_compute. reflexivity.
Defined.

Lemma setpriority_moves_process_witness :
  ∃ L r s', Rep forked L ∧ setpriority 2 3 forked = Ret r s' ∧ kinv s' ∧
    ((r = -1 ∧ core s' = set_khw (khw s') (core forked) ∧
      (bad_priority 2 3 ∨ ∀ p x, procs forked !! p = Some x → pid x = u32 2 → ¬ schedulable (state x))) ∨
     (r = 0 ∧ ∃ p x, procs forked !! p = Some x ∧ pid x = u32 2 ∧ schedulable (state x) ∧
       core s' = set_khw (khw s') (upd p (prio_record 3) (core forked)) ∧ Rep s' (prio_lists p x 3 L))).
Proof. exact (setpriority_moves_process forked 2 3 forked_kinv). Defined.

