(* ===== verification/LifeProps.v ===== *)
(** * The life of a process: what is proved

    allocproc, fork, exit, wait and growproc, branch by branch, and the list
    routines they are built from. *)

From S2P Require Import Prelude Spinlock CString ProcState ProcList Proc ProcSteady ProcInv ProcWake KInv ProcSafe ProcExit ProcWait ProcFork ProcSched ProcCtl ProcBoot Kernel ToyEnv Scenario.

Local Open Scope Z_scope.

(** The process [y] is a fresh copy of [x], child of slot [me], with pid [n]. *)
Definition forked_from (me : nat) (x : proc) (n : Z) (y : proc) : Prop :=
  state y = RUNNABLE ∧ parent y = Some me ∧ pid y = u32 n ∧ sz y = sz x ∧
  ofile y = ofile x ∧ cwd y = cwd x ∧ uid y = uid x ∧ gid y = gid x ∧
  tf y = set_tf_eax 0 (tf x) ∧ context y = CtxForkret ∧ prio y = 0 ∧ budget y = BUDGET.

Section Slots.
Context `{KernelEnv}.

(** All slots but [p] are as they were, up to list links. *)
Definition only_slot (p : nat) (s s' : kst) : Prop :=
  ∀ q z, q ≠ p → procs s !! q = Some z →
    ∃ z', procs s' !! q = Some z' ∧ set_next None z' = set_next None z.

Lemma only_slot_upd p f s s' :
  (∀ q, procs (core s') !! q = procs (upd p f (core s)) !! q) → only_slot p s s'.
Proof.
  intros Hq q z Hne Hz. specialize (Hq q). rewrite upd_lookup_other in Hq by done.
  rewrite (core_lookup_Some s q z Hz) in Hq. simpl in Hq. rewrite list_lookup_fmap in Hq.
  destruct (procs s' !! q) as [z'|]; [|done]. apply (inj Some) in Hq. by exists z'.
Qed.

Lemma only_slot_trans p s1 s2 s3 : only_slot p s1 s2 → only_slot p s2 s3 → only_slot p s1 s3.
Proof.
  intros H1 H2 q z Hne Hz. destruct (H1 q z Hne Hz) as (z2 & Hz2 & E2).
  destruct (H2 q z2 Hne Hz2) as (z3 & Hz3 & E3). exists z3. split; [done|congruence].
Qed.

Lemma slot_upd p f s s' x :
  (∀ q, procs (core s') !! q = procs (upd p f (core s)) !! q) → procs s !! p = Some x →
  ∃ x', procs s' !! p = Some x' ∧ set_next None x' = f (set_next None x).
Proof.
  intros Hq Hx. specialize (Hq p). rewrite (upd_lookup_eq p f (core s) _ (core_lookup_Some s p x Hx)) in Hq.
  simpl in Hq. rewrite list_lookup_fmap in Hq. destruct (procs s' !! p) as [x'|]; [|done].
  apply (inj Some) in Hq. by exists x'.
Qed.

End Slots.

Section LifeProps.
Context `{KL : KernelLaws}.

Lemma no_free s L : PInv s L None → L Free = [] → ∀ p x, procs s !! p = Some x → state x ≠ UNUSED.
Proof.
  intros HP HL p x Hx Hst. assert (p ∈ L Free) as Hp; [|rewrite HL in Hp; set_solver].
  apply (pi_mem_iff s L p x Free HP Hx). by split.
Qed.

Lemma alloc_slots s L p s' :
  alloc_post s L (Some p) s' → ∃ x a, procs s !! p = Some x ∧ kalloc (kenv s) = Ret (Some a) (kenv s') ∧
    ∀ q, procs (core s') !! q = procs (upd p (alloc_record (nextpid s) (ticks s) a) (core s)) !! q.
Proof.
  intros (_ & _ & x & a & _ & Hx & _ & Ha & _ & _ & E). exists x, a. split; [done|]. split; [done|].
  intros q. by rewrite E.
Qed.

(** C3: [fork] either returns -1, and then there was no free slot or no
    memory, or it returns the next pid and there is exactly one new process:
    RUNNABLE at the back of ready[0], a child of the caller with the same
    size, files, directory and credentials, and the caller's trap frame with
    %eax = 0; no other process is changed. *)
Theorem fork_copies_caller (s : kst) (me : nat) (x : proc) :
  kinv s → proc_of s = Some me → procs s !! me = Some x →
  ∃ r s', fork s = Ret r s' ∧ kinv s' ∧
    ((r = -1 ∧ ((∀ p z, procs s !! p = Some z → state z ≠ UNUSED) ∨ (∃ e, kalloc (kenv s) = Ret None e) ∨
        ∃ e e', copyuvm (pgdir x) (sz x) e = Ret None e')) ∨
     (r = i32 (u32 (nextpid s)) ∧ ∃ L p y, Rep s' L ∧ last (L (Ready 0)) = Some p ∧
        procs s' !! p = Some y ∧ forked_from me x (nextpid s) y ∧ only_slot p s s')).
Proof.
  intros HK Hme Hx. pose proof HK as ((L & HG) & Hc & _).
  destruct (current_record s L me HG Hc Hme) as (z & Hz & Hst & Hcw). rewrite Hx in Hz. injection Hz as <-.
  destruct (wp_inv _ _ _ (fork_safe s me HK Hme)) as (r & s' & E & HK'). exists r, s'.
  split; [done|]. split; [done|]. unfold fork, mbind, M_bind in E.
  destruct (wp_inv _ _ _ (allocproc_spec s L HG)) as ([p|] & s1 & E1 & Hp); rewrite E1 in E; last first.
  { injection E as <- <-. left. split; [done|]. destruct Hp as (_ & _ & _ & _ & [HL|Ha]); [|by auto].
    left. by apply (no_free s L (g_p HG)). }
  pose proof (alloc_post_child s L p s1 me x HG Hp Hme Hx Hst)
    as (L1 & x1 & y1 & HG1 & Hme1 & Hx1 & Ex1 & Hp1 & Hy1 & Hpid).
  assert (cwd x1 ≠ None) as Hcw1 by (assert (cwd x1 = cwd x) as -> by exact (f_equal cwd Ex1); done).
  destruct (wp_inv _ _ _ (fork_child_spec s1 L1 me p x1 y1 HG1 Hme1 Hx1 Hcw1 Hp1 Hy1)) as (r' & s2 & E2 & HF).
  rewrite E in E2. injection E2 as <- <-.
  destruct HF as (_ & _ & [(-> & (e' & Ecp) & _)|(-> & pg & nm & Enm & _ & _ & HG2 & _ & E2)]).
  - left. split; [done|]. right. right. exists (kenv s1), e'.
    assert (pgdir x1 = pgdir x) as <- by exact (f_equal pgdir Ex1).
    assert (sz x1 = sz x) as <- by exact (f_equal sz Ex1). done.
  - right. rewrite Hpid. split; [done|].
    destruct (alloc_slots s L p s1 Hp) as (u & a & Hu & _ & Q1).
    assert (∀ q, procs (core s') !! q = procs (upd p (child_record me x1 pg nm) (core s1)) !! q) as Q2
      by (intros q; by rewrite E2).
    destruct (slot_upd p _ s s1 u Q1 Hu) as (y & Hy & Ey). rewrite Hy1 in Hy. injection Hy as <-.
    destruct (slot_upd p _ s1 s' y1 Q2 Hy1) as (y' & Hy' & Ey').
    eexists _, p, y'. split; [apply HG2|]. split; [|split; [done|split]].
    + rewrite fn_insert_dec, decide_True by done. by rewrite last_snoc.
    + assert (forked_from me x1 (nextpid s) (child_record me x1 pg nm (set_next None y1))) as HF.
      { rewrite Ey. repeat split. }
      rewrite <- Ey' in HF. unfold forked_from in *. simpl in HF.
      assert (∀ {A} (f : proc → A), f (set_next None x1) = f (set_next None x)) as Hf by (intros; by rewrite Ex1).
      pose proof (Hf _ sz) as F1. pose proof (Hf _ ofile) as F2. pose proof (Hf _ cwd) as F3.
      pose proof (Hf _ uid) as F4. pose proof (Hf _ gid) as F5. pose proof (Hf _ tf) as F6.
      simpl in *. rewrite F1, F2, F3, F4, F5, F6 in HF. exact HF.
    + eapply only_slot_trans; by eapply only_slot_upd.
Qed.

(** C4: [exit] of a process other than init leaves it a ZOMBIE off every
    CPU, with no open file and no current directory; its children, and only
    they, are handed to init, and nothing else of another process that the
    invariant speaks of is changed; if its parent sleeps in [wait], it is
    RUNNABLE afterwards. *)
Theorem exit_leaves_zombie (s : kst) (me : nat) (x : proc) :
  kinv s → proc_of s = Some me → procs s !! me = Some x → initproc s ≠ Some me →
  ∃ s' x', exit s = Ret tt s' ∧ kinv s' ∧ left_cpu s s' ∧ ops (kenv s') = ops (kenv s) ∧
    procs s' !! me = Some x' ∧ state x' = ZOMBIE ∧ ofile x' = replicate NOFILE None ∧ cwd x' = None ∧
    (∀ q y, q ≠ me → procs s !! q = Some y → ∃ y', procs s' !! q = Some y' ∧
      noparent (kview y') = noparent (kview y) ∧
      (kin (class_of (state y)) →
       parent y' = if decide (parent y = Some me) then initproc s else parent y)) ∧
    (∀ q y, parent x = Some q → procs s !! q = Some y → state y = SLEEPING → chan y = AddrProc q →
      ∃ y', procs s' !! q = Some y' ∧ state y' = RUNNABLE).
Proof.
  intros HK Hme Hx Hni. pose proof HK as ((L & HG) & Hc & ip & Hip).
  destruct (current_record s L me HG Hc Hme) as (x0 & Hx0 & Hrun & Hcw). rewrite Hx in Hx0. injection Hx0 as <-.
  destruct (wp_inv _ _ _ (exit_spec s L me x ip HG Hme Hx Hcw Hip ltac:(congruence)))
    as ([] & s' & E & L' & x' & HG' & Hl & Ei & Eo & Hx' & Hst' & Hoth & Hto & Hch & Hwk).
  pose proof (exit_safe s me HK Hme Hni) as HK'. unfold wp in HK'. rewrite E in HK'.
  assert (kviews s' !! me = Some (kview x')) as Hv' by (by rewrite kviews_lookup, Hx').
  destruct (vf_loc _ _ _ (g_v HG') me _ Hv') as (_ & _ & Hcls). simpl in Hcls. rewrite Hst' in Hcls.
  destruct Hcls as ([Ho Hcd] & _). exists s', x'. do 8 (split; [done|]). split.
  - intros q y Hq Hy. assert (kviews s !! q = Some (kview y)) as Hvy by (by rewrite kviews_lookup, Hy).
    pose proof (Hoth q Hq) as Eq. rewrite Hvy, kviews_lookup in Eq.
    destruct (procs s' !! q) as [y'|] eqn:Hy'; [|done]. apply (inj Some) in Eq. exists y'.
    split; [done|]. split; [done|]. intros Hk.
    assert (kviews s' !! q = Some (kview y')) as Hvy' by (by rewrite kviews_lookup, Hy').
    assert (class_of (state y') = class_of (state y)) as Ecl by exact (f_equal v_cls Eq).
    specialize (Hch q _ Hvy'). simpl in Hch. rewrite Ecl in Hch. specialize (Hch Hk).
    destruct (Hto q _ _ Hq Hvy Hvy') as [E1|[E1 E2]]; simpl in *; [rewrite decide_False; [done|congruence]|by rewrite decide_True].
  - intros q y Hp Hy Hsl Hch'. destruct (Hwk q Hp) as (y' & Hy' & Hw); [congruence| |by exists y'].
    exists y. split; [done|]. by right.
Qed.

(** C19: [wait] returns the pid of a zombie child and reaps exactly it, its
    stack and address space freed and its slot UNUSED; returns -1 when there
    is no child or the caller was killed; and otherwise sleeps on the caller
    itself, which is the channel the child's [exit] wakes. *)
Theorem wait_reaps_or_sleeps (s : kst) (me : nat) (x : proc) :
  kinv s → proc_of s = Some me → procs s !! me = Some x →
  ∃ r s', wait s = Ret r s' ∧ kinv s' ∧
    match r with
    | WaitReturn n =>
        (∃ p y, procs s !! p = Some y ∧ parent y = Some me ∧ state y = ZOMBIE ∧ n = i32 (pid y) ∧
          kviews s' = <[p := kview (reaped y)]> (kviews s)) ∨
        (n = -1 ∧ ¬ child_in s me (eq ZOMBIE) ∧ (¬ child_in s me waitable ∨ killed x ≠ 0) ∧
          kviews s' = kviews s)
    | WaitSleep =>
        left_cpu s s' ∧ ¬ child_in s me (eq ZOMBIE) ∧ child_in s me waitable ∧ killed x = 0 ∧
        ∃ x', procs s' !! me = Some x' ∧ state x' = SLEEPING ∧ chan x' = AddrProc me
    end.
Proof.
  intros HK Hme Hx. pose proof HK as ((L & HG) & Hc & _).
  destruct (current_record s L me HG Hc Hme) as (z & Hz & Hst & Hcw). rewrite Hx in Hz. injection Hz as <-.
  destruct (wp_inv _ _ _ (wait_spec s L me x HG Hme Hx Hcw)) as (r & s' & E & _ & _ & Hp).
  pose proof (op_safe OpWait s HK ltac:(by exists me)) as HK'.
  unfold wp, run_op, mbind, M_bind in HK'. rewrite E in HK'. simpl in HK'. exists r, s'.
  split; [done|]. split; [done|]. destruct r; simpl in Hp; [apply Hp|].
  destruct Hp as (H1 & H2 & H3 & H4 & _ & H5). done.
Qed.

(** [allocproc] returns null only if there is no UNUSED slot or no page,
    leaving the resources of every process as they were; otherwise the slot at
    the head of the free list becomes an EMBRYO with the next pid and a fresh
    page as its stack, on which the trap frame, the return address and the
    context that starts at forkret fit one below the other. *)
Theorem allocproc_lays_out_stack (s : kst) :
  kinv s → ∃ r s', allocproc s = Ret r s' ∧ kinv s' ∧
    match r with
    | None => kviews s' = kviews s ∧
        ((∀ p x, procs s !! p = Some x → state x ≠ UNUSED) ∨ ∃ e, kalloc (kenv s) = Ret None e)
    | Some p => ∃ a y, kalloc (kenv s) = Ret (Some a) (kenv s') ∧ ¬ held (kenv s) a ∧
        procs s' !! p = Some y ∧ state y = EMBRYO ∧ pid y = u32 (nextpid s) ∧ kstack y = Some a ∧
        context y = CtxForkret ∧ context_addr y + sizeof_context + 4 = tf_addr y ∧
        tf_addr y + sizeof_trapframe = a + KSTACKSIZE ∧
        (sizeof_trapframe + 4 + sizeof_context < KSTACKSIZE → a < context_addr y) ∧ only_slot p s s'
    end.
Proof.
  intros HK. pose proof HK as ((L & HG) & _).
  destruct (wp_inv _ _ _ (allocproc_spec s L HG)) as (r & s' & E & Hp).
  pose proof (alloc_post_kinv s L r s' HK Hp) as HK'. exists r, s'. split; [done|]. split; [done|].
  destruct r as [p|]; last first.
  { destruct Hp as (_ & _ & _ & Ek & Hr). split; [done|]. destruct Hr as [HL|?]; [left|by right].
    by apply (no_free s L (g_p HG)). }
  pose proof Hp as (_ & _ & _ & a' & _ & _ & Hh & Ha' & _).
  destruct (alloc_slots s L p s' Hp) as (x & a & Hx & Ha & Q). rewrite Ha' in Ha. injection Ha as ->.
  destruct (slot_upd p _ s s' x Q Hx) as (y & Hy & Ey). exists a, y. do 3 (split; [done|]).
  split; [exact (f_equal state Ey)|]. split; [exact (f_equal pid Ey)|]. split; [exact (f_equal kstack Ey)|].
  split; [exact (f_equal context Ey)|].
  assert (context_addr y = a + KSTACKSIZE - sizeof_trapframe - 4 - sizeof_context) as -> by exact (f_equal context_addr Ey).
  assert (tf_addr y = a + KSTACKSIZE - sizeof_trapframe) as -> by exact (f_equal tf_addr Ey).
  split; [lia|]. split; [lia|]. split; [lia|].
  by eapply only_slot_upd.
Qed.

(** sbrk of minus the whole size frees all the memory of the process but
    reports failure and keeps the old size in the process: deallocuvm returns
    0 for success there, which [growproc] takes for an error. *)
Theorem growproc_to_zero_reports_failure (s : kst) (me : nat) (x : proc) (n : Z) :
  kinv s → proc_of s = Some me → procs s !! me = Some x → n < 0 → u32 (sz x + n) = 0 → 0 < sz x →
  ∃ s', growproc n s = Ret (-1) s' ∧ procs s' = procs s ∧
    ∃ pg, pgdir x = Some pg ∧ vm_size (kenv s) pg = Some (sz x) ∧ vm_size (kenv s') pg = Some 0.
Proof.
  intros ((L & HG) & _) Hme Hx Hn Hz Hs.
  destruct (wp_inv _ _ _ (growproc_to_zero s L me x n HG Hme Hx Hn Hz Hs)) as (r & s' & E & -> & Hp & Hv).
  by exists s'.
Qed.
End LifeProps.

(** ** Witnesses *)

Lemma fork_copies_caller_witness :
  ∃ r s', fork init_runs = Ret r s' ∧ kinv s' ∧
    ((r = -1 ∧ ((∀ p z, procs init_runs !! p = Some z → state z ≠ UNUSED) ∨
        (∃ e, kalloc (kenv init_runs) = Ret None e) ∨
        ∃ e e', copyuvm (pgdir (proc_at init_runs 0)) (sz (proc_at init_runs 0)) e = Ret None e')) ∨
     (r = i32 (u32 (nextpid init_runs)) ∧ ∃ L p y, Rep s' L ∧ last (L (Ready 0)) = Some p ∧
        procs s' !! p = Some y ∧ forked_from 0 (proc_at init_runs 0) (nextpid init_runs) y ∧
        only_slot p init_runs s')).
Proof.
  apply (fork_copies_caller init_runs 0 (proc_at init_runs 0) init_runs_kinv);
    [by vm_compute|by apply at_slot; vm_compute].
Defined.

Lemma exit_leaves_zombie_witness :
  ∃ s' x' y', exit (on_cpu 1 init_waits) = Ret tt s' ∧ kinv s' ∧ procs s' !! 1%nat = Some x' ∧ state x' = ZOMBIE ∧
    procs s' !! 0%nat = Some y' ∧ state y' = RUNNABLE.
Proof.
  destruct (exit_leaves_zombie (on_cpu 1 init_waits) 1 (proc_at (on_cpu 1 init_waits) 1)) as (s' & x' & E & HK & _ & _ & Hx & Hst & _ & _ & _ & Hw).
  - apply on_cpu_kinv; [exact init_waits_kinv|by apply two_cpus; vm_compute].
  - by vm_compute.
  - by apply at_slot; vm_compute.
  - by vm_compute.
  - destruct (Hw 0%nat (proc_at (on_cpu 1 init_waits) 0)) as (y' & Hy & Hr); [by vm_compute|by apply at_slot; vm_compute|by vm_compute|by vm_compute|].
    exists s', x', y'. exact (conj E (conj HK (conj Hx (conj Hst (conj Hy Hr))))).
Defined.

(** init waits while its child runs on the other CPU: it sleeps. *)
Lemma wait_reaps_or_sleeps_witness :
  ∃ r s', wait (on_cpu 0 child_runs) = Ret r s' ∧ kinv s'.
Proof.
  destruct (wait_reaps_or_sleeps (on_cpu 0 child_runs) 0 (proc_at (on_cpu 0 child_runs) 0))
    as (r & s' & E & HK & _).
  - apply on_cpu_kinv; [exact child_runs_kinv|by apply two_cpus; vm_compute].
  - by vm_compute.
  - by apply at_slot; vm_compute.
  - exists r, s'. exact (conj E HK).
Defined.

Lemma allocproc_lays_out_stack_witness : ∃ r s', allocproc init_runs = Ret r s' ∧ kinv s'.
Proof.
  destruct (allocproc_lays_out_stack init_runs init_runs_kinv) as (r & s' & E & HK & _).
  exists r, s'. exact (conj E HK).
Defined.

Lemma growproc_to_zero_reports_failure_witness :
  ∃ s', growproc (-4096) init_runs = Ret (-1) s' ∧ procs s' = procs init_runs.
Proof.
  destruct (growproc_to_zero_reports_failure init_runs 0 (proc_at init_runs 0) (-4096) init_runs_kinv)
    as (s' & E & Hp & _); [by vm_compute|by apply at_slot; vm_compute|by vm_compute..|].
  exists s'. exact (conj E Hp).
Defined.
