(* ===== verification/ProcPrint.v ===== *)
(** * Process listings (proc.c: procdump, getprocs, ctrlr, ctrlf, ctrls, ctrlz)

    Each listing returns the bytes it hands to [cprintf]; [getprocs] fills the
    caller's table.  The walks over a state list are bounded by NPROC. *)

From S2P Require Import Prelude Spinlock CString Format ProcState ProcList Proc ProcInv ProcWake KInv ProcSafe Kernel ToyEnv Scenario.

Local Open Scope Z_scope.

Definition STRMAX : nat := 32.

(** [struct uproc] *)
Record uproc := mkUproc {
  up_pid : Z; up_uid : Z; up_gid : Z; up_ppid : Z;
  up_elapsed_ticks : Z; up_CPU_total_ticks : Z;
  up_state : list Z;       (* char state[STRMAX] *)
  up_size : Z;
  up_name : list Z;        (* char name[STRMAX] *)
  up_priority : Z
}.

(** The format strings of the listings. *)
Definition fmt_z (s : string) : list Z := chars s ++ [0].
Definition nl : list Z := [10].
Definition tab : list Z := [9].

Definition state_name (st : procstate) : list Z :=
  chars match st with
  | UNUSED => "unused" | EMBRYO => "embryo" | SLEEPING => "sleep "
  | RUNNABLE => "runble" | RUNNING => "run   " | ZOMBIE => "zombie"
  end ++ [0].

(** [whole.ten hundred thousand] of a tick count. *)
Definition ticks_parts (diff : Z) : list arg :=
  let whole := diff / 1000 in
  let ten := (diff - whole * 1000) / 100 in
  let hundred := (diff - whole * 1000 - ten * 100) / 10 in
  let thousand := diff - whole * 1000 - ten * 100 - hundred * 10 in
  [AInt whole; AInt ten; AInt hundred; AInt thousand].

Section ProcPrint.
Context `{KernelEnv}.

Definition print (fmt : list Z) (args : list arg) : M kst (list Z) := lookupM (λ _, cprintf fmt args).

(** [p->pid == 1 ? 1 : p->parent->pid] *)
Definition ppid_of (x : proc) : M kst Z :=
  if decide (pid x = 1) then mret 1
  else q ← deref (parent x); y ← getp q; mret (pid y).

(** ** procdump *)

Definition fmt_dump1 : list Z :=
  chars "%d" ++ tab ++ chars "%s" ++ tab ++ chars "%d" ++ tab ++ chars "%d" ++ tab ++ chars "%d" ++ tab ++ chars "%d" ++ tab ++ [0].
Definition fmt_dump2 : list Z := chars "%d.%d%d%d" ++ tab ++ [0].
Definition fmt_dump3 : list Z := chars "%d.%d%d%d" ++ tab ++ chars "%s" ++ tab ++ chars "%d" ++ tab ++ [0].
Definition dump_header : list Z :=
  nl ++ chars "PID" ++ tab ++ chars "Name" ++ tab ++ chars "UID" ++ tab ++ chars "GID" ++ tab ++ chars "PPID" ++ tab ++
  chars "Prio" ++ tab ++ chars "Elapsed" ++ tab ++ chars "CPU" ++ tab ++ chars "State" ++ tab ++ chars "Size" ++ tab ++
  chars "PCs" ++ nl.

(** [for(i=0; i<10 && pc[i] != 0; i++) cprintf(" %p", pc[i]);] *)
Fixpoint print_pcs (pcs : list Z) : M kst (list Z) :=
  match pcs with
  | [] => mret []
  | pc :: pcs' =>
      if decide (pc = 0) then mret []
      else o ← print (fmt_z " %p") [AInt pc]; o' ← print_pcs pcs'; mret (o ++ o')
  end.

Section Dump.
(** The kernel stacks: the word at an address, and the saved %ebp of a
    process's context. *)
Context (word : Z → Z) (ebp : nat → Z).

Definition dump_one (p : nat) : M kst (list Z) :=
  x ← getp p;
  if decide (state x = UNUSED) then mret [] else
  ppid ← ppid_of x;
  o1 ← print fmt_dump1 [AInt (pid x); AStr (Some (name x)); AInt (uid x); AInt (gid x); AInt ppid; AInt (prio x)];
  t ← gets ticks;
  o2 ← print fmt_dump2 (ticks_parts (u32 (t - start_ticks x)));
  o3 ← print fmt_dump3 (ticks_parts (cpu_ticks_total x) ++ [AStr (Some (state_name (state x))); AInt (sz x)]);
  o4 ← (if decide (state x = SLEEPING) then print_pcs (getcallerpcs word (u32 (ebp p + 8))) else mret []);
  mret (o1 ++ o2 ++ o3 ++ o4 ++ nl).

Fixpoint dump_all (ps : list nat) : M kst (list Z) :=
  match ps with
  | [] => mret []
  | p :: ps' => o ← dump_one p; o' ← dump_all ps'; mret (o ++ o')
  end.

Definition procdump : M kst (list Z) :=
  o ← dump_all (seq 0 NPROC);
  mret (dump_header ++ o).
End Dump.

(** ** getprocs *)

Definition uproc_state (st : procstate) : option (list Z) :=
  match st with
  | RUNNABLE => Some (fmt_z "RUNNABLE")
  | RUNNING => Some (fmt_z "RUNNING")
  | SLEEPING => Some (fmt_z "SLEEPING")
  | ZOMBIE => Some (fmt_z "ZOMBIE")
  | _ => None
  end.

Definition fill_uproc (x : proc) (u : uproc) : M kst uproc :=
  ppid ← ppid_of x;
  t ← gets ticks;
  nm ← lookupM (λ _, safestrcpy (up_name u) (name x) (Z.of_nat STRMAX));
  st ← lookupM (λ _, match uproc_state (state x) with
                     | Some w => safestrcpy (up_state u) w (Z.of_nat STRMAX)
                     | None => Some (up_state u)
                     end);
  mret (mkUproc (pid x) (uid x) (gid x) ppid (u32 (t - start_ticks x)) (cpu_ticks_total x) st (sz x) nm (prio x)).

Definition listed (x : proc) : Prop := state x ≠ UNUSED ∧ state x ≠ EMBRYO.
#[global] Instance listed_dec x : Decision (listed x).
Proof. unfold listed. apply _. Defined.

(** [for(i = 0, p = ptable.proc; p < &ptable.proc[NPROC] && i < max; p++)];
    [table] is the caller's array, out of whose range a store faults. *)
Fixpoint getprocs_loop (ps : list nat) (max : Z) (i : nat) (table : list uproc) : M kst (nat * list uproc) :=
  match ps with
  | [] => mret (i, table)
  | p :: ps' =>
      if decide (Z.of_nat i < max) then
        x ← getp p;
        if decide (listed x) then
          u ← lookupM (λ _, table !! i);
          u' ← fill_uproc x u;
          getprocs_loop ps' max (S i) (<[i := u']> table)
        else getprocs_loop ps' max i table
      else mret (i, table)
  end.

Definition getprocs (max : Z) (table : list uproc) : M kst (Z * list uproc) :=
  lift_hw (acquire Lptable);;
  r ← getprocs_loop (seq 0 NPROC) max 0 table;
  lift_hw (release Lptable);;
  mret (Z.of_nat r.1, r.2).

(** ** The control-key listings *)

(** [while(current->next){ item; current = current->next; } last;] *)
Fixpoint print_chain (fuel : nat) (p : nat) (item last : proc → M kst (list Z)) : M kst (list Z) :=
  match fuel with
  | O => diverge
  | S f =>
      x ← getp p;
      match next x with
      | None => last x
      | Some q => o ← item x; o' ← print_chain f q item last; mret (o ++ o')
      end
  end.

Definition ready_item (x : proc) : M kst (list Z) := print (fmt_z "(%d, %d) -> ") [AInt (pid x); AInt (budget x)].
Definition ready_last (x : proc) : M kst (list Z) :=
  print (chars "(%d, %d)" ++ nl ++ nl ++ [0]) [AInt (pid x); AInt (budget x)].

Fixpoint ctrlr_levels (lv : list nat) : M kst (list Z) :=
  match lv with
  | [] => mret []
  | i :: lv' =>
      o ← print (fmt_z "%d: ") [AInt (Z.of_nat i)];
      h ← get_head (Ready (Z.of_nat i));
      o1 ← match h with
           | None => print (chars "Empty" ++ nl ++ nl ++ [0]) []
           | Some p => print_chain NPROC p ready_item ready_last
           end;
      o2 ← ctrlr_levels lv';
      mret (o ++ o1 ++ o2)
  end.

Definition ctrlr : M kst (list Z) :=
  lift_hw (acquire Lptable);;
  o ← print (chars "Ready List Processes:" ++ nl ++ [0]) [];
  o' ← ctrlr_levels (seq 0 (S MAX));
  lift_hw (release Lptable);;
  mret (o ++ o').

Fixpoint count_chain (fuel : nat) (p : option nat) : M kst Z :=
  match p with
  | None => mret 0
  | Some q =>
      match fuel with
      | O => diverge
      | S f => x ← getp q; n ← count_chain f (next x); mret (1 + n)
      end
  end.

Definition fmt_free : list Z := chars "Free List Size: %d processes" ++ nl ++ [0].

Definition ctrlf : M kst (list Z) :=
  lift_hw (acquire Lptable);;
  h ← get_head Free;
  n ← count_chain NPROC h;
  o ← print fmt_free [AInt n];
  lift_hw (release Lptable);;
  mret o.

Definition ctrls : M kst (list Z) :=
  lift_hw (acquire Lptable);;
  o ← print (chars "Sleep List Processes:" ++ nl ++ [0]) [];
  h ← get_head Sleep;
  o' ← match h with
       | None => print (chars "Empty" ++ nl ++ [0]) []
       | Some p => print_chain NPROC p (λ x, print (fmt_z "%d -> ") [AInt (pid x)])
                     (λ x, print (chars "%d" ++ nl ++ [0]) [AInt (pid x)])
       end;
  lift_hw (release Lptable);;
  mret (o ++ o').

Definition zombie_item (fmt : list Z) (x : proc) : M kst (list Z) :=
  ppid ← ppid_of x; print fmt [AInt (pid x); AInt ppid].

Definition ctrlz : M kst (list Z) :=
  lift_hw (acquire Lptable);;
  o ← print (chars "Zombie List Processes:" ++ nl ++ [0]) [];
  h ← get_head Zombie;
  o' ← match h with
       | None => print (chars "Empty" ++ nl ++ [0]) []
       | Some p => print_chain NPROC p (zombie_item (fmt_z "(%d, %d) -> ")) (zombie_item (chars "(%d, %d)" ++ nl ++ [0]))
       end;
  lift_hw (release Lptable);;
  mret (o ++ o').
End ProcPrint.

(** ** What getprocs reports *)

(** The user's entry [u] describes the process [x]. *)
Definition describes `{KernelEnv} (s : kst) (x : proc) (u : uproc) : Prop :=
  up_pid u = pid x ∧ up_uid u = uid x ∧ up_gid u = gid x ∧ up_size u = sz x ∧ up_priority u = prio x ∧
  up_CPU_total_ticks u = cpu_ticks_total x ∧ up_elapsed_ticks u = u32 (ticks s - start_ticks x) ∧
  cstr (up_name u) = take 31 (cstr (name x)) ∧
  (∃ w, uproc_state (state x) = Some w ∧ cstr (up_state u) = cstr w) ∧
  (if decide (pid x = 1) then up_ppid u = 1
   else ∃ q y, parent x = Some q ∧ procs s !! q = Some y ∧ up_ppid u = pid y).

Definition wf_uproc (u : uproc) : Prop := length (up_name u) = STRMAX ∧ length (up_state u) = STRMAX.

Section GetprocsSpec.
Context `{KernelEnv}.

(** A process [getprocs] can describe. *)
Definition describable (s : kst) (x : proc) : Prop :=
  terminated (name x) ∧ (pid x = 1 ∨ ∃ q y, parent x = Some q ∧ procs s !! q = Some y).

Lemma ppid_of_spec s x (Q : Z → kst → Prop) :
  pid x = 1 ∨ (∃ q y, parent x = Some q ∧ procs s !! q = Some y) →
  (∀ n, (if decide (pid x = 1) then n = 1 else ∃ q y, parent x = Some q ∧ procs s !! q = Some y ∧ n = pid y) → Q n s) →
  wp (ppid_of x) s Q.
Proof.
  intros Hp HQ. unfold ppid_of. case_decide as Hpid; [wp_steps; by apply HQ|].
  destruct Hp as [?|(q & y & Hq & Hy)]; [done|]. wp_steps. apply (wp_lookupM _ _ q); [done|].
  wp_steps. apply (wp_lookupM _ _ y); [done|]. wp_steps. apply HQ. eauto.
Qed.

Lemma fill_uproc_spec s x u :
  describable s x → wf_uproc u → listed x →
  wp (fill_uproc x u) s (λ u' s', s' = s ∧ describes s x u' ∧ wf_uproc u').
Proof.
  intros [Ht Hp] [Hn Hs] [Hu He]. unfold fill_uproc. wp_steps. apply ppid_of_spec; [done|]. intros ppid Hpp.
  wp_steps.
  destruct (safestrcpy_loop_spec 31 (up_name u) (name x)) as (nm & E1 & L1 & C1 & _); [rewrite Hn; unfold STRMAX; lia|done|].
  apply (wp_lookupM _ _ nm); [exact E1|].
  assert (∃ w, uproc_state (state x) = Some w ∧ terminated w ∧ take 31 (cstr w) = cstr w) as (w & Ew & Tw & Cw).
  { unfold terminated. destruct (state x); simpl; try done; eexists; (split; [done|]);
      (split; [by apply (bool_decide_unpack _)|reflexivity]). }
  destruct (safestrcpy_loop_spec 31 (up_state u) w) as (st & E2 & L2 & C2 & _); [rewrite Hs; unfold STRMAX; lia|done|].
  wp_steps. apply (wp_lookupM _ _ st); [rewrite Ew; exact E2|]. wp_steps. split; [done|]. split.
  - do 7 (split; [done|]). split; [exact C1|]. split; [|exact Hpp]. exists w. split; [done|]. simpl. congruence.
  - split; simpl; congruence.
Qed.

Lemma getprocs_loop_spec s max : ∀ ps xs i table,
  Forall2 (λ p x, procs s !! p = Some x) ps xs → Forall (λ x, listed x → describable s x) xs →
  Forall wf_uproc table → max ≤ Z.of_nat (length table) →
  wp (getprocs_loop ps max i table) s (λ r s', s' = s ∧ ∃ m,
    r.1 = (i + m)%nat ∧ m = Nat.min (Z.to_nat max - i) (length (filter listed xs)) ∧
    length r.2 = length table ∧ take i r.2 = take i table ∧ drop (i + m) r.2 = drop (i + m) table ∧
    Forall2 (describes s) (take m (filter listed xs)) (take m (drop i r.2))).
Proof.
  induction ps as [|p ps IH]; intros xs i table Hps Hd Hw Hm.
  { inversion Hps; subst. simpl. wp_steps. split; [done|]. exists 0%nat. simpl. rewrite Nat.add_0_r, Nat.min_0_r.
    do 5 (split; [done|]). constructor. }
  inversion Hps as [|? x ? xs' Hx Hps']; subst. inversion Hd as [|? ? Hdx Hd']; subst. simpl.
  case_decide as Hi; last first.
  { wp_steps. split; [done|]. exists 0%nat. simpl. rewrite Nat.add_0_r. split; [done|].
    split; [replace (Z.to_nat max - i)%nat with 0%nat by lia; done|]. do 3 (split; [done|]). constructor. }
  wp_steps. apply (wp_lookupM _ _ x); [done|]. rewrite filter_cons. case_decide as Hl; last by apply IH.
  destruct (lookup_lt_is_Some_2 table i) as [u Hu]; [lia|].
  wp_steps. apply (wp_lookupM _ _ u); [done|]. wp_steps.
  eapply wp_mono; [apply fill_uproc_spec; [by apply Hdx|by eapply (Forall_lookup_1 _ _ _ _ Hw)|done]|].
  intros u' s' (-> & Hu' & Hwu'). eapply wp_mono; [apply (IH xs' (S i) (<[i := u']> table)); try done|].
  - by apply Forall_insert.
  - by rewrite length_insert.
  - intros [n tb] s' (-> & m & Hn & Em & Hlen & Htk & Hdr & Hf). simpl in *. split; [done|]. exists (S m).
    rewrite length_insert in Hlen.
    assert (tb !! i = Some u') as Hti.
    { rewrite <- (lookup_take_lt tb (S i) i), Htk, lookup_take_lt by lia. apply list_lookup_insert_eq. lia. }
    split; [lia|]. split; [lia|]. split; [done|]. split; [|split].
    + apply (f_equal (take i)) in Htk. rewrite !take_take, Nat.min_l in Htk by lia.
      rewrite Htk. by apply take_insert_ge.
    + rewrite Nat.add_succ_r. rewrite Hdr. by rewrite drop_insert_lt by lia.
    + rewrite (drop_S _ _ _ Hti). simpl. by constructor.
Qed.
End GetprocsSpec.

Section Listings.
Context `{KL : KernelLaws}.

Lemma kinv_hw s L h : kinv s → Good HwIdle (set_khw h s) L → kinv (set_khw h s).
Proof. intros (_ & Hc & Hip) HG. split; [by exists L|done]. Qed.

Lemma seq_slots s L : PInv s L None → Forall2 (λ p x, procs s !! p = Some x) (seq 0 NPROC) (procs s).
Proof.
  intros HP. apply Forall2_same_length_lookup_2.
  - by rewrite length_seq, (rep_len _ _ (pi_rep _ _ _ HP)).
  - intros i p x Hp Hx. apply lookup_seq in Hp as [-> _]. done.
Qed.

(** [getprocs] returns how many processes it wrote, at most [max], and the
    entries are the first that many processes that are neither UNUSED nor
    EMBRYO, in table order, each faithfully described; the rest of the user's
    table is untouched. *)
Theorem getprocs_describes_processes (s : kst) (max : Z) (table : list uproc) :
  kinv s → Forall wf_uproc table → max ≤ Z.of_nat (length table) →
  (∀ ip x, initproc s = Some ip → procs s !! ip = Some x → pid x = 1) →
  Forall (λ x, terminated (name x)) (procs s) →
  ∃ n table' s', getprocs max table s = Ret (Z.of_nat n, table') s' ∧ kinv s' ∧
    n = Nat.min (Z.to_nat max) (length (filter listed (procs s))) ∧
    Forall2 (describes s) (take n (filter listed (procs s))) (take n table') ∧
    length table' = length table ∧ drop n table' = drop n table.
Proof.
  intros HK Hw Hm Hin Hnm. pose proof HK as ((L & HG) & _).
  assert (Forall (λ x, listed x → describable s x) (procs s)) as Hd.
  { apply Forall_lookup. intros p x Hx [Hu He]. split; [by eapply (Forall_lookup_1 _ _ _ _ Hnm)|].
    assert (kviews s !! p = Some (kview x)) as Hv by (by rewrite kviews_lookup, Hx).
    destruct (vf_family _ _ _ (g_v HG) p _ Hv) as [Hi|(q & w & Hq & Hw' & _)].
    - simpl. unfold kin, live. destruct (state x); simpl; tauto.
    - left. by apply (Hin p).
    - right. rewrite kviews_lookup in Hw'. destruct (procs s !! q) as [y|] eqn:Hy; [|done]. by exists q, y. }
  set (P := λ (r : Z * list uproc) s', ∃ n table', r = (Z.of_nat n, table') ∧ kinv s' ∧
    n = Nat.min (Z.to_nat max) (length (filter listed (procs s))) ∧
    Forall2 (describes s) (take n (filter listed (procs s))) (take n table') ∧
    length table' = length table ∧ drop n table' = drop n table).
  assert (wp (getprocs max table) s P) as Hwp; last first.
  { destruct (wp_inv _ _ _ Hwp) as (r & s' & E & n & t & -> & ?). by exists n, t, s'. }
  unfold getprocs. wp_steps. wp_call good_acquire; [exact HG|]. intros _ s1 (HG1 & h1 & -> & HS1). wp_steps.
  eapply wp_mono; [apply (getprocs_loop_spec (set_khw h1 s) max (seq 0 NPROC) (procs s) 0 table); try done|].
  { exact (seq_slots s L (g_p HG)). }
  intros [n t] s2 (-> & m & Hn & Em & Hl & _ & Hdr & Hf). simpl in *. wp_steps.
  wp_call good_release; [exact HG1|]. intros _ s3 (HG3 & h3 & -> & HS3). wp_steps.
  exists m, t. rewrite Nat.sub_0_r in Em. split; [by rewrite Hn|].
  split; [apply (kinv_hw s L h3 HK HG3)|]. split; [done|]. by rewrite drop_0 in Hf.
Qed.

(** A format of plain text and one [%d] prints. *)
Lemma cprintf_free n : ∃ out, cprintf fmt_free [AInt n] = Some out.
Proof.
  destruct (printint_some (i32 n)) as [o Ho]; [apply i32_range|].
  replace fmt_free with (chars "Free List Size: " ++ 37 :: 100 :: (chars " processes" ++ nl) ++ [0]) by reflexivity.
  rewrite cprintf_plain, cprintf_d, Ho by reflexivity. cbn [mbind option_bind].
  rewrite cprintf_plain by reflexivity. cbn [cprintf]. rewrite decide_True by done. by eexists.
Qed.

Lemma count_chain_spec s : ∀ l fuel p,
  lrep (nxt s) p l → (∀ q, q ∈ l → is_Some (procs s !! q)) → (length l ≤ fuel)%nat →
  count_chain fuel p s = Ret (Z.of_nat (length l)) s.
Proof.
  induction l as [|q l IH]; intros fuel p Hr Hs Hl; simpl in Hr.
  { subst p. by destruct fuel. }
  destruct Hr as [-> Hr]. destruct fuel as [|f]; [simpl in Hl; lia|]. simpl in Hl.
  destruct (Hs q) as [x Hx]; [set_solver|]. unfold count_chain; fold count_chain.
  unfold getp, lookupM, mbind, M_bind. rewrite Hx. unfold nxt in Hr at 2. rewrite Hx in Hr. simpl in Hr.
  rewrite (IH f (next x)); [|done|set_solver|lia]. unfold mret, M_ret. f_equal. simpl length. lia.
Qed.

(** ctrl-F prints the number of UNUSED slots of the process table. *)
Theorem ctrlf_counts_unused (s : kst) :
  kinv s → ∃ l out s', ctrlf s = Ret out s' ∧ kinv s' ∧ cprintf fmt_free [AInt (Z.of_nat (length l))] = Some out ∧
    NoDup l ∧ ∀ p, p ∈ l ↔ ∃ x, procs s !! p = Some x ∧ state x = UNUSED.
Proof.
  intros HK. pose proof HK as ((L & HG) & _). pose proof (g_p HG) as HP.
  assert (∃ out, cprintf fmt_free [AInt (Z.of_nat (length (L Free)))] = Some out) as [out Ho].
  { apply cprintf_free. }
  set (P := λ (o : list Z) s', o = out ∧ kinv s').
  assert (wp ctrlf s P) as Hwp; last first.
  { destruct (wp_inv _ _ _ Hwp) as (o & s' & E & -> & HK'). exists (L Free), out, s'. do 3 (split; [done|]).
    split; [apply (rep_nodup _ _ (pi_rep _ _ _ HP))|]. intros p. split.
    - intros Hp. destruct (pi_member s L None Free p HP Hp) as (x & Hx & Hst & _). by exists x.
    - intros (x & Hx & Hst). apply (pi_mem_iff s L p x Free HP Hx). by split. }
  unfold ctrlf. wp_steps. wp_call good_acquire; [exact HG|]. intros _ s1 (HG1 & h1 & -> & HS1). wp_steps.
  apply (wp_head _ L None); [apply HG1|done|]. wp_steps.
  eapply wp_Ret.
  { apply (count_chain_spec (set_khw h1 s) (L Free)).
    - rewrite <- (lrep_hd _ _ _ (rep_list _ _ (pi_rep _ _ _ HP) Free)).
      exact (rep_list _ _ (pi_rep _ _ _ HP) Free).
    - intros q Hq. destruct (pi_member s L None Free q HP Hq) as (x & Hx & _). by exists x.
    - by eapply pi_length. }
  wp_steps. apply (wp_lookupM _ _ out); [done|]. wp_steps. wp_call good_release; [exact HG1|].
  intros _ s2 (HG2 & h2 & -> & HS2). wp_steps. split; [done|]. apply (kinv_hw s L h2 HK HG2).
Qed.
End Listings.

(** [procdump] takes no lock and reads the pid of the parent of every process
    that is not UNUSED.  An EMBRYO has no parent until [fork] stores it, so a
    listing between [allocproc] and that store follows a null pointer. *)
Definition mid_fork : kst := after (run_op OpAllocproc) (on_cpu 0 init_runs).

Lemma mid_fork_kinv : kinv mid_fork.
Proof.
  apply after_kinv; [apply on_cpu_kinv; [apply init_runs_kinv|apply two_cpus; vm_compute; reflexivity]|]. exact I.
Qed.

Definition is_fault {S A} (o : outcome S A) : bool := match o with Fault => true | _ => false end.

Lemma is_fault_Fault {S A} (o : outcome S A) : is_fault o = true → o = Fault.
Proof. by destruct o. Qed.

Theorem procdump_faults_on_embryo : kinv mid_fork ∧ procdump (λ _, 0) (λ _, 0) mid_fork = Fault.
Proof. split; [exact mid_fork_kinv|]. apply is_fault_Fault. vm_compute. reflexivity. Qed.

(** ** Witnesses *)

Definition uproc0 : uproc := mkUproc 0 0 0 0 0 0 (replicate STRMAX 0) 0 (replicate STRMAX 0) 0.

Lemma forked_names : Forall (λ x, terminated (name x)) (procs forked).
Proof. apply (bool_decide_unpack _). vm_compute. exact I. Qed.

Lemma forked_init_pid ip x : initproc forked = Some ip → procs forked !! ip = Some x → pid x = 1.
Proof.
  intros Hi Hx. assert (initproc forked = Some 0%nat) as Hi0 by (vm_compute; reflexivity).
  rewrite Hi in Hi0. injection Hi0 as ->.
  assert (pid <$> procs forked !! 0%nat = Some 1) as Hp by (vm_compute; reflexivity).
  rewrite Hx in Hp. exact (inj Some _ _ Hp).
Qed.

Lemma getprocs_describes_processes_witness :
  ∃ n table' s', getprocs 5 (replicate 5 uproc0) forked = Ret (Z.of_nat n, table') s' ∧ kinv s' ∧
    n = Nat.min 5 (length (filter listed (procs forked))) ∧
    Forall2 (describes forked) (take n (filter listed (procs forked))) (take n table').
Proof.
  destruct (getprocs_describes_processes forked 5 (replicate 5 uproc0) forked_kinv)
    as (n & t & s' & E & HK & Hn & Hf & _).
  - apply Forall_replicate. split; reflexivity.
  - vm_compute. discriminate.
  - exact forked_init_pid.
  - exact forked_names.
  - exists n, t, s'. exact (conj E (conj HK (conj Hn Hf))).
Defined.

Lemma ctrlf_counts_unused_witness :
  ∃ l out s', ctrlf forked = Ret out s' ∧ kinv s' ∧ cprintf fmt_free [AInt (Z.of_nat (length l))] = Some out ∧
    NoDup l ∧ ∀ p, p ∈ l ↔ ∃ x, procs forked !! p = Some x ∧ state x = UNUSED.
Proof. exact (ctrlf_counts_unused forked forked_kinv). Defined.
