(* ===== verification/Kalloc.v ===== *)
(** * The physical page allocator (kalloc.c)

    Free pages form a list linked through their own first word.  Memory is a
    map from the address of a 32-bit word to its value; [kend] is the
    linker's symbol [end], the first address after the kernel. *)

From S2P Require Import Prelude Spinlock.

Local Open Scope Z_scope.

(** [struct { lock; use_lock; freelist } kmem], the words of physical memory,
    and the CPUs and locks.  A null [freelist] is 0. *)
Record kmem := mkKmem {
  use_lock : bool;
  freelist : Z;
  word : Z → Z;
  k_hw : hw
}.

Definition set_use_lock (b : bool) (s : kmem) : kmem := mkKmem b (freelist s) (word s) (k_hw s).
Definition set_freelist (r : Z) (s : kmem) : kmem := mkKmem (use_lock s) r (word s) (k_hw s).
Definition set_word (w : Z → Z) (s : kmem) : kmem := mkKmem (use_lock s) (freelist s) w (k_hw s).
Definition set_k_hw (h : hw) (s : kmem) : kmem := mkKmem (use_lock s) (freelist s) (word s) h.

Section Kalloc.
Context (kend : Z).

(** [memset(v, 1, PGSIZE)] on a page. *)
Definition junk (v : Z) (w : Z → Z) : Z → Z :=
  λ a, if decide (v ≤ a < v + PGSIZE) then 0x01010101 else w a.

Definition when_locking (m : M hw unit) : M kmem unit :=
  u ← gets use_lock;
  if (u : bool) then zoom k_hw set_k_hw m else mret tt.

Definition kfree (v : Z) : M kmem unit :=
  if decide (v `mod` PGSIZE ≠ 0 ∨ v < kend ∨ PHYSTOP ≤ v2p v) then panic "kfree" else
  modify (λ s, set_word (junk v (word s)) s);;
  when_locking (acquire Lkmem);;
  modify (λ s, set_word (<[v := freelist s]> (word s)) s);;
  modify (set_freelist v);;
  when_locking (release Lkmem).

Definition kalloc : M kmem Z :=
  when_locking (acquire Lkmem);;
  r ← gets freelist;
  (if decide (r ≠ 0) then modify (λ s, set_freelist (word s r) s) else mret tt);;
  when_locking (release Lkmem);;
  mret r.

(** [for(; p + PGSIZE <= vend; p += PGSIZE) kfree(p);] *)
Fixpoint freerange_loop (fuel : nat) (p vend : Z) : M kmem unit :=
  if decide (u32 (p + PGSIZE) ≤ vend) then
    match fuel with
    | O => diverge
    | S f => kfree p;; freerange_loop f (u32 (p + PGSIZE)) vend
    end
  else mret tt.

Definition freerange (vstart vend : Z) : M kmem unit :=
  freerange_loop (Z.to_nat (vend / PGSIZE + 1)) (PGROUNDUP vstart) vend.

Definition kinit1 (vstart vend : Z) : M kmem unit :=
  zoom k_hw set_k_hw (initlock Lkmem);;
  modify (set_use_lock false);;
  freerange vstart vend.

Definition kinit2 (vstart vend : Z) : M kmem unit :=
  freerange vstart vend;;
  modify (set_use_lock true).

(** ** The invariant *)

(** [l] is what one meets following the links from [r]. *)
Fixpoint chain (w : Z → Z) (r : Z) (l : list Z) : Prop :=
  match l with
  | [] => r = 0
  | v :: l' => r = v ∧ chain w (w v) l'
  end.

(** An address [kfree] accepts. *)
Definition page (v : Z) : Prop :=
  v `mod` PGSIZE = 0 ∧ kend ≤ v < 2 ^ 32 ∧ v2p v < PHYSTOP.

(** The lock while this CPU is between the acquire and the release. *)
Definition in_section (u : bool) (h : hw) : Prop :=
  if u then lock_mine Lkmem h else lock_ready Lkmem h.

Record Free (s : kmem) (l : list Z) : Prop := {
  fr_chain : chain (word s) (freelist s) l;
  fr_nodup : NoDup l;
  fr_page v : v ∈ l → page v;
  fr_lock : lock_ready Lkmem (k_hw s)
}.

Lemma wp_lock_acquire s (Q : unit → kmem → Prop) :
  lock_ready Lkmem (k_hw s) → (∀ h, in_section (use_lock s) h → Q tt (set_k_hw h s)) →
  wp (when_locking (acquire Lkmem)) s Q.
Proof.
  intros Hl HQ. unfold when_locking. wp_steps. destruct (use_lock s) eqn:E.
  - wp_steps. eapply wp_mono; [by apply acquire_ready|]. intros [] h Hh. by apply HQ.
  - wp_steps. destruct s. by apply (HQ k_hw0).
Qed.

Lemma wp_lock_release s (Q : unit → kmem → Prop) :
  in_section (use_lock s) (k_hw s) → (∀ h, lock_ready Lkmem h → Q tt (set_k_hw h s)) →
  wp (when_locking (release Lkmem)) s Q.
Proof.
  intros Hl HQ. unfold when_locking. wp_steps. destruct (use_lock s) eqn:E.
  - wp_steps. eapply wp_mono; [by apply release_mine|]. intros [] h Hh. by apply HQ.
  - wp_steps. destruct s. by apply (HQ k_hw0).
Qed.

Lemma chain_ext w w' r l : chain w r l → (∀ v, v ∈ l → w' v = w v) → chain w' r l.
Proof.
  revert r. induction l as [|v l IH]; intros r; simpl; [done|]. intros [-> Hc] Hw. split; [done|].
  rewrite Hw by set_solver. apply IH; [done|]. intros u Hu. apply Hw. set_solver.
Qed.

(** Two pages do not overlap. *)
Lemma page_apart u v a : page u → page v → u ≠ v → u ≤ a < u + PGSIZE → ¬ v ≤ a < v + PGSIZE.
Proof.
  unfold page, PGSIZE. intros (Hu & _) (Hv & _) Hne Ha Hb.
  apply Z.mod_divide in Hu as [x ->], Hv as [y ->]; [|done|done]. nia.
Qed.

Lemma kfree_spec s l v :
  Free s l → page v → v ∉ l →
  wp (kfree v) s (λ _ s', Free s' (v :: l) ∧ use_lock s' = use_lock s ∧
    ∀ a, ¬ v ≤ a < v + PGSIZE → word s' a = word s a).
Proof.
  intros [Hc Hn Hp Hl] Hv Hin. unfold kfree. rewrite decide_False; last (unfold page in Hv; lia).
  wp_steps. apply wp_lock_acquire; [done|]. intros h Hh. wp_steps.
  apply wp_lock_release; [done|]. intros h' Hh'. split; [split|]; simpl in *.
  - split; [done|]. rewrite fn_insert_dec, decide_True by done. eapply chain_ext; [exact Hc|].
    intros u Hu. assert (u ≠ v) as Hne by (by intros ->).
    rewrite fn_insert_dec, decide_False by done. unfold junk. rewrite decide_False; [done|].
    apply (page_apart u v u); [by apply Hp|done|done|unfold PGSIZE; lia].
  - by constructor.
  - intros u [->|Hu]%elem_of_cons; [done|by apply Hp].
  - done.
  - split; [done|]. intros a Ha. rewrite fn_insert_dec, decide_False by (unfold PGSIZE in Ha; lia).
    unfold junk. by rewrite decide_False.
Qed.

Lemma kalloc_spec s l :
  0 < kend → Free s l →
  wp kalloc s (λ r s', use_lock s' = use_lock s ∧ word s' = word s ∧
    match l with
    | [] => r = 0 ∧ Free s' []
    | v :: l' => r = v ∧ Free s' l'
    end).
Proof.
  intros Hk [Hc Hn Hp Hl]. unfold kalloc. wp_steps. apply wp_lock_acquire; [done|]. intros h Hh. wp_steps.
  destruct l as [|v l]; simpl in Hc.
  - rewrite decide_False by (simpl; lia). wp_steps. apply wp_lock_release; [done|]. intros h' Hh'. wp_steps.
    simpl. split; [done|]. split; [done|]. split; [done|]. by split.
  - destruct Hc as [Hf Hc]. rewrite decide_True; last first.
    { simpl. rewrite Hf. destruct (Hp v) as (_ & ? & _); [set_solver|]. lia. }
    wp_steps. apply wp_lock_release; [done|]. intros h' Hh'. wp_steps. simpl.
    split; [done|]. split; [done|]. split; [done|]. apply NoDup_cons in Hn as [_ Hn].
    split; simpl; [by rewrite Hf|done| |done]. intros u Hu. apply Hp. set_solver.
Qed.

(** ** Initialization *)

(** The [n] pages from [p] up. *)
Definition pages (p : Z) (n : nat) : list Z := (λ i, p + Z.of_nat i * PGSIZE) <$> seq 0 n.

Lemma elem_of_pages p n v : v ∈ pages p n ↔ ∃ i, (i < n)%nat ∧ v = p + Z.of_nat i * PGSIZE.
Proof.
  unfold pages. rewrite list_elem_of_fmap. split.
  - intros (i & -> & Hi%elem_of_seq). exists i. split; [lia|done].
  - intros (i & Hi & ->). exists i. split; [done|]. apply elem_of_seq. lia.
Qed.

Lemma pages_S p n : pages p (S n) = p :: pages (p + PGSIZE) n.
Proof.
  unfold pages. simpl. f_equal; [lia|]. rewrite <- fmap_S_seq, <- list_fmap_compose.
  apply list_fmap_ext. intros i j _. simpl. lia.
Qed.

Lemma freerange_loop_spec n : ∀ fuel p vend s l,
  KERNBASE ≤ kend → Free s l → p `mod` PGSIZE = 0 → kend ≤ p → vend ≤ KERNBASE + PHYSTOP →
  p + Z.of_nat n * PGSIZE ≤ vend < p + Z.of_nat n * PGSIZE + PGSIZE → (n ≤ fuel)%nat →
  (∀ v, v ∈ pages p n → v ∉ l) →
  wp (freerange_loop fuel p vend) s (λ _ s', Free s' (reverse (pages p n) ++ l) ∧ use_lock s' = use_lock s).
Proof.
  induction n as [|n IH]; intros fuel p vend s l Hk HF Hm Hp Hv Hn Hf Hd.
  - assert (u32 (p + PGSIZE) = p + PGSIZE) as E.
    { apply u32_small. unfold is_u32, PGSIZE, KERNBASE, PHYSTOP in *. lia. }
    destruct fuel; simpl; rewrite E, decide_False by lia; by wp_steps.
  - destruct fuel as [|fuel]; [lia|]. simpl.
    assert (u32 (p + PGSIZE) = p + PGSIZE) as ->.
    { apply u32_small. unfold is_u32, PGSIZE, KERNBASE, PHYSTOP in *. lia. }
    rewrite decide_True by (unfold PGSIZE in *; lia). wp_steps.
    assert (page p) as Hpg.
    { split; [done|]. split; [unfold KERNBASE, PHYSTOP, PGSIZE in *; lia|]. unfold v2p. rewrite u32_small; unfold is_u32, PGSIZE, KERNBASE, PHYSTOP in *; lia. }
    eapply wp_mono; [apply (kfree_spec s l p HF Hpg)|].
    { apply Hd. rewrite pages_S. set_solver. }
    intros _ s1 (HF1 & Eu & _). eapply wp_mono; [apply (IH fuel (p + PGSIZE) vend s1 (p :: l)); try done|].
    + rewrite <- Zplus_mod_idemp_r. by rewrite Z.mod_same, Z.add_0_r.
    + unfold PGSIZE; lia.
    + lia.
    + lia.
    + intros v Hin [->|Hl]%elem_of_cons; [|apply (Hd v); [rewrite pages_S; set_solver|done]].
      apply elem_of_pages in Hin as (i & _ & Hi). unfold PGSIZE in *. lia.
    + intros _ s2 [HF2 Eu2]. split; [|congruence]. rewrite pages_S, reverse_cons, <- app_assoc. done.
Qed.

(** The number of whole pages between [PGROUNDUP vstart] and [vend]. *)
Definition npages (vstart vend : Z) : nat := Z.to_nat ((vend - PGROUNDUP vstart) / PGSIZE).

Lemma freerange_spec vstart vend s l :
  KERNBASE ≤ kend ≤ vstart → vstart ≤ vend → PGROUNDUP vstart ≤ vend → vend ≤ KERNBASE + PHYSTOP → Free s l →
  (∀ v, v ∈ pages (PGROUNDUP vstart) (npages vstart vend) → v ∉ l) →
  wp (freerange vstart vend) s (λ _ s',
    Free s' (reverse (pages (PGROUNDUP vstart) (npages vstart vend)) ++ l) ∧ use_lock s' = use_lock s).
Proof.
  intros Hk Hvs Hv Hve HF Hd. unfold freerange.
  pose proof (PGROUNDUP_div vstart) as E. unfold PGSIZE, KERNBASE, PHYSTOP in *. specialize (E ltac:(lia) ltac:(lia)).
  assert (vstart ≤ PGROUNDUP vstart) as Hge by zlia.
  apply freerange_loop_spec; unfold npages, PGSIZE, KERNBASE, PHYSTOP in *; try done; try zlia.
Qed.

(** What [main] does with the allocator: [kinit1(end, P2V(4*1024*1024))] and,
    once the other CPUs run, [kinit2(P2V(4*1024*1024), P2V(PHYSTOP))]. *)
Definition main_kinit : M kmem unit :=
  kinit1 kend (p2v (4 * 1024 * 1024));;
  kinit2 (p2v (4 * 1024 * 1024)) (p2v PHYSTOP).

Lemma pages_in p n v :
  p `mod` PGSIZE = 0 →
  v ∈ pages p n ↔ v `mod` PGSIZE = 0 ∧ p ≤ v < p + Z.of_nat n * PGSIZE.
Proof.
  intros Hp. rewrite elem_of_pages. unfold PGSIZE in *. split.
  - intros (i & Hi & ->). split; [|lia]. zlia.
  - intros [Hv Hr]. exists (Z.to_nat ((v - p) / 4096)). zlia.
Qed.


(** [kalloc] returns null only when no page is free; otherwise it returns
    a page that nobody has, which is then no longer free, leaves all of
    memory as it is, and giving the page back with [kfree] restores the free
    list without touching any other page.  This is what the process table
    relies on for its kernel stacks. *)
Theorem kalloc_exclusive (s : kmem) (l : list Z) :
  0 < kend → Free s l →
  ∃ r s', kalloc s = Ret r s' ∧ word s' = word s ∧
    ((r = 0 ∧ l = [] ∧ Free s' []) ∨
     (page r ∧ ∃ l', Free s' l' ∧ (∀ b, (page b ∧ b ∉ l') ↔ b = r ∨ (page b ∧ b ∉ l)) ∧
        ∃ s'', kfree r s' = Ret tt s'' ∧ Free s'' l ∧
          ∀ a, ¬ r ≤ a < r + PGSIZE → word s'' a = word s a)).
Proof.
  intros Hk HF. destruct (wp_inv _ _ _ (kalloc_spec s l Hk HF)) as (r & s' & E & _ & Ew & Hr).
  exists r, s'. split; [done|]. split; [done|]. destruct l as [|v l']; [left; by destruct Hr|right].
  destruct Hr as [-> HF']. pose proof (fr_page _ _ HF v ltac:(set_solver)) as Hp. split; [done|].
  exists l'. split; [done|]. pose proof (fr_nodup _ _ HF) as [Hv _]%NoDup_cons. split.
  - intros b. split; [|intros [->|[? ?]]; set_solver].
    intros [Hb Hb']. destruct (decide (b = v)); [by left|right]. set_solver.
  - destruct (wp_inv _ _ _ (kfree_spec s' l' v HF' Hp Hv)) as ([] & s'' & E' & HF'' & _ & Hw).
    exists s''. split; [done|]. split; [done|]. intros a Ha. rewrite Hw by done. by rewrite Ew.
Qed.
End Kalloc.

(** ** Witnesses *)

Definition kmem0 : kmem :=
  mkKmem true 0x80400000 (λ a, if decide (a = 0x80400000) then 0x80401000 else 0)
    (mkHw [mkCpu 0 false true None] 0 (λ _, mkSpinlock false None)).

Lemma kmem0_Free : Free 0x80108000 kmem0 [0x80400000; 0x80401000].
Proof.
  split; [done|by apply (bool_decide_unpack _)|intros v Hv|eexists; split; done].
  assert (v = 0x80400000 ∨ v = 0x80401000) as [->| ->] by set_solver; unfold page; vm_compute; intuition congruence.
Qed.


Lemma kalloc_exclusive_witness :
  ∃ r s', kalloc kmem0 = Ret r s' ∧ word s' = word kmem0.
Proof.
  destruct (kalloc_exclusive 0x80108000 kmem0 [0x80400000; 0x80401000] ltac:(lia) kmem0_Free)
    as (r & s' & E & Ew & _). exists r, s'. exact (conj E Ew).
Defined.
