(* ===== verification/Ring.v ===== *)
(** * Rings under free-running 32-bit counters

    pipe.c and console.c keep bytes in an array of [N] entries at the
    positions of unsigned counters taken modulo [N].  [N] divides 2^32, so the
    contents survive the wrap-around of the counters. *)

From S2P Require Import Prelude.

Local Open Scope Z_scope.

Section Ring.
Context (N : Z) (HN : 0 < N).

(** [buf[a % N]] *)
Definition rslot (a : Z) : nat := Z.to_nat (a `mod` N).
(** The [n] entries from counter [a] on. *)
Definition rseq (buf : list Z) (a : Z) (n : nat) : list Z := (λ k, buf !!! rslot (a + Z.of_nat k)) <$> seq 0 n.

Lemma rslot_lt a : (rslot a < Z.to_nat N)%nat.
Proof. unfold rslot. pose proof (Z.mod_pos_bound a N HN). lia. Qed.

Lemma rslot_ne r i j : 0 ≤ i < N → 0 ≤ j < N → i ≠ j → rslot (r + i) ≠ rslot (r + j).
Proof.
  unfold rslot. intros Hi Hj Hne E. pose proof (Z.mod_pos_bound (r + i) N HN). pose proof (Z.mod_pos_bound (r + j) N HN).
  apply Z2Nat.inj in E; [|lia|lia]. pose proof (Z.div_mod (r + i) N ltac:(lia)) as E1. pose proof (Z.div_mod (r + j) N ltac:(lia)) as E2.
  assert (i - j = N * ((r + i) / N - (r + j) / N)) as E3 by lia. set (q := (r + i) / N - (r + j) / N) in *. clearbody q.
  assert (q = 0 ∨ 1 ≤ q ∨ q ≤ -1) as [->|[|]] by lia; nia.
Qed.

Context (K : Z) (HK : 2 ^ 32 = N * K).

Lemma rslot_u32 a : rslot (u32 a) = rslot a.
Proof.
  unfold rslot, u32. rewrite HK. f_equal. assert (0 < K) by nia.
  by rewrite Z.rem_mul_r, Zplus_mod, Z.mul_comm, Z.mod_mul, Z.add_0_r, !Z.mod_mod by lia.
Qed.

Lemma length_rseq buf a n : length (rseq buf a n) = n.
Proof. unfold rseq. by rewrite length_fmap, length_seq. Qed.

Lemma rseq_add buf a n m : rseq buf a (n + m) = rseq buf a n ++ rseq buf (u32 (a + Z.of_nat n)) m.
Proof.
  unfold rseq. rewrite seq_app, fmap_app. f_equal. replace (0 + n)%nat with (n + 0)%nat by lia.
  rewrite <- fmap_add_seq, <- list_fmap_compose. apply list_fmap_ext. intros i k _. cbn.
  f_equal. rewrite <- (rslot_u32 (u32 _ + _)), u32_add_idemp_l, rslot_u32. f_equal. lia.
Qed.

Lemma rseq_1 buf a : length buf = Z.to_nat N → buf !! rslot a = Some (buf !!! rslot a) ∧ rseq buf a 1 = [buf !!! rslot a].
Proof.
  intros Hl. split; [apply list_lookup_lookup_total_lt; rewrite Hl; apply rslot_lt|].
  unfold rseq. cbn. by rewrite Z.add_0_r.
Qed.

(** A store behind the entries in use. *)
Lemma rseq_store buf a (n m : nat) c : (n ≤ m)%nat → Z.of_nat m < N → rseq (<[rslot (a + Z.of_nat m) := c]> buf) a n = rseq buf a n.
Proof.
  intros Hnm Hm. unfold rseq. apply list_fmap_ext. intros i k [-> Hk]%lookup_seq. cbn.
  apply list_lookup_total_insert_ne. apply rslot_ne; lia.
Qed.

Lemma rseq_snoc buf a n c : length buf = Z.to_nat N → Z.of_nat n < N →
  rseq (<[rslot (a + Z.of_nat n) := c]> buf) a (S n) = rseq buf a n ++ [c].
Proof.
  intros Hl Hn. replace (S n) with (n + 1)%nat by lia. rewrite rseq_add, rseq_store by lia. f_equal.
  destruct (rseq_1 (<[rslot (a + Z.of_nat n) := c]> buf) (u32 (a + Z.of_nat n))) as [_ ->]; [by rewrite length_insert|].
  rewrite rslot_u32. f_equal. apply list_lookup_total_insert_eq. rewrite Hl. apply rslot_lt.
Qed.
End Ring.
