(* ===== verification/Pipe.v ===== *)
(** * Pipes (pipe.c)

    A pipe is a ring of PIPESIZE bytes with two free-running 32-bit counters.
    Its operations run under the pipe's lock, which they give up only to
    sleep: one run is what a caller does from taking the lock (or waking up)
    to returning or going to sleep again.  What is proved holds for every
    interleaving of runs of readers and writers, across the wrap-around of the
    counters. *)

From S2P Require Import Prelude Ring.

Local Open Scope Z_scope.

Definition PIPESIZE : Z := 512.

Record pipe := mkPipe {
  data : list Z;       (* char data[PIPESIZE] *)
  nread : Z;           (* uint: number of bytes read *)
  nwrite : Z;          (* uint: number of bytes written *)
  readopen : bool;
  writeopen : bool
}.

Definition set_data (d : list Z) (p : pipe) : pipe := mkPipe d (nread p) (nwrite p) (readopen p) (writeopen p).
Definition set_nread (n : Z) (p : pipe) : pipe := mkPipe (data p) n (nwrite p) (readopen p) (writeopen p).
Definition set_nwrite (n : Z) (p : pipe) : pipe := mkPipe (data p) (nread p) n (readopen p) (writeopen p).
Definition set_readopen (b : bool) (p : pipe) : pipe := mkPipe (data p) (nread p) (nwrite p) b (writeopen p).
Definition set_writeopen (b : bool) (p : pipe) : pipe := mkPipe (data p) (nread p) (nwrite p) (readopen p) b.

(** The pipe, how many processes sleep on [&p->nread] and [&p->nwrite],
    whether the page of the pipe was given back, and two ghosts: all bytes
    ever stored into the pipe and all bytes ever taken out of it. *)
Record pst := mkPst {
  pp : pipe;
  sleepR : nat;
  sleepW : nat;
  freed : bool;
  stored : list Z;
  taken : list Z
}.
Definition set_pp (p : pipe) (s : pst) : pst := mkPst p (sleepR s) (sleepW s) (freed s) (stored s) (taken s).
Definition set_sleepR (n : nat) (s : pst) : pst := mkPst (pp s) n (sleepW s) (freed s) (stored s) (taken s).
Definition set_sleepW (n : nat) (s : pst) : pst := mkPst (pp s) (sleepR s) n (freed s) (stored s) (taken s).
Definition set_freed (b : bool) (s : pst) : pst := mkPst (pp s) (sleepR s) (sleepW s) b (stored s) (taken s).
Definition log_stored (c : Z) (s : pst) : pst :=
  mkPst (pp s) (sleepR s) (sleepW s) (freed s) (stored s ++ [c]) (taken s).
Definition log_taken (c : Z) (s : pst) : pst :=
  mkPst (pp s) (sleepR s) (sleepW s) (freed s) (stored s) (taken s ++ [c]).

Definition wakeupR : M pst unit := modify (set_sleepR 0).
Definition wakeupW : M pst unit := modify (set_sleepW 0).
Definition upd_pipe (f : pipe → pipe) : M pst unit := modify (λ s, set_pp (f (pp s)) s).

(** How a run ends: asleep at byte [i], or returned. *)
Inductive prun := PSleep (i : Z) | PRet (r : Z).

(** [p->data[a % PIPESIZE]] *)
Definition slot (a : Z) : nat := Z.to_nat (a `mod` PIPESIZE).

(** The [for] loop of pipewrite from byte [i]; [k] bounds the bytes left. *)
Fixpoint pipewrite_loop (k : nat) (killed : bool) (addr : list Z) (n i : Z) : M pst prun :=
  if decide (i < n) then
    match k with
    | O => diverge
    | S k' =>
        p ← gets pp;
        if decide (nwrite p = u32 (nread p + PIPESIZE)) then
          if negb (readopen p) || killed then mret (PRet (-1))
          else
            wakeupR;;
            modify (λ s, set_sleepW (S (sleepW s)) s);;
            mret (PSleep i)
        else
          c ← lookupM (λ _, addr !! Z.to_nat i);
          upd_pipe (λ p, set_data (<[slot (nwrite p) := c]> (data p)) p);;
          upd_pipe (λ p, set_nwrite (u32 (nwrite p + 1)) p);;
          modify (log_stored c);;
          pipewrite_loop k' killed addr n (i + 1)
    end
  else
    wakeupR;;
    mret (PRet n).

(** A run of pipewrite that starts (or resumes) at byte [i]. *)
Definition pipewrite (killed : bool) (addr : list Z) (n i : Z) : M pst prun :=
  pipewrite_loop (Z.to_nat (n - i)) killed addr n i.

(** The copy loop of piperead: the bytes stored to [addr[i..]]. *)
Fixpoint piperead_loop (k : nat) : M pst (list Z) :=
  match k with
  | O => mret []
  | S k' =>
      p ← gets pp;
      if decide (nread p = nwrite p) then mret []
      else
        c ← lookupM (λ _, data p !! slot (nread p));
        upd_pipe (set_nread (u32 (nread p + 1)));;
        modify (log_taken c);;
        l ← piperead_loop k';
        mret (c :: l)
  end.

(** A run of piperead: the result and the bytes it stored. *)
Definition piperead (killed : bool) (n : Z) : M pst (prun * list Z) :=
  p ← gets pp;
  if decide (nread p = nwrite p ∧ writeopen p = true) then
    if (killed : bool) then mret (PRet (-1), [])
    else
      modify (λ s, set_sleepR (S (sleepR s)) s);;
      mret (PSleep 0, [])
  else
    l ← piperead_loop (Z.to_nat n);
    wakeupW;;
    mret (PRet (Z.of_nat (length l)), l).

Definition pipeclose (writable : bool) : M pst unit :=
  (if (writable : bool) then upd_pipe (set_writeopen false);; wakeupR
   else upd_pipe (set_readopen false);; wakeupW);;
  p ← gets pp;
  if negb (readopen p) && negb (writeopen p)
  then modify (set_freed true)
  else mret tt.

(** The pipe as pipealloc leaves it; the page holds whatever it held. *)
Definition pipe_init (d : list Z) : pst := mkPst (mkPipe d 0 0 true true) 0 0 false [] [].

(** ** The queue a pipe represents *)

Definition count (p : pipe) : Z := u32 (nwrite p - nread p).
Definition at_ (p : pipe) (k : nat) : Z := data p !!! slot (nread p + Z.of_nat k).
Definition queue (p : pipe) : list Z := at_ p <$> seq 0 (Z.to_nat (count p)).

Record pipe_ok (p : pipe) : Prop := {
  po_len : length (data p) = Z.to_nat PIPESIZE;
  po_r : is_u32 (nread p);
  po_w : is_u32 (nwrite p);
  po_count : count p ≤ PIPESIZE
}.

Lemma slot_u32 a : slot (u32 a) = slot a.
Proof. by apply (rslot_u32 PIPESIZE ltac:(done) (2 ^ 23)). Qed.

Lemma slot_lt a : (slot a < Z.to_nat PIPESIZE)%nat.
Proof. by apply rslot_lt. Qed.

Lemma slot_ne r i j : 0 ≤ i < PIPESIZE → 0 ≤ j < PIPESIZE → i ≠ j → slot (r + i) ≠ slot (r + j).
Proof. by apply rslot_ne. Qed.

(** The counters: full and empty. *)
Lemma full_iff p : pipe_ok p → nwrite p = u32 (nread p + PIPESIZE) ↔ count p = PIPESIZE.
Proof. intros [_ Hr Hw Hc]. unfold count, u32, is_u32, PIPESIZE in *. zlia. Qed.
Lemma empty_iff p : pipe_ok p → nread p = nwrite p ↔ count p = 0.
Proof. intros [_ Hr Hw Hc]. unfold count, u32, is_u32, PIPESIZE in *. zlia. Qed.
Lemma count_pos p : 0 ≤ count p.
Proof. unfold count. pose proof (u32_range (nwrite p - nread p)) as H. unfold is_u32 in H. lia. Qed.

Lemma length_queue p : length (queue p) = Z.to_nat (count p).
Proof. unfold queue. by rewrite length_fmap, length_seq. Qed.

(** One byte in. *)
Definition put (c : Z) (p : pipe) : pipe :=
  set_nwrite (u32 (nwrite p + 1)) (set_data (<[slot (nwrite p) := c]> (data p)) p).
(** One byte out. *)
Definition get (p : pipe) : pipe := set_nread (u32 (nread p + 1)) p.

Lemma put_ok c p : pipe_ok p → count p < PIPESIZE → pipe_ok (put c p) ∧ count (put c p) = count p + 1.
Proof.
  intros [Hl Hr Hw Hc] Hlt.
  assert (count (put c p) = count p + 1) as E.
  { unfold count, put in *. simpl. unfold u32, PIPESIZE, is_u32 in *. zlia. }
  split; [|done]. split; simpl; [by rewrite length_insert|done|apply u32_range|lia].
Qed.

Lemma queue_put c p : pipe_ok p → count p < PIPESIZE → queue (put c p) = queue p ++ [c].
Proof.
  intros Hok Hlt. destruct (put_ok c p Hok Hlt) as [_ E]. pose proof (count_pos p) as Hp.
  assert (slot (nwrite p) = slot (nread p + Z.of_nat (Z.to_nat (count p)))) as Es.
  { rewrite Z2Nat.id by done. unfold count. rewrite <- (slot_u32 (_ + u32 _)), u32_add_idemp_r, slot_u32.
    f_equal. lia. }
  unfold queue. rewrite E. replace (Z.to_nat (count p + 1)) with (S (Z.to_nat (count p))) by lia.
  etrans; [|apply (rseq_snoc PIPESIZE ltac:(done) (2 ^ 23) ltac:(done) (data p) (nread p)); [by apply Hok|lia]].
  unfold put. simpl. by rewrite Es.
Qed.

Lemma get_ok p : pipe_ok p → 0 < count p → pipe_ok (get p) ∧ count (get p) = count p - 1.
Proof.
  intros [Hl Hr Hw Hc] Hlt.
  assert (count (get p) = count p - 1) as E.
  { unfold count, get in *. simpl. unfold u32, PIPESIZE, is_u32 in *. zlia. }
  split; [|done]. split; simpl; [done|apply u32_range|done|lia].
Qed.

Lemma queue_get p :
  pipe_ok p → 0 < count p → data p !! slot (nread p) = Some (at_ p 0) ∧ queue p = at_ p 0 :: queue (get p).
Proof.
  intros Hok Hlt. destruct (get_ok p Hok Hlt) as [_ E]. split.
  - unfold at_. rewrite Z.add_0_r. apply list_lookup_lookup_total_lt. rewrite (po_len _ Hok). apply slot_lt.
  - unfold queue. rewrite E. replace (Z.to_nat (count p)) with (1 + Z.to_nat (count p - 1))%nat by lia.
    apply (rseq_add PIPESIZE ltac:(done) (2 ^ 23) ltac:(done) (data p) (nread p) 1).
Qed.

(** ** Runs *)

Lemma take_length_take (k : nat) (l : list Z) : take (length (take k l)) l = take k l.
Proof.
  rewrite length_take. destruct (decide (k ≤ length l)%nat); [by rewrite Nat.min_l|].
  by rewrite Nat.min_r, !take_ge by lia.
Qed.
Lemma drop_length_take (k : nat) (l : list Z) : drop (length (take k l)) l = drop k l.
Proof.
  rewrite length_take. destruct (decide (k ≤ length l)%nat); [by rewrite Nat.min_l|].
  by rewrite Nat.min_r, !drop_ge by lia.
Qed.

(** A run that moved [cs] from the caller into the pipe. *)
Definition moved_in (cs : list Z) (s s' : pst) : Prop :=
  pipe_ok (pp s') ∧ queue (pp s') = queue (pp s) ++ cs ∧ stored s' = stored s ++ cs ∧ taken s' = taken s ∧
  readopen (pp s') = readopen (pp s) ∧ writeopen (pp s') = writeopen (pp s) ∧ freed s' = freed s.

(** How a run of pipewrite over the bytes from [i] ends, [j] being the first
    byte it did not store. *)
Definition write_end (killed : bool) (n i : Z) (s s' : pst) (j : Z) (r : prun) : Prop :=
  match r with
  | PSleep j' => j' = j ∧ j < n ∧ count (pp s') = PIPESIZE ∧ readopen (pp s') = true ∧ killed = false ∧
      sleepR s' = 0%nat ∧ sleepW s' = S (sleepW s)
  | PRet r =>
      (r = n ∧ j = Z.max i n ∧ sleepR s' = 0%nat ∧ sleepW s' = sleepW s) ∨
      (r = -1 ∧ j < n ∧ count (pp s') = PIPESIZE ∧ (readopen (pp s') = false ∨ killed = true) ∧
        sleepR s' = sleepR s ∧ sleepW s' = sleepW s)
  end.

(** [addr[i]], ..., [addr[j-1]] *)
Definition slice (addr : list Z) (i j : Z) : list Z := take (Z.to_nat (j - i)) (drop (Z.to_nat i) addr).

Lemma slice_nil addr i j : j ≤ i → slice addr i j = [].
Proof. intros H. unfold slice. by replace (Z.to_nat (j - i)) with 0%nat by lia. Qed.

Lemma slice_cons addr i j c :
  0 ≤ i < j → addr !! Z.to_nat i = Some c → slice addr i j = c :: slice addr (i + 1) j.
Proof.
  intros H Hc. unfold slice. rewrite (drop_S _ _ _ Hc).
  replace (Z.to_nat (j - i)) with (S (Z.to_nat (j - (i + 1)))) by lia.
  by replace (S (Z.to_nat i)) with (Z.to_nat (i + 1)) by lia.
Qed.

Lemma pipewrite_loop_spec k : ∀ killed addr n i s,
  pipe_ok (pp s) → 0 ≤ i → n ≤ Z.of_nat (length addr) → k = Z.to_nat (n - i) →
  wp (pipewrite_loop k killed addr n i) s (λ r s', ∃ j, i ≤ j ∧
    moved_in (slice addr i j) s s' ∧ write_end killed n i s s' j r).
Proof.
  induction k as [|k IH]; intros killed addr n i s Hok Hi Hn Hk; simpl.
  { rewrite decide_False by lia. wp_steps. exists i. rewrite slice_nil by lia. split; [lia|].
    split; [by split; rewrite ?app_nil_r|]. left. split; [done|]. split; [lia|done]. }
  rewrite decide_True by lia. wp_steps. case_decide as Hfull.
  - apply (full_iff _ Hok) in Hfull. destruct (negb (readopen (pp s)) || killed) eqn:Hr; wp_steps;
      exists i; rewrite slice_nil by lia; (split; [lia|]); (split; [by split; rewrite ?app_nil_r|]).
    + right. split; [done|]. split; [lia|]. split; [done|]. split; [|done].
      apply orb_true_iff in Hr as [Hr|?]; [left; by destruct (readopen (pp s))|by right].
    + apply orb_false_iff in Hr as [Hr ->]. split; [done|]. split; [lia|]. split; [done|].
      split; [by simpl; destruct (readopen (pp s))|done].
  - rewrite (full_iff _ Hok) in Hfull. assert (count (pp s) < PIPESIZE) as Hlt by (pose proof (po_count _ Hok); lia).
    destruct (lookup_lt_is_Some_2 addr (Z.to_nat i)) as [c Hc]; [lia|].
    wp_steps. apply (wp_lookupM _ _ c); [done|]. unfold upd_pipe. wp_steps.
    set (s1 := log_stored c _). assert (pp s1 = put c (pp s)) as Ep by done.
    destruct (put_ok c _ Hok Hlt) as [Hok1 _].
    eapply wp_mono; [apply (IH killed addr n (i + 1) s1); [by rewrite Ep|lia|done|lia]|].
    intros r s' (j & Hj & (H1 & H2 & H3 & H4 & H5 & H6 & H7) & He). exists j. split; [lia|].
    rewrite (slice_cons addr i j c) by (done || lia). split.
    + rewrite Ep, queue_put in H2 by done. rewrite <- app_assoc in H2. simpl in H3. rewrite <- app_assoc in H3. done.
    + destruct r; simpl in *; [done|]. destruct He as [(-> & -> & ? & ?)|?]; [left|by right].
      split; [done|]. split; [lia|done].
Qed.

Lemma piperead_loop_spec k : ∀ s,
  pipe_ok (pp s) →
  wp (piperead_loop k) s (λ l s', l = take k (queue (pp s)) ∧
    pipe_ok (pp s') ∧ queue (pp s') = drop k (queue (pp s)) ∧ stored s' = stored s ∧ taken s' = taken s ++ l ∧
    readopen (pp s') = readopen (pp s) ∧ writeopen (pp s') = writeopen (pp s) ∧ freed s' = freed s ∧
    sleepR s' = sleepR s ∧ sleepW s' = sleepW s).
Proof.
  induction k as [|k IH]; intros s Hok; simpl; wp_steps.
  { rewrite take_0, drop_0, app_nil_r. done. }
  case_decide as He; [apply (empty_iff _ Hok) in He|rewrite (empty_iff _ Hok) in He].
  - wp_steps. assert (queue (pp s) = []) as -> by (apply length_zero_iff_nil; rewrite length_queue; lia).
    rewrite app_nil_r. done.
  - assert (0 < count (pp s)) as Hlt by (pose proof (count_pos (pp s)); lia).
    destruct (queue_get _ Hok Hlt) as [Hd Eq]. destruct (get_ok _ Hok Hlt) as [Hok1 _]. wp_steps.
    apply (wp_lookupM _ _ (at_ (pp s) 0)); [exact Hd|]. unfold upd_pipe. wp_steps. set (s1 := log_taken _ _).
    eapply wp_mono; [apply (IH s1 Hok1)|]. intros l s' (-> & H1 & H2 & H3 & H4 & H5). wp_steps.
    change (pp s1) with (get (pp s)) in *. rewrite Eq. simpl. split; [done|]. split; [done|]. split; [done|].
    split; [done|]. split; [|done]. rewrite H4. simpl. by rewrite <- app_assoc.
Qed.

(** ** Any interleaving of readers and writers *)

Inductive pstep : pst → pst → Prop :=
  | step_write killed addr n i s r s' :
      0 ≤ i → n ≤ Z.of_nat (length addr) → pipewrite killed addr n i s = Ret r s' → pstep s s'
  | step_read killed n s r s' : piperead killed n s = Ret r s' → pstep s s'
  | step_close writable s s' : pipeclose writable s = Ret tt s' → pstep s s'.

(** Every byte stored has been taken or is still queued, in order; and when a
    writer sleeps, the pipe is full and no reader sleeps. *)
Record pinv (s : pst) : Prop := {
  pv_ok : pipe_ok (pp s);
  pv_fifo : stored s = taken s ++ queue (pp s);
  pv_sleep : sleepW s ≠ 0%nat → count (pp s) = PIPESIZE ∧ sleepR s = 0%nat
}.

Lemma pinv_init d : length d = Z.to_nat PIPESIZE → pinv (pipe_init d).
Proof. intros Hd. split; [by split|done|done]. Qed.

Lemma pipewrite_spec killed addr n i s :
  pipe_ok (pp s) → 0 ≤ i → n ≤ Z.of_nat (length addr) →
  wp (pipewrite killed addr n i) s (λ r s', ∃ j, i ≤ j ∧
    moved_in (slice addr i j) s s' ∧ write_end killed n i s s' j r).
Proof. intros Hok Hi Hn. by apply pipewrite_loop_spec. Qed.

(** How a run of piperead ends. *)
Definition read_end (killed : bool) (n : Z) (s s' : pst) (r : prun * list Z) : Prop :=
  let q := queue (pp s) in
  pipe_ok (pp s') ∧ queue (pp s') = drop (length r.2) q ∧ stored s' = stored s ∧ taken s' = taken s ++ r.2 ∧
  match r.1 with
  | PSleep _ => r.2 = [] ∧ q = [] ∧ writeopen (pp s) = true ∧ killed = false ∧
      sleepR s' = S (sleepR s) ∧ sleepW s' = sleepW s
  | PRet m =>
      (m = -1 ∧ r.2 = [] ∧ q = [] ∧ writeopen (pp s) = true ∧ killed = true ∧ sleepR s' = sleepR s ∧ sleepW s' = sleepW s) ∨
      (m = Z.of_nat (length r.2) ∧ r.2 = take (Z.to_nat n) q ∧ (q = [] → writeopen (pp s) = false) ∧
        sleepR s' = sleepR s ∧ sleepW s' = 0%nat)
  end.

Lemma queue_nil p : pipe_ok p → nread p = nwrite p ↔ queue p = [].
Proof.
  intros Hok. rewrite (empty_iff _ Hok), <- length_zero_iff_nil, length_queue. pose proof (count_pos p). lia.
Qed.

Lemma piperead_spec killed n s : pipe_ok (pp s) → wp (piperead killed n) s (λ r s', read_end killed n s s' r).
Proof.
  intros Hok. unfold piperead. wp_steps. case_decide as He.
  - destruct He as [He%(queue_nil _ Hok) Hw]. destruct killed; wp_steps; unfold read_end; simpl;
      rewrite He, app_nil_r; (do 4 (split; [done|])); [by left|done].
  - wp_steps. eapply wp_mono; [apply (piperead_loop_spec _ s Hok)|].
    intros l s' (El & H1 & H2 & H3 & H4 & H5 & H6 & H7 & H8 & H9). unfold wakeupW. wp_steps.
    unfold read_end. simpl. split; [done|]. split; [|split; [done|split; [done|right]]].
    + by rewrite H2, El, drop_length_take.
    + split; [done|]. split; [done|]. split; [|done]. intros Hq%(queue_nil _ Hok).
      destruct (writeopen (pp s)) eqn:Hw; [|done]. by destruct He.
Qed.

Lemma pipeclose_spec writable s :
  wp (pipeclose writable) s (λ _ s',
    data (pp s') = data (pp s) ∧ nread (pp s') = nread (pp s) ∧ nwrite (pp s') = nwrite (pp s) ∧
    stored s' = stored s ∧ taken s' = taken s ∧
    (sleepR s' = if writable then 0%nat else sleepR s) ∧ (sleepW s' = if writable then sleepW s else 0%nat) ∧
    readopen (pp s') = writable && readopen (pp s) ∧ writeopen (pp s') = negb writable && writeopen (pp s) ∧
    (freed s' = true ↔ freed s = true ∨ (readopen (pp s') = false ∧ writeopen (pp s') = false))).
Proof.
  unfold pipeclose. destruct s as [[d nr nw ro wo] sr sw fr st tk]. destruct writable; wp_steps;
    unfold upd_pipe, wakeupR, wakeupW; wp_steps; simpl; destruct ro, wo; simpl; wp_steps; simpl;
    repeat (split; [done|]); intuition congruence.
Qed.

Lemma pipe_ok_same p p' :
  data p' = data p → nread p' = nread p → nwrite p' = nwrite p →
  (pipe_ok p → pipe_ok p') ∧ queue p' = queue p ∧ count p' = count p.
Proof.
  intros E1 E2 E3. split; [intros []; split; unfold count in *; congruence|].
  unfold queue, at_, count. by rewrite E1, E2, E3.
Qed.

Lemma pstep_inv s s' : pinv s → pstep s s' → pinv s'.
Proof.
  intros [Hok Hf Hs] Hst. destruct Hst as [killed addr n i s r s' Hi Hn E|killed n s r s' E|writable s s' E].
  - pose proof (pipewrite_spec killed addr n i s Hok Hi Hn) as Hw. unfold wp in Hw. rewrite E in Hw.
    destruct Hw as (j & Hj & (H1 & H2 & H3 & H4 & _) & He). split; [done| |].
    + rewrite H3, H4, H2, Hf. by rewrite <- app_assoc.
    + intros Hsw. destruct r as [j'|r]; simpl in He; [tauto|].
      destruct He as [(_ & -> & H5 & H6)|(_ & _ & H5 & _ & H6 & H7)]; [|rewrite H6; split; [done|apply Hs; congruence]].
      split; [|done]. rewrite H6 in Hsw. destruct (Hs Hsw) as [Hc _].
      pose proof (po_count _ H1). apply (f_equal length) in H2. rewrite length_app, !length_queue in H2.
      pose proof (count_pos (pp s')). unfold PIPESIZE in *. lia.
  - pose proof (piperead_spec killed n s Hok) as Hw. unfold wp in Hw. rewrite E in Hw.
    destruct Hw as (H1 & H2 & H3 & H4 & He). split; [done| |].
    + rewrite H3, H4, Hf, H2. destruct r as [[j|m] l]; simpl in *.
      * destruct He as (-> & -> & _). simpl. by rewrite !app_nil_r.
      * destruct He as [(_ & -> & -> & _)|(_ & El & _)]; [simpl; by rewrite !app_nil_r|].
        rewrite <- app_assoc. f_equal. rewrite <- (take_drop (length l) (queue (pp s))) at 1. f_equal.
        rewrite El. apply take_length_take.
    + intros Hsw. destruct r as [[j|m] l]; simpl in *.
      * destruct He as (-> & Eq & _ & _ & _ & H6). rewrite H6 in Hsw. destruct (Hs Hsw) as [Hc _].
        apply (f_equal length) in Eq. rewrite length_queue, Hc in Eq. done.
      * destruct He as [(_ & -> & Eq & _ & _ & _ & H6)|(_ & _ & _ & _ & H6)]; [|by rewrite H6 in Hsw].
        rewrite H6 in Hsw. destruct (Hs Hsw) as [Hc _].
        apply (f_equal length) in Eq. rewrite length_queue, Hc in Eq. done.
  - pose proof (pipeclose_spec writable s) as Hw. unfold wp in Hw. rewrite E in Hw.
    destruct Hw as (E1 & E2 & E3 & E4 & E5 & E6 & E7 & _).
    destruct (pipe_ok_same _ _ E1 E2 E3) as (A & B & C). split; [by apply A|congruence|].
    rewrite C. destruct writable; [|by rewrite E7]. intros Hsw. rewrite E7 in Hsw. split; [by apply Hs|done].
Qed.

(** C25: whatever runs of readers and writers interleave, and however often
    the 32-bit counters wrap, a pipe is a FIFO queue of at most PIPESIZE
    bytes: the bytes taken out so far, followed by those still queued, are
    exactly the bytes put in, in order; and a reader and a writer are never
    both asleep. *)
Theorem pipe_is_fifo (d : list Z) (s : pst) :
  length d = Z.to_nat PIPESIZE → rtc pstep (pipe_init d) s →
  stored s = taken s ++ queue (pp s) ∧ Z.of_nat (length (queue (pp s))) ≤ PIPESIZE ∧
  ¬ (sleepR s ≠ 0%nat ∧ sleepW s ≠ 0%nat).
Proof.
  intros Hd Hr. assert (pinv s) as [Hok Hf Hs].
  { apply pinv_init in Hd. induction Hr as [|a b c Hab _ IH]; [done|]. by apply IH, (pstep_inv a). }
  split; [done|]. split; [rewrite length_queue; pose proof (po_count _ Hok); pose proof (count_pos (pp s)); lia|].
  intros [H1 H2]. by destruct (Hs H2).
Qed.

(** a run of pipewrite returns n only after all n bytes are in the pipe
    and the readers are woken; it sleeps only on a full pipe whose read end
    is open, having woken the readers; and fails only on a full pipe that
    nobody will read, or when the writer was killed.  A run of piperead takes
    the first min(n, queued) bytes and wakes the writers; it sleeps only on an
    empty pipe that can still be written, and returns 0 bytes of an empty pipe
    only when it cannot. *)
Theorem pipe_runs (s : pst) (killed : bool) (addr : list Z) (n i : Z) :
  pipe_ok (pp s) → 0 ≤ i → n ≤ Z.of_nat (length addr) →
  (∃ r s' j, pipewrite killed addr n i s = Ret r s' ∧ i ≤ j ∧ moved_in (slice addr i j) s s' ∧
     write_end killed n i s s' j r) ∧
  (∃ r s', piperead killed n s = Ret r s' ∧ read_end killed n s s' r).
Proof.
  intros Hok Hi Hn. split.
  - destruct (wp_inv _ _ _ (pipewrite_spec killed addr n i s Hok Hi Hn)) as (r & s' & E & j & Hj).
    exists r, s', j. tauto.
  - destruct (wp_inv _ _ _ (piperead_spec killed n s Hok)) as (r & s' & E & He). by exists r, s'.
Qed.

(** a lost wake-up: a writer of more than PIPESIZE bytes that is killed
    fills the empty pipe and returns -1 without waking the readers that
    sleep on it, although there are now PIPESIZE bytes to read. *)
Theorem pipewrite_killed_loses_wakeup (s : pst) (addr : list Z) (n : Z) :
  pipe_ok (pp s) → queue (pp s) = [] → PIPESIZE < n ≤ Z.of_nat (length addr) →
  ∃ s', pipewrite true addr n 0 s = Ret (PRet (-1)) s' ∧ count (pp s') = PIPESIZE ∧ sleepR s' = sleepR s.
Proof.
  intros Hok Hq Hn.
  destruct (wp_inv _ _ _ (pipewrite_spec true addr n 0 s Hok ltac:(lia) ltac:(lia)))
    as (r & s' & E & j & Hj & (H1 & H2 & _) & He).
  exists s'. destruct r as [j'|r]; simpl in He; [naive_solver|].
  destruct He as [(-> & -> & _)|(-> & _ & H3 & _ & H4 & _)]; [|done]. exfalso.
  rewrite Hq in H2. apply (f_equal length) in H2. rewrite length_queue in H2. unfold slice in H2. simpl in H2.
  rewrite length_take, drop_0 in H2. pose proof (po_count _ H1). unfold PIPESIZE in *. lia.
Qed.

(** ** Witnesses *)

Definition pipe0 : pst := pipe_init (replicate 512 0).

Lemma pipe_is_fifo_witness :
  ∃ s, rtc pstep pipe0 s ∧ stored s = taken s ++ queue (pp s) ∧ taken s = [7; 8] ∧ stored s = [7; 8; 9].
Proof.
  destruct (pipewrite false [7; 8; 9] 3 0 pipe0) as [r1 s1| | |] eqn:E1; [|vm_compute in E1; discriminate..].
  destruct (piperead false 2 s1) as [r2 s2| | |] eqn:E2; [|exfalso; vm_compute in E1; injection E1 as <- <-; vm_compute in E2; discriminate..].
  assert (rtc pstep pipe0 s2) as Hr.
  { eapply rtc_l; [by eapply (step_write false [7; 8; 9] 3 0)|]. eapply rtc_once. by eapply step_read. }
  exists s2. split; [exact Hr|]. split; [apply (pipe_is_fifo (replicate 512 0) s2 eq_refl Hr)|].
  vm_compute in E1. injection E1 as <- <-. vm_compute in E2. injection E2 as <- <-. split; reflexivity.
Defined.

Lemma pipe0_ok : pipe_ok (pp pipe0).
Proof. split; [done|split; done|split; done|done]. Qed.

Lemma pipe_runs_witness :
  ∃ r s', piperead false 3 pipe0 = Ret r s' ∧ read_end false 3 pipe0 s' r.
Proof.
  destruct (pipe_runs pipe0 false [7; 8; 9] 3 0 pipe0_ok ltac:(lia) ltac:(done)) as [_ (r & s' & E & He)].
  exists r, s'. exact (conj E He).
Defined.

Lemma pipewrite_killed_loses_wakeup_witness :
  ∃ s', pipewrite true (replicate 600 1) 600 0 (set_sleepR 1 pipe0) = Ret (PRet (-1)) s' ∧
    count (pp s') = PIPESIZE ∧ sleepR s' = 1%nat.
Proof.
  apply (pipewrite_killed_loses_wakeup (set_sleepR 1 pipe0) (replicate 600 1) 600 pipe0_ok); [reflexivity|].
  split; [reflexivity|]. rewrite length_replicate. lia.
Defined.
