(* ===== verification/Layout.v ===== *)
(** * The on-disk format (fs.h)

    Little-endian integers inside a block of bytes, and the superblock.  A C
    structure overlaid on [buf->data] is a set of fields at fixed offsets:
    [get_le] reads one, [put_le] stores one, and a store changes no other
    field. *)

From S2P Require Import Prelude.

Local Open Scope Z_scope.

Definition BSIZE : nat := 512.
Definition ROOTINO : Z := 1.

(** ** Little-endian integers *)

Fixpoint le_enc (n : nat) (z : Z) : list Z :=
  match n with O => [] | S n' => u8 z :: le_enc n' (z / 2 ^ 8) end.
Fixpoint le_dec (bs : list Z) : Z :=
  match bs with [] => 0 | b :: bs' => b + 2 ^ 8 * le_dec bs' end.

Definition is_byte (z : Z) : Prop := 0 ≤ z < 2 ^ 8.

Lemma length_le_enc n z : length (le_enc n z) = n.
Proof. revert z. induction n; intros z; simpl; auto. Qed.

Lemma le_enc_bytes n z : Forall is_byte (le_enc n z).
Proof.
  revert z. induction n as [|n IH]; intros z; simpl; constructor; [|apply IH].
  unfold is_byte, u8. apply Z.mod_pos_bound. lia.
Qed.

Lemma pow_S n : 2 ^ (8 * Z.of_nat (S n)) = 2 ^ 8 * 2 ^ (8 * Z.of_nat n).
Proof. rewrite <- Z.pow_add_r by lia. f_equal. lia. Qed.

Lemma le_dec_enc n z : le_dec (le_enc n z) = z `mod` 2 ^ (8 * Z.of_nat n).
Proof.
  revert z. induction n as [|n IH]; intros z; simpl le_dec; [by rewrite Z.mod_1_r|].
  rewrite IH, pow_S. unfold u8. rewrite (Z.rem_mul_r z (2 ^ 8)) by lia. lia.
Qed.

Lemma le_dec_range bs : Forall is_byte bs → 0 ≤ le_dec bs < 2 ^ (8 * Z.of_nat (length bs)).
Proof.
  induction 1 as [|b bs Hb _ IH]; simpl length; [simpl; lia|]. rewrite pow_S. unfold is_byte in Hb. simpl le_dec. lia.
Qed.

Lemma le_enc_dec bs : Forall is_byte bs → le_enc (length bs) (le_dec bs) = bs.
Proof.
  induction 1 as [|b bs Hb _ IH]; [done|]. simpl le_dec. simpl length. simpl le_enc. unfold is_byte, u8 in *.
  f_equal; [zlia|]. replace ((b + 2 ^ 8 * le_dec bs) / 2 ^ 8) with (le_dec bs) by zlia. done.
Qed.

(** ** Fields of a block *)

Definition slice (off n : nat) (d : list Z) : list Z := take n (drop off d).
Definition splice (off : nat) (bs d : list Z) : list Z := take off d ++ bs ++ drop (off + length bs) d.

Definition get_le (off n : nat) (d : list Z) : Z := le_dec (slice off n d).
Definition put_le (off n : nat) (z : Z) (d : list Z) : list Z := splice off (le_enc n z) d.

Lemma length_splice off bs d : (off + length bs ≤ length d)%nat → length (splice off bs d) = length d.
Proof. intros H. unfold splice. rewrite !length_app, length_take, length_drop. lia. Qed.

Lemma slice_splice_eq off bs d : (off + length bs ≤ length d)%nat → slice off (length bs) (splice off bs d) = bs.
Proof.
  intros H. unfold slice, splice. rewrite drop_app_ge by (rewrite length_take; lia).
  rewrite length_take, Nat.min_l, Nat.sub_diag by lia. rewrite drop_0, take_app_le, take_ge by lia. done.
Qed.

Lemma slice_splice_ne off bs d off' n :
  (off + length bs ≤ length d)%nat → (off' + n ≤ off ∨ off + length bs ≤ off')%nat →
  slice off' n (splice off bs d) = slice off' n d.
Proof.
  intros H Hd. apply list_eq. intros i. unfold slice, splice.
  destruct (decide (i < n)%nat) as [Hi|Hi]; [|rewrite !lookup_take_ge by lia; done].
  rewrite !lookup_take_lt, !lookup_drop by lia. destruct Hd as [Hd|Hd].
  - rewrite lookup_app_l by (rewrite length_take; lia). by rewrite lookup_take_lt by lia.
  - rewrite lookup_app_r by (rewrite length_take; lia). rewrite length_take, Nat.min_l by lia.
    rewrite lookup_app_r by lia. rewrite lookup_drop. f_equal. lia.
Qed.

Lemma length_put_le off n z d : (off + n ≤ length d)%nat → length (put_le off n z d) = length d.
Proof. intros H. apply length_splice. by rewrite length_le_enc. Qed.

Lemma get_put_eq off n z d : (off + n ≤ length d)%nat → get_le off n (put_le off n z d) = z `mod` 2 ^ (8 * Z.of_nat n).
Proof.
  intros H. unfold get_le, put_le. rewrite <- le_dec_enc. f_equal.
  rewrite <- (length_le_enc n z) at 1. apply slice_splice_eq. by rewrite length_le_enc.
Qed.

Lemma get_put_ne off n z d off' n' :
  (off + n ≤ length d)%nat → (off' + n' ≤ off ∨ off + n ≤ off')%nat → get_le off' n' (put_le off n z d) = get_le off' n' d.
Proof. intros H Hd. unfold get_le, put_le. rewrite slice_splice_ne; [done|..]; by rewrite length_le_enc. Qed.

Lemma Forall_splice (P : Z → Prop) off bs d : Forall P bs → Forall P d → Forall P (splice off bs d).
Proof. intros H1 H2. unfold splice. apply Forall_app. split; [by apply Forall_take|]. apply Forall_app. split; [done|by apply Forall_drop]. Qed.

(** A block: BSIZE bytes. *)
Definition block (d : list Z) : Prop := length d = BSIZE ∧ Forall is_byte d.

Lemma block_put off n z d : (off + n ≤ BSIZE)%nat → block d → block (put_le off n z d).
Proof.
  intros H [Hl Hb]. split; [rewrite length_put_le; lia|]. apply Forall_splice; [apply le_enc_bytes|done].
Qed.

(** ** The superblock *)

Record superblock := mkSb {
  sb_size : Z; sb_nblocks : Z; sb_ninodes : Z; sb_nlog : Z; sb_logstart : Z; sb_inodestart : Z; sb_bmapstart : Z
}.

(** [memmove(sb, bp->data, sizeof( *sb))] *)
Definition decode_sb (d : list Z) : superblock :=
  mkSb (get_le 0 4 d) (get_le 4 4 d) (get_le 8 4 d) (get_le 12 4 d) (get_le 16 4 d) (get_le 20 4 d) (get_le 24 4 d).

(** ** Inodes and directory entries *)

Definition NDIRECT : nat := 10.
Definition NINDIRECT : nat := BSIZE / 4.
Definition MAXFILE : nat := NDIRECT + NINDIRECT.
Definition sizeof_dinode : nat := 64.
Definition IPB : nat := BSIZE / sizeof_dinode.
Definition IBLOCK (i : Z) (sb : superblock) : Z := i / Z.of_nat IPB + sb_inodestart sb.
Definition BPB : nat := BSIZE * 8.
Definition BBLOCK (b : Z) (sb : superblock) : Z := b / Z.of_nat BPB + sb_bmapstart sb.
Definition DIRSIZ : nat := 14.
Definition sizeof_dirent : nat := 16.

Definition T_DIR : Z := 1.
Definition T_FILE : Z := 2.
Definition T_DEV : Z := 3.

(** [struct dinode]; [mode] as the integer of its union. *)
Record dinode := mkDinode {
  d_type : Z; d_major : Z; d_minor : Z; d_nlink : Z; d_uid : Z; d_gid : Z; d_mode : Z; d_size : Z;
  d_addrs : list Z      (* uint addrs[NDIRECT+1] *)
}.

(** The dinode at byte [o] of a block: four shorts, two ushorts, then words. *)
Definition decode_dinode (o : nat) (d : list Z) : dinode :=
  mkDinode (i16 (get_le o 2 d)) (i16 (get_le (o + 2) 2 d)) (i16 (get_le (o + 4) 2 d)) (i16 (get_le (o + 6) 2 d))
    (get_le (o + 8) 2 d) (get_le (o + 10) 2 d) (get_le (o + 12) 4 d) (get_le (o + 16) 4 d)
    ((λ i, get_le (o + 20 + 4 * i) 4 d) <$> seq 0 (S NDIRECT)).

Fixpoint put_words (o : nat) (ws : list Z) (d : list Z) : list Z :=
  match ws with
  | [] => d
  | w :: ws' => put_words (o + 4) ws' (put_le o 4 w d)
  end.

Definition encode_dinode (o : nat) (x : dinode) (d : list Z) : list Z :=
  let d := put_le o 2 (d_type x) d in
  let d := put_le (o + 2) 2 (d_major x) d in
  let d := put_le (o + 4) 2 (d_minor x) d in
  let d := put_le (o + 6) 2 (d_nlink x) d in
  let d := put_le (o + 16) 4 (d_size x) d in
  let d := put_le (o + 8) 2 (d_uid x) d in
  let d := put_le (o + 10) 2 (d_gid x) d in
  let d := put_le (o + 12) 4 (d_mode x) d in
  put_words (o + 20) (d_addrs x) d.

(** [struct dirent] *)
Record dirent := mkDirent { de_inum : Z; de_name : list Z }.
Definition decode_dirent (d : list Z) : dirent := mkDirent (get_le 0 2 d) (slice 2 DIRSIZ d).
Definition encode_dirent (e : dirent) : list Z := le_enc 2 (de_inum e) ++ de_name e.
