(* ===== verification/Bio.v ===== *)
(** * The buffer cache and the disk (bio.c, ide.c, buf.h)

    NBUF buffers on a doubly linked list through [prev] and [next], most
    recently used first, and two disks of 512-byte blocks behind an IDE
    controller.  [iderw] appends the buffer to [idequeue] and starts the disk
    when the buffer is first; the controller's registers name the drive and
    the sector, and the interrupt handler completes the first request and
    starts the next.  [writes] records every block the disk was given, in
    order: a crash leaves the disk with a prefix of them.  The routines run
    inside bcache.lock and idelock; a sleep for the disk is the delivery of
    its interrupts. *)

From S2P Require Import Prelude Layout.

Local Open Scope Z_scope.

(** [b->dev = -1] *)
Definition NODEV : Z := 0xffffffff.
(** [&bcache.head]: the buffers are 0, ..., NBUF-1. *)
Definition HEAD : nat := NBUF.

(** [struct buf]; its flags B_BUSY, B_VALID and B_DIRTY. *)
Record buf := mkBuf {
  busy : bool;
  valid : bool;
  dirty : bool;
  dev : Z;
  blockno : Z;
  data : list Z        (* uchar data[BSIZE] *)
}.

Definition set_busy (v : bool) (b : buf) : buf := mkBuf v (valid b) (dirty b) (dev b) (blockno b) (data b).
Definition set_valid (v : bool) (b : buf) : buf := mkBuf (busy b) v (dirty b) (dev b) (blockno b) (data b).
Definition set_dirty (v : bool) (b : buf) : buf := mkBuf (busy b) (valid b) v (dev b) (blockno b) (data b).
Definition set_dev (v : Z) (b : buf) : buf := mkBuf (busy b) (valid b) (dirty b) v (blockno b) (data b).
Definition set_blockno (v : Z) (b : buf) : buf := mkBuf (busy b) (valid b) (dirty b) (dev b) v (data b).
Definition set_data (v : list Z) (b : buf) : buf := mkBuf (busy b) (valid b) (dirty b) (dev b) (blockno b) v.

(** [bcache] with its links, and the disk. *)
Record bst := mkBst {
  bufs : list buf;
  bnext : nat → nat;
  bprev : nat → nat;
  disk : Z → Z → list Z;                  (* device, block number *)
  havedisk1 : bool;
  idequeue : list nat;                    (* through qnext *)
  ideregs : list Z;                       (* ports 0x1f3 to 0x1f6 *)
  writes : list (Z * Z * list Z)          (* ghost *)
}.

Definition set_bufs (v : list buf) (s : bst) : bst :=
  mkBst v (bnext s) (bprev s) (disk s) (havedisk1 s) (idequeue s) (ideregs s) (writes s).
Definition set_bnext (v : nat → nat) (s : bst) : bst :=
  mkBst (bufs s) v (bprev s) (disk s) (havedisk1 s) (idequeue s) (ideregs s) (writes s).
Definition set_bprev (v : nat → nat) (s : bst) : bst :=
  mkBst (bufs s) (bnext s) v (disk s) (havedisk1 s) (idequeue s) (ideregs s) (writes s).
Definition set_idequeue (v : list nat) (s : bst) : bst :=
  mkBst (bufs s) (bnext s) (bprev s) (disk s) (havedisk1 s) v (ideregs s) (writes s).
Definition set_ideregs (v : list Z) (s : bst) : bst :=
  mkBst (bufs s) (bnext s) (bprev s) (disk s) (havedisk1 s) (idequeue s) v (writes s).
(** The disk stores a block. *)
Definition disk_write (d n : Z) (v : list Z) (s : bst) : bst :=
  mkBst (bufs s) (bnext s) (bprev s) (<[d := <[n := v]> (disk s d)]> (disk s)) (havedisk1 s)
    (idequeue s) (ideregs s) (writes s ++ [(d, n, v)]).

Definition getb (b : nat) : M bst buf := lookupM (λ s, bufs s !! b).
Definition setb (b : nat) (f : buf → buf) : M bst unit :=
  x ← getb b; modify (λ s, set_bufs (<[b := f x]> (bufs s)) s).
Definition setnext (b v : nat) : M bst unit := modify (λ s, set_bnext (<[b := v]> (bnext s)) s).
Definition setprev (b v : nat) : M bst unit := modify (λ s, set_bprev (<[b := v]> (bprev s)) s).

(** ** ide.c *)

Definition SECTOR_SIZE : nat := 512.

(** The sector number and drive that [idestart] writes to the ports. *)
Definition ide_request (x : buf) : list Z :=
  let sector := blockno x * Z.of_nat (BSIZE / SECTOR_SIZE) in
  [Z.land sector 0xff; Z.land (Z.shiftr sector 8) 0xff; Z.land (Z.shiftr sector 16) 0xff;
   Z.lor (Z.lor 0xe0 (Z.shiftl (Z.land (dev x) 1) 4)) (Z.land (Z.shiftr sector 24) 0x0f)].

(** What the controller reads from them: 28-bit LBA, drive bit. *)
Definition ide_sector (r : list Z) : Z :=
  match r with
  | [a; b; c; e] => a + Z.shiftl b 8 + Z.shiftl c 16 + Z.shiftl (Z.land e 0x0f) 24
  | _ => 0
  end.
Definition ide_drive (r : list Z) : Z :=
  match r with [a; b; c; e] => Z.land (Z.shiftr e 4) 1 | _ => 0 end.

#[global] Arguments ide_request : simpl never.
#[global] Arguments ide_sector : simpl never.
#[global] Arguments ide_drive : simpl never.

(** The data of a write is given to the disk when it is started ([outsl]). *)
Definition idestart (b : nat) : M bst unit :=
  x ← getb b;
  if decide (FSSIZE ≤ blockno x) then panic "incorrect blockno" else
  if decide (7 < BSIZE / SECTOR_SIZE)%nat then panic "idestart" else
  modify (set_ideregs (ide_request x));;
  if dirty x then modify (λ s, disk_write (ide_drive (ideregs s)) (ide_sector (ideregs s)) (data x) s)
  else mret tt.

(** The data of a read arrives with the interrupt ([insl]). *)
Definition ideintr : M bst unit :=
  q ← gets idequeue;
  match q with
  | [] => mret tt
  | b :: q' =>
      modify (set_idequeue q');;
      x ← getb b;
      (if dirty x then mret tt else
         v ← gets (λ s, disk s (ide_drive (ideregs s)) (ide_sector (ideregs s)));
         setb b (set_data v));;
      setb b (set_valid true);;
      setb b (set_dirty false);;
      q' ← gets idequeue;
      match q' with [] => mret tt | b' :: _ => idestart b' end
  end.

(** [while((b->flags & (B_VALID|B_DIRTY)) != B_VALID) sleep(b, &idelock);] *)
Fixpoint ide_sleep (fuel : nat) (b : nat) : M bst unit :=
  x ← getb b;
  if valid x && negb (dirty x) then mret tt else
  match fuel with O => diverge | S f => ideintr;; ide_sleep f b end.

#[global] Arguments ide_sleep : simpl never.

Definition iderw (b : nat) : M bst unit :=
  x ← getb b;
  if negb (busy x) then panic "iderw: buf not busy" else
  if valid x && negb (dirty x) then panic "iderw: nothing to do" else
  hd1 ← gets havedisk1;
  if bool_decide (dev x ≠ 0) && negb hd1 then panic "iderw: ide disk 1 not present" else
  modify (λ s, set_idequeue (idequeue s ++ [b]) s);;
  q ← gets idequeue;
  (if decide (head q = Some b) then idestart b else mret tt);;
  ide_sleep (S NBUF) b.

(** ** bio.c *)

Fixpoint binit_loop (bs : list nat) : M bst unit :=
  match bs with
  | [] => mret tt
  | b :: bs' =>
      n ← gets (λ s, bnext s HEAD);
      setnext b n;;
      setprev b HEAD;;
      setb b (set_dev NODEV);;
      n ← gets (λ s, bnext s HEAD);
      setprev n b;;
      setnext HEAD b;;
      binit_loop bs'
  end.

Definition binit : M bst unit :=
  setprev HEAD HEAD;;
  setnext HEAD HEAD;;
  binit_loop (seq 0 NBUF).

(** [for(b = step(head); b != &bcache.head; b = step(b)) if(test) return b;] *)
Fixpoint bscan (fuel : nat) (step : bst → nat → nat) (b : nat) (test : buf → bool) : M bst (option nat) :=
  if decide (b = HEAD) then mret None else
  match fuel with
  | O => diverge
  | S f =>
      x ← getb b;
      if test x then mret (Some b) else n ← gets (λ s, step s b); bscan f step n test
  end.

Definition is_block (d n : Z) (x : buf) : bool := bool_decide (dev x = d ∧ blockno x = n).
Definition is_clean (x : buf) : bool := negb (busy x) && negb (dirty x).

(** [bget] until it returns a buffer or, with [None], sleeps on a busy one. *)
Definition bget (d n : Z) : M bst (option nat) :=
  h ← gets (λ s, bnext s HEAD);
  r ← bscan NBUF bnext h (is_block d n);
  match r with
  | Some b =>
      x ← getb b;
      if busy x then mret None else setb b (set_busy true);; mret (Some b)
  | None =>
      h ← gets (λ s, bprev s HEAD);
      r ← bscan NBUF bprev h is_clean;
      match r with
      | Some b =>
          setb b (set_dev d);;
          setb b (set_blockno n);;
          setb b (λ x, mkBuf true false false (dev x) (blockno x) (data x));;
          mret (Some b)
      | None => panic "bget: no buffers"
      end
  end.

Definition bread (d n : Z) : M bst (option nat) :=
  r ← bget d n;
  match r with
  | None => mret None
  | Some b =>
      x ← getb b;
      (if valid x then mret tt else iderw b);;
      mret (Some b)
  end.

Definition bwrite (b : nat) : M bst unit :=
  x ← getb b;
  if negb (busy x) then panic "bwrite" else
  setb b (set_dirty true);;
  iderw b.

Definition brelse (b : nat) : M bst unit :=
  x ← getb b;
  if negb (busy x) then panic "brelse" else
  n ← gets (λ s, bnext s b);
  p ← gets (λ s, bprev s b);
  setprev n p;;                            (* b->next->prev = b->prev *)
  p ← gets (λ s, bprev s b);
  n ← gets (λ s, bnext s b);
  setnext p n;;                            (* b->prev->next = b->next *)
  h ← gets (λ s, bnext s HEAD);
  setnext b h;;
  setprev b HEAD;;
  h ← gets (λ s, bnext s HEAD);
  setprev h b;;
  setnext HEAD b;;
  setb b (set_busy false).

(** ** The list *)

(** [l] lies between [a] and [e] along the links [f]. *)
Fixpoint seg (f : nat → nat) (a : nat) (l : list nat) (e : nat) : Prop :=
  match l with
  | [] => f a = e
  | x :: l' => f a = x ∧ seg f x l' e
  end.

Lemma seg_ext f g a l e : seg f a l e → (∀ x, x ∈ a :: l → g x = f x) → seg g a l e.
Proof.
  revert a. induction l as [|x l IH]; intros a; simpl.
  - intros <- Hx. apply Hx. set_solver.
  - intros [<- Hs] Hx. split; [apply Hx; set_solver|]. apply IH; [done|]. intros y Hy. apply Hx. set_solver.
Qed.

Lemma seg_app f a l1 x l2 e : seg f a (l1 ++ x :: l2) e ↔ seg f a l1 x ∧ seg f x l2 e.
Proof.
  revert a. induction l1 as [|y l1 IH]; intros a; simpl; [done|]. rewrite IH. tauto.
Qed.

(** The last element of [a :: l]. *)
Fixpoint lst (l : list nat) (a : nat) : nat :=
  match l with [] => a | x :: l' => lst l' x end.

Lemma lst_elem l a : lst l a ∈ a :: l.
Proof. revert a. induction l as [|x l IH]; intros a; simpl; [set_solver|]. specialize (IH x). set_solver. Qed.

Lemma lst_app l1 x l2 a : lst (l1 ++ x :: l2) a = lst l2 x.
Proof. revert a. induction l1; intros; simpl; auto. Qed.

Lemma seg_unlink f a l1 b l2 e :
  seg f a (l1 ++ b :: l2) e → NoDup (a :: l1 ++ b :: l2) → seg (<[lst l1 a := f b]> f) a (l1 ++ l2) e.
Proof.
  revert a. induction l1 as [|x l1 IH]; intros a; simpl.
  - intros [Hb Hs] Hnd. apply NoDup_cons in Hnd as [Ha Hnd]. apply NoDup_cons in Hnd as [Hb' Hnd].
    destruct l2 as [|y l2]; simpl in *; rewrite fn_insert_dec, decide_True by done; [done|].
    destruct Hs as [Hy Hs]. split; [done|]. eapply seg_ext; [exact Hs|].
    intros z Hz. rewrite fn_insert_dec, decide_False by set_solver. done.
  - intros [Hx Hs] Hnd. apply NoDup_cons in Hnd as [Ha Hnd]. split; [|by apply IH].
    rewrite fn_insert_dec, decide_False; [done|]. intros Hc. pose proof (lst_elem l1 x) as He.
    rewrite Hc in He. set_solver.
Qed.

Lemma seg_push f a l e b :
  seg f a l e → b ∉ a :: l → NoDup (a :: l) → seg (<[a := b]> (<[b := f a]> f)) a (b :: l) e.
Proof.
  intros Hs Hb Hnd. simpl. rewrite fn_insert_dec, decide_True by done. split; [done|].
  apply NoDup_cons in Hnd as [Ha Hnd].
  destruct l as [|x l]; simpl in *.
  - rewrite !fn_insert_dec, decide_False, decide_True by set_solver. done.
  - destruct Hs as [Hx Hs]. rewrite !fn_insert_dec, decide_False, decide_True by set_solver. split; [done|].
    eapply seg_ext; [exact Hs|]. intros z Hz. rewrite !fn_insert_dec, !decide_False by set_solver. done.
Qed.

Lemma seg_snoc f a l e b :
  seg f a l e → b ∉ a :: l → NoDup (a :: l) → seg (<[lst l a := b]> (<[b := e]> f)) a (l ++ [b]) e.
Proof.
  revert a. induction l as [|x l IH]; intros a Hs Hb Hnd; simpl in *.
  - rewrite !fn_insert_dec, decide_True by done. split; [done|].
    rewrite !decide_False, decide_True by set_solver. done.
  - destruct Hs as [Hx Hs]. apply NoDup_cons in Hnd as [Ha Hnd]. split; [|apply IH; set_solver].
    pose proof (lst_elem l x) as He. rewrite !fn_insert_dec, !decide_False; [done|set_solver|].
    intros Hc. rewrite Hc in He. set_solver.
Qed.

(** The list of all buffers, most recently used first. *)
Record circ (s : bst) (l : list nat) : Prop := {
  ci_next : seg (bnext s) HEAD l HEAD;
  ci_prev : seg (bprev s) HEAD (reverse l) HEAD;
  ci_nodup : NoDup l;
  ci_all b : b ∈ l ↔ (b < NBUF)%nat
}.

Lemma seg_lst f a l e : seg f a l e → f (lst l a) = e.
Proof. revert a. induction l as [|x l IH]; intros a; simpl; [done|]. intros [_ Hs]. by apply IH. Qed.

(** The neighbours of [b] in the list. *)
Lemma seg_at f a l1 b l2 e : seg f a (l1 ++ b :: l2) e → f b = match l2 with [] => e | x :: _ => x end.
Proof. rewrite seg_app. intros [_ Hs]. destruct l2; simpl in Hs; tauto. Qed.

Lemma lst_reverse l a : lst (reverse l) a = match l with [] => a | x :: _ => x end.
Proof. destruct l as [|x l]; [done|]. by rewrite reverse_cons, lst_app. Qed.
Lemma reverse_hd l a : match reverse l with [] => a | x :: _ => x end = lst l a.
Proof. rewrite <- (reverse_involutive l) at 2. by rewrite lst_reverse. Qed.

(** Take [b] out, put it in front: the links of [brelse]. *)
Definition relink_next (b : nat) (s : bst) : nat → nat :=
  let f1 := <[bprev s b := bnext s b]> (bnext s) in
  <[HEAD := b]> (<[b := f1 HEAD]> f1).
Definition relink_prev (b : nat) (s : bst) : nat → nat :=
  let f1 := <[bprev s b := bnext s b]> (bnext s) in
  let g1 := <[bnext s b := bprev s b]> (bprev s) in
  <[f1 HEAD := b]> (<[b := HEAD]> g1).

Lemma NoDup_HEAD s l : circ s l → NoDup (HEAD :: l).
Proof.
  intros HC. constructor; [|apply (ci_nodup _ _ HC)]. rewrite (ci_all _ _ HC). unfold HEAD. lia.
Qed.

Lemma circ_brelse s l1 b l2 :
  circ s (l1 ++ b :: l2) →
  seg (relink_next b s) HEAD (b :: l1 ++ l2) HEAD ∧
  seg (relink_prev b s) HEAD (reverse (b :: l1 ++ l2)) HEAD.
Proof.
  intros HC. pose proof (NoDup_HEAD _ _ HC) as Hnd. destruct HC as [Hn Hp _ _].
  assert (reverse (l1 ++ b :: l2) = reverse l2 ++ b :: reverse l1) as Er.
  { rewrite reverse_app, reverse_cons, <- app_assoc. done. }
  rewrite Er in Hp.
  assert (bprev s b = lst l1 HEAD) as Ep by (rewrite (seg_at _ _ _ _ _ _ Hp); apply reverse_hd).
  pose proof (seg_at _ _ _ _ _ _ Hn) as En.
  assert (NoDup (HEAD :: reverse l2 ++ b :: reverse l1)) as Hnd'.
  { rewrite <- Er. by rewrite reverse_Permutation. }
  pose proof (seg_unlink _ _ _ _ _ _ Hn Hnd) as Hn1. rewrite <- Ep in Hn1.
  pose proof (seg_unlink _ _ _ _ _ _ Hp Hnd') as Hp1.
  rewrite (lst_reverse l2 HEAD), <- En, <- reverse_app in Hp1.
  assert (b ∉ HEAD :: l1 ++ l2 ∧ NoDup (HEAD :: l1 ++ l2)) as [Hb Hnd1].
  { rewrite <- Permutation_middle in Hnd. apply NoDup_cons in Hnd as [H1 H2]. apply NoDup_cons in H2 as [H2 H3].
    split; [set_solver|]. constructor; set_solver. }
  split; [by apply seg_push|]. rewrite reverse_cons.
  assert ((<[bprev s b := bnext s b]> (bnext s)) HEAD = lst (reverse (l1 ++ l2)) HEAD) as E.
  { rewrite lst_reverse. destruct (l1 ++ l2) as [|x l]; simpl in Hn1; [done|]. by destruct Hn1 as [-> _]. }
  unfold relink_prev. rewrite E. apply seg_snoc; [done| |by rewrite reverse_Permutation].
  rewrite elem_of_cons, elem_of_reverse. set_solver.
Qed.

(** ** The invariant of the cache *)

Record CInv (s : bst) (l : list nat) : Prop := {
  cv_circ : circ s l;
  cv_len : length (bufs s) = NBUF;
  cv_uniq i j x y : bufs s !! i = Some x → bufs s !! j = Some y → dev x ≠ NODEV →
    dev x = dev y → blockno x = blockno y → i = j;
  cv_clean i x : bufs s !! i = Some x → valid x = true → dirty x = false → busy x = false →
    data x = disk s (dev x) (blockno x);
  cv_unused i x : bufs s !! i = Some x → dev x = NODEV → busy x = false ∧ valid x = false ∧ dirty x = false;
  cv_dirty i x : bufs s !! i = Some x → dirty x = true → valid x = true;
  cv_range i x : bufs s !! i = Some x → dev x ≠ NODEV → 0 ≤ dev x ≤ 1 ∧ 0 ≤ blockno x < FSSIZE;
  cv_disk : havedisk1 s = true;
  cv_idle : idequeue s = []
}.

(** The buffer of a block, if it is cached. *)
Definition cached (s : bst) (d n : Z) : option (nat * buf) :=
  list_find (λ x, dev x = d ∧ blockno x = n) (bufs s).

Lemma cached_iff s l d n i x :
  CInv s l → d ≠ NODEV → cached s d n = Some (i, x) ↔ bufs s !! i = Some x ∧ dev x = d ∧ blockno x = n.
Proof.
  intros HC Hd. unfold cached. rewrite list_find_Some. split; [tauto|]. intros (Hx & <- & <-).
  split; [done|]. split; [done|]. intros j y Hy Hj [E1 E2].
  assert (j = i) as -> by (eapply (cv_uniq _ _ HC j i y x); congruence). lia.
Qed.

Lemma cached_None s d n i x : cached s d n = None → bufs s !! i = Some x → dev x = d → blockno x ≠ n.
Proof.
  unfold cached. rewrite list_find_None, Forall_lookup. intros Hn Hx Hd E. by apply (Hn i x Hx).
Qed.

(** What the kernel sees of a block, and whether its buffer is dirty, busy. *)
Definition view (s : bst) (d n : Z) : list Z :=
  match cached s d n with
  | Some (_, x) => if valid x then data x else disk s d n
  | None => disk s d n
  end.
Definition dirty_at (s : bst) (d n : Z) : bool := match cached s d n with Some (_, x) => dirty x | None => false end.
Definition busy_at (s : bst) (d n : Z) : bool := match cached s d n with Some (_, x) => busy x | None => false end.

Lemma CInv_insert s l b x x' :
  CInv s l → bufs s !! b = Some x → 0 ≤ dev x' ≤ 1 → 0 ≤ blockno x' < FSSIZE →
  (∀ i y, bufs s !! i = Some y → i ≠ b → dev y = dev x' → blockno y ≠ blockno x') →
  (valid x' = true → dirty x' = false → busy x' = false → data x' = disk s (dev x') (blockno x')) →
  (dirty x' = true → valid x' = true) → CInv (set_bufs (<[b := x']> (bufs s)) s) l.
Proof.
  intros [[H1 H2 H3 H4] Hl Hu Hc Hn Hd Hr Hk Hq] Hx Hdev Hblk Hoth Hcl Hdi.
  assert (dev x' ≠ NODEV) as Hnd by (unfold NODEV; lia).
  assert (∀ i y, <[b := x']> (bufs s) !! i = Some y → (i = b ∧ y = x') ∨ (i ≠ b ∧ bufs s !! i = Some y)) as Hcase.
  { intros i y Hy. destruct (decide (i = b)) as [->|Hne].
    - rewrite list_lookup_insert_eq in Hy by (by eapply lookup_lt_Some). left. by simplify_eq.
    - rewrite list_lookup_insert_ne in Hy by done. by right. }
  split; simpl; try done.
  - by rewrite length_insert.
  - intros i j y z [[-> ->]|[Hi Hy]]%Hcase [[-> ->]|[Hj Hz]]%Hcase Hd' E1 E2; [done| | |by eapply Hu].
    + by destruct (Hoth j z Hz Hj).
    + by destruct (Hoth i y Hy Hi).
  - intros i y [[-> ->]|[Hi Hy]]%Hcase; [done|by apply (Hc i)].
  - intros i y [[-> ->]|[Hi Hy]]%Hcase; [done|by apply (Hn i)].
  - intros i y [[-> ->]|[Hi Hy]]%Hcase; [done|by apply (Hd i)].
  - intros i y [[-> ->]|[Hi Hy]]%Hcase; [done|by apply (Hr i)].
Qed.

Lemma cached_insert s l l' b x x' d n :
  CInv s l → CInv (set_bufs (<[b := x']> (bufs s)) s) l' → bufs s !! b = Some x → d ≠ NODEV →
  cached (set_bufs (<[b := x']> (bufs s)) s) d n =
    if decide (dev x' = d ∧ blockno x' = n) then Some (b, x')
    else if decide (dev x = d ∧ blockno x = n) then None else cached s d n.
Proof.
  intros HC HC' Hx Hd. assert (b < length (bufs s))%nat as Hb by (by eapply lookup_lt_Some).
  case_decide as E.
  { apply (cached_iff _ _ _ _ _ _ HC' Hd). simpl. by rewrite list_lookup_insert_eq. }
  assert (∀ i y, cached (set_bufs (<[b := x']> (bufs s)) s) d n = Some (i, y) → i ≠ b ∧ cached s d n = Some (i, y)) as Hs.
  { intros i y Hy%(cached_iff _ _ _ _ _ _ HC' Hd). simpl in Hy. destruct Hy as (Hy & E1 & E2).
    destruct (decide (i = b)) as [->|Hne].
    - rewrite list_lookup_insert_eq in Hy by done. naive_solver.
    - rewrite list_lookup_insert_ne in Hy by done. split; [done|]. by apply (cached_iff _ _ _ _ _ _ HC Hd). }
  case_decide as E'.
  - destruct (cached (set_bufs _ s) d n) as [[i y]|] eqn:Ey; [|done]. destruct (Hs i y eq_refl) as [Hne Hy].
    apply (cached_iff _ _ _ _ _ _ HC Hd) in Hy as (Hy & E1 & E2). destruct Hne.
    eapply (cv_uniq _ _ HC i b y x); naive_solver congruence.
  - destruct (cached s d n) as [[i y]|] eqn:Ey.
    + apply (cached_iff _ _ _ _ _ _ HC' Hd). apply (cached_iff _ _ _ _ _ _ HC Hd) in Ey as (Hy & E1 & E2). simpl.
      rewrite list_lookup_insert_ne; [done|]. intros ->. naive_solver congruence.
    + destruct (cached (set_bufs _ s) d n) as [[i y]|] eqn:Ey'; [|done]. by destruct (Hs i y eq_refl).
Qed.

(** ** Scans of the list *)

Definition starts (f : nat → nat) (a : nat) (l : list nat) : Prop :=
  match l with [] => a = HEAD | x :: l' => a = x ∧ seg f x l' HEAD end.

Lemma seg_starts f l : seg f HEAD l HEAD → starts f (f HEAD) l.
Proof. destruct l; simpl; [done|]. by intros [-> ?]. Qed.

Lemma bscan_spec s step test : ∀ l fuel a,
  starts (step s) a l → (∀ b, b ∈ l → (b < NBUF)%nat) → length (bufs s) = NBUF → (length l ≤ fuel)%nat →
  ∃ r, bscan fuel step a test s = Ret r s ∧
    match r with
    | Some b => ∃ l1 l2 x, l = l1 ++ b :: l2 ∧ bufs s !! b = Some x ∧ test x = true ∧
        ∀ c y, c ∈ l1 → bufs s !! c = Some y → test y = false
    | None => ∀ c y, c ∈ l → bufs s !! c = Some y → test y = false
    end.
Proof.
  induction l as [|b l IH]; intros fuel a Hs Hb Hl Hf; simpl in Hs.
  { subst a. exists None. split; [by destruct fuel|].
    intros c y Hc. by apply elem_of_nil in Hc. }
  destruct Hs as [-> Hs]. destruct fuel as [|fuel]; [simpl in Hf; lia|]. simpl.
  assert (b < NBUF)%nat as Hlt by (apply Hb; set_solver).
  rewrite decide_False by (unfold HEAD; lia).
  destruct (lookup_lt_is_Some_2 (bufs s) b) as [x Hx]; [lia|].
  unfold getb, lookupM, gets, mbind, M_bind. rewrite Hx. destruct (test x) eqn:Ht.
  - exists (Some b). split; [done|]. exists [], l, x. split; [done|]. split; [done|]. split; [done|].
    intros c y Hc. by apply elem_of_nil in Hc.
  - destruct (IH fuel (step s b)) as (r & -> & Hr); [|set_solver|done|simpl in Hf; lia|].
    { destruct l as [|c l]; simpl in Hs |- *; [done|]. by destruct Hs as [-> ?]. }
    exists r. split; [done|]. destruct r as [c|].
    + destruct Hr as (l1 & l2 & y & -> & Hy & Hty & Hl1). exists (b :: l1), l2, y. split; [done|].
      split; [done|]. split; [done|]. intros e z [->|He]%elem_of_cons Hz; [congruence|by eapply Hl1].
    + intros e z [->|He]%elem_of_cons Hz; [congruence|by eapply Hr].
Qed.

(** ** The operations *)

Lemma wp_getb s b x (Q : buf → bst → Prop) : bufs s !! b = Some x → Q x s → wp (getb b) s Q.
Proof. apply (wp_lookupM (λ s, bufs s !! b)). Qed.

Lemma wp_setb s b f x (Q : unit → bst → Prop) :
  bufs s !! b = Some x → Q tt (set_bufs (<[b := f x]> (bufs s)) s) → wp (setb b f) s Q.
Proof. intros Hx HQ. unfold setb. wp_steps. apply (wp_getb _ _ x); [done|]. by wp_steps. Qed.

Lemma set_bufs_twice a b s : set_bufs a (set_bufs b s) = set_bufs a s.
Proof. done. Qed.

(** Two stores to the same buffer. *)
Lemma wp_setb_again s b f x y (Q : unit → bst → Prop) :
  bufs s !! b = Some y → Q tt (set_bufs (<[b := f x]> (bufs s)) s) →
  wp (setb b f) (set_bufs (<[b := x]> (bufs s)) s) Q.
Proof.
  intros Hy HQ. apply (wp_setb _ _ _ x); [simpl; apply list_lookup_insert_eq; by eapply lookup_lt_Some|].
  simpl. by rewrite list_insert_insert_eq.
Qed.

(** A buffer that can be recycled. *)
Definition room (s : bst) : Prop := ∃ i x, bufs s !! i = Some x ∧ is_clean x = true.

(** The buffer [bread] returns for block [n] of device [d]. *)
Definition held_buf (s : bst) (d n : Z) : buf := mkBuf true true (dirty_at s d n) d n (view s d n).

(** The controller is told the block the driver means. *)
Lemma ide_request_ok x :
  0 ≤ dev x ≤ 1 → 0 ≤ blockno x < FSSIZE →
  ide_drive (ide_request x) = dev x ∧ ide_sector (ide_request x) = blockno x.
Proof.
  intros Hd Hn. unfold FSSIZE in Hn. unfold ide_request. change (Z.of_nat (BSIZE / SECTOR_SIZE)) with 1. rewrite Z.mul_1_r.
  assert (Z.shiftr (blockno x) 24 = 0) as E by (rewrite Z.shiftr_div_pow2 by lia; apply Z.div_small; lia).
  assert (Z.shiftr (blockno x) 16 = 0) as E' by (rewrite Z.shiftr_div_pow2 by lia; apply Z.div_small; lia).
  unfold ide_drive, ide_sector. rewrite E, E'. split.
  - assert (dev x = 0 ∨ dev x = 1) as [->| ->] by lia; reflexivity.
  - assert (Z.land (Z.lor (Z.lor 224 (Z.shiftl (Z.land (dev x) 1) 4)) (Z.land 0 15)) 15 = 0) as ->
      by (assert (dev x = 0 ∨ dev x = 1) as [->| ->] by lia; reflexivity).
    change 255 with (Z.ones 8). rewrite !Z.land_ones, Z.shiftr_div_pow2, !Z.shiftl_mul_pow2 by lia.
    change (Z.land 0 (Z.ones 8)) with 0. zlia.
Qed.

Lemma wp_ide_sleep_done fuel s b x (Q : unit → bst → Prop) :
  bufs s !! b = Some x → valid x = true → dirty x = false → Q tt s → wp (ide_sleep fuel b) s Q.
Proof.
  intros Hx Hv Hd HQ. destruct fuel; unfold ide_sleep; wp_steps; (apply (wp_getb _ _ x); [done|]); by rewrite Hv, Hd.
Qed.

Lemma wp_ide_sleep_wait fuel s b x (Q : unit → bst → Prop) :
  bufs s !! b = Some x → valid x && negb (dirty x) = false → wp ideintr s (λ _ s', wp (ide_sleep fuel b) s' Q) →
  wp (ide_sleep (S fuel) b) s Q.
Proof. intros Hx Hv HQ. unfold ide_sleep; fold ide_sleep. wp_steps. apply (wp_getb _ _ x); [done|]. rewrite Hv. by wp_steps. Qed.

(** The interrupt that completes the only request. *)
Lemma wp_ideintr_one s b x (Q : unit → bst → Prop) :
  bufs s !! b = Some x → idequeue s = [b] → ideregs s = ide_request x → 0 ≤ dev x ≤ 1 → 0 ≤ blockno x < FSSIZE →
  (let v := if dirty x then data x else disk s (dev x) (blockno x) in
   Q tt (set_idequeue [] (set_bufs (<[b := mkBuf (busy x) true false (dev x) (blockno x) v]> (bufs s)) s))) →
  wp ideintr s Q.
Proof.
  intros Hx Hq Hrg Hd Hr HQ. destruct (ide_request_ok x Hd Hr) as [Edr Ese].
  unfold ideintr. wp_steps. rewrite Hq. wp_steps. apply (wp_getb _ _ x); [done|].
  destruct (dirty x) eqn:Hdt; wp_steps.
  - apply (wp_setb _ _ _ x); [done|]. wp_steps. apply (wp_setb_again (set_idequeue [] s) _ _ _ x); [done|]. wp_steps.
    destruct x. simpl in *. by subst.
  - apply (wp_setb _ _ _ x); [done|]. wp_steps. apply (wp_setb_again (set_idequeue [] s) _ _ _ x); [done|]. wp_steps.
    apply (wp_setb_again (set_idequeue [] s) _ _ _ x); [done|]. wp_steps.
    cbn [ideregs set_idequeue disk]. rewrite Hrg, Edr, Ese. destruct x. simpl in *. by subst.
Qed.

Lemma iderw_run s b x (Q : unit → bst → Prop) :
  bufs s !! b = Some x → busy x = true → valid x && negb (dirty x) = false → 0 ≤ dev x ≤ 1 → 0 ≤ blockno x < FSSIZE →
  havedisk1 s = true → idequeue s = [] →
  (let s1 := if dirty x then disk_write (dev x) (blockno x) (data x) s else s in
   let v := if dirty x then data x else disk s (dev x) (blockno x) in
   Q tt (set_ideregs (ide_request x) (set_bufs (<[b := mkBuf true true false (dev x) (blockno x) v]> (bufs s)) s1))) →
  wp (iderw b) s Q.
Proof.
  intros Hx Hb Hv Hd Hr Hk Hq HQ. destruct (ide_request_ok x Hd Hr) as [Edr Ese].
  assert (b < length (bufs s))%nat as Hlt by (by eapply lookup_lt_Some).
  unfold iderw, idestart. wp_steps. apply (wp_getb _ _ x); [done|]. rewrite Hb, Hv. cbn [negb]. wp_steps.
  rewrite Hk, andb_false_r. wp_steps. cbn [idequeue set_idequeue]. rewrite Hq. cbn [app head].
  rewrite decide_True by done. wp_steps. apply (wp_getb _ _ x); [done|]. rewrite decide_False by lia.
  rewrite decide_False by (vm_compute; lia). wp_steps.
  destruct s as [bs nx pv dk hd q rg ws]. simpl in *. subst q hd.
  destruct (dirty x) eqn:Hdt; wp_steps; (apply (wp_ide_sleep_wait _ _ _ x); [done|by rewrite Hdt|]).
  all: apply (wp_ideintr_one _ b x); try done; rewrite Hdt; cbn [bufs set_bufs disk_write].
  all: eapply wp_ide_sleep_done; [apply (list_lookup_insert_eq bs b); exact Hlt|done|done|].
  all: simpl; rewrite Hb; simpl; rewrite ?Edr, ?Ese; exact HQ.
Qed.

Lemma scan_all s l (test : buf → bool) :
  CInv s l → (∀ c y, c ∈ l → bufs s !! c = Some y → test y = false) →
  ∀ i y, bufs s !! i = Some y → test y = false.
Proof.
  intros HC Hn i y Hy. eapply Hn; [|done]. apply (ci_all _ _ (cv_circ _ _ HC)).
  rewrite <- (cv_len _ _ HC). by eapply lookup_lt_Some.
Qed.

Lemma circ_length s l : circ s l → (length l ≤ NBUF)%nat.
Proof. intros HC. apply NoDup_bounded_length; [apply HC|]. intros p. apply (ci_all _ _ HC). Qed.

Lemma wp_bscan s l step test (Q : option nat → bst → Prop) :
  CInv s l → (step = bnext ∧ seg (step s) HEAD l HEAD ∨ step = bprev ∧ seg (step s) HEAD (reverse l) HEAD) →
  (∀ b x, bufs s !! b = Some x → test x = true → Q (Some b) s) →
  ((∀ i y, bufs s !! i = Some y → test y = false) → Q None s) →
  wp (bscan NBUF step (step s HEAD) test) s Q.
Proof.
  intros HC Hst HS HN. pose proof (cv_circ _ _ HC) as Hci.
  assert (∃ k, seg (step s) HEAD k HEAD ∧ (∀ b, b ∈ k ↔ (b < NBUF)%nat) ∧ (length k ≤ NBUF)%nat) as (k & Hk & Hall & Hlen).
  { destruct Hst as [[_ ?]|[_ ?]]; [exists l|exists (reverse l)]; (split; [done|]); (split; [|]).
    - apply (ci_all _ _ Hci).
    - by apply (circ_length s).
    - intros b. rewrite elem_of_reverse. apply (ci_all _ _ Hci).
    - rewrite length_reverse. by apply (circ_length s). }
  destruct (bscan_spec s step test k NBUF (step s HEAD)) as (r & E & Hr);
    [by apply seg_starts|intros b; apply Hall|apply HC|done|].
  eapply wp_Ret; [exact E|]. destruct r as [b|].
  - destruct Hr as (l1 & l2 & x & _ & Hx & Ht & _). by apply (HS b x).
  - apply HN. intros i y Hy. eapply Hr; [|done]. apply Hall. rewrite <- (cv_len _ _ HC). by eapply lookup_lt_Some.
Qed.

Lemma view_cached s l d n i x :
  CInv s l → d ≠ NODEV → bufs s !! i = Some x → dev x = d → blockno x = n →
  view s d n = (if valid x then data x else disk s d n) ∧ dirty_at s d n = dirty x ∧ busy_at s d n = busy x.
Proof.
  intros HC Hd Hx E1 E2. unfold view, dirty_at, busy_at.
  by rewrite (proj2 (cached_iff s l d n i x HC Hd)).
Qed.

Lemma bread_spec s l d n :
  CInv s l → 0 ≤ d ≤ 1 → 0 ≤ n < FSSIZE → busy_at s d n = false → (is_Some (cached s d n) ∨ room s) →
  wp (bread d n) s (λ r s', ∃ b x rg, r = Some b ∧ bufs s !! b = Some x ∧ busy x = false ∧
    ((dev x = d ∧ blockno x = n) ∨ (cached s d n = None ∧ dirty x = false)) ∧
    s' = set_ideregs rg (set_bufs (<[b := held_buf s d n]> (bufs s)) s)).
Proof.
  intros HC Hd01 Hr Hb Hroom. assert (d ≠ NODEV) as Hd by (unfold NODEV; lia).
  pose proof (cv_circ _ _ HC) as Hci. unfold bread, bget. wp_steps.
  apply (wp_bscan s l bnext); [done|left; split; [done|apply Hci]| |].
  - intros b x Hx Ht. apply bool_decide_eq_true in Ht as [E1 E2].
    destruct (view_cached s l d n b x HC Hd Hx E1 E2) as (Ev & Edt & Ebz). rewrite Hb in Ebz.
    wp_steps. apply (wp_getb _ _ x); [done|]. rewrite <- Ebz. wp_steps. apply (wp_setb _ _ _ x); [done|]. wp_steps.
    eapply wp_getb; [simpl; apply list_lookup_insert_eq; by eapply lookup_lt_Some|]. simpl.
    destruct (valid x) eqn:Hv.
    + wp_steps. exists b, x, (ideregs s). split; [done|]. split; [done|]. split; [done|]. split; [by left|].
      unfold set_ideregs, set_bufs. simpl. f_equal. f_equal. unfold held_buf. rewrite Ev, Edt. destruct x. simpl in *. by subst.
    + assert (dirty x = false) as Hdt.
      { destruct (dirty x) eqn:Hdt; [|done]. rewrite (cv_dirty _ _ HC b x Hx Hdt) in Hv. done. }
      wp_steps. apply (iderw_run _ b (set_busy true x)); simpl; try (by subst); try apply HC.
      * apply list_lookup_insert_eq. by eapply lookup_lt_Some.
      * by rewrite Hv.
      * rewrite Hdt. wp_steps. eexists b, x, _. do 3 (split; [done|]). split; [by left|].
        rewrite list_insert_insert_eq, E1, E2, set_bufs_twice. unfold held_buf. by rewrite Ev, Edt, Hdt.
  - intros Hnone. assert (cached s d n = None) as Hca.
    { unfold cached. apply list_find_None. apply Forall_lookup. intros i y Hy E.
      specialize (Hnone i y Hy). unfold is_block in Hnone. by apply bool_decide_eq_false in Hnone. }
    wp_steps. apply (wp_bscan s l bprev); [done|right; split; [done|apply Hci]| |].
    + intros b x Hx [Hbz Hdt]%andb_true_iff. apply negb_true_iff in Hbz, Hdt.
      wp_steps. apply (wp_setb _ _ _ x); [done|]. wp_steps. apply (wp_setb_again _ _ _ _ x); [done|]. wp_steps.
      apply (wp_setb_again _ _ _ _ x); [done|]. wp_steps.
      eapply wp_getb; [simpl; apply list_lookup_insert_eq; by eapply lookup_lt_Some|]. simpl. wp_steps.
      apply (iderw_run _ b (mkBuf true false false d n (data x))); simpl; try done; try apply HC.
      * apply list_lookup_insert_eq. by eapply lookup_lt_Some.
      * wp_steps. eexists b, x, _. do 3 (split; [done|]). split; [by right|].
        rewrite list_insert_insert_eq, set_bufs_twice. unfold held_buf, view, dirty_at. by rewrite Hca.
    + intros Hno. exfalso. destruct Hroom as [[? ?]|(i & x & Hx & Ht)]; [congruence|].
      by rewrite (Hno i x Hx) in Ht.
Qed.

Lemma CInv_ideregs s l r : CInv s l → CInv (set_ideregs r s) l.
Proof. intros [[H1 H2 H3 H4] Hl Hu Hc Hn Hd Hr Hk Hq]. by split. Qed.

(** ** Blocks of one device *)

Section Device.
Context (d : Z) (Hdisk : 0 ≤ d ≤ 1).

Lemma Hdev : d ≠ NODEV.
Proof. unfold NODEV. lia. Qed.

(** The caller has the buffer [b] of block [n]. *)
Definition Held (s : bst) (b : nat) (n : Z) (t : bool) (v : list Z) : Prop :=
  bufs s !! b = Some (mkBuf true true t d n v).

(** The same blocks, seen from the kernel. *)
Definition same_blocks (s s' : bst) : Prop :=
  (∀ m, view s' d m = view s d m) ∧ (∀ m, dirty_at s' d m = dirty_at s d m).

(** The other buffers, among them those other callers have, stay as they are. *)
Definition others_kept (s s' : bst) (b : nat) : Prop := ∀ c, c ≠ b → bufs s' !! c = bufs s !! c.

Lemma Held_kept s s' b c m t v : others_kept s s' b → c ≠ b → Held s c m t v → Held s' c m t v.
Proof. intros Hk Hne Hh. unfold Held. by rewrite Hk. Qed.

Lemma Held_view s l b n t v :
  CInv s l → Held s b n t v → view s d n = v ∧ dirty_at s d n = t ∧ busy_at s d n = true.
Proof. intros HC Hh. by destruct (view_cached s l d n b _ HC Hdev Hh). Qed.

Lemma Held_uniq s l b n t v i y :
  CInv s l → Held s b n t v → bufs s !! i = Some y → i ≠ b → dev y = d → blockno y ≠ n.
Proof. intros HC Hh Hy Hi E1 E2. destruct Hi. eapply (cv_uniq _ _ HC i b y _ Hy Hh); simpl; pose proof Hdev; congruence. Qed.

Lemma Held_range s l b n t v : CInv s l → Held s b n t v → 0 ≤ n < FSSIZE.
Proof. intros HC Hh. apply (cv_range _ _ HC b _ Hh). simpl. apply Hdev. Qed.

Lemma bread_abs s l n :
  CInv s l → 0 ≤ n < FSSIZE → busy_at s d n = false → (dirty_at s d n = true ∨ room s) →
  wp (bread d n) s (λ r s', ∃ b, r = Some b ∧ CInv s' l ∧ Held s' b n (dirty_at s d n) (view s d n) ∧
    same_blocks s s' ∧ (∀ m, busy_at s' d m = if decide (m = n) then true else busy_at s d m) ∧
    disk s' = disk s ∧ writes s' = writes s ∧ others_kept s s' b ∧ (∃ x, bufs s !! b = Some x ∧ busy x = false)).
Proof.
  intros HC Hr Hb Hroom. pose proof Hdev as Hdev.
  assert (is_Some (cached s d n) ∨ room s) as Hr'.
  { destruct Hroom as [Hdt|?]; [left|by right]. unfold dirty_at in Hdt. destruct (cached s d n); [done|discriminate]. }
  eapply wp_mono; [by apply (bread_spec s l)|]. intros r s' (b & x & rg & -> & Hx & Hbz & Hc & ->). exists b.
  assert (CInv (set_bufs (<[b := held_buf s d n]> (bufs s)) s) l) as HC'.
  { apply (CInv_insert s l b x); try done. simpl. intros i y Hy Hi E. destruct Hc as [[E1 E2]|[Hn _]].
    - intros E'. destruct Hi. eapply (cv_uniq _ _ HC i b y x); congruence.
    - by eapply cached_None. }
  split; [done|]. split; [by apply CInv_ideregs|]. split; [apply list_lookup_insert_eq; by eapply lookup_lt_Some|].
  assert (∀ m, cached (set_ideregs rg (set_bufs (<[b := held_buf s d n]> (bufs s)) s)) d m =
    if decide (m = n) then Some (b, held_buf s d n)
    else if decide (dev x = d ∧ blockno x = m) then None else cached s d m) as Hca.
  { intros m. transitivity (cached (set_bufs (<[b := held_buf s d n]> (bufs s)) s) d m); [done|].
    rewrite (cached_insert s l l b x (held_buf s d n) d m HC HC' Hx Hdev). cbn [dev blockno held_buf].
    destruct (decide (m = n)) as [->|Hm]; [by rewrite decide_True|by rewrite decide_False by naive_solver]. }
  assert (∀ m, m ≠ n → dev x = d → blockno x = m →
    view s d m = disk s d m ∧ dirty_at s d m = false ∧ busy_at s d m = false) as Hev.
  { intros m Hm E1 E2. destruct (view_cached s l d m b x HC Hdev Hx E1 E2) as (-> & -> & ->).
    destruct Hc as [[_ E]|[_ Hdt]]; [congruence|]. split; [|done]. destruct (valid x) eqn:Hv; [|done].
    rewrite (cv_clean _ _ HC b x Hx Hv Hdt Hbz). congruence. }
  split; [split; intros m|split; [intros m|]].
  - unfold view at 1. rewrite Hca. destruct (decide (m = n)) as [->|Hm]; [done|].
    destruct (decide (dev x = d ∧ blockno x = m)) as [[E1 E2]|_]; [|done]. destruct (Hev m Hm E1 E2) as (? & ? & ?). cbn [disk set_ideregs set_bufs]. congruence.
  - unfold dirty_at at 1. rewrite Hca. destruct (decide (m = n)) as [->|Hm]; [done|].
    destruct (decide (dev x = d ∧ blockno x = m)) as [[E1 E2]|_]; [|done]. destruct (Hev m Hm E1 E2) as (? & ? & ?). cbn [disk set_ideregs set_bufs]. congruence.
  - unfold busy_at at 1. rewrite Hca. destruct (decide (m = n)) as [->|Hm]; [done|].
    destruct (decide (dev x = d ∧ blockno x = m)) as [[E1 E2]|_]; [|done]. destruct (Hev m Hm E1 E2) as (? & ? & ?). cbn [disk set_ideregs set_bufs]. congruence.
  - split; [done|]. split; [done|]. split; [|by exists x].
    intros c Hne. simpl. by rewrite list_lookup_insert_ne.
Qed.

(** Storing into the buffer one has. *)
Lemma held_update s l b n t v bz t' v' :
  CInv s l → Held s b n t v → (bz = true ∨ t' = true ∨ v' = disk s d n) →
  let s' := set_bufs (<[b := mkBuf bz true t' d n v']> (bufs s)) s in
  CInv s' l ∧
  (∀ m, view s' d m = if decide (m = n) then v' else view s d m) ∧
  (∀ m, dirty_at s' d m = if decide (m = n) then t' else dirty_at s d m) ∧
  (∀ m, busy_at s' d m = if decide (m = n) then bz else busy_at s d m) ∧ others_kept s s' b.
Proof.
  intros HC Hh Hcl s'. pose proof Hdev as Hdev.
  assert (CInv s' l) as HC'.
  { apply (CInv_insert s l b (mkBuf true true t d n v)); simpl; try done.
    - by eapply Held_range.
    - intros i y Hy Hi E. by eapply Held_uniq.
    - intros _ -> ->. naive_solver. }
  assert (∀ m, cached s' d m = if decide (d = d ∧ n = m) then Some (b, mkBuf bz true t' d n v')
    else if decide (d = d ∧ n = m) then None else cached s d m) as Hca
    by (intros m; by apply (cached_insert s l l b _ _ d m HC HC' Hh)).
  split; [done|]. split; [|split; [|split]].
  - intros m. unfold view at 1. rewrite Hca. repeat case_decide; naive_solver.
  - intros m. unfold dirty_at at 1. rewrite Hca. repeat case_decide; naive_solver.
  - intros m. unfold busy_at at 1. rewrite Hca. repeat case_decide; naive_solver.
  - intros c Hne. simpl. by rewrite list_lookup_insert_ne.
Qed.

Lemma disk_write_abs s l b n t v w :
  CInv s l → Held s b n t v →
  let s' := disk_write d n w s in
  CInv s' l ∧ Held s' b n t v ∧ same_blocks s s' ∧ (∀ m, busy_at s' d m = busy_at s d m) ∧
  (∀ m, disk s' d m = if decide (m = n) then w else disk s d m) ∧ others_kept s s' b.
Proof.
  intros HC Hh s'. pose proof Hdev as Hdev.
  assert (∀ m, disk s' d m = if decide (m = n) then w else disk s d m) as Hd.
  { intros m. unfold s', disk_write. simpl. rewrite fn_insert_dec, decide_True by done. rewrite fn_insert_dec.
    repeat case_decide; naive_solver. }
  split; [|split; [done|split; [split; [|done]|split; [done|split; [done|by intros c]]]]].
  - destruct HC as [[H1 H2 H3 H4] Hl Hu Hc Hn Hdi Hr Hk Hq]. split; try done.
    intros i x Hx Hv Hdt Hbz. rewrite (Hc i x Hx Hv Hdt Hbz). unfold s', disk_write. simpl.
    rewrite fn_insert_dec. case_decide as E; [|done]. rewrite fn_insert_dec. case_decide as E'; [|by rewrite <- E].
    assert (i = b) as -> by (apply (Hu i b x _ Hx Hh); simpl; congruence).
    unfold Held in Hh. change (bufs s !! b = Some x) in Hx. rewrite Hx in Hh. injection Hh as ->. done.
  - intros m. unfold view. change (cached s' d m) with (cached s d m).
    destruct (cached s d m) as [[i x]|] eqn:Ec.
    + destruct (valid x) eqn:Hv; [done|]. rewrite Hd. case_decide as E; [|done]. subst m.
      rewrite (proj2 (cached_iff s l d n b _ HC Hdev) (conj Hh (conj eq_refl eq_refl))) in Ec.
      by simplify_eq.
    + rewrite Hd. case_decide as E; [|done]. subst m.
      rewrite (proj2 (cached_iff s l d n b _ HC Hdev) (conj Hh (conj eq_refl eq_refl))) in Ec. done.
Qed.

Lemma bwrite_abs s l b n t v :
  CInv s l → Held s b n t v →
  wp (bwrite b) s (λ _ s', CInv s' l ∧ Held s' b n false v ∧
    (∀ m, view s' d m = view s d m) ∧
    (∀ m, dirty_at s' d m = if decide (m = n) then false else dirty_at s d m) ∧
    (∀ m, busy_at s' d m = busy_at s d m) ∧
    (∀ m, disk s' d m = if decide (m = n) then v else disk s d m) ∧
    writes s' = writes s ++ [(d, n, v)] ∧ others_kept s s' b).
Proof.
  intros HC Hh. pose proof (Held_range _ _ _ _ _ _ HC Hh) as Hr.
  assert (b < length (bufs s))%nat as Hb by (by eapply lookup_lt_Some).
  destruct (Held_view _ _ _ _ _ _ HC Hh) as (Ev & Edt & Ebz).
  unfold bwrite. wp_steps. eapply wp_getb; [exact Hh|]. simpl. wp_steps. eapply wp_setb; [exact Hh|]. wp_steps.
  apply (iderw_run _ b (mkBuf true true true d n v)); simpl; try done; try apply HC.
  { by rewrite list_lookup_insert_eq. }
  rewrite list_insert_insert_eq.
  destruct (held_update s l b n t v true false v HC Hh (or_introl eq_refl)) as (HC1 & V1 & D1 & B1 & K1).
  set (s1 := set_bufs (<[b := mkBuf true true false d n v]> (bufs s)) s) in *.
  assert (Held s1 b n false v) as Hh1 by (unfold Held, s1; simpl; by rewrite list_lookup_insert_eq).
  destruct (disk_write_abs s1 l b n false v v HC1 Hh1) as (HC2 & Hh2 & [V2 D2] & B2 & Dk2 & K2).
  change (set_bufs _ _) with (disk_write d n v s1).
  split; [by apply CInv_ideregs|]. split; [exact Hh2|]. split; [|split; [|split; [|split; [exact Dk2|split; [done|]]]]].
  - intros m. etrans; [exact (V2 m)|]. rewrite V1. case_decide; [by subst|done].
  - intros m. etrans; [exact (D2 m)|]. by rewrite D1.
  - intros m. etrans; [exact (B2 m)|]. rewrite B1. case_decide; [by subst|done].
  - intros c Hne. etrans; [by apply K2|by apply K1].
Qed.

(** The links do not matter to the rest of the invariant. *)
Lemma CInv_relink s l f g l' :
  CInv s l → seg f HEAD l' HEAD → seg g HEAD (reverse l') HEAD → l' ≡ₚ l → CInv (set_bprev g (set_bnext f s)) l'.
Proof.
  intros [[H1 H2 H3 H4] Hl Hu Hc Hn Hd Hr Hk Hq] Hf Hg Hp. split; try done. split; try done.
  - by rewrite Hp.
  - intros b. by rewrite Hp.
Qed.

Definition relink (b : nat) (s : bst) : bst := set_bprev (relink_prev b s) (set_bnext (relink_next b s) s).

Lemma brelse_run s b x (Q : unit → bst → Prop) :
  bufs s !! b = Some x → busy x = true →
  Q tt (set_bufs (<[b := set_busy false x]> (bufs s)) (relink b s)) → wp (brelse b) s Q.
Proof.
  intros Hx Hb HQ. unfold brelse, setprev, setnext. wp_steps. apply (wp_getb _ _ x); [done|]. rewrite Hb. simpl. wp_steps.
  apply (wp_setb _ _ _ x); [done|]. simpl.
  assert ((<[bnext s b := bprev s b]> (bprev s)) b = bprev s b) as -> by (rewrite fn_insert_dec; by case_decide).
  set (f1 := <[bprev s b := bnext s b]> (bnext s)).
  assert ((<[b := f1 HEAD]> f1) HEAD = f1 HEAD) as -> by (rewrite fn_insert_dec; by case_decide).
  exact HQ.
Qed.

Lemma brelse_abs s l b n t v :
  CInv s l → Held s b n t v → (t = true ∨ v = disk s d n) →
  wp (brelse b) s (λ _ s', ∃ l', CInv s' l' ∧ same_blocks s s' ∧
    (∀ m, busy_at s' d m = if decide (m = n) then false else busy_at s d m) ∧
    disk s' = disk s ∧ writes s' = writes s ∧ others_kept s s' b ∧ bufs s' !! b = Some (mkBuf false true t d n v)).
Proof.
  intros HC Hh Hcl. destruct (Held_view _ _ _ _ _ _ HC Hh) as (Ev & Edt & Ebz).
  assert (b ∈ l) as (l1 & l2 & ->)%list_elem_of_split.
  { apply (ci_all _ _ (cv_circ _ _ HC)). rewrite <- (cv_len _ _ HC). by eapply lookup_lt_Some. }
  destruct (circ_brelse s l1 b l2 (cv_circ _ _ HC)) as [Hn Hp].
  destruct (held_update s _ b n t v false t v HC Hh) as (HC1 & V1 & D1 & B1 & K1); [naive_solver|].
  eapply brelse_run; [exact Hh|done|]. exists (b :: l1 ++ l2).
  split; [|split; [split; intros m|split; [done|split; [done|split; [done|split; [exact K1|]]]]]].
  - apply (CInv_relink _ _ _ _ _ HC1 Hn Hp). by rewrite <- Permutation_middle.
  - transitivity (view (set_bufs (<[b := mkBuf false true t d n v]> (bufs s)) s) d m); [done|].
    rewrite V1. case_decide; [by subst|done].
  - transitivity (dirty_at (set_bufs (<[b := mkBuf false true t d n v]> (bufs s)) s) d m); [done|].
    rewrite D1. case_decide; [by subst|done].
  - apply list_lookup_insert_eq. by eapply lookup_lt_Some.
Qed.
End Device.
