(* ===== verification/BioUse.v ===== *)
(** * Using the buffer cache (bio.c, from the file system's side)

    What a client of the cache may rely on: [Using s D H] says that the blocks
    [D] of the device are dirty in the cache (pinned by the log), that the
    blocks [H] are held by callers, and that nothing else is.  Each operation
    is specified by what it does to the contents of the blocks, to [D], to
    [H] and to the disk. *)

From S2P Require Import Prelude Layout Bio.

Local Open Scope Z_scope.

(** [bread] for a caller that nobody makes wait: a sleep on a busy buffer ends
    only when another process releases it. *)
Definition bread_now (d n : Z) : M bst nat :=
  r ← bread d n;
  match r with Some b => mret b | None => diverge end.

Section Using.
Context (d : Z) (Hdisk : 0 ≤ d ≤ 1).

Record Using (s : bst) (D H : list Z) : Prop := {
  us_inv : ∃ l, CInv s l;
  us_busy i x : bufs s !! i = Some x → busy x = true → dev x = d ∧ blockno x ∈ H;
  us_dirty i x : bufs s !! i = Some x → dirty x = true → dev x = d ∧ blockno x ∈ D;
  us_pinned m : m ∈ D → dirty_at s d m = true
}.

Lemma Using_dirty_at s D H n : Using s D H → dirty_at s d n = bool_decide (n ∈ D).
Proof.
  intros [(l & HC) _ Hd Hp]. destruct (decide (n ∈ D)) as [Hn|Hn]; [by rewrite bool_decide_true by done; apply Hp|].
  rewrite bool_decide_false by done. unfold dirty_at. destruct (cached s d n) as [[i x]|] eqn:E; [|done].
  apply (cached_iff _ _ _ _ _ _ HC (Hdev d Hdisk)) in E as (Hx & _ & <-).
  destruct (dirty x) eqn:Hdt; [|done]. by destruct (Hd i x Hx Hdt).
Qed.

Lemma Using_free s D H n : Using s D H → n ∉ H → busy_at s d n = false.
Proof.
  intros [(l & HC) Hb _ _] Hn. unfold busy_at. destruct (cached s d n) as [[i x]|] eqn:E; [|done].
  apply (cached_iff _ _ _ _ _ _ HC (Hdev d Hdisk)) in E as (Hx & _ & <-).
  destruct (busy x) eqn:Hbz; [|done]. by destruct (Hb i x Hx Hbz).
Qed.

(** Fewer blocks in use than buffers: one can be recycled. *)
Lemma Using_room s D H : Using s D H → (length (D ++ H) < NBUF)%nat → room s.
Proof.
  intros [(l & HC) Hb Hd _] Hlt. destruct (decide (Exists (λ x, is_clean x = true) (bufs s))) as [He|He].
  { apply Exists_exists in He as (x & [i Hx]%list_elem_of_lookup & Hc). by exists i, x. }
  exfalso. apply not_Exists_Forall in He; [|intros x; apply _]. rewrite Forall_lookup in He.
  assert (∀ i x, bufs s !! i = Some x → dev x = d ∧ blockno x ∈ D ++ H) as Hall.
  { intros i x Hx. specialize (He i x Hx). unfold is_clean in He. rewrite elem_of_app.
    destruct (busy x) eqn:E1; [destruct (Hb i x Hx E1); auto|].
    destruct (dirty x) eqn:E2; [destruct (Hd i x Hx E2); auto|]. exfalso. apply He. by rewrite E1, E2. }
  assert (NoDup (blockno <$> bufs s)) as Hnd.
  { apply NoDup_alt. intros i j n Hi Hj. rewrite list_lookup_fmap in Hi, Hj.
    destruct (bufs s !! i) as [x|] eqn:Ex; [|done]. destruct (bufs s !! j) as [y|] eqn:Ey; [|done]. simplify_eq/=.
    destruct (Hall i x Ex) as [Edx _], (Hall j y Ey) as [Edy _].
    apply (cv_uniq _ _ HC i j x y Ex Ey); [rewrite Edx; by apply Hdev|congruence|congruence]. }
  assert (blockno <$> bufs s ⊆+ D ++ H) as Hsub.
  { apply NoDup_submseteq; [done|]. intros n (x & -> & [i Hx]%list_elem_of_lookup)%list_elem_of_fmap. by eapply Hall. }
  apply submseteq_length in Hsub. rewrite length_fmap, (cv_len _ _ HC) in Hsub. lia.
Qed.

(** What is left alone by an operation on block [n]. *)
Definition kept_but (s s' : bst) (n : Z) : Prop :=
  ∀ c m t v, m ≠ n → Held d s c m t v → Held d s' c m t v.

Lemma kept_but_of s s' l b n t v : CInv s l → Held d s b n t v → others_kept s s' b → kept_but s s' n.
Proof.
  intros HC Hh Ho c m t' v' Hne Hc. eapply Held_kept; [done| |done]. intros ->.
  unfold Held in *. rewrite Hh in Hc. by simplify_eq.
Qed.

Lemma bread_using s D H n :
  Using s D H → 0 ≤ n < FSSIZE → n ∉ H → (n ∈ D ∨ (length (D ++ H) < NBUF)%nat) →
  wp (bread_now d n) s (λ b s', Using s' D (n :: H) ∧ Held d s' b n (bool_decide (n ∈ D)) (view s d n) ∧
    (∀ m, view s' d m = view s d m) ∧ disk s' = disk s ∧ writes s' = writes s ∧ kept_but s s' n).
Proof.
  intros HU Hn HH Hr. pose proof (us_inv _ _ _ HU) as (l & HC).
  assert (dirty_at s d n = true ∨ room s) as Hr'.
  { destruct Hr as [Hr|Hr]; [left; by apply (us_pinned _ _ _ HU)|right; by eapply Using_room]. }
  unfold bread_now. wp_steps.
  eapply wp_mono; [apply (bread_abs d Hdisk s l n HC Hn (Using_free _ _ _ _ HU HH) Hr')|].
  intros r s' (b & -> & HC' & Hh & [V1 D1] & _ & Ed & Ew & Hk & x & Hx & Hbz). wp_steps.
  rewrite (Using_dirty_at s D H n HU) in Hh.
  split; [|split; [done|split; [done|split; [done|split; [done|]]]]].
  - split; [by exists l| | |intros m Hm; by rewrite D1; apply (us_pinned _ _ _ HU)].
    + intros i y Hy Hb. destruct (decide (i = b)) as [->|Hne].
      * unfold Held in Hh. rewrite Hh in Hy. simplify_eq/=. split; [done|set_solver].
      * rewrite Hk in Hy by done. destruct (us_busy _ _ _ HU i y Hy Hb). split; [done|set_solver].
    + intros i y Hy Hdt. destruct (decide (i = b)) as [->|Hne].
      * unfold Held in Hh. rewrite Hh in Hy. simplify_eq/=. split; [done|]. by apply bool_decide_eq_true in Hdt.
      * rewrite Hk in Hy by done. by apply (us_dirty _ _ _ HU i y).
  - intros c m t v Hne Hc. eapply Held_kept; [done| |done]. intros ->.
    unfold Held in Hc. rewrite Hx in Hc. by simplify_eq.
Qed.

Lemma Using_step s s' l' D H D' H' b n t v x' :
  Using s D H → Held d s b n t v → CInv s' l' → others_kept s s' b →
  bufs s' !! b = Some x' → dev x' = d → blockno x' = n → (busy x' = true → n ∈ H') → (dirty x' = true → n ∈ D') →
  (∀ m, m ≠ n → m ∈ D → m ∈ D') → (∀ m, m ≠ n → m ∈ H → m ∈ H') → (∀ m, m ∈ D' → dirty_at s' d m = true) →
  Using s' D' H'.
Proof.
  intros HU Hh HC' Ho Hx' Ed En Hb Hdt HD HH Hp. pose proof (us_inv _ _ _ HU) as (l & HC).
  assert (∀ i y, bufs s' !! i = Some y → (i = b ∧ y = x') ∨ (bufs s !! i = Some y ∧ (dev y = d → blockno y ≠ n))) as Hcase.
  { intros i y Hy. destruct (decide (i = b)) as [->|Hne]; [left; split; [done|congruence]|right].
    rewrite Ho in Hy by done. split; [done|]. intros E. by apply (Held_uniq d Hdisk s l b n t v i y HC Hh Hy Hne). }
  split; [by exists l'| | |done].
  - intros i y [[-> ->]|[Hy Hne]]%Hcase Hbz; [rewrite En; auto|]. destruct (us_busy _ _ _ HU i y Hy Hbz). auto.
  - intros i y [[-> ->]|[Hy Hne]]%Hcase Hbz; [rewrite En; auto|]. destruct (us_dirty _ _ _ HU i y Hy Hbz). auto.
Qed.

Lemma Held_in s D H b n t v : Using s D H → Held d s b n t v → n ∈ H ∧ bool_decide (n ∈ D) = t.
Proof.
  intros HU Hh. split; [by destruct (us_busy _ _ _ HU b _ Hh eq_refl)|].
  pose proof (us_inv _ _ _ HU) as (l & HC). rewrite <- (Using_dirty_at s D H n HU).
  by destruct (Held_view d Hdisk s l b n t v HC Hh) as (_ & -> & _).
Qed.

(** [b->data = v'] on a buffer one holds. *)
Lemma store_using s D H b n t v v' :
  Using s D H → Held d s b n t v →
  wp (setb b (set_data v')) s (λ _ s', Using s' D H ∧ Held d s' b n t v' ∧
    (∀ m, view s' d m = if decide (m = n) then v' else view s d m) ∧ disk s' = disk s ∧ writes s' = writes s ∧ kept_but s s' n).
Proof.
  intros HU Hh. pose proof (us_inv _ _ _ HU) as (l & HC). destruct (Held_in _ _ _ _ _ _ _ HU Hh) as [Hn Ht].
  eapply wp_setb; [exact Hh|]. unfold set_data. simpl.
  destruct (held_update d Hdisk s l b n t v true t v' HC Hh (or_introl eq_refl)) as (HC' & V & Dt & B & K).
  set (s' := set_bufs (<[b := mkBuf true true t d n v']> (bufs s)) s) in *.
  assert (bufs s' !! b = Some (mkBuf true true t d n v')) as Hb'
    by (apply list_lookup_insert_eq; by eapply lookup_lt_Some).
  split; [|split; [exact Hb'|split; [done|split; [done|split; [done|by eapply kept_but_of]]]]].
  eapply (Using_step s s' l D H D H b n t v); try done.
  - simpl. intros ->. by apply bool_decide_eq_true in Ht.
  - intros m Hm. rewrite Dt. destruct (decide (m = n)) as [->|]; [by rewrite <- Ht, bool_decide_true|by apply (us_pinned _ _ _ HU)].
Qed.

(** [b->flags |= B_DIRTY] on a buffer one holds. *)
Lemma pin_using s D H b n t v :
  Using s D H → Held d s b n t v →
  wp (setb b (set_dirty true)) s (λ _ s', Using s' (if decide (n ∈ D) then D else D ++ [n]) H ∧ Held d s' b n true v ∧
    (∀ m, view s' d m = view s d m) ∧ disk s' = disk s ∧ writes s' = writes s ∧ kept_but s s' n).
Proof.
  intros HU Hh. pose proof (us_inv _ _ _ HU) as (l & HC). destruct (Held_in _ _ _ _ _ _ _ HU Hh) as [Hn Ht].
  eapply wp_setb; [exact Hh|]. unfold set_dirty. simpl.
  destruct (held_update d Hdisk s l b n t v true true v HC Hh (or_introl eq_refl)) as (HC' & V & Dt & B & K).
  set (s' := set_bufs (<[b := mkBuf true true true d n v]> (bufs s)) s) in *.
  assert (bufs s' !! b = Some (mkBuf true true true d n v)) as Hb'
    by (apply list_lookup_insert_eq; by eapply lookup_lt_Some).
  destruct (Held_view d Hdisk s l b n t v HC Hh) as (Ev & _ & _).
  split; [|split; [exact Hb'|split; [|split; [done|split; [done|by eapply kept_but_of]]]]].
  - eapply (Using_step s s' l D H _ H b n t v); try done.
    + simpl. intros _. case_decide; set_solver.
    + intros m _ Hm. case_decide; set_solver.
    + intros m Hm. rewrite Dt. destruct (decide (m = n)) as [|Hne]; [done|]. apply (us_pinned _ _ _ HU).
      destruct (decide (n ∈ D)); set_solver.
  - intros m. rewrite V. by destruct (decide (m = n)) as [->|].
Qed.

Lemma bwrite_using s D H b n t v :
  Using s D H → Held d s b n t v →
  wp (bwrite b) s (λ _ s', Using s' (filter (.≠ n) D) H ∧ Held d s' b n false v ∧
    (∀ m, view s' d m = view s d m) ∧ (∀ m, disk s' d m = if decide (m = n) then v else disk s d m) ∧
    writes s' = writes s ++ [(d, n, v)] ∧ kept_but s s' n).
Proof.
  intros HU Hh. pose proof (us_inv _ _ _ HU) as (l & HC). destruct (Held_in _ _ _ _ _ _ _ HU Hh) as [Hn Ht].
  eapply wp_mono; [by apply (bwrite_abs d Hdisk s l b n t v)|].
  intros _ s' (HC' & Hh' & V & Dt & B & Dk & Ew & K).
  split; [|split; [done|split; [done|split; [done|split; [done|by eapply kept_but_of]]]]].
  eapply (Using_step s s' l D H _ H b n t v); try done.
  - intros m Hm HD. by apply elem_of_filter_ne.
  - intros m [Hm Hne]%elem_of_filter_ne. rewrite Dt, decide_False by done. by apply (us_pinned _ _ _ HU).
Qed.

Lemma brelse_using s D H b n t v :
  Using s D H → Held d s b n t v → (t = true ∨ v = disk s d n) →
  wp (brelse b) s (λ _ s', Using s' D (filter (.≠ n) H) ∧
    (∀ m, view s' d m = view s d m) ∧ disk s' = disk s ∧ writes s' = writes s ∧ kept_but s s' n).
Proof.
  intros HU Hh Hcl. pose proof (us_inv _ _ _ HU) as (l & HC). destruct (Held_in _ _ _ _ _ _ _ HU Hh) as [Hn Ht].
  eapply wp_mono; [by apply (brelse_abs d Hdisk s l b n t v)|].
  intros _ s' (l' & HC' & [V Dt] & B & Ed & Ew & K & Hb').
  split; [|split; [done|split; [done|split; [done|by eapply kept_but_of]]]].
  eapply (Using_step s s' l' D H D _ b n t v); try done.
  - simpl. intros ->. by apply bool_decide_eq_true in Ht.
  - intros m Hm HD. by apply elem_of_filter_ne.
  - intros m Hm. rewrite Dt. by apply (us_pinned _ _ _ HU).
Qed.
End Using.

(** ** binit *)

(** What [binit] does not touch. *)
Definition same_disk (s s' : bst) : Prop :=
  disk s' = disk s ∧ havedisk1 s' = havedisk1 s ∧ idequeue s' = idequeue s ∧ writes s' = writes s.

Lemma binit_loop_spec bs : ∀ s l,
  seg (bnext s) HEAD l HEAD → seg (bprev s) HEAD (reverse l) HEAD → NoDup (HEAD :: l ++ bs) →
  (∀ b, b ∈ bs → (b < length (bufs s))%nat) →
  wp (binit_loop bs) s (λ _ s', seg (bnext s') HEAD (reverse bs ++ l) HEAD ∧
    seg (bprev s') HEAD (reverse (reverse bs ++ l)) HEAD ∧ same_disk s s' ∧ length (bufs s') = length (bufs s) ∧
    ∀ i, bufs s' !! i = (if decide (i ∈ bs) then set_dev NODEV <$> bufs s !! i else bufs s !! i)).
Proof.
  induction bs as [|b bs IH]; intros s l Hn Hp Hnd Hb; simpl.
  { wp_steps. split; [done|]. split; [done|]. split; [done|]. by split. }
  assert (b ∉ HEAD :: l ∧ NoDup (HEAD :: l) ∧ NoDup (HEAD :: (b :: l) ++ bs)) as (Hbl & Hnd1 & Hnd2).
  { assert (HEAD :: l ++ b :: bs ≡ₚ HEAD :: (b :: l) ++ bs) as Hperm by (simpl; apply Permutation_skip; symmetry; apply Permutation_middle).
    rewrite Hperm in Hnd. simpl in Hnd. split; [|split; [|done]]; inversion Hnd as [|? ? H1 H2]; inversion H2 as [|? ? H3 H4].
    - set_solver.
    - constructor; [set_solver|]. by apply NoDup_app in H4 as [? _]. }
  destruct (lookup_lt_is_Some_2 (bufs s) b) as [x Hx]; [apply Hb; set_solver|].
  unfold setnext, setprev. wp_steps. apply (wp_setb _ _ _ x); [done|]. wp_steps. simpl.
  assert ((<[b := bnext s HEAD]> (bnext s)) HEAD = bnext s HEAD) as -> by (rewrite fn_insert_dec; by case_decide).
  assert (bnext s HEAD = lst (reverse l) HEAD) as Eh.
  { rewrite lst_reverse. destruct l as [|y l]; simpl in Hn; [done|]. by destruct Hn. }
  pose proof (seg_push _ _ _ _ b Hn Hbl Hnd1) as Hn1.
  assert (seg (<[lst (reverse l) HEAD := b]> (<[b := HEAD]> (bprev s))) HEAD (reverse l ++ [b]) HEAD) as Hp1.
  { apply seg_snoc; [done| |]; [rewrite elem_of_cons, elem_of_reverse; set_solver|].
    by rewrite reverse_Permutation. }
  eapply wp_mono; [apply (IH _ (b :: l))|].
  - exact Hn1.
  - rewrite reverse_cons. simpl. by rewrite Eh.
  - done.
  - intros c Hc. simpl. rewrite length_insert. apply Hb. set_solver.
  - intros _ s' (H1 & H2 & H3 & H4 & H5). rewrite reverse_cons, <- app_assoc. split; [done|]. split; [done|].
    split; [done|]. simpl in H4. rewrite length_insert in H4. split; [done|]. intros i. rewrite H5. simpl.
    assert (b ∉ bs) as Hbs by (inversion Hnd2 as [|? ? _ H]; inversion H as [|? ? H' _]; set_solver).
    destruct (decide (i = b)) as [->|Hne].
    + rewrite decide_False, decide_True by set_solver. rewrite Hx. apply list_lookup_insert_eq. by eapply lookup_lt_Some.
    + rewrite list_lookup_insert_ne by done. destruct (decide (i ∈ bs)); [rewrite decide_True by set_solver|rewrite decide_False by set_solver]; done.
Qed.

(** The cache after boot: empty, and nobody uses it. *)
Lemma binit_spec s d :
  length (bufs s) = NBUF → Forall (λ x, busy x = false ∧ valid x = false ∧ dirty x = false) (bufs s) →
  havedisk1 s = true → idequeue s = [] →
  wp binit s (λ _ s', Using d s' [] [] ∧ disk s' = disk s ∧ writes s' = writes s ∧ ∀ m, view s' d m = disk s d m).
Proof.
  intros Hl Hz Hk Hq. rewrite Forall_lookup in Hz. unfold binit, setprev, setnext.
  assert ((∀ b, b ∈ seq 0 NBUF ↔ (b < NBUF)%nat) ∧ NoDup (seq 0 NBUF)) as [Hbs Hbd]
    by (split; [intros b; rewrite elem_of_seq; lia|apply NoDup_seq]).
  set (bs := seq 0 NBUF) in *. clearbody bs. wp_steps.
  eapply wp_mono; [apply (binit_loop_spec _ _ [])|].
  - simpl. by rewrite fn_insert_dec, decide_True.
  - simpl. by rewrite fn_insert_dec, decide_True.
  - constructor; [|done]. simpl. rewrite Hbs. unfold HEAD. lia.
  - intros b Hb%Hbs. simpl. lia.
  - intros _ s' (Hn & Hp & (Ed & Ek & Eq & Ew) & El & Hbufs). rewrite app_nil_r in Hn, Hp. simpl in *.
    assert (∀ i x, bufs s' !! i = Some x → dev x = NODEV ∧ busy x = false ∧ valid x = false ∧ dirty x = false) as Hall.
    { intros i x Hx. rewrite Hbufs in Hx. rewrite decide_True in Hx.
      - destruct (bufs s !! i) as [y|] eqn:Ey; [|done]. simplify_eq/=. by destruct (Hz i y Ey).
      - apply Hbs. rewrite <- Hl, <- El. apply lookup_lt_is_Some. rewrite Hbufs. eauto. }
    assert (CInv s' (reverse bs)) as HC.
    { split; [|congruence| | | | | |congruence|congruence].
      - split; [done|done|by rewrite reverse_Permutation|]. intros b. rewrite elem_of_reverse. apply Hbs.
      - intros i j x y Hx Hy Hne. by destruct (Hall i x Hx).
      - intros i x Hx Hv. destruct (Hall i x Hx) as (_ & _ & E & _). congruence.
      - intros i x Hx _. by destruct (Hall i x Hx).
      - intros i x Hx Hv. destruct (Hall i x Hx) as (_ & _ & _ & E). congruence.
      - intros i x Hx Hne. by destruct (Hall i x Hx). }
    split; [|split; [done|split; [done|]]].
    + split; [by eexists| | |by intros m Hm%elem_of_nil].
      * intros i x Hx. destruct (Hall i x Hx) as (_ & -> & _). done.
      * intros i x Hx. destruct (Hall i x Hx) as (_ & _ & _ & ->). done.
    + intros m. unfold view. destruct (cached s' d m) as [[i x]|] eqn:E; [|by rewrite Ed].
      unfold cached in E. apply list_find_Some in E as (Hx & _). destruct (Hall i x Hx) as (_ & _ & -> & _). by rewrite Ed.
Qed.

(** ** The cache as a map from block numbers to contents *)

Section Map.
Context (d : Z) (Hdisk : 0 ≤ d ≤ 1).

(** The cache and what its clients know: pinned blocks, held blocks, and the
    contents of every block. *)
Record cst := mkCst { c_cache : bst; c_pinned : list Z; c_held : list Z; c_map : Z → list Z }.

Inductive cstep : cst → cst → Prop :=
  | cs_bread s D H A n b s' :
      0 ≤ n < FSSIZE → n ∉ H → (n ∈ D ∨ (length (D ++ H) < NBUF)%nat) → bread_now d n s = Ret b s' →
      cstep (mkCst s D H A) (mkCst s' D (n :: H) A)
  | cs_store s D H A n b t v v' s' :
      Held d s b n t v → setb b (set_data v') s = Ret tt s' → cstep (mkCst s D H A) (mkCst s' D H (<[n := v']> A))
  | cs_pin s D H A n b t v s' :
      Held d s b n t v → setb b (set_dirty true) s = Ret tt s' →
      cstep (mkCst s D H A) (mkCst s' (if decide (n ∈ D) then D else D ++ [n]) H A)
  | cs_bwrite s D H A n b t v s' :
      Held d s b n t v → bwrite b s = Ret tt s' → cstep (mkCst s D H A) (mkCst s' (filter (.≠ n) D) H A)
  | cs_brelse s D H A n b t v s' :
      Held d s b n t v → (t = true ∨ v = disk s d n) → brelse b s = Ret tt s' →
      cstep (mkCst s D H A) (mkCst s' D (filter (.≠ n) H) A).

Definition cinv (x : cst) : Prop :=
  Using d (c_cache x) (c_pinned x) (c_held x) ∧ ∀ m, view (c_cache x) d m = c_map x m.

Lemma cstep_inv x y : cinv x → cstep x y → cinv y.
Proof.
  intros [HU HA] Hs. destruct Hs as [s D H A n b s' Hn HH Hr E|s D H A n b t v v' s' Hh E|s D H A n b t v s' Hh E
    |s D H A n b t v s' Hh E|s D H A n b t v s' Hh Hcl E]; simpl in *.
  - destruct (wp_inv _ _ _ (bread_using d Hdisk s D H n HU Hn HH Hr)) as (b' & s1 & E' & HU' & _ & V & _).
    rewrite E in E'. injection E' as <- <-. split; [done|]. intros m. simpl. by rewrite V.
  - destruct (wp_inv _ _ _ (store_using d Hdisk s D H b n t v v' HU Hh)) as ([] & s1 & E' & HU' & _ & V & _).
    rewrite E in E'. injection E' as <-. split; [done|]. intros m. simpl. rewrite V, fn_insert_dec, HA.
    destruct (decide (m = n)) as [->|Hne]; [by rewrite decide_True|by rewrite decide_False].
  - destruct (wp_inv _ _ _ (pin_using d Hdisk s D H b n t v HU Hh)) as ([] & s1 & E' & HU' & _ & V & _).
    rewrite E in E'. injection E' as <-. split; [done|]. intros m. simpl. by rewrite V.
  - destruct (wp_inv _ _ _ (bwrite_using d Hdisk s D H b n t v HU Hh)) as ([] & s1 & E' & HU' & _ & V & _).
    rewrite E in E'. injection E' as <-. split; [done|]. intros m. simpl. by rewrite V.
  - destruct (wp_inv _ _ _ (brelse_using d Hdisk s D H b n t v HU Hh Hcl)) as ([] & s1 & E' & HU' & V & _).
    rewrite E in E'. injection E' as <-. split; [done|]. intros m. simpl. by rewrite V.
Qed.
End Map.

(** A statically zeroed cache over a disk. *)
Definition bss_cache (dk : Z → Z → list Z) : bst :=
  mkBst (replicate NBUF (mkBuf false false false 0 0 (replicate BSIZE 0))) (λ _, 0%nat) (λ _, 0%nat) dk true [] [] [].

Lemma boot_cache dk d :
  ∃ c, binit (bss_cache dk) = Ret tt c ∧ Using d c [] [] ∧ disk c = dk ∧ writes c = [] ∧ ∀ m, view c d m = dk d m.
Proof.
  assert (Forall (λ x, busy x = false ∧ valid x = false ∧ dirty x = false) (bufs (bss_cache dk))) as Hz by (by apply Forall_replicate).
  destruct (wp_inv _ _ _ (binit_spec (bss_cache dk) d eq_refl Hz eq_refl eq_refl)) as ([] & c & E & HU & Ed & Ew & V).
  exists c. exact (conj E (conj HU (conj Ed (conj Ew V)))).
Qed.


