(* ===== verification/Log.v ===== *)
(** * The file system's redo log (log.c)

    A transaction collects the modified blocks in the cache; [commit] writes
    them to the log, writes the header that names them (the commit point),
    copies them to their home locations and clears the header.  After a crash
    [recover_from_log] repeats the copying.  The model runs on the buffer
    cache of Bio.v; the header is the bytes of its block. *)

From S2P Require Import Prelude Spinlock ProcState Layout Bio BioUse.

Local Open Scope Z_scope.

(** [struct log], with its [struct logheader lh], and the buffer cache. *)
Record logst := mkLog {
  cache : bst;
  start : Z;
  size : Z;
  outstanding : Z;       (* how many FS sys calls are executing *)
  committing : bool;     (* in commit(), please wait *)
  ldev : Z;
  lh_n : Z;
  lh_block : list Z      (* int block[LOGSIZE] *)
}.

Definition set_cache (v : bst) (s : logst) : logst :=
  mkLog v (start s) (size s) (outstanding s) (committing s) (ldev s) (lh_n s) (lh_block s).
Definition set_outstanding (v : Z) (s : logst) : logst :=
  mkLog (cache s) (start s) (size s) v (committing s) (ldev s) (lh_n s) (lh_block s).
Definition set_committing (v : bool) (s : logst) : logst :=
  mkLog (cache s) (start s) (size s) (outstanding s) v (ldev s) (lh_n s) (lh_block s).
Definition set_area (st sz dv : Z) (s : logst) : logst :=
  mkLog (cache s) st sz (outstanding s) (committing s) dv (lh_n s) (lh_block s).
Definition set_lh_n (v : Z) (s : logst) : logst :=
  mkLog (cache s) (start s) (size s) (outstanding s) (committing s) (ldev s) v (lh_block s).
Definition set_lh_block (v : list Z) (s : logst) : logst :=
  mkLog (cache s) (start s) (size s) (outstanding s) (committing s) (ldev s) (lh_n s) v.

Definition on_cache {A} (m : M bst A) : M logst A := zoom cache set_cache m.

Lemma wp_on_cache {A} (m : M bst A) s (Q : A → logst → Prop) :
  wp m (cache s) (λ a c, Q a (set_cache c s)) → wp (on_cache m) s Q.
Proof. apply wp_zoom. Qed.

(** [log.lh.block[i] = v] inside the array. *)
Definition set_block_at (i : nat) (v : Z) : M logst unit :=
  lookupM (λ s, lh_block s !! i);;
  modify (λ s, set_lh_block (<[i := v]> (lh_block s)) s).

(** ** Copying between the log and the home locations *)

(** One turn of [install_trans]: from log block [a] to home block [c]. *)
Definition install_block (d a c : Z) : M bst unit :=
  lbuf ← bread_now d a;
  dbuf ← bread_now d c;
  x ← getb lbuf;
  setb dbuf (set_data (data x));;        (* memmove(dbuf->data, lbuf->data, BSIZE) *)
  bwrite dbuf;;
  brelse lbuf;;
  brelse dbuf.

Fixpoint install_loop (tails : list nat) : M logst unit :=
  match tails with
  | [] => mret tt
  | tail :: tails' =>
      d ← gets ldev;
      st ← gets start;
      blk ← lookupM (λ s, lh_block s !! tail);
      on_cache (install_block d (u32 (st + Z.of_nat tail + 1)) (u32 blk));;
      install_loop tails'
  end.

Definition install_trans : M logst unit :=
  n ← gets lh_n;
  install_loop (seq 0 (Z.to_nat n)).

(** One turn of [write_log]: from cache block [c] to log block [a]. *)
Definition log_block (d a c : Z) : M bst unit :=
  to ← bread_now d a;
  from ← bread_now d c;
  x ← getb from;
  setb to (set_data (data x));;          (* memmove(to->data, from->data, BSIZE) *)
  bwrite to;;
  brelse from;;
  brelse to.

Fixpoint write_log_loop (tails : list nat) : M logst unit :=
  match tails with
  | [] => mret tt
  | tail :: tails' =>
      d ← gets ldev;
      st ← gets start;
      blk ← lookupM (λ s, lh_block s !! tail);
      on_cache (log_block d (u32 (st + Z.of_nat tail + 1)) (u32 blk));;
      write_log_loop tails'
  end.

Definition write_log : M logst unit :=
  n ← gets lh_n;
  write_log_loop (seq 0 (Z.to_nat n)).

(** ** The header block *)

(** [lh->n] and [lh->block[i]] of a block overlaid by [struct logheader]. *)
Definition head_n (d : list Z) : Z := i32 (get_le 0 4 d).
Definition head_block (d : list Z) (i : nat) : Z := i32 (get_le (4 + 4 * i) 4 d).

Fixpoint read_blocks (d : list Z) (idx : list nat) : M logst unit :=
  match idx with
  | [] => mret tt
  | i :: idx' => set_block_at i (head_block d i);; read_blocks d idx'
  end.

Definition read_head : M logst unit :=
  d ← gets ldev;
  st ← gets start;
  buf ← on_cache (bread_now d (u32 st));
  x ← on_cache (getb buf);
  modify (set_lh_n (head_n (data x)));;
  read_blocks (data x) (seq 0 (Z.to_nat (head_n (data x))));;
  on_cache (brelse buf).

Fixpoint put_blocks (i : nat) (bs : list Z) (d : list Z) : list Z :=
  match bs with
  | [] => d
  | b :: bs' => put_blocks (S i) bs' (put_le (4 + 4 * i) 4 b d)
  end.
Definition put_head (bs : list Z) (n : Z) (d : list Z) : list Z := put_blocks 0 bs (put_le 0 4 n d).

(** The blocks the in-memory header names. *)
Definition logged (s : logst) : list Z := take (Z.to_nat (lh_n s)) (lh_block s).

Definition write_head_block (d st n : Z) (bs : list Z) : M bst unit :=
  buf ← bread_now d st;
  x ← getb buf;
  setb buf (set_data (put_head bs n (data x)));;
  bwrite buf;;
  brelse buf.

Definition write_head : M logst unit :=
  d ← gets ldev;
  st ← gets start;
  n ← gets lh_n;
  bs ← gets logged;
  on_cache (write_head_block d (u32 st) n bs).

Definition recover_from_log : M logst unit :=
  read_head;;
  install_trans;;
  modify (set_lh_n 0);;
  write_head.

(** ** The interface to the file system *)

Definition sizeof_logheader : Z := 4 + 4 * LOGSIZE.

(** fs.c's [readsb]. *)
Definition readsb (d : Z) : M bst superblock :=
  bp ← bread_now d 1;
  x ← getb bp;
  brelse bp;;
  mret (decode_sb (data x)).

Definition initlog (d : Z) : M logst unit :=
  if decide (Z.of_nat BSIZE ≤ sizeof_logheader) then panic "initlog: too big logheader" else
  sb ← on_cache (readsb d);
  modify (set_area (i32 (sb_logstart sb)) (i32 (sb_nlog sb)) d);;
  recover_from_log.

(** [begin_op] until it is admitted or sleeps on [&log] (false). *)
Definition begin_op : M logst bool :=
  s ← gets id;
  if committing s then mret false
  else if decide (LOGSIZE < lh_n s + (outstanding s + 1) * MAXOPBLOCKS) then mret false
  else modify (set_outstanding (outstanding s + 1));; mret true.

Definition commit : M logst unit :=
  n ← gets lh_n;
  if decide (0 < n) then
    write_log;;
    write_head;;
    install_trans;;
    modify (set_lh_n 0);;
    write_head
  else mret tt.

(** [end_op], with the channels it wakes. *)
Definition end_op : M logst (list addr) :=
  modify (λ s, set_outstanding (outstanding s - 1) s);;
  s ← gets id;
  if committing s then panic "log.committing" else
  if decide (outstanding s = 0) then
    modify (set_committing true);;
    commit;;
    modify (set_committing false);;
    mret [AddrLog]
  else mret [AddrLog].

(** The index of [b] among [bs], or the first index after them. *)
Fixpoint find_block (b : Z) (bs : list Z) : nat :=
  match bs with
  | [] => O
  | c :: bs' => if decide (u32 c = b) then O else S (find_block b bs')
  end.

Definition log_write (b : nat) : M logst unit :=
  s ← gets id;
  if decide (LOGSIZE ≤ lh_n s ∨ size s - 1 ≤ lh_n s) then panic "too big a transaction" else
  if decide (outstanding s < 1) then panic "log_write outside of trans" else
  x ← on_cache (getb b);
  let i := find_block (blockno x) (logged s) in
  set_block_at i (i32 (blockno x));;
  (if decide (Z.of_nat i = lh_n s) then modify (set_lh_n (lh_n s + 1)) else mret tt);;
  on_cache (setb b (set_dirty true)).

(** ** What reaches the disk *)

Definition apply_writes (dk : Z → list Z) (ws : list (Z * list Z)) : Z → list Z :=
  foldl (λ dk w, <[w.1 := w.2]> dk) dk ws.

Lemma apply_writes_app dk ws ws' : apply_writes dk (ws ++ ws') = apply_writes (apply_writes dk ws) ws'.
Proof. apply foldl_app. Qed.

Lemma apply_writes_other dk ws m : m ∉ ws.*1 → apply_writes dk ws m = dk m.
Proof.
  revert dk. induction ws as [|[n v] ws IH]; intros dk Hm; [done|]. simpl in *.
  rewrite IH by set_solver. rewrite fn_insert_dec, decide_False by set_solver. done.
Qed.

Lemma apply_writes_in dk ws m v : NoDup ws.*1 → (m, v) ∈ ws → apply_writes dk ws m = v.
Proof.
  revert dk. induction ws as [|[n w] ws IH]; intros dk Hnd Hm; [by apply elem_of_nil in Hm|].
  simpl in *. apply NoDup_cons in Hnd as [Hn Hnd]. apply elem_of_cons in Hm as [[= -> ->]|Hm]; [|by apply IH].
  rewrite apply_writes_other by done. by rewrite fn_insert_dec, decide_True.
Qed.

Section Device.
Context (d : Z) (Hdisk : 0 ≤ d ≤ 1).

(** From [s] to [s'] the device was given the blocks [ws], in order. *)
Definition wrote (s s' : bst) (ws : list (Z * list Z)) : Prop :=
  writes s' = writes s ++ ((λ w, (d, w.1, w.2)) <$> ws) ∧ ∀ m, disk s' d m = apply_writes (disk s d) ws m.

Lemma wrote_nil s s' : disk s' = disk s → writes s' = writes s → wrote s s' [].
Proof. intros E1 E2. split; [by rewrite E2, app_nil_r|]. intros m. by rewrite E1. Qed.

Lemma apply_writes_ext dk dk' ws : (∀ m, dk m = dk' m) → ∀ m, apply_writes dk ws m = apply_writes dk' ws m.
Proof.
  revert dk dk'. induction ws as [|w ws IH]; intros dk dk' H m; [apply H|]. simpl. apply IH. intros m'.
  rewrite !fn_insert_dec. by destruct (decide (w.1 = m')).
Qed.

Lemma wrote_trans s1 s2 s3 ws ws' : wrote s1 s2 ws → wrote s2 s3 ws' → wrote s1 s3 (ws ++ ws').
Proof.
  intros [W1 D1] [W2 D2]. split; [by rewrite W2, W1, fmap_app, app_assoc|].
  intros m. rewrite D2, apply_writes_app. by apply apply_writes_ext.
Qed.

Lemma wrote_one s s' n v :
  writes s' = writes s ++ [(d, n, v)] → (∀ m, disk s' d m = if decide (m = n) then v else disk s d m) → wrote s s' [(n, v)].
Proof.
  intros E1 E2. split; [done|]. intros m. rewrite E2. simpl. rewrite fn_insert_dec.
  destruct (decide (m = n)) as [->|Hne]; [by rewrite decide_True|by rewrite decide_False].
Qed.

(** The two copies. *)
Lemma finish_copy s D H src dst bs bd ts td vs vd :
  Using d s D H → src ≠ dst → Held d s bs src ts vs → Held d s bd dst td vd → (ts = true ∨ vs = disk s d src) →
  (∀ m, m ∈ H → m = src ∨ m = dst) →
  wp (x ← getb bs; setb bd (set_data (data x));; bwrite bd;; brelse bs;; brelse bd) s (λ _ s',
    Using d s' (filter (.≠ dst) D) [] ∧ (∀ m, view s' d m = if decide (m = dst) then vs else view s d m) ∧
    wrote s s' [(dst, vs)]).
Proof.
  intros HU Hne Hs Hd Hcl HH. wp_steps. eapply wp_getb; [exact Hs|]. simpl. wp_steps.
  wp_call (store_using d Hdisk s D H bd dst td vd vs HU Hd).
  intros _ s1 (U1 & Hd1 & V1 & E1 & W1 & K1). wp_steps.
  wp_call (bwrite_using d Hdisk s1 D H bd dst td vs U1 Hd1).
  intros _ s2 (U2 & Hd2 & V2 & Dk2 & W2 & K2). wp_steps.
  assert (Held d s2 bs src ts vs) as Hs2 by (apply K2, K1; done).
  assert (∀ m, disk s2 d m = if decide (m = dst) then vs else disk s d m) as Dk2'.
  { intros m. by rewrite Dk2, E1. }
  wp_call (brelse_using d Hdisk s2 _ H bs src ts vs U2 Hs2).
  { rewrite Dk2', decide_False by done. done. }
  intros _ s3 (U3 & V3 & E3 & W3 & K3). wp_steps.
  wp_call (brelse_using d Hdisk s3 _ _ bd dst false vs U3 (K3 _ _ _ _ (not_eq_sym Hne) Hd2)).
  { right. by rewrite E3, Dk2', decide_True. }
  intros _ s4 (U4 & V4 & E4 & W4 & K4). split; [|split].
  - assert (filter (.≠ dst) (filter (.≠ src) H) = []) as <-; [|done].
    apply elem_of_nil_inv. intros m [[Hm H1]%elem_of_filter_ne H2]%elem_of_filter_ne. by destruct (HH m Hm).
  - intros m. rewrite V4, V3, V2, V1. done.
  - apply wrote_one; [by rewrite W4, W3, W2, W1|]. intros m. by rewrite E4, E3, Dk2'.
Qed.

(** [bread] of a block nobody holds. *)
Lemma Using_clean s D H m : Using d s D H → m ∉ D → m ∉ H → view s d m = disk s d m.
Proof.
  intros HU HD HH. pose proof (us_inv _ _ _ _ HU) as (l & HC). unfold view.
  destruct (cached s d m) as [[i x]|] eqn:E; [|done].
  apply (cached_iff _ _ _ _ _ _ HC (Hdev d Hdisk)) in E as (Hx & <- & <-). destruct (valid x) eqn:Hv; [|done].
  apply (cv_clean _ _ HC i x Hx Hv).
  - destruct (dirty x) eqn:Hdt; [|done]. by destruct (us_dirty _ _ _ _ HU i x Hx Hdt).
  - destruct (busy x) eqn:Hb; [|done]. by destruct (us_busy _ _ _ _ HU i x Hx Hb).
Qed.

Lemma log_block_spec s D a c :
  Using d s D [] → 0 ≤ a < FSSIZE → 0 ≤ c < FSSIZE → a ∉ D → c ∈ D → (length D < NBUF)%nat →
  wp (log_block d a c) s (λ _ s', Using d s' D [] ∧
    (∀ m, view s' d m = if decide (m = a) then view s d c else view s d m) ∧ wrote s s' [(a, view s d c)]).
Proof.
  intros HU Ha Hc HaD HcD Hlt. assert (c ≠ a) as Hne by congruence. unfold log_block. wp_steps.
  wp_call (bread_using d Hdisk s D [] a HU Ha); [set_solver|right; by rewrite app_nil_r|].
  intros to s1 (U1 & H1 & V1 & E1 & W1 & K1). wp_steps.
  wp_call (bread_using d Hdisk s1 D [a] c U1 Hc); [set_solver|by left|].
  intros from s2 (U2 & H2 & V2 & E2 & W2 & K2). rewrite bool_decide_true in H2 by done. rewrite bool_decide_false in H1 by done.
  eapply wp_mono; [eapply (finish_copy s2 D [c; a] c a from to true false)|]; try done.
  - by apply K2.
  - by left.
  - set_solver.
  - intros _ s3 (U3 & V3 & W3). rewrite filter_ne_notin in U3 by done. rewrite V1 in *.
    split; [done|]. split; [intros m; by rewrite V3, V2, V1|].
    eapply (wrote_trans s s2 s3 []); [apply wrote_nil; congruence|done].
Qed.

Lemma install_block_spec s D a c :
  Using d s D [] → 0 ≤ a < FSSIZE → 0 ≤ c < FSSIZE → a ∉ D → a ≠ c → (length D + 1 < NBUF ∨ length D < NBUF ∧ c ∈ D)%nat →
  wp (install_block d a c) s (λ _ s', Using d s' (filter (.≠ c) D) [] ∧
    (∀ m, view s' d m = if decide (m = c) then view s d a else view s d m) ∧ wrote s s' [(c, view s d a)]).
Proof.
  intros HU Ha Hc HaD Hne Hlt. unfold install_block. wp_steps.
  wp_call (bread_using d Hdisk s D [] a HU Ha); [set_solver|right; rewrite app_nil_r; lia|].
  intros lb s1 (U1 & H1 & V1 & E1 & W1 & K1). wp_steps.
  wp_call (bread_using d Hdisk s1 D [a] c U1 Hc); [set_solver| |].
  { destruct Hlt as [?|[? ?]]; [right; rewrite length_app; simpl; lia|by left]. }
  intros db s2 (U2 & H2 & V2 & E2 & W2 & K2). rewrite bool_decide_false in H1 by done.
  eapply wp_mono; [eapply (finish_copy s2 D [c; a] a c lb db false)|]; try done.
  - by apply K2.
  - right. rewrite E2, E1. apply (Using_clean s D []); [done|done|set_solver].
  - set_solver.
  - intros _ s3 (U3 & V3 & W3). split; [done|]. split; [intros m; by rewrite V3, V2, V1|].
    eapply (wrote_trans s s2 s3 []); [apply wrote_nil; congruence|done].
Qed.

(** Rewriting a clean block in place. *)
Lemma rewrite_block_spec s D n (f : list Z → list Z) :
  Using d s D [] → 0 ≤ n < FSSIZE → n ∉ D → (length D < NBUF)%nat →
  wp (b ← bread_now d n; x ← getb b; setb b (set_data (f (data x)));; bwrite b;; brelse b) s (λ _ s',
    Using d s' D [] ∧ (∀ m, view s' d m = if decide (m = n) then f (disk s d n) else view s d m) ∧
    wrote s s' [(n, f (disk s d n))]).
Proof.
  intros HU Hn HD Hlt. wp_steps.
  wp_call (bread_using d Hdisk s D [] n HU Hn); [set_solver|right; by rewrite app_nil_r|].
  intros b s1 (U1 & H1 & V1 & E1 & W1 & K1). rewrite bool_decide_false in H1 by done.
  rewrite (Using_clean s D [] n HU HD) in H1 by set_solver.
  wp_steps. eapply wp_getb; [exact H1|]. cbn [data]. wp_steps.
  wp_call (store_using d Hdisk s1 D _ b n _ _ (f (disk s d n)) U1 H1).
  intros _ s2 (U2 & H2 & V2 & E2 & W2 & K2). wp_steps.
  wp_call (bwrite_using d Hdisk s2 D _ b n _ _ U2 H2). intros _ s3 (U3 & H3 & V3 & E3 & W3 & K3). wp_steps.
  wp_call (brelse_using d Hdisk s3 _ _ b n _ _ U3 H3); [right; by rewrite E3, decide_True|].
  intros _ s4 (U4 & V4 & E4 & W4 & K4). rewrite filter_ne_notin in U4 by done.
  rewrite filter_cons, decide_False in U4 by tauto. split; [done|].
  split; [intros m; by rewrite V4, V3, V2, V1|].
  apply wrote_one; [by rewrite W4, W3, W2, W1|]. intros m. by rewrite E4, E3, E2, E1.
Qed.
End Device.

(** ** Encoding and decoding the header *)

Definition head_blocks (d : list Z) : list Z := head_block d <$> seq 0 (Z.to_nat (head_n d)).

Lemma put_blocks_spec bs : ∀ i d,
  length d = BSIZE → (i + length bs ≤ Z.to_nat LOGSIZE)%nat →
  length (put_blocks i bs d) = BSIZE ∧
  get_le 0 4 (put_blocks i bs d) = get_le 0 4 d ∧
  (∀ j, (j < i)%nat → get_le (4 + 4 * j) 4 (put_blocks i bs d) = get_le (4 + 4 * j) 4 d) ∧
  (∀ j b, bs !! j = Some b → get_le (4 + 4 * (i + j)) 4 (put_blocks i bs d) = b `mod` 2 ^ 32).
Proof.
  induction bs as [|b bs IH]; intros i d Hl Hi; cbn [put_blocks]; [naive_solver|].
  assert (4 + 4 * i + 4 ≤ length d)%nat as Hb by (rewrite Hl; unfold LOGSIZE, MAXOPBLOCKS, BSIZE in *; simpl in Hi; lia).
  destruct (IH (S i) (put_le (4 + 4 * i) 4 b d)) as (H1 & H2 & H3 & H4); [by rewrite length_put_le|simpl in Hi; lia|].
  split; [done|]. split; [|split].
  - rewrite H2. apply get_put_ne; lia.
  - intros j Hj. rewrite H3 by lia. apply get_put_ne; lia.
  - intros [|j] c Hj; simpl in Hj.
    + injection Hj as <-. rewrite Nat.add_0_r, H3 by lia. by apply get_put_eq.
    + replace (i + S j)%nat with (S i + j)%nat by lia. by apply H4.
Qed.

Lemma put_head_spec bs d :
  length d = BSIZE → (length bs ≤ Z.to_nat LOGSIZE)%nat → Forall is_i32 bs →
  length (put_head bs (Z.of_nat (length bs)) d) = BSIZE ∧
  head_n (put_head bs (Z.of_nat (length bs)) d) = Z.of_nat (length bs) ∧
  head_blocks (put_head bs (Z.of_nat (length bs)) d) = bs.
Proof.
  intros Hl Hn Hbs. unfold put_head. set (d0 := put_le 0 4 (Z.of_nat (length bs)) d).
  assert (4 ≤ length d)%nat as Hd by (rewrite Hl; unfold BSIZE; lia).
  destruct (put_blocks_spec bs 0 d0) as (H1 & H2 & _ & H4); [unfold d0; by rewrite length_put_le|done|].
  assert (is_i32 (Z.of_nat (length bs))) as Hsm by (unfold is_i32; unfold LOGSIZE, MAXOPBLOCKS in Hn; lia).
  assert (head_n (put_blocks 0 bs d0) = Z.of_nat (length bs)) as En.
  { unfold head_n. rewrite H2. unfold d0. rewrite get_put_eq by done. change (2 ^ (8 * Z.of_nat 4)) with (2 ^ 32).
    fold (u32 (Z.of_nat (length bs))). rewrite i32_u32. by apply i32_small. }
  split; [done|]. split; [done|]. unfold head_blocks. rewrite En, Nat2Z.id. apply list_eq. intros j.
  rewrite list_lookup_fmap. destruct (bs !! j) as [b|] eqn:Ej.
  - rewrite lookup_seq_lt by (by eapply lookup_lt_Some). simpl. f_equal. unfold head_block.
    replace (4 + 4 * j)%nat with (4 + 4 * (0 + j))%nat by lia. rewrite (H4 j b Ej). fold (u32 b). rewrite i32_u32.
    apply i32_small. by eapply Forall_lookup_1.
  - rewrite lookup_seq_ge by (by apply lookup_ge_None). done.
Qed.
