(* ===== verification/LogSafe.v ===== *)
(** * Crash safety of the log (log.c)

    The blocks [commit] and [recover_from_log] give to the disk, in order, and
    what recovery makes of the disk after a crash at any point of them. *)

From S2P Require Import Prelude Spinlock ProcState Layout Bio BioUse Log.

Local Open Scope Z_scope.

(** The log area, and the blocks outside it. *)
Definition in_log (s : logst) (m : Z) : Prop := start s ≤ m < start s + size s.
Definition home (s : logst) (m : Z) : Prop := 0 ≤ m < FSSIZE ∧ ¬ in_log s m.

Record Area (s : logst) : Prop := {
  ar_dev : 0 ≤ ldev s ≤ 1;
  ar_start : 0 ≤ start s;
  ar_end : start s + size s ≤ FSSIZE;
  ar_size : 1 ≤ size s ≤ LOGSIZE;      (* mkfs makes it LOGSIZE *)
  ar_len : length (lh_block s) = Z.to_nat LOGSIZE
}.

Lemma home_u32 s m : home s m → u32 m = m.
Proof. intros [H _]. apply u32_small. unfold is_u32, FSSIZE in *. lia. Qed.

Lemma home_i32 s m : home s m → is_i32 m.
Proof. intros [H _]. unfold is_i32, FSSIZE in *. lia. Qed.

(** Log block number [t] is inside the area. *)
Lemma area_block s t :
  Area s → (Z.of_nat t + 1 < size s) →
  u32 (start s + Z.of_nat t + 1) = start s + Z.of_nat t + 1 ∧ 0 ≤ start s + Z.of_nat t + 1 < FSSIZE ∧
  in_log s (start s + Z.of_nat t + 1).
Proof.
  intros HA Ht. destruct HA as [_ H0 H1 _ _]. unfold in_log. split; [|lia].
  apply u32_small. unfold is_u32, FSSIZE in *. lia.
Qed.

Lemma area_head s : Area s → u32 (start s) = start s ∧ 0 ≤ start s < FSSIZE ∧ in_log s (start s).
Proof.
  intros HA. destruct HA as [_ H0 H1 [H2 _] _]. unfold in_log. split; [|lia].
  apply u32_small. unfold is_u32, FSSIZE in *. lia.
Qed.

(** ** The loops *)

Section Loops.
Context (s : logst) (HA : Area s) (blk : nat → Z).

Definition named (tails : list nat) : Prop :=
  ∀ t, t ∈ tails → lh_block s !! t = Some (blk t) ∧ home s (blk t) ∧ Z.of_nat t + 1 < size s.

Lemma write_log_loop_spec (v : Z → list Z) D : ∀ tails c,
  named tails → (∀ t, t ∈ tails → blk t ∈ D) → (∀ m, m ∈ D → home s m) → (length D < NBUF)%nat →
  Using (ldev s) c D [] → (∀ m, ¬ in_log s m → view c (ldev s) m = v m) →
  wp (write_log_loop tails) (set_cache c s) (λ _ s', ∃ c', s' = set_cache c' s ∧ Using (ldev s) c' D [] ∧
    (∀ m, ¬ in_log s m → view c' (ldev s) m = v m) ∧
    wrote (ldev s) c c' ((λ t, (start s + Z.of_nat t + 1, v (blk t))) <$> tails)).
Proof.
  induction tails as [|t tails IH]; intros c Hnm HinD HD Hlt HU Hv; simpl.
  { wp_steps. exists c. split; [done|]. split; [done|]. split; [done|]. by apply wrote_nil. }
  destruct (Hnm t) as (Hb & Hh & Ht); [set_solver|]. destruct (area_block s t HA Ht) as (Eu & Hr & Hin).
  wp_steps. apply (wp_lookupM _ _ (blk t)); [done|]. wp_steps. apply wp_on_cache. cbn [ldev start cache set_cache].
  rewrite Eu, (home_u32 s _ Hh).
  wp_call (log_block_spec (ldev s) (ar_dev s HA) c D (start s + Z.of_nat t + 1) (blk t) HU Hr (proj1 Hh)).
  { intros HinA. by destruct (HD _ HinA). }
  { apply HinD. set_solver. }
  { done. }
  intros _ c1 (U1 & V1 & W1). change (set_cache c1 (set_cache c s)) with (set_cache c1 s).
  eapply wp_mono; [apply (IH c1)|]; try done.
  - intros t' Ht'. apply Hnm. set_solver.
  - intros t' Ht'. apply HinD. set_solver.
  - intros m Hm. rewrite V1, decide_False by (by intros ->). by apply Hv.
  - intros _ s' (c' & -> & U' & V' & W'). exists c'. split; [done|]. split; [done|]. split; [done|].
    rewrite (Hv (blk t)) in W1 by apply Hh. by apply (wrote_trans _ _ c1 _ [_]).
Qed.

Lemma install_loop_spec (w : nat → list Z) : ∀ tails c D,
  named tails → (D = [] ∨ D = blk <$> tails ∧ NoDup D ∧ (length D < NBUF)%nat) → Using (ldev s) c D [] →
  (∀ t, t ∈ tails → view c (ldev s) (start s + Z.of_nat t + 1) = w t) →
  wp (install_loop tails) (set_cache c s) (λ _ s', ∃ c', s' = set_cache c' s ∧ Using (ldev s) c' [] [] ∧
    wrote (ldev s) c c' ((λ t, (blk t, w t)) <$> tails)).
Proof.
  induction tails as [|t tails IH]; intros c D Hnm HD HU Hw; simpl.
  { wp_steps. exists c. split; [done|]. split; [by destruct HD as [->|[-> _]]|]. by apply wrote_nil. }
  destruct (Hnm t) as (Hb & Hh & Ht); [set_solver|]. destruct (area_block s t HA Ht) as (Eu & Hr & Hin).
  assert (start s + Z.of_nat t + 1 ≠ blk t) as Hne by (intros E; apply Hh; by rewrite <- E).
  assert (start s + Z.of_nat t + 1 ∉ D) as HnD.
  { destruct HD as [->|[-> _]]; [set_solver|]. intros (t' & E & Ht')%list_elem_of_fmap.
    destruct (Hnm t' Ht') as (_ & [_ H2] & _). apply H2. by rewrite <- E. }
  wp_steps. apply (wp_lookupM _ _ (blk t)); [done|]. wp_steps. apply wp_on_cache. cbn [ldev start cache set_cache].
  rewrite Eu, (home_u32 s _ Hh).
  wp_call (install_block_spec (ldev s) (ar_dev s HA) c D _ (blk t) HU Hr (proj1 Hh) HnD Hne).
  { destruct HD as [->|(-> & _ & Hlt)]; [left; unfold NBUF; simpl; lia|right; split; [done|simpl; set_solver]]. }
  intros _ c1 (U1 & V1 & W1). change (set_cache c1 (set_cache c s)) with (set_cache c1 s).
  eapply wp_mono; [apply (IH c1 (filter (.≠ blk t) D))|]; try done.
  - intros t' Ht'. apply Hnm. set_solver.
  - destruct HD as [->|(-> & Hnd & Hlt)]; [by left|right]. rewrite fmap_cons in Hnd, Hlt. cbn [length] in Hlt. apply NoDup_cons in Hnd as [Hni Hnd].
    rewrite fmap_cons, filter_cons, decide_False, filter_ne_notin by tauto. split; [done|]. split; [done|lia].
  - intros t' Ht'. destruct (Hnm t') as (_ & _ & Hlt'); [set_solver|].
    rewrite V1, decide_False; [apply Hw; set_solver|]. intros E. apply (proj2 Hh). rewrite <- E. by apply (area_block s t' HA).
  - intros _ s' (c' & -> & U' & W'). exists c'. split; [done|]. split; [done|].
    rewrite (Hw t) in W1 by set_solver. by apply (wrote_trans _ _ c1 _ [_]).
Qed.
End Loops.

(** ** The header *)

Lemma write_head_spec s c D :
  Area s → Using (ldev s) c D [] → (∀ m, m ∈ D → home s m) → (length D < NBUF)%nat →
  let h := put_head (logged s) (lh_n s) (disk c (ldev s) (start s)) in
  wp write_head (set_cache c s) (λ _ s', ∃ c', s' = set_cache c' s ∧ Using (ldev s) c' D [] ∧
    (∀ m, view c' (ldev s) m = if decide (m = start s) then h else view c (ldev s) m) ∧
    wrote (ldev s) c c' [(start s, h)]).
Proof.
  intros HA HU HD Hlt h. destruct (area_head s HA) as (Eu & Hr & Hin).
  assert (start s ∉ D) as HnD by (intros Hi; by destruct (HD _ Hi)).
  pose proof (rewrite_block_spec (ldev s) (ar_dev s HA) c D (start s) (put_head (logged s) (lh_n s)) HU Hr HnD Hlt) as Hw.
  unfold write_head. wp_steps. apply wp_on_cache. cbn [ldev start cache set_cache]. rewrite Eu.
  eapply wp_mono; [exact Hw|]. intros _ c' (U & V & W). by exists c'.
Qed.

(** The in-memory header after [read_head]. *)
Lemma read_blocks_spec d : ∀ idx s,
  (∀ i, i ∈ idx → (i < length (lh_block s))%nat) →
  wp (read_blocks d idx) s (λ _ s', ∃ bl, s' = set_lh_block bl s ∧ length bl = length (lh_block s) ∧
    (∀ i, i ∈ idx → bl !! i = Some (head_block d i)) ∧ (∀ i, i ∉ idx → bl !! i = lh_block s !! i)).
Proof.
  induction idx as [|i idx IH]; intros s Hi; simpl.
  { wp_steps. exists (lh_block s). split; [by destruct s|]. split; [done|]. split; [|done]. intros i Hi'. by apply elem_of_nil in Hi'. }
  destruct (lookup_lt_is_Some_2 (lh_block s) i) as [b Hb]; [apply Hi; set_solver|].
  unfold set_block_at. wp_steps. apply (wp_lookupM _ _ b); [done|]. wp_steps.
  eapply wp_mono; [apply IH|].
  { intros j Hj. simpl. rewrite length_insert. apply Hi. set_solver. }
  intros _ s' (bl & -> & Hl & H1 & H2). exists bl. simpl in Hl, H2. rewrite length_insert in Hl.
  split; [done|]. split; [done|]. split.
  - intros j Hj. destruct (decide (j ∈ idx)) as [Hj'|Hj']; [by apply H1|]. rewrite H2 by done.
    apply elem_of_cons in Hj as [->|Hj]; [|done]. apply list_lookup_insert_eq. apply Hi. set_solver.
  - intros j Hj. rewrite H2 by set_solver. apply list_lookup_insert_ne. set_solver.
Qed.

Lemma read_head_spec s c :
  Area s → Using (ldev s) c [] [] → 0 ≤ head_n (disk c (ldev s) (start s)) ≤ LOGSIZE →
  let h := disk c (ldev s) (start s) in
  wp read_head (set_cache c s) (λ _ s', ∃ c' bl, s' = set_lh_block bl (set_lh_n (head_n h) (set_cache c' s)) ∧
    length bl = Z.to_nat LOGSIZE ∧ (∀ i, (i < Z.to_nat (head_n h))%nat → bl !! i = Some (head_block h i)) ∧
    Using (ldev s) c' [] [] ∧ (∀ m, view c' (ldev s) m = view c (ldev s) m) ∧ wrote (ldev s) c c' []).
Proof.
  intros HA HU Hn h. destruct (area_head s HA) as (Eu & Hr & Hin). unfold read_head. wp_steps.
  apply wp_on_cache. cbn [ldev start cache set_cache]. rewrite Eu.
  wp_call (bread_using _ (ar_dev s HA) c [] [] (start s) HU Hr); [set_solver|right; unfold NBUF; simpl; lia|].
  intros b c1 (U1 & H1 & V1 & E1 & W1 & K1). rewrite (Using_clean _ (ar_dev s HA) c [] [] (start s) HU) in H1 by set_solver.
  fold h in H1. wp_steps. apply wp_on_cache. cbn [cache set_cache]. eapply wp_getb; [exact H1|]. cbn [data]. wp_steps.
  eapply wp_mono; [apply read_blocks_spec|].
  { intros i Hi%elem_of_seq. cbn [lh_block set_lh_n set_cache]. rewrite (ar_len s HA). fold h in Hn. lia. }
  intros _ s' (bl & -> & Hl & Hb & _). apply wp_on_cache. cbn [cache set_cache set_lh_n set_lh_block].
  wp_call (brelse_using _ (ar_dev s HA) c1 [] _ b (start s) _ _ U1 H1); [right; by rewrite E1|].
  intros _ c2 (U2 & V2 & E2 & W2 & _). exists c2, bl. split; [done|]. split; [rewrite Hl; apply HA|].
  split; [intros i Hi; apply Hb, elem_of_seq; lia|].
  rewrite filter_cons, decide_False in U2 by tauto. split; [done|]. split; [intros m; by rewrite V2, V1|].
  apply wrote_nil; congruence.
Qed.

(** ** Recovery *)

(** The home writes that the header [dk st] asks for. *)
Definition redo (st : Z) (dk : Z → list Z) : list (Z * list Z) :=
  (λ t, (head_block (dk st) t, dk (st + Z.of_nat t + 1))) <$> seq 0 (Z.to_nat (head_n (dk st))).

Definition recovery_writes (st : Z) (dk : Z → list Z) : list (Z * list Z) :=
  redo st dk ++ [(st, put_head [] 0 (dk st))].

Record Head_ok (s : logst) (h : list Z) : Prop := {
  ho_len : length h = BSIZE;
  ho_n : 0 ≤ head_n h ≤ LOGSIZE;
  ho_size : head_n h ≤ size s - 1;
  ho_nodup : NoDup (head_blocks h);
  ho_home : Forall (home s) (head_blocks h)
}.

Lemma redo_blocks st dk : (redo st dk).*1 = head_blocks (dk st).
Proof. unfold redo, head_blocks. rewrite <- list_fmap_compose. by apply list_fmap_ext. Qed.

Lemma recover_spec s c :
  Area s → Using (ldev s) c [] [] → Head_ok s (disk c (ldev s) (start s)) →
  wp recover_from_log (set_cache c s) (λ _ s', ∃ c' bl, s' = set_lh_block bl (set_lh_n 0 (set_cache c' s)) ∧
    length bl = Z.to_nat LOGSIZE ∧ Using (ldev s) c' [] [] ∧
    wrote (ldev s) c c' (recovery_writes (start s) (disk c (ldev s)))).
Proof.
  intros HA HU Hok. set (h := disk c (ldev s) (start s)) in *. unfold recover_from_log. wp_steps.
  eapply wp_mono; [apply (read_head_spec s c HA HU (ho_n s _ Hok))|]. fold h. cbn beta.
  intros _ s1 (c1 & bl & -> & Hl & Hbl & U1 & V1 & W1). unfold install_trans. wp_steps. cbn [lh_n set_lh_n set_lh_block].
  set (s1 := set_lh_block bl (set_lh_n (head_n h) s)).
  assert (Area s1) as HA1 by (destruct HA; by split).
  change (set_lh_block bl (set_lh_n (head_n h) (set_cache c1 s))) with (set_cache c1 s1).
  eapply wp_mono; [apply (install_loop_spec s1 HA1 (head_block h) (λ t, disk c (ldev s) (start s + Z.of_nat t + 1)) _ c1 [])|].
  - intros t Ht%elem_of_seq. split; [apply Hbl; lia|]. split; [|pose proof (ho_size s _ Hok); cbn; lia].
    apply (Forall_forall (home s) (head_blocks h)); [apply Hok|]. apply list_elem_of_fmap. exists t. split; [done|]. apply elem_of_seq. lia.
  - by left.
  - done.
  - intros t Ht. cbn [ldev start s1 set_lh_block set_lh_n]. rewrite V1. apply (Using_clean _ (ar_dev s HA) c [] []); [done|set_solver|set_solver].
  - intros _ s2 (c2 & -> & U2 & W2). wp_steps.
    eapply wp_mono; [apply (write_head_spec (set_lh_n 0 s1) c2 [])|]; try done.
    { by destruct HA1; split. }
    { intros m Hm. by apply elem_of_nil in Hm. }
    { unfold NBUF. simpl. lia. }
    intros _ s3 (c3 & -> & U3 & _ & W3). exists c3, bl. split; [done|]. split; [done|]. split; [done|].
    cbn [ldev start s1 set_lh_block set_lh_n lh_n logged] in *.
    assert (disk c2 (ldev s) (start s) = h) as Eh.
    { rewrite (proj2 (wrote_trans _ c c1 c2 [] _ W1 W2)). simpl. rewrite apply_writes_other; [done|].
      rewrite <- list_fmap_compose. intros (t & E & Ht)%list_elem_of_fmap. simpl in E.
      pose proof (ho_home s _ Hok) as Hh. rewrite Forall_forall in Hh.
      destruct (Hh (start s)) as [_ []]; [|by apply (area_head s HA)]. rewrite E. by apply list_elem_of_fmap_2. }
    rewrite Eh in W3. unfold logged in W3. simpl in W3.
    apply (wrote_trans _ c c2 c3); [|exact W3]. apply (wrote_trans _ c c1 c2 [] _ W1 W2).
Qed.

(** ** Commit *)

(** Between the calls of log.c: the blocks named in memory are the ones pinned
    in the cache, and the header on disk names none. *)
Record LInv (s : logst) (H : list Z) : Prop := {
  li_area : Area s;
  li_n : 0 ≤ lh_n s ≤ size s - 1;
  li_use : Using (ldev s) (cache s) (logged s) H;
  li_nodup : NoDup (logged s);
  li_home : Forall (home s) (logged s);
  li_clear : head_n (disk (cache s) (ldev s) (start s)) = 0;
  li_block : length (disk (cache s) (ldev s) (start s)) = BSIZE
}.

Definition entry (s : logst) (t : nat) : Z := lh_block s !!! t.
Definition entries (s : logst) : list nat := seq 0 (Z.to_nat (lh_n s)).

Lemma logged_entries s : Area s → lh_n s ≤ LOGSIZE → logged s = entry s <$> entries s.
Proof.
  intros HA Hn. unfold logged, entries, entry. apply list_eq. intros i. rewrite list_lookup_fmap.
  destruct (decide (i < Z.to_nat (lh_n s))%nat) as [Hi|Hi].
  - rewrite lookup_take_lt, lookup_seq_lt by lia. simpl. apply list_lookup_lookup_total_lt. rewrite (ar_len s HA). lia.
  - rewrite lookup_take_ge, lookup_seq_ge by lia. done.
Qed.

Lemma LInv_small s H : LInv s H → (length (logged s) < NBUF)%nat ∧ Z.of_nat (length (logged s)) = lh_n s ∧ lh_n s ≤ LOGSIZE.
Proof.
  intros HL. pose proof (li_n _ _ HL). pose proof (ar_size _ (li_area _ _ HL)). pose proof (ar_len _ (li_area _ _ HL)) as El.
  unfold logged. rewrite length_take, El. unfold LOGSIZE, MAXOPBLOCKS, NBUF in *. lia.
Qed.

Lemma LInv_named s H : LInv s H → named s (entry s) (entries s).
Proof.
  intros HL t Ht. pose proof (li_area _ _ HL) as HA. destruct (LInv_small s H HL) as (_ & _ & Hn).
  pose proof (li_n _ _ HL) as Hn'. pose proof (ar_len _ HA) as El.
  assert (entry s t ∈ logged s) as Hin by (rewrite logged_entries by done; by apply list_elem_of_fmap_2).
  apply elem_of_seq in Ht. split; [|split].
  - apply list_lookup_lookup_total_lt. lia.
  - by apply (proj1 (Forall_forall _ _) (li_home _ _ HL)).
  - lia.
Qed.

(** What [commit] gives to the disk: the log, the header, the home blocks, the
    cleared header. *)
Definition head_full (s : logst) : list Z := put_head (logged s) (lh_n s) (disk (cache s) (ldev s) (start s)).
Definition log_part (s : logst) : list (Z * list Z) :=
  (λ t, (start s + Z.of_nat t + 1, view (cache s) (ldev s) (entry s t))) <$> entries s.
Definition home_part (s : logst) : list (Z * list Z) :=
  (λ t, (entry s t, view (cache s) (ldev s) (entry s t))) <$> entries s.
Definition commit_writes (s : logst) : list (Z * list Z) :=
  if decide (0 < lh_n s) then
    log_part s ++ [(start s, head_full s)] ++ home_part s ++ [(start s, put_head [] 0 (head_full s))]
  else [].

Lemma log_part_blocks s : (log_part s).*1 = (λ t, start s + Z.of_nat t + 1) <$> entries s.
Proof. unfold log_part. rewrite <- list_fmap_compose. by apply list_fmap_ext. Qed.
Lemma home_part_blocks s : Area s → lh_n s ≤ LOGSIZE → (home_part s).*1 = logged s.
Proof. intros HA Hn. rewrite logged_entries by done. unfold home_part. rewrite <- list_fmap_compose. by apply list_fmap_ext. Qed.

Lemma log_part_in_log s H m : LInv s H → m ∈ (log_part s).*1 → in_log s m ∧ m ≠ start s.
Proof.
  intros HL. rewrite log_part_blocks. intros (t & -> & Ht)%list_elem_of_fmap.
  destruct (LInv_named s H HL t Ht) as (_ & _ & Hlt). destruct (area_block s t (li_area _ _ HL) Hlt) as (_ & _ & Hin).
  split; [done|lia].
Qed.

Lemma log_part_nodup s : NoDup (log_part s).*1.
Proof. rewrite log_part_blocks. apply NoDup_fmap_2; [intros a b E; lia|apply NoDup_seq]. Qed.

Lemma set_cache_id s : set_cache (cache s) s = s.
Proof. by destruct s. Qed.

(** The disk once the log is written: the log blocks hold what the cache holds
    of the home blocks. *)
Lemma logged_on_disk s H t h :
  LInv s H → t ∈ entries s →
  apply_writes (disk (cache s) (ldev s)) (log_part s ++ [(start s, h)]) (start s + Z.of_nat t + 1) =
    view (cache s) (ldev s) (entry s t).
Proof.
  intros HL Ht. rewrite apply_writes_app. simpl. rewrite fn_insert_dec, decide_False by lia.
  apply apply_writes_in; [apply log_part_nodup|]. unfold log_part. apply list_elem_of_fmap. by exists t.
Qed.

Lemma head_on_disk s H : LInv s H → apply_writes (disk (cache s) (ldev s)) (log_part s) (start s) = disk (cache s) (ldev s) (start s).
Proof. intros HL. apply apply_writes_other. intros Hin. by destruct (log_part_in_log s H _ HL Hin). Qed.

Lemma start_not_home s H : LInv s H → start s ∉ (home_part s).*1.
Proof.
  intros HL. rewrite home_part_blocks; [|apply HL|by apply (LInv_small s H)]. intros Hin.
  destruct (proj1 (Forall_forall _ _) (li_home _ _ HL) _ Hin) as [_ []]. apply area_head, HL.
Qed.

Lemma commit_spec s :
  LInv s [] →
  wp commit s (λ _ s', ∃ c', s' = set_lh_n 0 (set_cache c' s) ∧ Using (ldev s) c' [] [] ∧
    wrote (ldev s) (cache s) c' (commit_writes s)).
Proof.
  intros HL. pose proof (li_area _ _ HL) as HA. destruct (LInv_small s [] HL) as (Hlt & Hlen & Hmax).
  pose proof (proj1 (Forall_forall _ _) (li_home _ _ HL)) as Hhome. pose proof (LInv_named s [] HL) as Hnm.
  unfold commit, commit_writes. wp_steps. destruct (decide (0 < lh_n s)) as [Hpos|Hz]; last first.
  { assert (lh_n s = 0) as E by (pose proof (li_n _ _ HL); lia). wp_steps. exists (cache s).
    split; [rewrite <- E; by destruct s|]. split; [|by apply wrote_nil].
    pose proof (li_use _ _ HL) as HU. unfold logged in HU. by rewrite E in HU. }
  unfold write_log. wp_steps. rewrite <- (set_cache_id s) at 2.
  eapply wp_mono; [apply (write_log_loop_spec s HA (entry s) (view (cache s) (ldev s)) (logged s) (entries s) (cache s) Hnm)|]; try done.
  { intros t Ht. rewrite logged_entries by done. by apply list_elem_of_fmap_2. }
  { apply HL. }
  intros _ s1 (c1 & -> & U1 & V1 & W1). change (wrote (ldev s) (cache s) c1 (log_part s)) in W1. wp_steps.
  eapply wp_mono; [apply (write_head_spec s c1 (logged s) HA U1 Hhome Hlt)|]. cbn zeta.
  rewrite (proj2 W1), (head_on_disk s [] HL). fold (head_full s).
  intros _ s2 (c2 & -> & U2 & V2 & W2). pose proof (wrote_trans _ _ _ _ _ _ W1 W2) as W12.
  unfold install_trans. wp_steps. cbn [lh_n set_cache].
  eapply wp_mono; [apply (install_loop_spec s HA (entry s) (λ t, view (cache s) (ldev s) (entry s t)) (entries s) c2 (logged s))|].
  - done.
  - right. split; [by apply logged_entries|]. split; [apply HL|done].
  - done.
  - intros t Ht. destruct (Hnm t Ht) as (_ & _ & Hsz). destruct (area_block s t HA Hsz) as (_ & _ & Hin).
    rewrite (Using_clean _ (ar_dev s HA) c2 (logged s) []); [|done|intros Hi; by destruct (Hhome _ Hi)|set_solver].
    rewrite (proj2 W12). by apply (logged_on_disk s []).
  - intros _ s3 (c3 & -> & U3 & W3). change (wrote (ldev s) c2 c3 (home_part s)) in W3. wp_steps.
    pose proof (wrote_trans _ _ _ _ _ _ W12 W3) as W123.
    eapply wp_mono; [apply (write_head_spec (set_lh_n 0 s) c3 [])|]; try done.
    { by destruct HA; split. }
    { intros m Hm. by apply elem_of_nil in Hm. }
    { unfold NBUF. simpl. lia. }
    intros _ s4 (c4 & -> & U4 & _ & W4). exists c4. split; [done|]. split; [done|].
    cbn [ldev start lh_n set_lh_n] in W4. change (logged (set_lh_n 0 s)) with (@nil Z) in W4.
    replace (disk c3 (ldev s) (start s)) with (head_full s) in W4; last first.
    { rewrite (proj2 W123), apply_writes_app, apply_writes_other by (by apply (start_not_home s [])).
      rewrite apply_writes_app. simpl. by rewrite fn_insert_dec, decide_True. }
    pose proof (wrote_trans _ _ _ _ _ _ W123 W4) as Wall. by rewrite <- !app_assoc in Wall.
Qed.

(** ** Crashes during a commit *)

Definition recovered (st : Z) (dk : Z → list Z) : Z → list Z := apply_writes dk (recovery_writes st dk).

Lemma recovered_clear st dk m : head_n (dk st) = 0 → m ≠ st → recovered st dk m = dk m.
Proof.
  intros Hn Hm. unfold recovered, recovery_writes, redo. rewrite Hn. simpl. by rewrite fn_insert_dec, decide_False.
Qed.

Lemma Head_ok_clear s h : Area s → length h = BSIZE → head_n h = 0 → Head_ok s h.
Proof.
  intros HA Hl Hn. pose proof (ar_size s HA). split; try done; unfold head_blocks; rewrite ?Hn; simpl; try constructor; unfold LOGSIZE, MAXOPBLOCKS; lia.
Qed.

Section Crash.
Context (s : logst) (HL : LInv s []).
Local Notation dk := (disk (cache s) (ldev s)).
Local Notation v := (view (cache s) (ldev s)).
Local Notation old dk' := (∀ m, ¬ in_log s m → recovered (start s) dk' m = dk m).
Local Notation new dk' := (∀ m, ¬ in_log s m → recovered (start s) dk' m = v m).

Lemma head_full_ok :
  length (head_full s) = BSIZE ∧ head_n (head_full s) = lh_n s ∧ head_blocks (head_full s) = logged s.
Proof.
  destruct (LInv_small s [] HL) as (_ & Hlen & Hmax). unfold head_full. rewrite <- Hlen.
  apply put_head_spec; [apply HL|unfold LOGSIZE, MAXOPBLOCKS in *; lia|].
  eapply Forall_impl; [apply HL|]. intros m. apply home_i32.
Qed.

Lemma not_start m : ¬ in_log s m → m ≠ start s.
Proof. intros Hm ->. apply Hm. apply area_head, HL. Qed.

(** Writing the home blocks, whatever of them is already there. *)
Lemma home_settled dk0 m :
  (∀ m', ¬ in_log s m' → m' ∉ logged s → dk0 m' = dk m') → ¬ in_log s m → apply_writes dk0 (home_part s) m = v m.
Proof.
  intros Hdk Hm. destruct (LInv_small s [] HL) as (_ & _ & Hmax). pose proof (li_area _ _ HL) as HA.
  destruct (decide (m ∈ logged s)) as [Hin|Hin].
  - apply apply_writes_in; [rewrite home_part_blocks by done; apply HL|].
    rewrite logged_entries in Hin by done. apply list_elem_of_fmap in Hin as (t & -> & Ht).
    unfold home_part. apply list_elem_of_fmap. by exists t.
  - rewrite apply_writes_other by (by rewrite home_part_blocks). rewrite Hdk by done. symmetry.
    apply (Using_clean _ (ar_dev s HA) _ (logged s) []); [apply HL|done|set_solver].
Qed.

Lemma outside_log_part ws m : ws ⊆ log_part s → ¬ in_log s m → m ∉ ws.*1.
Proof.
  intros Hs Hm (w & -> & Hw)%list_elem_of_fmap. apply Hm. apply (log_part_in_log s [] _ HL).
  apply list_elem_of_fmap_2. by apply Hs.
Qed.

Lemma take_subset {A} k (l : list A) : take k l ⊆ l.
Proof. intros x Hx. rewrite <- (take_drop k l). apply elem_of_app. by left. Qed.

(** Before the header is written: nothing happened. *)
Lemma crash_before k :
  let dk' := apply_writes dk (take k (log_part s)) in Head_ok s (dk' (start s)) ∧ old dk'.
Proof.
  intros dk'. pose proof (take_subset k (log_part s)) as Hs.
  assert (dk' (start s) = dk (start s)) as E.
  { apply apply_writes_other. intros (w & Ew & Hw)%list_elem_of_fmap.
    destruct (log_part_in_log s [] (start s) HL) as [_ []]; [|done]. rewrite Ew. by apply list_elem_of_fmap_2, Hs. }
  split; [rewrite E; apply Head_ok_clear; apply HL|]. intros m Hm.
  rewrite recovered_clear; [|rewrite E; apply HL|by apply not_start].
  apply apply_writes_other. by apply outside_log_part.
Qed.

(** Between the header and its erasure: recovery completes the transaction. *)
Lemma crash_between j :
  let dk' := apply_writes dk (log_part s ++ [(start s, head_full s)] ++ take j (home_part s)) in
  Head_ok s (dk' (start s)) ∧ new dk'.
Proof.
  intros dk'. destruct head_full_ok as (Hl & Hn & Hb). pose proof (LInv_small s [] HL) as (_ & _ & Hmax).
  pose proof (li_area _ _ HL) as HA. pose proof (take_subset j (home_part s)) as Hs.
  set (dk1 := apply_writes dk (log_part s ++ [(start s, head_full s)])).
  assert (dk' = apply_writes dk1 (take j (home_part s))) as Edk by (unfold dk', dk1; rewrite app_assoc; apply apply_writes_app).
  assert (∀ m, in_log s m → dk' m = dk1 m) as Elog.
  { intros m Hm. rewrite Edk. apply apply_writes_other. intros (w & -> & Hw)%list_elem_of_fmap.
    assert (w.1 ∈ logged s) as Hin by (rewrite <- home_part_blocks by done; by apply list_elem_of_fmap_2, Hs).
    by destruct (proj1 (Forall_forall _ _) (li_home _ _ HL) _ Hin). }
  assert (dk' (start s) = head_full s) as Eh.
  { rewrite Elog by (apply area_head, HL). unfold dk1. rewrite apply_writes_app. simpl. by rewrite fn_insert_dec, decide_True. }
  assert (redo (start s) dk' = home_part s) as Er.
  { unfold redo, home_part. rewrite Eh, Hn. fold (entries s). apply list_fmap_ext. intros i t Ht.
    assert (t ∈ entries s) as Hin by (by eapply list_elem_of_lookup_2).
    destruct (LInv_named s [] HL t Hin) as (_ & _ & Hsz). f_equal.
    - rewrite (logged_entries s HA Hmax) in Hb. unfold head_blocks in Hb. rewrite Hn in Hb. fold (entries s) in Hb.
      assert ((head_block (head_full s) <$> entries s) !! i = (entry s <$> entries s) !! i) as E by (by rewrite Hb).
      rewrite !list_lookup_fmap, Ht in E. by injection E.
    - rewrite Elog by (by apply (area_block s t HA)). by apply (logged_on_disk s []). }
  split.
  - rewrite Eh. pose proof (li_n _ _ HL). split; rewrite ?Hn, ?Hb; try done; [lia|lia|apply HL|apply HL].
  - intros m Hm. unfold recovered, recovery_writes. rewrite Er, apply_writes_app. simpl.
    rewrite fn_insert_dec, decide_False by (apply not_eq_sym; by apply not_start). apply home_settled; [|done].
    intros m' Hm' Hni. rewrite Edk, apply_writes_other.
    + unfold dk1. rewrite apply_writes_app. simpl. rewrite fn_insert_dec, decide_False by (apply not_eq_sym; by apply not_start).
      apply apply_writes_other. by apply outside_log_part.
    + intros (w & -> & Hw)%list_elem_of_fmap. apply Hni. rewrite <- home_part_blocks by done. by apply list_elem_of_fmap_2, Hs.
Qed.

(** After the whole commit. *)
Lemma committed_disk :
  let dk' := apply_writes dk (commit_writes s) in
  length (dk' (start s)) = BSIZE ∧ head_n (dk' (start s)) = 0 ∧ ∀ m, ¬ in_log s m → dk' m = v m.
Proof.
  intros dk'. unfold dk', commit_writes. pose proof (li_area _ _ HL) as HA. destruct (decide (0 < lh_n s)) as [Hp|Hp]; last first.
  { split; [apply HL|]. split; [apply HL|]. intros m Hm. simpl. symmetry.
    apply (Using_clean _ (ar_dev s HA) _ (logged s) []); [apply HL| |set_solver].
    unfold logged. replace (Z.to_nat (lh_n s)) with 0%nat by lia. set_solver. }
  destruct head_full_ok as (Hl & Hn & Hb). set (dk1 := apply_writes dk (log_part s ++ [(start s, head_full s)])).
  rewrite app_assoc, apply_writes_app, apply_writes_app. fold dk1. cbn [apply_writes foldl fst snd].
  destruct (put_head_spec [] (head_full s) Hl) as (Hl0 & Hn0 & _); [simpl; lia|constructor|].
  rewrite fn_insert_dec, decide_True by done. split; [done|]. split; [done|]. intros m Hm.
  rewrite fn_insert_dec, decide_False by (apply not_eq_sym; by apply not_start). apply home_settled; [|done].
  intros m' Hm' _. unfold dk1. rewrite apply_writes_app. simpl.
  rewrite fn_insert_dec, decide_False by (apply not_eq_sym; by apply not_start).
  apply apply_writes_other. by apply outside_log_part.
Qed.

Lemma crash_after :
  let dk' := apply_writes dk (commit_writes s) in Head_ok s (dk' (start s)) ∧ new dk'.
Proof.
  intros dk'. destruct committed_disk as (H1 & H2 & H3). fold dk' in H1, H2, H3.
  split; [apply Head_ok_clear; [apply HL|done|done]|]. intros m Hm.
  rewrite recovered_clear; [by apply H3|done|by apply not_start].
Qed.

Lemma crash_cases k :
  let dk' := apply_writes dk (take k (commit_writes s)) in Head_ok s (dk' (start s)) ∧ (old dk' ∨ new dk').
Proof.
  intros dk'. unfold dk'. pose proof crash_after as Ha. unfold commit_writes in *.
  destruct (decide (0 < lh_n s)) as [Hp|Hp]; last first.
  { rewrite take_nil. destruct (crash_before 0) as [H1 H2]. rewrite take_0 in H1, H2. auto. }
  destruct (decide (k ≤ length (log_part s))%nat) as [Hk|Hk].
  { rewrite take_app_le by done. destruct (crash_before k). auto. }
  rewrite take_app_ge by lia. destruct (k - length (log_part s))%nat as [|j] eqn:Ej; [lia|]. cbn [take app].
  destruct (decide (j ≤ length (home_part s))%nat) as [Hj|Hj].
  - rewrite (take_app_le (home_part s)) by done. destruct (crash_between j). auto.
  - rewrite (take_ge (home_part s ++ _)) by (rewrite length_app; simpl; lia). destruct Ha. auto.
Qed.
End Crash.
