(* ===== verification/LogProps.v ===== *)
(** * What the log promises (log.c)

    Durability and atomicity of [commit] under a crash at any block write,
    idempotence of recovery, and the effect of a logged update. *)

From S2P Require Import Prelude Spinlock ProcState Layout Bio BioUse Log LogSafe.

Local Open Scope Z_scope.

(** The contents of a block on the log's device, on disk and as the kernel
    sees it. *)
Definition on_disk (s : logst) : Z → list Z := disk (cache s) (ldev s).
Definition seen (s : logst) : Z → list Z := view (cache s) (ldev s).

(** [r] is the log's state after a reboot with the disk contents [dk]: nothing
    is cached, the superblock gives the same log area. *)
Record Rebooted (s : logst) (dk : Z → list Z) (r : logst) : Prop := {
  rb_start : start r = start s;
  rb_size : size r = size s;
  rb_dev : ldev r = ldev s;
  rb_len : length (lh_block r) = Z.to_nat LOGSIZE;
  rb_use : Using (ldev r) (cache r) [] [];
  rb_disk m : on_disk r m = dk m
}.

Lemma Rebooted_area s dk r : Area s → Rebooted s dk r → Area r.
Proof. intros [H1 H2 H3 H4 H5] [E1 E2 E3 E4 _ _]. split; rewrite ?E1, ?E2, ?E3; done. Qed.

Lemma in_log_same s r m : start r = start s → size r = size s → in_log r m ↔ in_log s m.
Proof. intros E1 E2. unfold in_log. by rewrite E1, E2. Qed.

Lemma Head_ok_same s r h : start r = start s → size r = size s → Head_ok s h → Head_ok r h.
Proof.
  intros E1 E2 [H1 H2 H3 H4 H5]. split; rewrite ?E2; try done. eapply Forall_impl; [exact H5|].
  intros m [H6 H7]. split; [done|]. by rewrite (in_log_same s r).
Qed.

Lemma recovery_writes_ext st dk dk' : (∀ m, dk m = dk' m) → recovery_writes st dk = recovery_writes st dk'.
Proof.
  intros E. unfold recovery_writes, redo. rewrite (E st). f_equal. apply list_fmap_ext. intros i t _. by rewrite E.
Qed.

Lemma redo_home s dk m : Head_ok s (dk (start s)) → in_log s m → m ∉ (redo (start s) dk).*1.
Proof.
  intros Hok Hm. rewrite redo_blocks. intros Hin. by destruct (proj1 (Forall_forall _ _) (ho_home _ _ Hok) _ Hin).
Qed.

Lemma outside_ne s m : Area s → ¬ in_log s m → start s ≠ m.
Proof. intros HA Hm E. apply Hm. rewrite <- E. by apply area_head. Qed.

(** Recovery runs, whatever the crash left, and leaves a clean log. *)
Lemma recover_run s dk r :
  Area s → Rebooted s dk r → Head_ok s (dk (start s)) →
  ∃ r', recover_from_log r = Ret tt r' ∧ LInv r' [] ∧
    writes (cache r') = writes (cache r) ++ ((λ w, (ldev s, w.1, w.2)) <$> recovery_writes (start s) dk) ∧
    ∀ m, on_disk r' m = recovered (start s) dk m.
Proof.
  intros HA HR Hok. pose proof (Rebooted_area _ _ _ HA HR) as HAr. destruct HR as [E1 E2 E3 _ HU Ed].
  assert (Head_ok r (disk (cache r) (ldev r) (start r))) as Hok'.
  { change (disk (cache r) (ldev r)) with (on_disk r). rewrite Ed, E1. by eapply Head_ok_same. }
  destruct (wp_inv _ _ _ (recover_spec r (cache r) HAr HU Hok')) as ([] & r' & Er & c' & bl & -> & Hl & U' & W & Dk).
  rewrite set_cache_id in Er. rewrite E1, (recovery_writes_ext _ _ dk) in W, Dk by apply Ed.
  rewrite E3 in *.
  assert (∀ m, on_disk (set_lh_block bl (set_lh_n 0 (set_cache c' r))) m = recovered (start s) dk m) as Hd.
  { intros m. unfold on_disk. cbn [cache ldev set_lh_block set_lh_n set_cache]. rewrite E3, Dk. unfold recovered.
    apply apply_writes_ext. intros m'. rewrite <- (Ed m'). unfold on_disk. by rewrite E3. }
  eexists. split; [exact Er|]. split; [|by split].
  assert (on_disk (set_lh_block bl (set_lh_n 0 (set_cache c' r))) (start r) = put_head [] 0 (dk (start s))) as Eh.
  { rewrite Hd, E1. unfold recovered, recovery_writes. rewrite apply_writes_app. simpl. by rewrite fn_insert_dec, decide_True. }
  destruct (put_head_spec [] (dk (start s)) (ho_len _ _ Hok)) as (Hl0 & Hn0 & _); [simpl; lia|constructor|].
  pose proof (ar_size _ HAr). destruct HAr as [A1 A2 A3 A4 A5].
  split; [by split| | | | | |]; cbn [cache ldev lh_n size set_lh_block set_lh_n set_cache]; try (by constructor).
  - lia.
  - by rewrite E3.
  - unfold on_disk in Eh. cbn [cache ldev set_lh_block set_lh_n set_cache] in Eh. cbn [start set_lh_block set_lh_n set_cache].
    rewrite Eh. exact Hn0.
  - unfold on_disk in Eh. cbn [cache ldev set_lh_block set_lh_n set_cache] in Eh. cbn [start set_lh_block set_lh_n set_cache].
    by rewrite Eh.
Qed.

(** ** Atomicity *)

(** A commit is atomic.  Let [ws] be the blocks it gives to the disk.  If the
    machine crashes after any number [k] of them and reboots, recovery
    returns, and outside the log area the disk holds either what it held
    before the commit or what the kernel saw of every block at its start. *)
Lemma commit_atomic (s : logst) :
  LInv s [] →
  ∃ s' ws, commit s = Ret tt s' ∧
    writes (cache s') = writes (cache s) ++ ((λ w, (ldev s, w.1, w.2)) <$> ws) ∧
    ∀ k r, Rebooted s (apply_writes (on_disk s) (take k ws)) r →
      ∃ r', recover_from_log r = Ret tt r' ∧ LInv r' [] ∧
        ((∀ m, ¬ in_log s m → on_disk r' m = on_disk s m) ∨ (∀ m, ¬ in_log s m → on_disk r' m = seen s m)).
Proof.
  intros HL. destruct (wp_inv _ _ _ (commit_spec s HL)) as ([] & s' & E & c' & -> & _ & W & _).
  eexists _, (commit_writes s). split; [exact E|]. split; [exact W|]. intros k r HR.
  destruct (crash_cases s HL k) as [Hok Hon].
  destruct (recover_run s _ r (li_area _ _ HL) HR Hok) as (r' & Er & HL' & _ & Hd).
  exists r'. split; [done|]. split; [done|].
  destruct Hon as [Ho|Hn]; [left|right]; intros m Hm; rewrite Hd; [by apply Ho|by apply Hn].
Qed.

(** A commit that returns is durable: the log is empty, no block is pinned,
    and every block outside the log area is on disk as the kernel saw it, and
    still sees it. *)
Lemma commit_durable (s : logst) :
  LInv s [] →
  ∃ s', commit s = Ret tt s' ∧ lh_n s' = 0 ∧ LInv s' [] ∧
    ∀ m, ¬ in_log s m → on_disk s' m = seen s m ∧ seen s' m = seen s m.
Proof.
  intros HL. destruct (wp_inv _ _ _ (commit_spec s HL)) as ([] & s' & E & c' & -> & HU & W & Dk).
  destruct (committed_disk s HL) as (Hl & Hn & Hd). rewrite <- Dk in Hl, Hn. pose proof (li_area _ _ HL) as HA.
  pose proof (ar_size _ HA) as Hsz. destruct HA as [A1 A2 A3 A4 A5].
  eexists. split; [exact E|]. split; [done|]. split; [|].
  - split; [by split| | | | | |]; cbn [cache ldev start lh_n size set_lh_n set_cache]; try done; [lia|exact NoDup_nil_2].
  - intros m Hm. assert (disk c' (ldev s) m = seen s m) as Em by (rewrite Dk; by apply Hd). split; [done|].
    rewrite <- Em. by apply (Using_clean _ A1 c' [] []); set_solver.
Qed.

(** Recovery may itself be interrupted: after a crash at any point of it, a
    second recovery leaves the same contents outside the log area as the
    first would have. *)
Lemma recovered_prefix s dk k :
  Area s → Head_ok s (dk (start s)) →
  let dk' := apply_writes dk (take k (recovery_writes (start s) dk)) in
  Head_ok s (dk' (start s)) ∧ ∀ m, ¬ in_log s m → recovered (start s) dk' m = recovered (start s) dk m.
Proof.
  intros HA Hok dk'. set (R := redo (start s) dk). assert (NoDup R.*1) as Hnd by (unfold R; rewrite redo_blocks; apply Hok).
  assert (∀ m, ¬ in_log s m → recovered (start s) dk m = apply_writes dk R m) as Hrec.
  { intros m Hm. unfold recovered, recovery_writes. rewrite apply_writes_app. simpl. by rewrite fn_insert_dec, decide_False by (by apply outside_ne). }
  unfold dk', recovery_writes. fold R. destruct (decide (k ≤ length R)%nat) as [Hk|Hk].
  - rewrite take_app_le by done. set (dk1 := apply_writes dk (take k R)).
    assert (∀ m, in_log s m → dk1 m = dk m) as Elog.
    { intros m Hm. apply apply_writes_other. intros (w & -> & Hw)%list_elem_of_fmap.
      apply (redo_home s dk w.1 Hok Hm). by apply list_elem_of_fmap_2, (take_subset k R). }
    assert (redo (start s) dk1 = R) as Er.
    { unfold redo, R, redo. rewrite !(Elog (start s)) by (by apply area_head). apply list_fmap_ext. intros i t Ht. f_equal.
      apply Elog. apply area_block; [done|]. apply list_elem_of_lookup_2, elem_of_seq in Ht. pose proof (ho_size _ _ Hok). lia. }
    split; [rewrite Elog by (by apply area_head); done|]. intros m Hm. rewrite Hrec by done.
    unfold recovered, recovery_writes. rewrite Er, apply_writes_app. simpl.
    rewrite fn_insert_dec, decide_False by (by apply outside_ne).
    destruct (decide (m ∈ R.*1)) as [((? & w) & -> & Hw)%list_elem_of_fmap|Hni].
    + by rewrite !(apply_writes_in _ R _ w).
    + rewrite !(apply_writes_other _ R) by done. apply apply_writes_other. intros (w & -> & Hw)%list_elem_of_fmap.
      apply Hni. by apply list_elem_of_fmap_2, (take_subset k R).
  - rewrite take_ge by (rewrite length_app; simpl; lia). rewrite apply_writes_app. simpl.
    destruct (put_head_spec [] (dk (start s)) (ho_len _ _ Hok)) as (Hl0 & Hn0 & _); [simpl; lia|constructor|].
    set (dk1 := <[start s := _]> _). assert (dk1 (start s) = put_head [] 0 (dk (start s))) as Eh.
    { unfold dk1. by rewrite fn_insert_dec, decide_True. }
    split; [rewrite Eh; by apply Head_ok_clear|]. intros m Hm.
    pose proof (outside_ne s m HA Hm) as Hne.
    rewrite recovered_clear by (congruence || by rewrite Eh). rewrite Hrec by done. unfold dk1.
    by rewrite fn_insert_dec, decide_False by done.
Qed.

(** ** Logged updates *)

Lemma find_block_in n bs : Forall (λ c, u32 c = c) bs → n ∈ bs → bs !! find_block n bs = Some n.
Proof.
  induction 1 as [|c bs Hc _ IH]; intros Hn; [by apply elem_of_nil in Hn|]. simpl. rewrite Hc.
  destruct (decide (c = n)) as [->|Hne]; [done|]. apply IH. set_solver.
Qed.

Lemma find_block_notin n bs : Forall (λ c, u32 c = c) bs → n ∉ bs → find_block n bs = length bs.
Proof.
  induction 1 as [|c bs Hc _ IH]; intros Hn; [done|]. simpl. rewrite Hc.
  rewrite decide_False by set_solver. f_equal. apply IH. set_solver.
Qed.

(** [log_write] names the block once and pins it; nothing reaches the disk. *)
Lemma log_write_spec s H b n t v :
  LInv s H → Held (ldev s) (cache s) b n t v → home s n → 1 ≤ outstanding s → lh_n s < size s - 1 →
  wp (log_write b) s (λ _ s', LInv s' H ∧ Held (ldev s) (cache s') b n true v ∧ (∀ m, seen s' m = seen s m) ∧
    on_disk s' = on_disk s ∧ writes (cache s') = writes (cache s) ∧
    logged s' = (if decide (n ∈ logged s) then logged s else logged s ++ [n]) ∧
    ldev s' = ldev s ∧ start s' = start s ∧ size s' = size s ∧ outstanding s' = outstanding s ∧ committing s' = committing s).
Proof.
  intros HL Hh Hn Ho Hlt. pose proof (li_area _ _ HL) as HA. destruct (LInv_small s H HL) as (Hsm & Hlen & Hmax).
  pose proof (ar_size s HA) as Hsz. pose proof (ar_len s HA) as Hbl. pose proof (li_n _ _ HL) as Hn0.
  assert (Forall (λ c, u32 c = c) (logged s)) as Hu by (eapply Forall_impl; [apply HL|]; intros m; apply home_u32).
  unfold log_write. wp_steps. cbn [id]. rewrite decide_False, decide_False by lia. wp_steps. apply wp_on_cache.
  eapply wp_getb; [exact Hh|]. cbn [blockno]. rewrite set_cache_id. wp_steps.
  rewrite (i32_small n (home_i32 s n Hn)). unfold set_block_at. wp_steps.
  pose proof (pin_using (ldev s) (ar_dev s HA) (cache s) (logged s) H b n t v (li_use _ _ HL) Hh) as Hpin.
  destruct (decide (n ∈ logged s)) as [Hin|Hni].
  - pose proof (find_block_in n (logged s) Hu Hin) as Hf. set (i := find_block n (logged s)) in *.
    assert (i < length (logged s))%nat as Hi by (by eapply lookup_lt_Some).
    assert (lh_block s !! i = Some n) as Hb by (unfold logged in Hf; rewrite lookup_take_lt in Hf by lia; done).
    apply (wp_lookupM _ _ n); [done|]. wp_steps. rewrite list_insert_id by done.
    replace (set_lh_block (lh_block s) s) with s by (by destruct s). rewrite decide_False by lia. wp_steps.
    apply wp_on_cache. eapply wp_mono; [exact Hpin|]. intros _ c' (U & Hh' & V & E & W & _).
    split; [|by repeat split; try done; unfold on_disk; simpl; rewrite E].
    destruct HA as [A1 A2 A3 A4 A5]. split; simpl; try apply HL; [by split|exact U|by rewrite E; apply HL|by rewrite E; apply HL].
  - pose proof (find_block_notin n (logged s) Hu Hni) as Hf. rewrite Hf.
    assert (length (logged s) < length (lh_block s))%nat as Hi by (rewrite Hbl; unfold LOGSIZE, MAXOPBLOCKS in *; lia).
    destruct (lookup_lt_is_Some_2 _ _ Hi) as [b0 Hb0]. apply (wp_lookupM _ _ b0); [done|]. wp_steps.
    rewrite decide_True by done. wp_steps. apply wp_on_cache. eapply wp_mono; [exact Hpin|].
    intros _ c' (U & Hh' & V & E & W & _). set (s' := set_cache c' _).
    assert (logged s' = logged s ++ [n]) as El.
    { unfold s', logged. cbn [lh_n lh_block set_cache set_lh_n set_lh_block].
      replace (Z.to_nat (lh_n s + 1)) with (S (length (logged s))) by lia.
      rewrite (take_S_r _ _ n) by (apply list_lookup_insert_eq; done). rewrite take_insert_ge by done.
      by replace (length (logged s)) with (Z.to_nat (lh_n s)) by lia. }
    split; [|by repeat split; try done; unfold on_disk; simpl; rewrite E].
    destruct HA as [A1 A2 A3 A4 A5]. split; rewrite ?El; cbn [s' cache ldev start size lh_n set_cache set_lh_n set_lh_block].
    + split; try done. simpl. by rewrite length_insert.
    + lia.
    + exact U.
    + apply NoDup_app. split; [apply HL|]. split; [set_solver|]. apply NoDup_singleton.
    + apply Forall_app. split; [apply HL|]. by constructor.
    + rewrite E. apply HL.
    + rewrite E. apply HL.
Qed.

(** The typical use of the log: read a block, modify it, log it, release it. *)
Definition update_block (n : Z) (f : list Z → list Z) : M logst unit :=
  d ← gets ldev;
  b ← on_cache (bread_now d n);
  x ← on_cache (getb b);
  on_cache (setb b (set_data (f (data x))));;
  log_write b;;
  on_cache (brelse b).

(** The log's bookkeeping outside the header. *)
Definition same_log (s s' : logst) : Prop :=
  ldev s' = ldev s ∧ start s' = start s ∧ size s' = size s ∧ outstanding s' = outstanding s ∧ committing s' = committing s.

Lemma LInv_use s H H' c :
  LInv s H → Using (ldev s) c (logged s) H' → (disk c = disk (cache s)) → LInv (set_cache c s) H'.
Proof. intros [[A1 A2 A3 A4 A5] H2 H3 H4 H5 H6 H7] HU E. split; simpl; rewrite ?E; try done. Qed.

Lemma update_block_spec s n f :
  LInv s [] → home s n → 1 ≤ outstanding s → lh_n s < size s - 1 →
  wp (update_block n f) s (λ _ s', LInv s' [] ∧ same_log s s' ∧
    (∀ m, seen s' m = if decide (m = n) then f (seen s n) else seen s m) ∧
    on_disk s' = on_disk s ∧ writes (cache s') = writes (cache s) ∧ lh_n s' ≤ lh_n s + 1).
Proof.
  intros HL Hn Ho Hlt. pose proof (li_area _ _ HL) as HA. pose proof (ar_dev s HA) as Hd.
  destruct (LInv_small s [] HL) as (Hsm & Hlen & _). unfold update_block. wp_steps. apply wp_on_cache.
  wp_call (bread_using _ Hd (cache s) (logged s) [] n (li_use _ _ HL) (proj1 Hn)); [set_solver|right; by rewrite app_nil_r|].
  intros b c1 (U1 & H1 & V1 & E1 & W1 & _). wp_steps. apply wp_on_cache. eapply wp_getb; [exact H1|]. cbn [data]. wp_steps.
  apply wp_on_cache. cbn [cache set_cache]. wp_call (store_using _ Hd c1 _ _ b n _ _ (f (view (cache s) (ldev s) n)) U1 H1).
  intros _ c2 (U2 & H2 & V2 & E2 & W2 & _). wp_steps. change (set_cache c2 _) with (set_cache c2 s).
  assert (LInv (set_cache c2 s) [n]) as HL2 by (apply (LInv_use s []); [done|exact U2|congruence]).
  wp_call (log_write_spec (set_cache c2 s) [n] b n _ _ HL2 H2 Hn Ho Hlt).
  intros _ s3 (HL3 & H3 & V3 & D3 & W3 & El & Ed & Es & Ez & Eo & Ec). apply wp_on_cache. cbn [ldev set_cache] in *.
  pose proof (li_use _ _ HL3) as U3. rewrite Ed in U3.
  wp_call (brelse_using _ Hd (cache s3) (logged s3) [n] b n true _ U3 H3); [by left|].
  intros _ c4 (U4 & V4 & E4 & W4 & _). rewrite filter_cons, decide_False in U4 by tauto.
  split; [apply (LInv_use s3 [n]); [done|by rewrite Ed|done]|]. split; [by repeat split|].
  split; [|split; [|split]].
  - intros m. unfold seen. cbn [cache ldev set_cache]. rewrite Ed, V4.
    change (view (cache s3) (ldev s) m) with (seen (set_lh_n (lh_n s3) (set_cache (cache s3) s)) m).
    specialize (V3 m). unfold seen in V3. cbn [cache ldev set_cache] in V3. rewrite Ed in V3.
    unfold seen. cbn [cache ldev set_cache set_lh_n]. rewrite V3, V2. by destruct (decide (m = n)).
  - unfold on_disk in *. cbn [cache ldev set_cache] in *. rewrite Ed in *. rewrite E4, D3. by rewrite E2, E1.
  - cbn [cache set_cache] in *. congruence.
  - cbn [lh_n set_cache]. destruct (LInv_small s3 _ HL3) as (_ & Hlen3 & _).
    change (logged (set_cache c2 s)) with (logged s) in El. rewrite <- Hlen3, El.
    destruct (decide (n ∈ logged s)); rewrite ?length_app; simpl; lia.
Qed.

(** ** Transactions *)

Fixpoint updates (us : list (Z * (list Z → list Z))) : M logst unit :=
  match us with
  | [] => mret tt
  | u :: us' => update_block u.1 u.2;; updates us'
  end.

(** A file system operation: it sleeps (and here does not come back) if
    [begin_op] does not admit it. *)
Definition transaction (us : list (Z * (list Z → list Z))) : M logst (list addr) :=
  ok ← begin_op;
  if (ok : bool) then updates us;; end_op else diverge.

(** The contents after the updates. *)
Definition updated (v : Z → list Z) (us : list (Z * (list Z → list Z))) : Z → list Z :=
  foldl (λ v u m, if decide (m = u.1) then u.2 (v u.1) else v m) v us.

Lemma updated_ext us : ∀ v v', (∀ m, v m = v' m) → ∀ m, updated v us m = updated v' us m.
Proof.
  induction us as [|u us IH]; intros v v' E m; [apply E|]. simpl. apply IH. intros m'. simpl. rewrite !E. done.
Qed.

Lemma updates_spec us : ∀ s,
  LInv s [] → Forall (λ u, home s u.1) us → 1 ≤ outstanding s → lh_n s + Z.of_nat (length us) ≤ size s - 1 →
  wp (updates us) s (λ _ s', LInv s' [] ∧ same_log s s' ∧ (∀ m, seen s' m = updated (seen s) us m) ∧
    on_disk s' = on_disk s ∧ writes (cache s') = writes (cache s)).
Proof.
  induction us as [|[n f] us IH]; intros s HL Hh Ho Hsz; simpl.
  { by wp_steps. }
  apply Forall_cons in Hh as [Hn Hh]. simpl in Hsz. wp_steps.
  eapply wp_mono; [apply (update_block_spec s n f HL Hn Ho); lia|].
  intros _ s1 (HL1 & (Ed & Es & Ez & Eo & Ec) & V1 & D1 & W1 & Hle).
  eapply wp_mono; [apply (IH s1 HL1)|].
  - eapply Forall_impl; [exact Hh|]. intros u [H1 H2]. split; [done|]. by rewrite (in_log_same s s1).
  - lia.
  - rewrite Ez. lia.
  - intros _ s2 (HL2 & (Ed' & Es' & Ez' & Eo' & Ec') & V2 & D2 & W2). split; [done|].
    split; [repeat split; congruence|]. split; [|split; congruence].
    intros m. rewrite V2. apply updated_ext. intros m'. apply V1.
Qed.

Lemma LInv_flags s H o b : LInv s H → LInv (set_committing b (set_outstanding o s)) H.
Proof. intros [[A1 A2 A3 A4 A5] H2 H3 H4 H5 H6 H7]. split; [by split|..]; done. Qed.

Lemma Rebooted_same s s' dk dk' r :
  start s' = start s → size s' = size s → ldev s' = ldev s → (∀ m, dk m = dk' m) → Rebooted s dk r → Rebooted s' dk' r.
Proof. intros E1 E2 E3 E4 [H1 H2 H3 H4 H5 H6]. split; congruence. Qed.

(** C7: a file system operation is atomic and durable.  An operation that
    updates at most MAXOPBLOCKS blocks inside begin_op/end_op on an idle log
    returns with every update on disk; and if the machine crashes after any
    number [k] of the block writes it made and reboots, recovery returns and
    the disk holds, outside the log area, either none or all of the updates. *)
Theorem transaction_atomic (s : logst) (us : list (Z * (list Z → list Z))) :
  LInv s [] → committing s = false → outstanding s = 0 → lh_n s = 0 → MAXOPBLOCKS ≤ size s - 1 →
  Forall (λ u, home s u.1) us → Z.of_nat (length us) ≤ MAXOPBLOCKS →
  ∃ s' ws, transaction us s = Ret [AddrLog] s' ∧ LInv s' [] ∧
    (∀ m, ¬ in_log s m → on_disk s' m = updated (on_disk s) us m) ∧
    writes (cache s') = writes (cache s) ++ ((λ w, (ldev s, w.1, w.2)) <$> ws) ∧
    ∀ k r, Rebooted s (apply_writes (on_disk s) (take k ws)) r →
      ∃ r', recover_from_log r = Ret tt r' ∧ LInv r' [] ∧
        ((∀ m, ¬ in_log s m → on_disk r' m = on_disk s m) ∨
         (∀ m, ¬ in_log s m → on_disk r' m = updated (on_disk s) us m)).
Proof.
  intros HL Hc Ho Hn Hsz Hus Hlen. pose proof (li_area _ _ HL) as HA.
  assert (∀ m, seen s m = on_disk s m) as Hclean.
  { intros m. pose proof (li_use _ _ HL) as HU. unfold logged in HU. rewrite Hn in HU.
    apply (Using_clean _ (ar_dev s HA) _ [] []); [exact HU|set_solver|set_solver]. }
  set (s1 := set_outstanding 1 s).
  assert (LInv s1 []) as HL1 by (destruct HL as [[A1 A2 A3 A4 A5] ? ? ? ? ? ?]; split; [by split|..]; done).
  assert (lh_n s1 + Z.of_nat (length us) ≤ size s1 - 1) as Hfit by (cbn [s1 lh_n size set_outstanding]; lia).
  destruct (wp_inv _ _ _ (updates_spec us s1 HL1 Hus (Z.le_refl 1) Hfit))
    as ([] & s2 & E2 & HL2 & (Ed & Es & Ez & Eo & Ec) & V2 & D2 & W2).
  cbn [s1 ldev start size outstanding committing set_outstanding] in Ed, Es, Ez, Eo, Ec.
  set (s3 := set_committing true (set_outstanding 0 s2)).
  assert (LInv s3 []) as HL3 by (by apply LInv_flags).
  destruct (commit_durable s3 HL3) as (s4 & E4 & _ & HL4 & Hd4).
  destruct (commit_atomic s3 HL3) as (s4' & ws & E4' & W4 & Hcr). rewrite E4 in E4'. injection E4' as <-.
  assert (∀ m, seen s3 m = updated (on_disk s) us m) as Hseen.
  { intros m. change (seen s3 m) with (seen s2 m). rewrite V2. by apply updated_ext. }
  assert (∀ m, in_log s3 m ↔ in_log s m) as Hlog by (intros m; by apply in_log_same).
  exists (set_committing false s4), ws. split; [|split; [|split; [|split]]].
  - unfold transaction, begin_op, end_op. unfold mbind, M_bind, gets, modify, mret, M_ret. cbn [id].
    rewrite Hc, Hn, Ho. rewrite decide_False by (unfold LOGSIZE, MAXOPBLOCKS; lia).
    change (set_outstanding (0 + 1) s) with s1. rewrite E2. cbn [committing set_outstanding outstanding]. rewrite Ec, Hc, Eo.
    change (1 - 1) with 0. rewrite decide_True by done. fold s3. by rewrite E4.
  - pose proof (LInv_flags s4 [] (outstanding s4) false HL4) as HL5. by destruct s4.
  - intros m Hm. rewrite <- Hlog in Hm. rewrite <- Hseen. by apply Hd4.
  - change (ldev s3) with (ldev s2) in W4. rewrite Ed in W4. cbn [cache set_committing]. rewrite W4.
    change (cache s3) with (cache s2). by rewrite W2.
  - intros k r HR. destruct (Hcr k r) as (r' & Er & HLr & Hon).
    { eapply Rebooted_same; [..|exact HR]; try done. intros m. change (on_disk s3) with (on_disk s2). by rewrite D2. }
    exists r'. split; [done|]. split; [done|]. destruct Hon as [Hold|Hnew]; [left|right]; intros m Hm; rewrite <- Hlog in Hm.
    + rewrite Hold by done. change (on_disk s3) with (on_disk s2). by rewrite D2.
    + rewrite Hnew by done. apply Hseen.
Qed.

(** recovery may itself be interrupted.  If a recovery is cut short after
    any number of its block writes and the machine reboots again, the second
    recovery returns and leaves the same contents outside the log area as the
    first one would have. *)
Theorem recovery_idempotent (s r : logst) (dk : Z → list Z) :
  Area s → Head_ok s (dk (start s)) → Rebooted s dk r →
  ∃ r' ws, recover_from_log r = Ret tt r' ∧ LInv r' [] ∧
    writes (cache r') = writes (cache r) ++ ((λ w, (ldev s, w.1, w.2)) <$> ws) ∧
    ∀ k q, Rebooted s (apply_writes dk (take k ws)) q →
      ∃ q', recover_from_log q = Ret tt q' ∧ LInv q' [] ∧ ∀ m, ¬ in_log s m → on_disk q' m = on_disk r' m.
Proof.
  intros HA Hok HR. destruct (recover_run s dk r HA HR Hok) as (r' & Er & HLr & Wr & Hd).
  exists r', (recovery_writes (start s) dk). split; [done|]. split; [done|]. split; [done|]. intros k q HQ.
  destruct (recovered_prefix s dk k HA Hok) as [Hok' Hsame].
  destruct (recover_run s _ q HA HQ Hok') as (q' & Eq & HLq & _ & Hdq).
  exists q'. split; [done|]. split; [done|]. intros m Hm. rewrite Hdq, Hd. by apply Hsame.
Qed.

(** Boot: [initlog] finds the log area in the superblock and recovers. *)
Lemma initlog_spec s d :
  0 ≤ d ≤ 1 → Using d (cache s) [] [] →
  let sb := decode_sb (disk (cache s) d 1) in
  let r := set_area (i32 (sb_logstart sb)) (i32 (sb_nlog sb)) d s in
  Area r → Head_ok r (on_disk r (start r)) →
  wp (initlog d) s (λ _ s', LInv s' [] ∧ ∀ m, on_disk s' m = recovered (start r) (on_disk r) m).
Proof.
  intros Hd HU sb r HA Hok. unfold initlog, readsb. rewrite decide_False by (by vm_compute). wp_steps. apply wp_on_cache. wp_steps.
  wp_call (bread_using d Hd (cache s) [] [] 1 HU); [by vm_compute|set_solver|right; by vm_compute; lia|].
  intros b c1 (U1 & H1 & V1 & E1 & W1 & _). rewrite (Using_clean d Hd (cache s) [] [] 1 HU) in H1 by set_solver.
  wp_steps. eapply wp_getb; [exact H1|]. wp_steps.
  wp_call (brelse_using d Hd c1 [] _ b 1 _ _ U1 H1); [right; by rewrite E1|].
  intros _ c2 (U2 & _ & E2 & _). rewrite filter_cons, decide_False in U2 by tauto. wp_steps. cbn [data]. fold sb.
  change (set_area _ _ d (set_cache c2 s)) with (set_cache c2 r).
  assert (Rebooted r (on_disk r) (set_cache c2 r)) as HR.
  { split; try done; [apply HA|]. intros m. unfold on_disk. cbn [cache ldev set_cache set_area r]. by rewrite E2, E1. }
  destruct (recover_run r _ _ HA HR Hok) as (r' & Er & HL & _ & Hdk). eapply wp_Ret; [exact Er|]. by split.
Qed.

(** [begin_op] reserves MAXOPBLOCKS blocks of LOGSIZE for each operation, but
    a log of LOGSIZE blocks has room for one less, its header taking one:
    three operations are admitted, and the last of the 30 blocks they may log
    panics. *)
Lemma begin_op_overcommits s :
  committing s = false → outstanding s = 0 → lh_n s = 0 → size s = LOGSIZE →
  ∃ s3, (a ← begin_op; b ← begin_op; c ← begin_op; mret (a, b, c)) s = Ret (true, true, true) s3 ∧ size s3 = size s ∧
    ∀ s' b, size s' = size s3 → lh_n s' = 3 * MAXOPBLOCKS - 1 → log_write b s' = Panic "too big a transaction".
Proof.
  intros Hc Ho Hn Hz. destruct s as [c st sz o cm dv n bl]. simpl in *. subst. eexists. split; [reflexivity|]. split; [done|].
  intros s' b Hz Hn. unfold log_write, mbind, M_bind, gets. cbn [id]. rewrite decide_True; [done|].
  right. cbn [size set_outstanding] in Hz. rewrite Hz, Hn. by vm_compute.
Qed.

(** ** Witnesses: a disk with its log at block 2, as mkfs lays it out *)

Definition zero_block : list Z := replicate BSIZE 0.
Definition sevens : list Z := replicate BSIZE 7.

Definition booted_cache (dk : Z → list Z) : bst :=
  match binit (bss_cache (λ _, dk)) with Ret _ c => c | _ => bss_cache (λ _, dk) end.
Definition fresh_log (dk : Z → list Z) : logst :=
  mkLog (booted_cache dk) 2 LOGSIZE 0 false 1 0 (replicate (Z.to_nat LOGSIZE) 0).

Lemma booted_cache_ok dk :
  Using 1 (booted_cache dk) [] [] ∧ disk (booted_cache dk) = (λ _, dk) ∧ writes (booted_cache dk) = [].
Proof.
  destruct (boot_cache (λ _, dk) 1) as (c & E & HU & Ed & Ew & _). unfold booted_cache. rewrite E. exact (conj HU (conj Ed Ew)).
Qed.

Lemma fresh_area dk : Area (fresh_log dk).
Proof. split; vm_compute; try done. Qed.

Lemma fresh_rebooted dk : Rebooted (fresh_log dk) dk (fresh_log dk).
Proof.
  destruct (booted_cache_ok dk) as (HU & Ed & _). split; [done..|exact HU|]. intros m. unfold on_disk. cbn [cache ldev fresh_log]. by rewrite Ed.
Qed.

Lemma fresh_LInv : LInv (fresh_log (λ _, zero_block)) [].
Proof.
  destruct (booted_cache_ok (λ _, zero_block)) as (HU & Ed & _).
  split.
  - apply fresh_area.
  - cbn [lh_n size fresh_log]. unfold LOGSIZE, MAXOPBLOCKS. lia.
  - exact HU.
  - exact NoDup_nil_2.
  - exact (Forall_nil_2 _).
  - cbn [cache ldev start fresh_log]. rewrite Ed. by vm_compute.
  - cbn [cache ldev start fresh_log]. rewrite Ed. by vm_compute.
Qed.

Lemma transaction_atomic_witness :
  ∃ s', transaction [(100, λ _, sevens)] (fresh_log (λ _, zero_block)) = Ret [AddrLog] s' ∧ on_disk s' 100 = sevens.
Proof.
  destruct (transaction_atomic (fresh_log (λ _, zero_block)) [(100, λ _, sevens)]) as (s' & ws & E & _ & Hd & _);
    [exact fresh_LInv|done|done|done|by vm_compute| |by vm_compute|].
  { constructor; [|constructor]. split; [by vm_compute|]. intros [_ H]. by vm_compute in H. }
  exists s'. split; [exact E|]. rewrite Hd; [done|]. intros [_ H]. by vm_compute in H.
Defined.

(** A disk that crashed just after the header of a one-block transaction. *)
Definition crashed_disk : Z → list Z :=
  <[2 := put_head [100] 1 zero_block]> (<[3 := sevens]> (λ _, zero_block)).

Lemma crashed_head : Head_ok (fresh_log crashed_disk) (crashed_disk 2).
Proof.
  assert (head_blocks (crashed_disk 2) = [100]) as E by (by vm_compute).
  split; [by vm_compute|by vm_compute|by vm_compute|rewrite E; apply NoDup_singleton|rewrite E].
  constructor; [|constructor]. split; [by vm_compute|]. intros [_ H]. by vm_compute in H.
Qed.

Lemma recovery_idempotent_witness :
  ∃ r', recover_from_log (fresh_log crashed_disk) = Ret tt r' ∧ LInv r' [].
Proof.
  destruct (recovery_idempotent (fresh_log crashed_disk) (fresh_log crashed_disk) crashed_disk)
    as (r' & ws & E & HL & _); [apply fresh_area|apply crashed_head|apply fresh_rebooted|].
  exists r'. exact (conj E HL).
Defined.
