(* ===== verification/Fs.v ===== *)
(** * The file system (fs.c, file.h)

    Block allocator, inodes, file contents, directories and path names.  The
    state is what fs.c sees through the buffer cache inside a transaction:
    the contents of every block, the inode cache, the superblock, and the
    blocks logged so far.  [get_block] is bread/brelse; [put_block] is
    bread, a store into the buffer, log_write and brelse, which Log.v proves
    to change exactly the contents of that block.  The routines run inside
    icache.lock; an inode that is locked by someone else is waited for. *)

From S2P Require Import Prelude CString Layout.

Local Open Scope Z_scope.

(** [struct inode]; its flags I_BUSY and I_VALID. *)
Record inode := mkInode {
  i_dev : Z; i_inum : Z; i_ref : Z; i_busy : bool; i_valid : bool;
  i_type : Z; i_major : Z; i_minor : Z; i_nlink : Z; i_uid : Z; i_gid : Z; i_mode : Z; i_size : Z;
  i_addrs : list Z
}.

Definition set_i_ref (v : Z) (x : inode) : inode :=
  mkInode (i_dev x) (i_inum x) v (i_busy x) (i_valid x) (i_type x) (i_major x) (i_minor x) (i_nlink x)
    (i_uid x) (i_gid x) (i_mode x) (i_size x) (i_addrs x).
Definition set_i_flags (b v : bool) (x : inode) : inode :=
  mkInode (i_dev x) (i_inum x) (i_ref x) b v (i_type x) (i_major x) (i_minor x) (i_nlink x)
    (i_uid x) (i_gid x) (i_mode x) (i_size x) (i_addrs x).
Definition set_i_type (v : Z) (x : inode) : inode :=
  mkInode (i_dev x) (i_inum x) (i_ref x) (i_busy x) (i_valid x) v (i_major x) (i_minor x) (i_nlink x)
    (i_uid x) (i_gid x) (i_mode x) (i_size x) (i_addrs x).
Definition set_i_size (v : Z) (x : inode) : inode :=
  mkInode (i_dev x) (i_inum x) (i_ref x) (i_busy x) (i_valid x) (i_type x) (i_major x) (i_minor x) (i_nlink x)
    (i_uid x) (i_gid x) (i_mode x) v (i_addrs x).
Definition set_i_addrs (v : list Z) (x : inode) : inode :=
  mkInode (i_dev x) (i_inum x) (i_ref x) (i_busy x) (i_valid x) (i_type x) (i_major x) (i_minor x) (i_nlink x)
    (i_uid x) (i_gid x) (i_mode x) (i_size x) v.

(** The part of an inode that is on disk. *)
Definition dinode_of (x : inode) : dinode :=
  mkDinode (i_type x) (i_major x) (i_minor x) (i_nlink x) (i_uid x) (i_gid x) (i_mode x) (i_size x) (i_addrs x).
Definition load_dinode (e : dinode) (x : inode) : inode :=
  mkInode (i_dev x) (i_inum x) (i_ref x) (i_busy x) (i_valid x) (d_type e) (d_major e) (d_minor e) (d_nlink e)
    (d_uid e) (d_gid e) (d_mode e) (d_size e) (d_addrs e).

Record fsst := mkFs {
  blk : Z → Z → list Z;      (* device, block number *)
  icache : list inode;       (* icache.inode[NINODE] *)
  sb : superblock;
  logged : list Z;           (* log.lh.block[0..n) *)
  outstanding : Z            (* log.outstanding *)
}.
Definition set_blk (v : Z → Z → list Z) (s : fsst) : fsst := mkFs v (icache s) (sb s) (logged s) (outstanding s).
Definition set_icache (v : list inode) (s : fsst) : fsst := mkFs (blk s) v (sb s) (logged s) (outstanding s).
Definition set_sb (v : superblock) (s : fsst) : fsst := mkFs (blk s) (icache s) v (logged s) (outstanding s).
Definition set_logged (v : list Z) (s : fsst) : fsst := mkFs (blk s) (icache s) (sb s) v (outstanding s).

(** ** Blocks *)

(** [bread], the data, [brelse]. *)
Definition get_block (d n : Z) : M fsst (list Z) :=
  if decide (FSSIZE ≤ n) then panic "incorrect blockno" else gets (λ s, blk s d n).

(** [log_write(bp)] of a buffer whose data is now [v], and [brelse(bp)]. *)
Definition put_block (d n : Z) (v : list Z) : M fsst unit :=
  s ← gets id;
  if decide (LOGSIZE ≤ Z.of_nat (length (logged s)) ∨ sb_nlog (sb s) - 1 ≤ Z.of_nat (length (logged s)))
  then panic "too big a transaction" else
  if decide (outstanding s < 1) then panic "log_write outside of trans" else
  modify (set_logged (if decide (n ∈ logged s) then logged s else logged s ++ [n]));;
  modify (λ s, set_blk (<[d := <[n := v]> (blk s d)]> (blk s)) s).

Definition readsb (d : Z) : M fsst superblock :=
  v ← get_block d 1;
  mret (decode_sb v).

Definition bzero (d bno : Z) : M fsst unit :=
  get_block d bno;;
  put_block d bno (replicate BSIZE 0).

(** [bp->data[bi/8] & (1 << (bi % 8))] *)
Definition bit (v : list Z) (bi : nat) : option Z :=
  x ← v !! (bi / 8)%nat; Some (Z.land x (Z.shiftl 1 (Z.of_nat (bi `mod` 8)))).
Definition set_bit (v : list Z) (bi : nat) : list Z :=
  alter (λ x, u8 (Z.lor x (Z.shiftl 1 (Z.of_nat (bi `mod` 8))))) (bi / 8)%nat v.
Definition clear_bit (v : list Z) (bi : nat) : list Z :=
  alter (λ x, u8 (Z.land x (Z.lnot (Z.shiftl 1 (Z.of_nat (bi `mod` 8)))))) (bi / 8)%nat v.

(** [for(bi = 0; bi < BPB && b + bi < sb.size; bi++) if(free) return bi;] *)
Fixpoint free_bit (v : list Z) (bis : list nat) : M fsst (option nat) :=
  match bis with
  | [] => mret None
  | bi :: bis' =>
      x ← lookupM (λ _, bit v bi);
      if decide (x = 0) then mret (Some bi) else free_bit v bis'
  end.

Fixpoint balloc_loop (fuel : nat) (d b : Z) : M fsst Z :=
  s ← gets sb;
  if decide (b < sb_size s) then
    match fuel with
    | O => diverge
    | S f =>
        v ← get_block d (BBLOCK b s);
        r ← free_bit v (seq 0 (Nat.min BPB (Z.to_nat (sb_size s - b))));
        match r with
        | Some bi =>
            put_block d (BBLOCK b s) (set_bit v bi);;
            bzero d (b + Z.of_nat bi);;
            mret (b + Z.of_nat bi)
        | None => balloc_loop f d (b + Z.of_nat BPB)
        end
    end
  else panic "balloc: out of blocks".

Definition balloc (d : Z) : M fsst Z :=
  s ← gets sb;
  balloc_loop (Z.to_nat (sb_size s / Z.of_nat BPB + 1)) d 0.

Definition bfree (d b : Z) : M fsst unit :=
  s ← readsb d;
  modify (set_sb s);;
  v ← get_block d (BBLOCK b s);
  let bi := Z.to_nat (b `mod` Z.of_nat BPB) in
  x ← lookupM (λ _, bit v bi);
  if decide (x = 0) then panic "freeing free block" else
  put_block d (BBLOCK b s) (clear_bit v bi).

(** ** Inodes *)

Definition geti (i : nat) : M fsst inode := lookupM (λ s, icache s !! i).
Definition seti (i : nat) (f : inode → inode) : M fsst unit :=
  x ← geti i; modify (λ s, set_icache (<[i := f x]> (icache s)) s).

Definition iinit (d : Z) : M fsst unit :=
  s ← readsb d;
  modify (set_sb s).

(** The scan of [iget]: the entry that caches the inode, the first free one. *)
Fixpoint iget_scan (l : list inode) (k : nat) (d n : Z) (empty : option nat) : option nat * option nat :=
  match l with
  | [] => (None, empty)
  | x :: l' =>
      if decide (0 < i_ref x ∧ i_dev x = d ∧ i_inum x = n) then (Some k, empty)
      else iget_scan l' (S k) d n
             (match empty with None => if decide (i_ref x = 0) then Some k else None | Some _ => empty end)
  end.

Definition iget (d n : Z) : M fsst nat :=
  l ← gets icache;
  match iget_scan l 0 d n None with
  | (Some k, _) => seti k (λ x, set_i_ref (i_ref x + 1) x);; mret k
  | (None, None) => panic "iget: no inodes"
  | (None, Some k) =>
      seti k (λ x, mkInode d n 1 false false (i_type x) (i_major x) (i_minor x) (i_nlink x)
                     DEFUID DEFGID DEFMODE (i_size x) (i_addrs x));;
      mret k
  end.

(** Byte offset of inode [n] in its block. *)
Definition ioff (n : Z) : nat := Z.to_nat (n `mod` Z.of_nat IPB) * sizeof_dinode.

Fixpoint ialloc_loop (inums : list Z) (d type : Z) : M fsst nat :=
  match inums with
  | [] => panic "ialloc: no inodes"
  | inum :: inums' =>
      s ← gets sb;
      v ← get_block d (IBLOCK inum s);
      if decide (d_type (decode_dinode (ioff inum) v) = 0) then
        let v := splice (ioff inum) (replicate sizeof_dinode 0) v in
        put_block d (IBLOCK inum s) (put_le (ioff inum) 2 type v);;
        iget d inum
      else ialloc_loop inums' d type
  end.

Definition ialloc (d type : Z) : M fsst nat :=
  s ← gets sb;
  ialloc_loop (Z.of_nat <$> seq 1 (Z.to_nat (sb_ninodes s) - 1)) d type.

Definition iupdate (i : nat) : M fsst unit :=
  x ← geti i;
  s ← gets sb;
  v ← get_block (i_dev x) (IBLOCK (i_inum x) s);
  put_block (i_dev x) (IBLOCK (i_inum x) s) (encode_dinode (ioff (i_inum x)) (dinode_of x) v).

Definition idup (i : nat) : M fsst nat :=
  seti i (λ x, set_i_ref (i_ref x + 1) x);;
  mret i.

Definition ilock (i : nat) : M fsst unit :=
  x ← geti i;
  if decide (i_ref x < 1) then panic "ilock" else
  if i_busy x then diverge else
  seti i (λ x, set_i_flags true (i_valid x) x);;
  if i_valid x then mret tt else
  s ← gets sb;
  v ← get_block (i_dev x) (IBLOCK (i_inum x) s);
  seti i (load_dinode (decode_dinode (ioff (i_inum x)) v));;
  seti i (λ x, set_i_flags (i_busy x) true x);;
  x ← geti i;
  if decide (i_type x = 0) then panic "ilock: no type" else mret tt.

Definition iunlock (i : nat) : M fsst unit :=
  x ← geti i;
  if decide (i_busy x = false ∨ i_ref x < 1) then panic "iunlock" else
  seti i (λ x, set_i_flags false (i_valid x) x).

(** ** Contents *)

Definition bmap (i : nat) (bn : Z) : M fsst Z :=
  x ← geti i;
  if decide (bn < Z.of_nat NDIRECT) then
    a ← lookupM (λ _, i_addrs x !! Z.to_nat bn);
    if decide (a = 0) then
      a ← balloc (i_dev x);
      seti i (λ x, set_i_addrs (<[Z.to_nat bn := a]> (i_addrs x)) x);;
      mret a
    else mret a
  else
    let bn := bn - Z.of_nat NDIRECT in
    if decide (bn < Z.of_nat NINDIRECT) then
      a ← lookupM (λ _, i_addrs x !! NDIRECT);
      ind ← (if decide (a = 0) then
               a ← balloc (i_dev x);
               seti i (λ x, set_i_addrs (<[NDIRECT := a]> (i_addrs x)) x);;
               mret a
             else mret a);
      v ← get_block (i_dev x) ind;
      let a := get_le (4 * Z.to_nat bn) 4 v in
      if decide (a = 0) then
        a ← balloc (i_dev x);
        put_block (i_dev x) ind (put_le (4 * Z.to_nat bn) 4 a v);;
        mret a
      else mret a
    else panic "bmap: out of range".

Fixpoint itrunc_direct (i : nat) (ks : list nat) : M fsst unit :=
  match ks with
  | [] => mret tt
  | k :: ks' =>
      x ← geti i;
      a ← lookupM (λ _, i_addrs x !! k);
      (if decide (a = 0) then mret tt else
         bfree (i_dev x) a;;
         seti i (λ x, set_i_addrs (<[k := 0]> (i_addrs x)) x));;
      itrunc_direct i ks'
  end.

Fixpoint itrunc_indirect (d : Z) (v : list Z) (js : list nat) : M fsst unit :=
  match js with
  | [] => mret tt
  | j :: js' =>
      let a := get_le (4 * j) 4 v in
      (if decide (a = 0) then mret tt else bfree d a);;
      itrunc_indirect d v js'
  end.

Definition itrunc (i : nat) : M fsst unit :=
  itrunc_direct i (seq 0 NDIRECT);;
  x ← geti i;
  ind ← lookupM (λ _, i_addrs x !! NDIRECT);
  (if decide (ind = 0) then mret tt else
     v ← get_block (i_dev x) ind;
     itrunc_indirect (i_dev x) v (seq 0 NINDIRECT);;
     bfree (i_dev x) ind;;
     seti i (λ x, set_i_addrs (<[NDIRECT := 0]> (i_addrs x)) x));;
  seti i (set_i_size 0);;
  iupdate i.

Definition iput (i : nat) : M fsst unit :=
  x ← geti i;
  (if decide (i_ref x = 1 ∧ i_valid x = true ∧ i_nlink x = 0) then
     if i_busy x then panic "iput busy" else
     seti i (λ x, set_i_flags true (i_valid x) x);;
     itrunc i;;
     seti i (set_i_type 0);;
     iupdate i;;
     seti i (set_i_flags false false)
   else mret tt);;
  seti i (λ x, set_i_ref (i_ref x - 1) x).

Definition iunlockput (i : nat) : M fsst unit :=
  iunlock i;;
  iput i.

(** [struct stat] *)
Record stat := mkStat {
  st_type : Z; st_dev : Z; st_ino : Z; st_nlink : Z; st_size : Z; st_uid : Z; st_gid : Z; st_mode : Z
}.
Definition stati (i : nat) : M fsst stat :=
  x ← geti i;
  mret (mkStat (i_type x) (i_dev x) (i_inum x) (i_nlink x) (i_size x) (i_uid x) (i_gid x) (i_mode x)).

(** ** Reading and writing files *)

(** [devsw]: what the device drivers do, by major number; a reader gives the
    result and the bytes it stored at [dst]. *)
Class Devices := {
  dev_read : Z → option (nat → Z → M fsst (Z * list Z));
  dev_write : Z → option (nat → list Z → Z → M fsst Z)
}.

Section Files.
Context `{Devices}.

(** [min(n - tot, BSIZE - off%BSIZE)] *)
Definition chunk (rem off : Z) : Z := Z.min rem (Z.of_nat BSIZE - off `mod` Z.of_nat BSIZE).

(** The loop of [readi] from offset [off] with [rem = n - tot] bytes to go. *)
Fixpoint readi_loop (fuel : nat) (i : nat) (off rem : Z) : M fsst (list Z) :=
  if decide (0 < rem) then
    match fuel with
    | O => diverge
    | S f =>
        x ← geti i;
        a ← bmap i (off / Z.of_nat BSIZE);
        v ← get_block (i_dev x) a;
        let m := chunk rem off in
        l ← readi_loop f i (u32 (off + m)) (rem - m);
        mret (slice (Z.to_nat (off `mod` Z.of_nat BSIZE)) (Z.to_nat m) v ++ l)
    end
  else mret [].

(** The result and the bytes stored at [dst]. *)
Definition readi (i : nat) (off n : Z) : M fsst (Z * list Z) :=
  x ← geti i;
  if decide (i_type x = T_DEV) then
    if decide (i_major x < 0 ∨ NDEV ≤ i_major x) then mret (-1, []) else
    match dev_read (i_major x) with
    | None => mret (-1, [])
    | Some rd => rd i (i32 n)
    end
  else if decide (i_size x < off ∨ u32 (off + n) < off) then mret (-1, [])
  else
    let n := if decide (i_size x < u32 (off + n)) then u32 (i_size x - off) else n in
    l ← readi_loop (Z.to_nat (n / Z.of_nat BSIZE + 2)) i off n;
    mret (i32 n, l).

(** The loop of [writei]; its result is the final [off]. *)
Fixpoint writei_loop (fuel : nat) (i : nat) (src : list Z) (off rem : Z) : M fsst Z :=
  if decide (0 < rem) then
    match fuel with
    | O => diverge
    | S f =>
        x ← geti i;
        a ← bmap i (off / Z.of_nat BSIZE);
        v ← get_block (i_dev x) a;
        let m := chunk rem off in
        put_block (i_dev x) a (splice (Z.to_nat (off `mod` Z.of_nat BSIZE)) (take (Z.to_nat m) src) v);;
        writei_loop f i (drop (Z.to_nat m) src) (u32 (off + m)) (rem - m)
    end
  else mret off.

Definition writei (i : nat) (src : list Z) (off n : Z) : M fsst Z :=
  x ← geti i;
  if decide (i_type x = T_DEV) then
    if decide (i_major x < 0 ∨ NDEV ≤ i_major x) then mret (-1) else
    match dev_write (i_major x) with
    | None => mret (-1)
    | Some wr => wr i src (i32 n)
    end
  else if decide (i_size x < off ∨ u32 (off + n) < off) then mret (-1)
  else if decide (Z.of_nat (MAXFILE * BSIZE) < u32 (off + n)) then mret (-1)
  else
    off ← writei_loop (Z.to_nat (n / Z.of_nat BSIZE + 2)) i src off n;
    x ← geti i;
    (if decide (0 < n ∧ i_size x < off) then
       seti i (set_i_size off);;
       iupdate i
     else mret tt);;
    mret (i32 n).

(** ** Directories *)

Definition namecmp (s t : list Z) : option Z := strncmp s t DIRSIZ.

(** Names are compared as DIRSIZ bytes; [t] of a dirent may lack a NUL. *)
Fixpoint dirlookup_loop (fuel : nat) (dp : nat) (name : list Z) (off : Z) : M fsst (option (nat * Z)) :=
  x ← geti dp;
  if decide (off < i_size x) then
    match fuel with
    | O => diverge
    | S f =>
        r ← readi dp off (Z.of_nat sizeof_dirent);
        if decide (r.1 ≠ Z.of_nat sizeof_dirent) then panic "dirlink read" else
        let de := decode_dirent r.2 in
        if decide (de_inum de = 0) then dirlookup_loop f dp name (u32 (off + Z.of_nat sizeof_dirent)) else
        c ← lookupM (λ _, namecmp name (de_name de));
        if decide (c = 0) then
          k ← iget (i_dev x) (de_inum de);
          mret (Some (k, off))
        else dirlookup_loop f dp name (u32 (off + Z.of_nat sizeof_dirent))
    end
  else mret None.

Definition dirlookup (dp : nat) (name : list Z) : M fsst (option (nat * Z)) :=
  x ← geti dp;
  if decide (i_type x ≠ T_DIR) then panic "dirlookup not DIR" else
  dirlookup_loop (Z.to_nat (i_size x / Z.of_nat sizeof_dirent + 1)) dp name 0.

(** [for(off = 0; off < dp->size; off += sizeof(de)) { ...; if(de.inum == 0) break; }] *)
Fixpoint dirlink_loop (fuel : nat) (dp : nat) (off : Z) : M fsst Z :=
  x ← geti dp;
  if decide (off < i_size x) then
    match fuel with
    | O => diverge
    | S f =>
        r ← readi dp off (Z.of_nat sizeof_dirent);
        if decide (r.1 ≠ Z.of_nat sizeof_dirent) then panic "dirlink read" else
        if decide (de_inum (decode_dirent r.2) = 0) then mret off
        else dirlink_loop f dp (u32 (off + Z.of_nat sizeof_dirent))
    end
  else mret off.

(** [de.name] holds the last entry read, or stack garbage; strncpy replaces
    all of it. *)
Definition dirlink (dp : nat) (name : list Z) (inum : Z) : M fsst Z :=
  r ← dirlookup dp name;
  match r with
  | Some (ip, _) => iput ip;; mret (-1)
  | None =>
      x ← geti dp;
      off ← dirlink_loop (Z.to_nat (i_size x / Z.of_nat sizeof_dirent + 1)) dp 0;
      nm ← lookupM (λ _, strncpy (replicate DIRSIZ 0) name DIRSIZ);
      r ← writei dp (encode_dirent (mkDirent (u16 inum) nm)) off (Z.of_nat sizeof_dirent);
      if decide (r ≠ Z.of_nat sizeof_dirent) then panic "dirlink" else
      mret 0
  end.

(** ** Paths *)

(** [while( *path == '/') path++;] and [while( *path != '/' && *path != 0) path++;] *)
Fixpoint skip_slashes (p : list Z) : option (list Z) :=
  match p with
  | [] => None
  | c :: p' => if decide (c = 47) then skip_slashes p' else Some p
  end.
Fixpoint span_elem (p : list Z) : option (list Z * list Z) :=
  match p with
  | [] => None
  | c :: p' =>
      if decide (c = 47 ∨ c = 0) then Some ([], p)
      else '(e, q) ← span_elem p'; Some (c :: e, q)
  end.

(** [skipelem(path, name)]: the rest of the path and the name buffer, or
    [Some None] for a null result; [None] if it runs off the string. *)
Definition skipelem (path name : list Z) : option (option (list Z * list Z)) :=
  p ← skip_slashes path;
  match p with
  | [] => None
  | c :: _ =>
      if decide (c = 0) then Some None else
      '(e, q) ← span_elem p;
      let name' := if decide (DIRSIZ ≤ length e)%nat then take DIRSIZ e
                   else e ++ 0 :: drop (S (length e)) name in
      q ← skip_slashes q;
      Some (Some (q, name'))
  end.

Fixpoint namex_loop (fuel : nat) (ip : nat) (path : list Z) (nameiparent : bool) (name : list Z) :
    M fsst (option nat * list Z) :=
  r ← lookupM (λ _, skipelem path name);
  match r with
  | None => if nameiparent then iput ip;; mret (None, name) else mret (Some ip, name)
  | Some (path, name) =>
      match fuel with
      | O => diverge
      | S f =>
          ilock ip;;
          x ← geti ip;
          if decide (i_type x ≠ T_DIR) then iunlockput ip;; mret (None, name) else
          c ← lookupM (λ _, head path);
          if decide (nameiparent = true ∧ c = 0) then iunlock ip;; mret (Some ip, name) else
          next ← dirlookup ip name;
          match next with
          | None => iunlockput ip;; mret (None, name)
          | Some (next, _) =>
              iunlockput ip;;
              namex_loop f next path nameiparent name
          end
      end
  end.

(** [proc->cwd] is the inode the process has. *)
Definition namex (cwd : nat) (path : list Z) (nameiparent : bool) (name : list Z) : M fsst (option nat * list Z) :=
  c ← lookupM (λ _, head path);
  ip ← (if decide (c = 47) then iget ROOTDEV ROOTINO else idup cwd);
  namex_loop (length path) ip path nameiparent name.

Definition namei (cwd : nat) (path : list Z) : M fsst (option nat) :=
  r ← namex cwd path false (replicate DIRSIZ 0);
  mret r.1.

Definition nameiparent (cwd : nat) (path name : list Z) : M fsst (option nat * list Z) :=
  namex cwd path true name.
End Files.
