(* ===== verification/FsBlocks.v ===== *)
(** * The block allocator (fs.c: bzero, balloc, bfree)

    The free bitmap as the set of blocks in use: [balloc] hands out a block
    that was free, zeroed and now in use, and changes no other block; [bfree]
    gives back exactly one. *)

From S2P Require Import Prelude CString Layout Fs.

Local Open Scope Z_scope.

(** ** Bits of a block *)

Definition used (v : list Z) (bi : nat) : bool := Z.testbit (v !!! (bi / 8)%nat) (Z.of_nat (bi `mod` 8)).

Lemma land_bit x k : 0 ≤ k → Z.land x (Z.shiftl 1 k) = 0 ↔ Z.testbit x k = false.
Proof.
  intros Hk. rewrite Z.shiftl_1_l. split.
  - intros E. assert (Z.testbit (Z.land x (2 ^ k)) k = false) as Ht by (rewrite E; apply Z.bits_0).
    rewrite Z.land_spec, Z.pow2_bits_true, andb_true_r in Ht by done. done.
  - intros Ht. apply Z.bits_inj'. intros j Hj. rewrite Z.land_spec, Z.bits_0, Z.pow2_bits_eqb by done.
    destruct (Z.eqb_spec k j) as [<-|]; [by rewrite Ht|apply andb_false_r].
Qed.

Lemma bit_used v bi :
  length v = BSIZE → (bi < BPB)%nat → ∃ x, bit v bi = Some x ∧ (x = 0 ↔ used v bi = false).
Proof.
  intros Hl Hb. destruct (lookup_lt_is_Some_2 v (bi / 8)) as [y Hy].
  { rewrite Hl. unfold BPB, BSIZE in *. apply Nat.Div0.div_lt_upper_bound. lia. }
  unfold bit, used. rewrite Hy. simpl. eexists. split; [done|].
  rewrite (list_lookup_total_correct _ _ _ Hy). apply land_bit. lia.
Qed.

Lemma same_byte bi bj : (bi / 8 = bj / 8 → bi `mod` 8 = bj `mod` 8 → bi = bj)%nat.
Proof. intros E1 E2. rewrite (Nat.div_mod bi 8), (Nat.div_mod bj 8) by lia. congruence. Qed.

Lemma testbit_u8 z k : 0 ≤ k < 8 → Z.testbit (u8 z) k = Z.testbit z k.
Proof. intros Hk. unfold u8. apply Z.mod_pow2_bits_low. lia. Qed.

Lemma used_alter (f : Z → Z) v bi bj :
  length v = BSIZE → (bi < BPB)%nat →
  used (alter f (bi / 8)%nat v) bj =
    if decide (bi / 8 = bj / 8)%nat then Z.testbit (f (v !!! (bj / 8)%nat)) (Z.of_nat (bj `mod` 8)) else used v bj.
Proof.
  intros Hl Hb. unfold used. case_decide as E.
  - rewrite <- E. destruct (lookup_lt_is_Some_2 v (bi / 8)) as [y Hy].
    { rewrite Hl. unfold BPB, BSIZE in *. apply Nat.Div0.div_lt_upper_bound. lia. }
    rewrite (list_lookup_total_correct _ _ _ Hy). f_equal. apply list_lookup_total_correct.
    by rewrite list_lookup_alter_eq, Hy.
  - f_equal. rewrite !list_lookup_total_alt. by rewrite list_lookup_alter_ne.
Qed.

Lemma used_set v bi bj :
  length v = BSIZE → (bi < BPB)%nat → used (set_bit v bi) bj = bool_decide (bi = bj) || used v bj.
Proof.
  intros Hl Hb. unfold set_bit. rewrite used_alter by done.
  pose proof (Nat.mod_upper_bound bi 8). pose proof (Nat.mod_upper_bound bj 8).
  case_decide as E.
  - rewrite testbit_u8, Z.lor_spec, Z.shiftl_1_l, Z.pow2_bits_eqb by lia. fold (used v bj). rewrite orb_comm. f_equal.
    destruct (Z.eqb_spec (Z.of_nat (bi `mod` 8)) (Z.of_nat (bj `mod` 8))) as [E'|E'].
    + symmetry. apply bool_decide_eq_true. apply same_byte; [done|lia].
    + symmetry. apply bool_decide_eq_false. intros ->. done.
  - rewrite bool_decide_false; [done|]. by intros ->.
Qed.

Lemma used_clear v bi bj :
  length v = BSIZE → (bi < BPB)%nat → used (clear_bit v bi) bj = negb (bool_decide (bi = bj)) && used v bj.
Proof.
  intros Hl Hb. unfold clear_bit. rewrite used_alter by done.
  pose proof (Nat.mod_upper_bound bi 8). pose proof (Nat.mod_upper_bound bj 8).
  case_decide as E.
  - rewrite testbit_u8, Z.land_spec, Z.lnot_spec, Z.shiftl_1_l, Z.pow2_bits_eqb by lia. fold (used v bj). rewrite andb_comm. f_equal. f_equal.
    destruct (Z.eqb_spec (Z.of_nat (bi `mod` 8)) (Z.of_nat (bj `mod` 8))) as [E'|E'].
    + symmetry. apply bool_decide_eq_true. apply same_byte; [done|lia].
    + symmetry. apply bool_decide_eq_false. intros ->. done.
  - rewrite bool_decide_false; [done|]. by intros ->.
Qed.

Lemma free_bit_spec v bis s :
  length v = BSIZE → Forall (λ bi, (bi < BPB)%nat) bis →
  wp (free_bit v bis) s (λ r s', s' = s ∧
    match r with
    | Some bi => bi ∈ bis ∧ used v bi = false
    | None => Forall (λ bi, used v bi = true) bis
    end).
Proof.
  intros Hl. induction 1 as [|bi bis Hb Hbs IH]; simpl; [by wp_steps|]. wp_steps.
  destruct (bit_used v bi Hl Hb) as (x & Hx & Hu). apply (wp_lookupM _ _ x); [done|].
  case_decide as E.
  - wp_steps. split; [done|]. split; [set_solver|]. by apply Hu.
  - eapply wp_mono; [exact IH|]. intros r s' [-> Hr]. split; [done|]. destruct r as [b|].
    + destruct Hr. split; [set_solver|done].
    + constructor; [|done]. destruct (used v bi) eqn:Eu; [done|]. by destruct E; apply Hu.
Qed.

(** ** The layout mkfs writes *)

(** [ boot | super | log | inode blocks | bitmap | data ], the bitmap being one
    block since FSSIZE < BPB. *)
Record SbOk (b : superblock) : Prop := {
  so_size : sb_size b ≤ FSSIZE;
  so_inode : 2 ≤ sb_inodestart b;
  so_ninodes : 0 ≤ sb_ninodes b;
  so_bmap : sb_inodestart b + sb_ninodes b / Z.of_nat IPB < sb_bmapstart b;
  so_data : sb_bmapstart b < sb_size b
}.
Lemma so_bounds b : SbOk b → 2 < sb_bmapstart b < sb_size b ∧ sb_size b ≤ 2000.
Proof.
  intros [H1 H2 H3 H4 H5]. assert (0 ≤ sb_ninodes b / Z.of_nat IPB) by (apply Z.div_pos; [lia|by vm_compute]).
  unfold FSSIZE in H1. lia.
Qed.

(** The first data block. *)
Definition dstart (b : superblock) : Z := sb_bmapstart b + 1.

Definition in_use (d : Z) (s : fsst) (b : Z) : bool :=
  used (blk s d (BBLOCK b (sb s))) (Z.to_nat (b `mod` Z.of_nat BPB)).

Record FInv (d : Z) (s : fsst) : Prop := {
  fi_sb : SbOk (sb s);
  fi_copy : decode_sb (blk s d 1) = sb s;
  fi_len n : length (blk s d n) = BSIZE;
  fi_meta b : 0 ≤ b < dstart (sb s) → in_use d s b = true;
  fi_icache : length (icache s) = NINODE;
  fi_trans : 1 ≤ outstanding s
}.

Lemma BBLOCK_small sb b : SbOk sb → 0 ≤ b < sb_size sb → BBLOCK b sb = sb_bmapstart sb.
Proof.
  intros HS Hb. pose proof (so_size _ HS). unfold BBLOCK. rewrite Z.div_small; [lia|].
  unfold FSSIZE in *. change (Z.of_nat BPB) with 4096. lia.
Qed.

Lemma bit_small sb b : SbOk sb → 0 ≤ b < sb_size sb → Z.to_nat (b `mod` Z.of_nat BPB) = Z.to_nat b ∧ (Z.to_nat b < BPB)%nat.
Proof.
  intros HS Hb. pose proof (so_size _ HS). unfold FSSIZE in *. change (Z.of_nat BPB) with 4096.
  rewrite Z.mod_small by lia. split; [done|]. change BPB with (Z.to_nat 4096). lia.
Qed.

Lemma in_use_small d s b :
  SbOk (sb s) → 0 ≤ b < sb_size (sb s) → in_use d s b = used (blk s d (sb_bmapstart (sb s))) (Z.to_nat b).
Proof. intros HS Hb. unfold in_use. rewrite (BBLOCK_small _ _ HS Hb). by destruct (bit_small _ _ HS Hb) as [-> _]. Qed.

(** ** Logged stores *)

(** The state after a logged store of [v] to block [n]. *)
Definition stored (d n : Z) (v : list Z) (s : fsst) : fsst :=
  mkFs (<[d := <[n := v]> (blk s d)]> (blk s)) (icache s) (sb s)
    (if decide (n ∈ logged s) then logged s else logged s ++ [n]) (outstanding s).

Lemma blk_stored d n v s m : blk (stored d n v s) d m = if decide (m = n) then v else blk s d m.
Proof.
  unfold stored. cbn [blk]. rewrite fn_insert_dec, decide_True by done. rewrite fn_insert_dec.
  destruct (decide (m = n)) as [->|]; [by rewrite decide_True|by rewrite decide_False].
Qed.

Lemma blk_stored_dev d n v s d' : d' ≠ d → blk (stored d n v s) d' = blk s d'.
Proof. intros Hne. unfold stored. cbn [blk]. by rewrite fn_insert_dec, decide_False. Qed.

(** The log has room for [k] more blocks. *)
Definition log_room (k : Z) (s : fsst) : Prop :=
  Z.of_nat (length (logged s)) + k ≤ LOGSIZE ∧ Z.of_nat (length (logged s)) + k ≤ sb_nlog (sb s) - 1.

Definition TOO_BIG : string := "too big a transaction".
Definition NO_BLOCKS : string := "balloc: out of blocks".

Lemma wpp_put_block ok d n v s (Q : unit → fsst → Prop) :
  1 ≤ outstanding s → (ok TOO_BIG ∨ log_room 1 s) → Q tt (stored d n v s) → wpp ok (put_block d n v) s Q.
Proof.
  intros Ho Hok HQ. unfold put_block. wp_steps. cbn [id]. case_decide as E.
  { apply wpp_panic. destruct Hok as [|[H1 H2]]; [done|]. destruct E; lia. }
  rewrite decide_False by lia. wp_steps. exact HQ.
Qed.

Lemma wpp_get_block ok d n s (Q : list Z → fsst → Prop) :
  n < FSSIZE → Q (blk s d n) s → wpp ok (get_block d n) s Q.
Proof. intros Hn HQ. unfold get_block. rewrite decide_False by lia. by wp_steps. Qed.

Lemma log_room_stored k d n v s : log_room (k + 1) s → log_room k (stored d n v s).
Proof.
  intros [H1 H2]. unfold log_room, stored. cbn [logged sb]. case_decide; [lia|]. rewrite !length_app. simpl. lia.
Qed.

Lemma FInv_stored d n v s :
  FInv d s → length v = BSIZE → n ≠ 1 → (n = sb_bmapstart (sb s) → ∀ b, 0 ≤ b < dstart (sb s) → used v (Z.to_nat b) = true) →
  FInv d (stored d n v s).
Proof.
  intros [HS Hc Hl Hm Hi Ht] Hv H1 Hb. split; try done.
  - rewrite blk_stored, decide_False by done. done.
  - intros m. rewrite blk_stored. by case_decide.
  - intros b Hb'. cbn [sb stored] in *. assert (0 ≤ b < sb_size (sb s)) as Hb2.
    { pose proof (so_data _ HS). unfold dstart in Hb'. lia. }
    rewrite in_use_small by done. cbn [sb stored]. rewrite blk_stored. case_decide as E.
    + by apply Hb.
    + rewrite <- in_use_small by done. by apply Hm.
Qed.

(** ** balloc *)

(** Block [b] is in use now, and zero. *)
Definition allocated (d b : Z) (s : fsst) : fsst :=
  stored d b (replicate BSIZE 0) (stored d (sb_bmapstart (sb s)) (set_bit (blk s d (sb_bmapstart (sb s))) (Z.to_nat b)) s).

Lemma balloc_spec ok d s :
  FInv d s → (ok TOO_BIG ∨ log_room 2 s) →
  (ok NO_BLOCKS ∨ ∃ b, 0 ≤ b < sb_size (sb s) ∧ in_use d s b = false) →
  wpp ok (balloc d) s (λ b s', dstart (sb s) ≤ b < sb_size (sb s) ∧ in_use d s b = false ∧ s' = allocated d b s).
Proof.
  intros HF Hlog Hfree. destruct (HF) as [HS Hc Hl Hm Hi Ht]. pose proof (so_bounds _ HS) as [Hbm Hsz].
  unfold balloc. wp_steps. replace (Z.to_nat (sb_size (sb s) / Z.of_nat BPB + 1)) with 1%nat; last first.
  { rewrite Z.div_small; [done|]. change (Z.of_nat BPB) with 4096. lia. }
  unfold balloc_loop. wp_steps. rewrite decide_True by lia. wp_steps.
  rewrite (BBLOCK_small _ 0 HS) by lia. apply wpp_get_block; [unfold FSSIZE; lia|]. wp_steps.
  set (v := blk s d (sb_bmapstart (sb s))). set (k := Nat.min BPB (Z.to_nat (sb_size (sb s) - 0))).
  assert (k = Z.to_nat (sb_size (sb s)) ∧ (k ≤ BPB)%nat) as [Ek Hk].
  { unfold k. rewrite Z.sub_0_r. change BPB with (Z.to_nat 4096). lia. }
  eapply wpp_mono; [apply wpp_wp, (free_bit_spec v (seq 0 k) s (Hl _))|].
  { apply Forall_forall. intros bi Hbi%elem_of_seq. lia. }
  intros r s1 [-> Hr]. destruct r as [bi|]; last first.
  - wp_steps. rewrite decide_False; last first.
    { change (Z.of_nat BPB) with 4096. lia. }
    apply wpp_panic. destruct Hfree as [|(b & Hb & Hu)]; [done|]. exfalso.
    rewrite in_use_small in Hu by done. rewrite Forall_forall in Hr. fold v in Hu. rewrite Hr in Hu; [done|].
    apply elem_of_seq. lia.
  - destruct Hr as [Hbi%elem_of_seq Hu]. assert (0 ≤ Z.of_nat bi < sb_size (sb s)) as Hb by lia.
    assert (in_use d s (Z.of_nat bi) = false) as Hfr by (rewrite in_use_small by done; by rewrite Nat2Z.id).
    assert (dstart (sb s) ≤ Z.of_nat bi) as Hds.
    { destruct (decide (Z.of_nat bi < dstart (sb s))); [|lia]. rewrite Hm in Hfr by lia. done. }
    wp_steps. apply wpp_put_block; [done|destruct Hlog as [|[]]; [by left|right; split; lia]|].
    unfold bzero. wp_steps. rewrite Z.add_0_l. apply wpp_get_block; [unfold FSSIZE; lia|]. apply wpp_put_block; [done| |].
    { destruct Hlog as [|Hlog]; [by left|right]. by apply log_room_stored. }
    wp_steps. split; [lia|]. split; [done|]. unfold allocated. by rewrite Nat2Z.id.
Qed.

Lemma length_alter_bit f (v : list Z) k : length (alter f k v) = length v.
Proof. apply length_alter. Qed.

Lemma blk_allocated d b s m :
  blk (allocated d b s) d m = if decide (m = b) then replicate BSIZE 0
    else if decide (m = sb_bmapstart (sb s)) then set_bit (blk s d (sb_bmapstart (sb s))) (Z.to_nat b) else blk s d m.
Proof. unfold allocated. by rewrite !blk_stored. Qed.

Lemma in_use_allocated d s b b' :
  FInv d s → dstart (sb s) ≤ b < sb_size (sb s) → 0 ≤ b' < sb_size (sb s) →
  in_use d (allocated d b s) b' = bool_decide (b = b') || in_use d s b'.
Proof.
  intros HF Hb Hb'. destruct (HF) as [HS Hc Hl Hm Hi Ht]. rewrite !in_use_small by done. cbn [sb allocated stored].
  rewrite blk_allocated, decide_False, decide_True by (unfold dstart in Hb; lia).
  pose proof (so_bounds _ HS).
  rewrite used_set; [|done|]; last first.
  { apply (bit_small _ b HS). unfold dstart in Hb. lia. }
  f_equal. apply bool_decide_ext. unfold dstart in Hb. lia.
Qed.

Lemma FInv_allocated d s b :
  FInv d s → dstart (sb s) ≤ b < sb_size (sb s) → FInv d (allocated d b s).
Proof.
  intros HF Hb. destruct (HF) as [HS Hc Hl Hm Hi Ht].
  pose proof (so_bounds _ HS). unfold dstart in Hb.
  unfold allocated. apply FInv_stored; [apply FInv_stored|..]; cbn [sb stored]; try done.
  - unfold set_bit. by rewrite length_alter.
  - lia.
  - intros _ b' Hb'. assert (0 ≤ b' < sb_size (sb s)) as Hb2 by (pose proof (so_data _ HS); unfold dstart in Hb'; lia).
    rewrite used_set; [|done|apply (bit_small _ b HS); lia]. rewrite <- in_use_small by done. rewrite Hm by done. apply orb_true_r.
  - lia.
  - lia.
Qed.

(** ** bfree *)

Definition freed (d b : Z) (s : fsst) : fsst :=
  stored d (sb_bmapstart (sb s)) (clear_bit (blk s d (sb_bmapstart (sb s))) (Z.to_nat b)) s.

Lemma bfree_spec ok d s b :
  FInv d s → 0 ≤ b < sb_size (sb s) → in_use d s b = true → (ok TOO_BIG ∨ log_room 1 s) →
  wpp ok (bfree d b) s (λ _ s', s' = freed d b s).
Proof.
  intros HF Hb Hu Hlog. destruct (HF) as [HS Hc Hl Hm Hi Ht]. unfold bfree, readsb. wp_steps.
  apply wpp_get_block; [by vm_compute|]. wp_steps. rewrite Hc.
  replace (set_sb (sb s) s) with s by (by destruct s). rewrite (BBLOCK_small _ b HS Hb).
  apply wpp_get_block; [pose proof (so_size _ HS); pose proof (so_data _ HS); lia|]. wp_steps.
  destruct (bit_small _ b HS Hb) as [-> Hlt]. rewrite in_use_small in Hu by done.
  destruct (bit_used (blk s d (sb_bmapstart (sb s))) (Z.to_nat b) (Hl _) Hlt) as (x & Hx & Hxu).
  apply (wpp_lookupM _ _ _ x); [done|]. rewrite decide_False by (rewrite Hxu; congruence).
  apply wpp_put_block; [done|done|]. done.
Qed.

Lemma in_use_freed d s b b' :
  FInv d s → 0 ≤ b < sb_size (sb s) → 0 ≤ b' < sb_size (sb s) →
  in_use d (freed d b s) b' = negb (bool_decide (b = b')) && in_use d s b'.
Proof.
  intros HF Hb Hb'. destruct (HF) as [HS Hc Hl Hm Hi Ht]. rewrite !in_use_small by done. cbn [sb freed stored].
  unfold freed. rewrite blk_stored, decide_True by done.
  rewrite used_clear; [|done|by apply (bit_small _ b HS)]. f_equal. f_equal. apply bool_decide_ext. lia.
Qed.

Lemma FInv_freed d s b : FInv d s → dstart (sb s) ≤ b < sb_size (sb s) → FInv d (freed d b s).
Proof.
  intros HF Hb. destruct (HF) as [HS Hc Hl Hm Hi Ht].
  pose proof (so_bounds _ HS). unfold dstart in Hb.
  apply FInv_stored; [done|unfold clear_bit; by rewrite length_alter|lia|].
  intros _ b' Hb'. assert (0 ≤ b' < sb_size (sb s)) as Hb2 by (pose proof (so_data _ HS); unfold dstart in Hb'; lia).
  rewrite used_clear; [|done|apply (bit_small _ b HS); lia]. rewrite <- in_use_small by done. rewrite Hm by done.
  rewrite bool_decide_false; [done|]. unfold dstart in Hb'. lia.
Qed.

(** ** What the allocator promises *)

(** C9: [balloc] panics exactly when every block of the file system is in use.
    Otherwise it returns a data block that was free; that block is now in use
    and zero, the other blocks are in use or free as before, and no block
    other than it and the bitmap has changed. *)
Theorem balloc_correct (d : Z) (s : fsst) :
  FInv d s → log_room 2 s →
  (balloc d s = Panic NO_BLOCKS ∧ ∀ b, 0 ≤ b < sb_size (sb s) → in_use d s b = true) ∨
  (∃ b s', balloc d s = Ret b s' ∧ FInv d s' ∧ dstart (sb s) ≤ b < sb_size (sb s) ∧ in_use d s b = false ∧
     blk s' d b = replicate BSIZE 0 ∧
     (∀ b', 0 ≤ b' < sb_size (sb s) → in_use d s' b' = bool_decide (b = b') || in_use d s b') ∧
     (∀ n, n ≠ b → n ≠ sb_bmapstart (sb s) → blk s' d n = blk s d n)).
Proof.
  intros HF Hlog. set (full := ∀ b, 0 ≤ b < sb_size (sb s) → in_use d s b = true).
  assert (full ∨ ∃ b, 0 ≤ b < sb_size (sb s) ∧ in_use d s b = false) as Hcase.
  { destruct (decide (Forall (λ b, in_use d s b = true) (seqZ 0 (sb_size (sb s))))) as [Hall|Hn].
    - left. intros b Hb. rewrite Forall_forall in Hall. apply Hall. apply elem_of_seqZ. lia.
    - right. apply not_Forall_Exists in Hn; [|intros x; apply _]. apply Exists_exists in Hn as (b & Hb%elem_of_seqZ & Hne).
      exists b. split; [lia|]. simpl in Hne. by destruct (in_use d s b). }
  destruct Hcase as [Hf|He].
  - pose proof (balloc_spec (eq NO_BLOCKS) d s HF (or_intror Hlog) (or_introl eq_refl)) as Hw. unfold wpp in Hw.
    destruct (balloc d s) as [b s'|msg| |] eqn:E; [|subst; by left|done|done]. exfalso.
    destruct Hw as (Hb & Hu & _). rewrite Hf in Hu; [done|]. pose proof (so_bounds _ (fi_sb _ _ HF)).
    unfold dstart in Hb. lia.
  - right. pose proof (balloc_spec (λ _, False) d s HF (or_intror Hlog) (or_intror He)) as Hw. unfold wpp in Hw.
    destruct (balloc d s) as [b s'|msg| |] eqn:E; try done. destruct Hw as (Hb & Hu & ->).
    exists b, (allocated d b s). split; [done|]. split; [by apply FInv_allocated|]. split; [done|]. split; [done|].
    split; [by rewrite blk_allocated, decide_True|]. split; [intros b' Hb'; by apply in_use_allocated|].
    intros n H1 H2. by rewrite blk_allocated, !decide_False.
Qed.

(** [bfree] of a data block that is in use frees exactly it; of a block
    that is free it panics. *)
Theorem bfree_correct (d : Z) (s : fsst) (b : Z) :
  FInv d s → log_room 1 s → dstart (sb s) ≤ b < sb_size (sb s) →
  if in_use d s b then
    ∃ s', bfree d b s = Ret tt s' ∧ FInv d s' ∧
      (∀ b', 0 ≤ b' < sb_size (sb s) → in_use d s' b' = negb (bool_decide (b = b')) && in_use d s b') ∧
      (∀ n, n ≠ sb_bmapstart (sb s) → blk s' d n = blk s d n)
  else bfree d b s = Panic "freeing free block".
Proof.
  intros HF Hlog Hb. pose proof (fi_sb _ _ HF) as HS. pose proof (so_bounds _ HS).
  assert (0 ≤ b < sb_size (sb s)) as Hb' by (unfold dstart in Hb; lia). destruct (in_use d s b) eqn:Hu.
  - pose proof (bfree_spec (λ _, False) d s b HF Hb' Hu (or_intror Hlog)) as Hw. unfold wpp in Hw.
    destruct (bfree d b s) as [[] s'|msg| |] eqn:E; try done. subst s'. exists (freed d b s).
    split; [done|]. split; [by apply FInv_freed|]. split; [intros b' H2; by apply in_use_freed|].
    intros n Hn. unfold freed. by rewrite blk_stored, decide_False.
  - unfold bfree, readsb, get_block, mbind, M_bind, gets, modify, mret, M_ret, lookupM.
    rewrite decide_False by (by vm_compute). rewrite (fi_copy _ _ HF). rewrite (BBLOCK_small _ b HS Hb').
    rewrite decide_False by (pose proof (so_size _ HS); pose proof (so_data _ HS); lia). cbn [blk set_sb].
    destruct (bit_small _ b HS Hb') as [-> Hlt]. rewrite in_use_small in Hu by done.
    destruct (bit_used _ (Z.to_nat b) (fi_len _ _ HF (sb_bmapstart (sb s))) Hlt) as (x & -> & Hxu).
    rewrite decide_True by (by apply Hxu). done.
Qed.

(** ** Witnesses: a file system of 20 blocks with its bitmap at block 4 *)

Definition super0 : list Z :=
  put_le 24 4 4 (put_le 20 4 2 (put_le 16 4 2 (put_le 12 4 30 (put_le 8 4 8 (put_le 4 4 15 (put_le 0 4 20 (replicate BSIZE 0))))))).
(** The given inodes, and the blocks but for the superblock and the bitmap. *)
Definition fs_of (ics : list inode) (f : Z → list Z) (bits : list Z) : fsst :=
  mkFs (λ _ n, if decide (n = 1) then super0 else if decide (n = 4) then bits ++ replicate (BSIZE - length bits) 0 else f n)
    ics (mkSb 20 15 8 30 2 2 4) [] 1.
Definition inode0 : inode := mkInode 0 0 0 false false 0 0 0 0 0 0 0 0 (replicate (S NDIRECT) 0).
Definition fs0 : fsst := fs_of (replicate NINODE inode0) (λ _, replicate BSIZE 0) [31].

Lemma fs_of_FInv ics f x y :
  length ics = NINODE → (∀ n, length (f n) = BSIZE) → Z.land x 31 = 31 → FInv 1 (fs_of ics f [x; y]).
Proof.
  intros Hi Hf Hx. split; [by split; vm_compute|by vm_compute| | |done|done].
  - intros n. cbn [blk fs_of]. case_decide; [by vm_compute|]. by case_decide.
  - intros b Hb. change (dstart _) with 5 in Hb. rewrite in_use_small; cbn [sb fs_of sb_bmapstart sb_size]; [|by split; vm_compute|lia].
    unfold used. cbn [blk fs_of]. rewrite decide_False, decide_True by done.
    assert (b = 0 ∨ b = 1 ∨ b = 2 ∨ b = 3 ∨ b = 4) as Hc by lia.
    assert (∀ k, 0 ≤ k < 5 → Z.testbit x k = true) as Hk.
    { intros k Hk. assert (Z.testbit (Z.land x 31) k = true) as Ht by (rewrite Hx; assert (k = 0 ∨ k = 1 ∨ k = 2 ∨ k = 3 ∨ k = 4) as Hd by lia;
        by destruct Hd as [-> | [-> | [-> | [-> | ->]]]]). rewrite Z.land_spec in Ht. by apply andb_true_iff in Ht as [? _]. }
    destruct Hc as [-> | [-> | [-> | [-> | ->]]]]; apply Hk; simpl; lia.
Qed.

Lemma fs0_FInv : FInv 1 fs0.
Proof. apply (fs_of_FInv _ _ 31 0); [done|intros n; by rewrite length_replicate|done]. Qed.

Lemma balloc_correct_witness : ∃ b s', balloc 1 fs0 = Ret b s' ∧ in_use 1 fs0 b = false.
Proof.
  destruct (balloc_correct 1 fs0) as [[_ H]|(b & s' & E & _ & _ & Hu & _)]; [exact fs0_FInv|split; by vm_compute| |].
  - assert (in_use 1 fs0 5 = true) as Hc by (apply H; by vm_compute). by vm_compute in Hc.
  - exists b, s'. exact (conj E Hu).
Defined.

Lemma bfree_correct_witness : bfree 1 5 fs0 = Panic "freeing free block".
Proof. apply (bfree_correct 1 fs0 5); [exact fs0_FInv|split; by vm_compute|by vm_compute]. Defined.
