(* ===== verification/FsInode.v ===== *)
(** * Inodes on disk and in the cache (fs.c: ialloc, iupdate, iget, idup, ilock,
    iunlock, iput)

    An inode written by [iupdate] is read back by [ilock], and neither touches
    the other inodes of the block; the inode cache holds at most one entry per
    inode and counts its references. *)

From S2P Require Import Prelude CString Layout Fs FsBlocks.

Local Open Scope Z_scope.

(** ** struct dinode *)

Section Fields.
Context (L : nat).

Lemma len_put off n z d : length d = L → (off + n ≤ L)%nat → length (put_le off n z d) = L.
Proof. intros <-. apply length_put_le. Qed.
Lemma get_put_same off n z d : length d = L → (off + n ≤ L)%nat → get_le off n (put_le off n z d) = z `mod` 2 ^ (8 * Z.of_nat n).
Proof. intros <-. apply get_put_eq. Qed.
Lemma get_put_other off n z d off' n' :
  length d = L → (off + n ≤ L)%nat → (off' + n' ≤ off ∨ off + n ≤ off')%nat → get_le off' n' (put_le off n z d) = get_le off' n' d.
Proof. intros <-. apply get_put_ne. Qed.

Lemma put_words_spec ws : ∀ o d,
  length d = L → (o + 4 * length ws ≤ L)%nat →
  length (put_words o ws d) = L ∧
  (∀ off n, (off + n ≤ o ∨ o + 4 * length ws ≤ off)%nat → get_le off n (put_words o ws d) = get_le off n d) ∧
  (∀ j w, ws !! j = Some w → get_le (o + 4 * j) 4 (put_words o ws d) = u32 w).
Proof.
  induction ws as [|w ws IH]; intros o d Hl Hb; cbn [put_words length] in *; [naive_solver|].
  destruct (IH (o + 4)%nat (put_le o 4 w d)) as (H1 & H2 & H3); [apply len_put; [done|lia]|lia|].
  split; [done|]. split.
  - intros off n Ho. rewrite H2 by lia. apply get_put_other; [done|lia|lia].
  - intros [|j] w' Hj; simpl in Hj.
    + injection Hj as <-. rewrite Nat.mul_0_r, Nat.add_0_r, H2 by lia. apply get_put_same; [done|lia].
    + replace (o + 4 * S j)%nat with (o + 4 + 4 * j)%nat by lia. by apply H3.
Qed.
End Fields.

Ltac put_len := repeat (apply len_put; [|lia]); try done.
Ltac get_put L := repeat first
  [ rewrite (get_put_same L) by (put_len || lia) | rewrite (get_put_other L) by (put_len || lia) ].

Record DinodeOk (x : dinode) : Prop := {
  do_type : - 2 ^ 15 ≤ d_type x < 2 ^ 15;
  do_major : - 2 ^ 15 ≤ d_major x < 2 ^ 15;
  do_minor : - 2 ^ 15 ≤ d_minor x < 2 ^ 15;
  do_nlink : - 2 ^ 15 ≤ d_nlink x < 2 ^ 15;
  do_uid : 0 ≤ d_uid x < 2 ^ 16;
  do_gid : 0 ≤ d_gid x < 2 ^ 16;
  do_mode : is_u32 (d_mode x);
  do_size : is_u32 (d_size x);
  do_addrs : length (d_addrs x) = S NDIRECT;
  do_u32 : Forall is_u32 (d_addrs x)
}.

Lemma i16_mod z : - 2 ^ 15 ≤ z < 2 ^ 15 → i16 (z `mod` 2 ^ (8 * Z.of_nat 2)) = z.
Proof.
  intros Hz. change (2 ^ (8 * Z.of_nat 2)) with (2 ^ 16). unfold i16, u16. rewrite Z.mod_mod by lia.
  destruct (Z.ltb_spec (z `mod` 2 ^ 16) (2 ^ 15)); zlia.
Qed.

Lemma dinode_roundtrip (L o : nat) x d :
  length d = L → (o + sizeof_dinode ≤ L)%nat → DinodeOk x →
  decode_dinode o (encode_dinode o x d) = x ∧ length (encode_dinode o x d) = L ∧
  ∀ off n, (off + n ≤ o ∨ o + sizeof_dinode ≤ off)%nat → get_le off n (encode_dinode o x d) = get_le off n d.
Proof.
  intros Hl Ho [H1 H2 H3 H4 H5 H6 H7 H8 H9 H10]. unfold sizeof_dinode in *. unfold encode_dinode.
  set (d0 := put_le (o + 12) 4 (d_mode x) _).
  assert (length d0 = L) as Hl0 by (unfold d0; put_len).
  destruct (put_words_spec L (d_addrs x) (o + 20) d0 Hl0) as (Hl' & Hoth & Hw); [rewrite H9; unfold NDIRECT; lia|].
  rewrite H9 in Hoth. unfold NDIRECT in Hoth.
  split; [|split; [done|]].
  - unfold decode_dinode. rewrite !Hoth by lia. unfold d0. get_put L.
    assert (((λ i, get_le (o + 20 + 4 * i) 4 (put_words (o + 20) (d_addrs x) d0)) <$> seq 0 (S NDIRECT)) = d_addrs x) as Ea.
    { apply list_eq. intros i. rewrite list_lookup_fmap. destruct (d_addrs x !! i) as [a|] eqn:Ei.
      - rewrite lookup_seq_lt by (rewrite <- H9; by eapply lookup_lt_Some).
        cbn [fmap option_fmap option_map]. f_equal. rewrite Nat.add_0_l, (Hw i a Ei).
        apply u32_small. by eapply Forall_lookup_1.
      - rewrite lookup_seq_ge by (rewrite <- H9; by apply lookup_ge_None). done. }
    fold d0. rewrite Ea, !i16_mod by done. change (2 ^ (8 * Z.of_nat 4)) with (2 ^ 32). change (2 ^ (8 * Z.of_nat 2)) with (2 ^ 16).
    rewrite !Z.mod_small by (unfold is_u32 in *; lia). by destruct x.
  - intros off n Hd. rewrite Hoth by lia. unfold d0. by get_put L.
Qed.

(** ** Inodes on disk *)

Definition disk_inode (d : Z) (s : fsst) (n : Z) : dinode := decode_dinode (ioff n) (blk s d (IBLOCK n (sb s))).

Lemma IBLOCK_range b n : SbOk b → 0 ≤ n < sb_ninodes b → 2 ≤ IBLOCK n b < sb_bmapstart b.
Proof.
  intros [_ H1 _ H2 _] Hn. unfold IBLOCK. change (Z.of_nat IPB) with 8 in *.
  assert (0 ≤ n / 8 ≤ sb_ninodes b / 8); [|lia]. split; [apply Z.div_pos; lia|apply Z.div_le_mono; lia].
Qed.

Lemma ioff_range n : (ioff n + sizeof_dinode ≤ BSIZE)%nat.
Proof.
  unfold ioff. change (Z.of_nat IPB) with 8. change BSIZE with (8 * sizeof_dinode)%nat.
  pose proof (Z.mod_pos_bound n 8). unfold sizeof_dinode. lia.
Qed.

Lemma ioff_ne b n m : IBLOCK n b = IBLOCK m b → n ≠ m → (ioff n + sizeof_dinode ≤ ioff m ∨ ioff m + sizeof_dinode ≤ ioff n)%nat.
Proof. unfold IBLOCK, ioff, sizeof_dinode. change (Z.of_nat IPB) with 8. intros. zlia. Qed.

Lemma decode_dinode_ext o d d' :
  (∀ off n, (o ≤ off)%nat → (off + n ≤ o + sizeof_dinode)%nat → get_le off n d = get_le off n d') →
  decode_dinode o d = decode_dinode o d'.
Proof.
  unfold sizeof_dinode. intros E. unfold decode_dinode. rewrite !E by lia. f_equal.
  apply list_fmap_ext. intros k i Hi%lookup_seq. unfold NDIRECT in Hi. apply E; lia.
Qed.

(** The state after [iupdate] of an inode that holds [x]. *)
Definition updated (d : Z) (x : inode) (s : fsst) : fsst :=
  stored d (IBLOCK (i_inum x) (sb s)) (encode_dinode (ioff (i_inum x)) (dinode_of x) (blk s d (IBLOCK (i_inum x) (sb s)))) s.

Section Disk.
Context (d : Z) (ok : string → Prop).

Lemma iupdate_spec s i x :
  FInv d s → icache s !! i = Some x → i_dev x = d → 0 ≤ i_inum x < sb_ninodes (sb s) → (ok TOO_BIG ∨ log_room 1 s) →
  wpp ok (iupdate i) s (λ _ s', s' = updated d x s).
Proof.
  intros HF Hx Hd Hn Hlog. destruct (HF) as [HS Hc Hl Hm Hi Ht]. pose proof (IBLOCK_range _ _ HS Hn). pose proof (so_bounds _ HS).
  unfold iupdate, geti. wp_steps. eapply wpp_lookupM; [done|]. wp_steps. rewrite Hd.
  apply wpp_get_block; [unfold FSSIZE; lia|]. by apply wpp_put_block.
Qed.

Lemma encode_len s x : FInv d s → DinodeOk (dinode_of x) →
  length (encode_dinode (ioff (i_inum x)) (dinode_of x) (blk s d (IBLOCK (i_inum x) (sb s)))) = BSIZE.
Proof. intros HF Hx. apply (dinode_roundtrip BSIZE); [apply HF|apply ioff_range|done]. Qed.

Lemma disk_inode_updated s x n :
  FInv d s → DinodeOk (dinode_of x) →
  disk_inode d (updated d x s) n = if decide (n = i_inum x) then dinode_of x else disk_inode d s n.
Proof.
  intros HF Hx. destruct (dinode_roundtrip BSIZE (ioff (i_inum x)) (dinode_of x) (blk s d (IBLOCK (i_inum x) (sb s))))
    as (Hr & _ & Ho); [apply HF|apply ioff_range|done|].
  unfold disk_inode, updated. rewrite blk_stored. cbn [sb stored].
  destruct (decide (n = i_inum x)) as [->|Hne]; [by rewrite decide_True|].
  destruct (decide (IBLOCK n (sb s) = IBLOCK (i_inum x) (sb s))) as [E|]; [|done].
  rewrite E. apply decode_dinode_ext. intros off k H1 H2. apply Ho.
  destruct (ioff_ne _ _ _ E Hne); lia.
Qed.

Lemma FInv_updated s x :
  FInv d s → DinodeOk (dinode_of x) → 0 ≤ i_inum x < sb_ninodes (sb s) → FInv d (updated d x s).
Proof.
  intros HF Hx Hn. pose proof (IBLOCK_range _ _ (fi_sb _ _ HF) Hn).
  apply FInv_stored; [done|by apply encode_len|lia|lia].
Qed.

Lemma ilock_spec s j y :
  FInv d s → icache s !! j = Some y → i_dev y = d → 0 ≤ i_inum y < sb_ninodes (sb s) →
  1 ≤ i_ref y → i_busy y = false → (i_valid y = false → d_type (disk_inode d s (i_inum y)) ≠ 0) →
  wp (ilock j) s (λ _ s', s' = set_icache (<[j :=
    if i_valid y then set_i_flags true true y
    else set_i_flags true true (load_dinode (disk_inode d s (i_inum y)) y)]> (icache s)) s).
Proof.
  intros HF Hy Hd Hn Hr Hb Ht. pose proof (IBLOCK_range _ _ (fi_sb _ _ HF) Hn). pose proof (so_bounds _ (fi_sb _ _ HF)).
  assert (j < length (icache s))%nat as Hj by by eapply lookup_lt_Some.
  unfold ilock, geti, seti. wp_steps. eapply wp_lookupM; [done|]. rewrite decide_False by lia. rewrite Hb. wp_steps.
  eapply wp_lookupM; [done|]. wp_steps. destruct (i_valid y); wp_steps; [done|]. specialize (Ht eq_refl).
  cbn [sb set_icache]. unfold get_block. rewrite decide_False by (unfold FSSIZE; lia). wp_steps.
  unfold geti. cbn [icache set_icache blk]. rewrite Hd.
  eapply wp_lookupM; [by apply list_lookup_insert_eq|]. wp_steps. cbn [icache set_icache]. rewrite list_insert_insert_eq.
  eapply wp_lookupM; [by apply list_lookup_insert_eq|]. wp_steps. cbn [icache set_icache]. rewrite list_insert_insert_eq.
  eapply wp_lookupM; [by apply list_lookup_insert_eq|].
  rewrite decide_False by done. by wp_steps.
Qed.
End Disk.

(** ** The inode cache *)

(** The routine, where it returns, leaves [f] of the state as it was. *)
Definition keeps {A B} (f : fsst → B) (m : M fsst A) : Prop := ∀ s a s', m s = Ret a s' → f s' = f s.

Section Keeps.
Context {B : Type} (f : fsst → B).

Lemma keeps_ret {A} (a : A) : keeps f (mret a).
Proof. intros s a' s' E. by injection E as <- <-. Qed.
Lemma keeps_bind {A C} (m : M fsst A) (k : A → M fsst C) : keeps f m → (∀ a, keeps f (k a)) → keeps f (m ≫= k).
Proof.
  intros Hm Hk s a s' E. unfold mbind, M_bind in E. destruct (m s) as [a1 s1| | |] eqn:E1; try done.
  by rewrite (Hk _ _ _ _ E), (Hm _ _ _ E1).
Qed.
Lemma keeps_gets {A} (g : fsst → A) : keeps f (gets g).
Proof. intros s a' s' E. by injection E as <- <-. Qed.
Lemma keeps_modify (g : fsst → fsst) : (∀ s, f (g s) = f s) → keeps f (modify g).
Proof. intros Hg s a' s' E. by injection E as <- <-. Qed.
Lemma keeps_lookupM {A} (g : fsst → option A) : keeps f (lookupM g).
Proof. intros s a' s' E. unfold lookupM in E. destruct (g s); by simplify_eq. Qed.
Lemma keeps_panic {A} msg : keeps f (panic (A := A) msg).
Proof. by intros s a' s' E. Qed.
Lemma keeps_diverge {A} : keeps f (diverge (A := A)).
Proof. by intros s a' s' E. Qed.
Lemma keeps_geti i : keeps f (geti i).
Proof. apply keeps_lookupM. Qed.
End Keeps.

Create HintDb keeps.
#[export] Hint Resolve keeps_ret keeps_gets keeps_lookupM keeps_panic keeps_diverge keeps_geti : keeps.
Ltac keep := repeat first
  [ progress (eauto 1 with keeps)
  | match goal with |- keeps _ (_ ≫= _) => apply keeps_bind; [|intros ?] end
  | match goal with |- keeps _ (if ?b then _ else _) => destruct b end ].

(** What identifies an entry, and who holds it. *)
Definition ident (x : inode) : Z * Z := (i_dev x, i_inum x).
Definition holding (s : fsst) : list (Z * Z * Z) := (λ x, (ident x, i_ref x)) <$> icache s.

Lemma keeps_seti i g : (∀ x, ident (g x) = ident x ∧ i_ref (g x) = i_ref x) → keeps holding (seti i g).
Proof.
  intros Hg s a s' E. unfold seti, geti, mbind, M_bind, lookupM in E.
  destruct (icache s !! i) as [x|] eqn:Ex; [|done]. injection E as <- <-.
  unfold holding. cbn [icache set_icache]. rewrite list_fmap_insert. apply list_insert_id.
  rewrite list_lookup_fmap, Ex. cbn. by destruct (Hg x) as [-> ->].
Qed.

Lemma keeps_get_block d n : keeps holding (get_block d n).
Proof. unfold get_block. keep. Qed.
Lemma keeps_put_block d n v : keeps holding (put_block d n v).
Proof. unfold put_block. keep; by apply keeps_modify. Qed.
#[export] Hint Resolve keeps_get_block keeps_put_block : keeps.
Lemma keeps_bfree d b : keeps holding (bfree d b).
Proof. unfold bfree, readsb. keep; by apply keeps_modify. Qed.
Lemma keeps_iupdate i : keeps holding (iupdate i).
Proof. unfold iupdate. keep. Qed.
#[export] Hint Resolve keeps_bfree keeps_iupdate : keeps.

Lemma keeps_itrunc_direct i ks : keeps holding (itrunc_direct i ks).
Proof. induction ks; cbn [itrunc_direct]; keep; by apply keeps_seti. Qed.
Lemma keeps_itrunc_indirect d v js : keeps holding (itrunc_indirect d v js).
Proof. induction js; cbn [itrunc_indirect]; keep. Qed.
#[export] Hint Resolve keeps_itrunc_direct keeps_itrunc_indirect : keeps.
Lemma keeps_itrunc i : keeps holding (itrunc i).
Proof. unfold itrunc. keep; by apply keeps_seti. Qed.
Lemma keeps_ilock i : keeps holding (ilock i).
Proof. unfold ilock. keep; by apply keeps_seti. Qed.
Lemma keeps_iunlock i : keeps holding (iunlock i).
Proof. unfold iunlock. keep; by apply keeps_seti. Qed.
#[export] Hint Resolve keeps_itrunc : keeps.

(** What [iput] does to the references. *)
Lemma iput_holding i s s' :
  iput i s = Ret tt s' → ∃ x, icache s !! i = Some x ∧ holding s' = <[i := (ident x, i_ref x - 1)]> (holding s).
Proof.
  unfold iput. intros E. unfold mbind at 1, M_bind at 1 in E. unfold geti, lookupM in E.
  destruct (icache s !! i) as [x|] eqn:Ex; [|done]. exists x. split; [done|].
  match type of E with (?m ≫= _) _ = _ => assert (keeps holding m) as Hk end.
  { keep; by apply keeps_seti. }
  unfold mbind at 1, M_bind at 1 in E.
  match type of E with (match ?m with _ => _ end) = _ => destruct m as [[] s1| | |] eqn:E1; try done end.
  apply Hk in E1. unfold seti, geti, mbind, M_bind, lookupM in E.
  destruct (icache s1 !! i) as [y|] eqn:Ey; [|done]. injection E as <-.
  rewrite <- E1. unfold holding. cbn [icache set_icache]. rewrite list_fmap_insert. f_equal.
  assert (holding s1 !! i = holding s !! i) as Eh by congruence.
  unfold holding in Eh. rewrite !list_lookup_fmap, Ex, Ey in Eh. injection Eh as E2 E3 E4. unfold ident. cbn. by rewrite E2, E3, E4.
Qed.

Lemma iget_scan_spec d n l : ∀ k0 e,
  match iget_scan l k0 d n e with
  | (Some k, _) => ∃ j x, k = (k0 + j)%nat ∧ l !! j = Some x ∧ 0 < i_ref x ∧ ident x = (d, n)
  | (None, e') =>
      Forall (λ x, ¬ (0 < i_ref x ∧ ident x = (d, n))) l ∧
      match e' with
      | Some k => e = Some k ∨ ∃ j x, k = (k0 + j)%nat ∧ l !! j = Some x ∧ i_ref x = 0
      | None => e = None ∧ Forall (λ x, i_ref x ≠ 0) l
      end
  end.
Proof.
  unfold ident. induction l as [|x l IH]; intros k0 e; cbn [iget_scan].
  { split; [by constructor|]. destruct e; [by left|by split; [|constructor]]. }
  case_decide as Hx.
  { exists 0%nat, x. split; [lia|]. destruct Hx as (? & -> & ->). done. }
  set (e0 := match e with None => _ | Some _ => _ end). specialize (IH (S k0) e0).
  destruct (iget_scan l (S k0) d n e0) as [[k|] e'].
  - destruct IH as (j & y & -> & Hy). exists (S j), y. split; [lia|done].
  - destruct IH as [IH1 IH2]. split; [constructor; [|done]; intros [? [= <- <-]]; by apply Hx|].
    destruct e' as [k|].
    + destruct IH2 as [E|(j & y & -> & Hy)].
      * unfold e0 in E. destruct e as [k'|]; [by left|]. right. case_decide; [|done]. injection E as <-. exists 0%nat, x. split; [lia|done].
      * right. exists (S j), y. split; [lia|done].
    + destruct IH2 as [E IH2]. unfold e0 in E. destruct e; [done|]. case_decide; [done|]. by split; [|constructor].
Qed.

(** [H] lists the pointers to entries of the cache that are held, with
    repetition: the counts are exact, and no inode has two live entries. *)
Definition count (i : nat) (H : list nat) : Z := Z.of_nat (length (filter (λ j, j = i) H)).
Record RInv (h : list (Z * Z * Z)) (H : list nat) : Prop := {
  r_len : length h = NINODE;
  r_in : Forall (λ i, (i < NINODE)%nat) H;
  r_ref i p r : h !! i = Some (p, r) → r = count i H;
  r_one i j p r r' : h !! i = Some (p, r) → h !! j = Some (p, r') → 0 < r → 0 < r' → i = j
}.

Lemma count_cons i j H : count i (j :: H) = (if decide (j = i) then 1 else 0) + count i H.
Proof. unfold count. rewrite filter_cons. case_decide; cbn [length]; lia. Qed.
Lemma count_elem i H : 0 < count i H ↔ i ∈ H.
Proof.
  induction H as [|j H IH]; [split; [done|by intros ?%not_elem_of_nil]|].
  rewrite count_cons, elem_of_cons, <- IH. unfold count. case_decide; split; intros; lia.
Qed.
Lemma count_perm i H H' : H ≡ₚ H' → count i H = count i H'.
Proof. unfold count. by intros ->. Qed.

(** An entry changes hands: its new count is right, and it is live under an
    identity that no other live entry has. *)
Lemma RInv_insert h H H' i p r :
  RInv h H → (i < NINODE)%nat → Forall (λ i, (i < NINODE)%nat) H' →
  r = count i H' → (∀ j, j ≠ i → count j H' = count j H) →
  (0 < r → ∀ j r', j ≠ i → h !! j = Some (p, r') → ¬ 0 < r') →
  RInv (<[i := (p, r)]> h) H'.
Proof.
  intros [Hl Hin Hr Ho] Hi Hin' Er Hc Hu. split; [by rewrite length_insert|done| |].
  - intros j q r' Hj. destruct (decide (j = i)) as [->|].
    + rewrite list_lookup_insert_eq in Hj by lia. by injection Hj as _ <-.
    + rewrite list_lookup_insert_ne in Hj by done. rewrite Hc by done. by eapply Hr.
  - intros j k q r1 r2 Hj Hk H1 H2.
    destruct (decide (j = i)) as [->|]; destruct (decide (k = i)) as [->|]; [done| | |].
    + rewrite list_lookup_insert_eq in Hj by lia. rewrite list_lookup_insert_ne in Hk by done. injection Hj as -> ->. by destruct (Hu H1 k r2).
    + rewrite list_lookup_insert_eq in Hk by lia. rewrite list_lookup_insert_ne in Hj by done. injection Hk as -> ->. by destruct (Hu H2 j r1).
    + rewrite list_lookup_insert_ne in Hj, Hk by done. by eapply Ho.
Qed.

(** The holders of references at work. *)
Inductive hstep : fsst * list nat → fsst * list nat → Prop :=
  | h_iget d n k s s' H : iget d n s = Ret k s' → hstep (s, H) (s', k :: H)
  | h_idup i k s s' H : i ∈ H → idup i s = Ret k s' → hstep (s, H) (s', k :: H)
  | h_iput i s s' H H' : H ≡ₚ i :: H' → iput i s = Ret tt s' → hstep (s, H) (s', H')
  | h_ilock i s s' H : i ∈ H → ilock i s = Ret tt s' → hstep (s, H) (s', H)
  | h_iunlock i s s' H : i ∈ H → iunlock i s = Ret tt s' → hstep (s, H) (s', H)
  | h_iupdate i s s' H : i ∈ H → iupdate i s = Ret tt s' → hstep (s, H) (s', H).

Lemma lookup_holding s i x : icache s !! i = Some x → holding s !! i = Some (ident x, i_ref x).
Proof. intros E. unfold holding. by rewrite list_lookup_fmap, E. Qed.
Lemma holding_lookup s i p r : holding s !! i = Some (p, r) → ∃ x, icache s !! i = Some x ∧ ident x = p ∧ i_ref x = r.
Proof. unfold holding. rewrite list_lookup_fmap. destruct (icache s !! i) as [x|]; [|done]. cbn. intros [= <- <-]. by exists x. Qed.

Lemma seti_Ret i g s x : icache s !! i = Some x → seti i g s = Ret tt (set_icache (<[i := g x]> (icache s)) s).
Proof. intros E. unfold seti, geti, mbind, M_bind, lookupM. by rewrite E. Qed.
Lemma holding_seti i x s : holding (set_icache (<[i := x]> (icache s)) s) = <[i := (ident x, i_ref x)]> (holding s).
Proof. unfold holding. cbn [icache set_icache]. by rewrite list_fmap_insert. Qed.

Lemma iget_eq d n s :
  iget d n s = match iget_scan (icache s) 0 d n None with
    | (Some k, _) => (seti k (λ x, set_i_ref (i_ref x + 1) x);; mret k) s
    | (None, None) => Panic "iget: no inodes"
    | (None, Some k) =>
        (seti k (λ x, mkInode d n 1 false false (i_type x) (i_major x) (i_minor x) (i_nlink x)
                       DEFUID DEFGID DEFMODE (i_size x) (i_addrs x));; mret k) s
    end.
Proof. unfold iget, gets, mbind, M_bind. by destruct (iget_scan (icache s) 0 d n None) as [[] []]. Qed.

(** [iget] on a consistent cache: it finds the inode's entry or takes a free
    one, and panics only if every entry is in use. *)
Lemma iget_spec d n s H :
  RInv (holding s) H →
  (iget d n s = Panic "iget: no inodes" ∧ (∀ i, (i < NINODE)%nat → i ∈ H)) ∨
  (∃ k s' x, iget d n s = Ret k s' ∧ icache s !! k = Some x ∧
    (∀ j r, j ≠ k → holding s !! j = Some ((d, n), r) → ¬ 0 < r) ∧
    (k ∈ H → ident x = (d, n)) ∧
    s' = set_icache (<[k := if decide (k ∈ H) then set_i_ref (i_ref x + 1) x
       else mkInode d n 1 false false (i_type x) (i_major x) (i_minor x) (i_nlink x) DEFUID DEFGID DEFMODE (i_size x) (i_addrs x)]> (icache s)) s).
Proof.
  intros HR. destruct (HR) as [Hl Hin Hr Ho]. pose proof (iget_scan_spec d n (icache s) 0 None) as Hs.
  rewrite iget_eq. destruct (iget_scan (icache s) 0 d n None) as [[k|] [e|]]; cbn [Nat.add] in Hs.
  1,2: destruct Hs as (j & x & -> & Hx & Hp & Hid); right; exists j; eexists; exists x;
    unfold mbind, M_bind; rewrite (seti_Ret _ _ _ x) by done; pose proof (Hr _ _ _ (lookup_holding _ _ _ Hx)) as Hc;
    (split; [done|]); (split; [done|]); (split; [|split; [done|]]);
    [ intros i r Hne Hi Hpos; apply Hne; apply (Ho i j (d, n) r (i_ref x)); [done|rewrite <- Hid; by apply lookup_holding|done|done]
    | rewrite decide_True by (apply count_elem; lia); done ].
  - destruct Hs as [Hno [?|(j & x & -> & Hx & H0)]]; [done|]. right. exists j. eexists. exists x.
    unfold mbind, M_bind. rewrite (seti_Ret _ _ _ x) by done. pose proof (Hr _ _ _ (lookup_holding _ _ _ Hx)) as Hc.
    assert (j ∉ H) as Hj by (intros Hj%count_elem; lia).
    split; [done|]. split; [done|]. split; [|split; [done|by rewrite decide_False]].
    intros i r Hne Hi Hpos. apply holding_lookup in Hi as (y & Hy & Ey & <-).
    by apply (Forall_lookup_1 _ _ _ _ Hno Hy).
  - destruct Hs as [_ [_ Hall]]. left. split; [done|]. intros i Hi.
    destruct (lookup_lt_is_Some_2 (icache s) i) as [x Hx]; [unfold holding in Hl; rewrite length_fmap in Hl; lia|].
    apply count_elem. pose proof (Hr _ _ _ (lookup_holding _ _ _ Hx)) as Hc. pose proof (Forall_lookup_1 _ _ _ _ Hall Hx) as Hne. cbn beta in Hne.
    unfold count in *. lia.
Qed.

Lemma hstep_RInv s H s' H' : RInv (holding s) H → hstep (s, H) (s', H') → RInv (holding s') H'.
Proof.
  intros HR Hst. destruct (HR) as [Hl Hin Hr Ho]. inversion Hst as [d n k ? ? ? E|i k ? ? ? Hi E|i ? ? ? ? Hp E|i ? ? ? Hi E|i ? ? ? Hi E|i ? ? ? Hi E]; subst.
  - destruct (iget_spec d n s H HR) as [[E' _]|(k' & s1 & x & E' & Hx & Hu & Hid & ->)]; [congruence|].
    rewrite E in E'. injection E' as <- ->. assert (k < NINODE)%nat as Hk by (rewrite <- Hl; eapply lookup_lt_Some, lookup_holding, Hx).
    pose proof (Hr _ _ _ (lookup_holding _ _ _ Hx)) as Hc. rewrite holding_seti.
    case_decide as Hin'; cbn [ident i_ref i_dev i_inum set_i_ref].
    + apply (RInv_insert _ H); [done|done|by constructor|rewrite count_cons, decide_True by done; lia| |].
      * intros j Hj. rewrite count_cons, decide_False by done. lia.
      * intros _ j r' Hj Hj'. apply (Hu j r' Hj). by rewrite Hj', <- (Hid Hin').
    + apply (RInv_insert _ H); [done|done|by constructor| | |by intros _].
      * rewrite count_cons, decide_True by done. pose proof (count_elem k H). unfold count in *. destruct (decide (0 < Z.of_nat (length (filter (λ j, j = k) H)))); [tauto|lia].
      * intros j Hj. rewrite count_cons, decide_False by done. lia.
  - assert (i < NINODE)%nat as Hk by (by eapply Forall_forall in Hin).
    destruct (lookup_lt_is_Some_2 (icache s) i) as [x Hx]; [unfold holding in Hl; rewrite length_fmap in Hl; lia|].
    unfold idup, mbind, M_bind in E. rewrite (seti_Ret _ _ _ x) in E by done. injection E as <- <-. rewrite holding_seti.
    pose proof (Hr _ _ _ (lookup_holding _ _ _ Hx)) as Hc. pose proof (proj2 (count_elem i H) Hi) as Hpos.
    apply (RInv_insert _ H); [done|done|by constructor|rewrite count_cons, decide_True by done; cbn; lia| |].
    + intros j Hj. rewrite count_cons, decide_False by done. lia.
    + intros _ j r' Hj Hj' Hp. apply Hj. eapply Ho; [exact Hj'|exact (lookup_holding _ _ _ Hx)|done|lia].
  - apply iput_holding in E as (x & Hx & ->). pose proof (Hr _ _ _ (lookup_holding _ _ _ Hx)) as Hc.
    rewrite (count_perm _ _ _ Hp), count_cons, decide_True in Hc by done.
    rewrite Hp, Forall_cons in Hin. destruct Hin as [Hi Hin].
    apply (RInv_insert _ H); [done|done|done|lia| |].
    + intros j Hj. rewrite (count_perm _ _ _ Hp), count_cons, decide_False by done. lia.
    + intros Hpos j r' Hj Hj' Hp'. apply Hj. eapply Ho; [exact Hj'|exact (lookup_holding _ _ _ Hx)|done|lia].
  - by rewrite (keeps_ilock _ _ _ _ E).
  - by rewrite (keeps_iunlock _ _ _ _ E).
  - by rewrite (keeps_iupdate _ _ _ _ E).
Qed.

(** A held entry is never recycled. *)
Lemma hstep_ident s H s' H' i x :
  RInv (holding s) H → hstep (s, H) (s', H') → i ∈ H → icache s !! i = Some x → ∃ x', icache s' !! i = Some x' ∧ ident x' = ident x.
Proof.
  intros HR Hst Hi Hx.
  assert (∀ j y r, icache s !! j = Some y → (j = i → ident y = ident x) → holding s' = <[j := (ident y, r)]> (holding s) →
    ∃ x', icache s' !! i = Some x' ∧ ident x' = ident x) as Hone.
  { intros j y r Hj Hy E. assert (∃ p, holding s' !! i = Some (ident x, p)) as [p Hp].
    - rewrite E. destruct (decide (j = i)) as [->|]; [|rewrite list_lookup_insert_ne by done; eauto using lookup_holding].
      rewrite list_lookup_insert_eq by (eapply lookup_lt_Some, lookup_holding, Hx). rewrite (Hy eq_refl). by eexists.
    - apply holding_lookup in Hp as (x' & Hx' & Ex & _). by exists x'. }
  assert (holding s' = holding s → ∃ x', icache s' !! i = Some x' ∧ ident x' = ident x) as Hsame.
  { intros E. apply (Hone i x (i_ref x) Hx); [done|]. rewrite E. symmetry. apply list_insert_id. by apply lookup_holding. }
  inversion Hst as [d n k ? ? ? E|j k ? ? ? Hj E|j ? ? ? ? Hp E|j ? ? ? Hj E|j ? ? ? Hj E|j ? ? ? Hj E]; subst.
  - destruct (iget_spec d n s H HR) as [[E' _]|(k' & s1 & y & E' & Hy & Hu & Hid & ->)]; [congruence|].
    rewrite E in E'. injection E' as <- ->. destruct (decide (k = i)) as [->|Hne].
    + eexists. rewrite decide_True by done. cbn [icache set_icache]. split; [apply list_lookup_insert_eq; by eapply lookup_lt_Some|].
      rewrite Hx in Hy. by injection Hy as ->.
    + exists x. cbn [icache set_icache]. by rewrite list_lookup_insert_ne.
  - unfold idup, mbind, M_bind in E. destruct (icache s !! j) as [y|] eqn:Hy; [|by unfold seti, geti, mbind, M_bind, lookupM in E; rewrite Hy in E].
    rewrite (seti_Ret _ _ _ y) in E by done. injection E as <- <-. apply (Hone j y (i_ref y + 1)); [done|congruence|by rewrite holding_seti].
  - apply iput_holding in E as (y & Hy & E). eapply (Hone j y); [done|congruence|done].
  - apply Hsame. by apply keeps_ilock in E.
  - apply Hsame. by apply keeps_iunlock in E.
  - apply Hsame. by apply keeps_iupdate in E.
Qed.

Lemma hsteps_RInv s0 s H :
  length (icache s0) = NINODE → Forall (λ x, i_ref x = 0) (icache s0) → rtc hstep (s0, []) (s, H) → RInv (holding s) H.
Proof.
  intros Hl H0 Hr. refine (rtc_ind_r (R := hstep) (λ p, RInv (holding p.1) p.2) (s0, []) _ _ (s, H) Hr).
  - split; [unfold holding; by rewrite length_fmap|by constructor| |];
    intros i; intros; (match goal with E : holding _ !! i = Some _ |- _ => apply holding_lookup in E as (x & Hx & _ & <-) end);
    pose proof (Forall_lookup_1 _ _ _ _ H0 Hx) as E; cbn beta in E; [done|lia].
  - intros [s1 H1] [s2 H2] _ Hst IH. by eapply hstep_RInv.
Qed.

(** C32: However references to inodes are taken, copied and dropped, the
    reference count of a cache entry is the number of pointers held to it; two
    pointers to the same inode are to the same entry; an entry that someone
    points to keeps its inode through every step; and [iget] gives an entry
    for the inode it is asked for, unless all NINODE entries are in use. *)
Theorem icache_references (s0 s : fsst) (H : list nat) :
  length (icache s0) = NINODE → Forall (λ x, i_ref x = 0) (icache s0) → rtc hstep (s0, []) (s, H) →
  (∀ i x, icache s !! i = Some x → i_ref x = count i H) ∧
  (∀ i j x y, i ∈ H → j ∈ H → icache s !! i = Some x → icache s !! j = Some y → ident x = ident y → i = j) ∧
  (∀ s' H' i x, hstep (s, H) (s', H') → i ∈ H → icache s !! i = Some x → ∃ x', icache s' !! i = Some x' ∧ ident x' = ident x) ∧
  (∀ d n, (iget d n s = Panic "iget: no inodes" ∧ ∀ i, (i < NINODE)%nat → i ∈ H) ∨
     ∃ k s' x, iget d n s = Ret k s' ∧ icache s' !! k = Some x ∧ ident x = (d, n)).
Proof.
  intros Hl H0 Hr. assert (RInv (holding s) H) as HR by by eapply hsteps_RInv. destruct (HR) as [Hl' Hin Href Hone].
  split_and!.
  - intros i x Hx. eapply Href, lookup_holding, Hx.
  - intros i j x y Hi Hj Hx Hy E. pose proof (lookup_holding _ _ _ Hx) as Ex. pose proof (lookup_holding _ _ _ Hy) as Ey. rewrite E in Ex.
    apply (Hone i j _ _ _ Ex Ey); [rewrite (Href _ _ _ Ex)|rewrite (Href _ _ _ Ey)]; by apply count_elem.
  - intros s' H' i x. by apply hstep_ident.
  - intros d n. destruct (iget_spec d n s H HR) as [?|(k & s' & x & E & Hx & _ & Hid & ->)]; [by left|right].
    eexists k, _, _. split; [done|]. cbn [icache set_icache]. split; [apply list_lookup_insert_eq; by eapply lookup_lt_Some|].
    case_decide; [by apply Hid|done].
Qed.

Definition after {A} (m : M fsst A) (s : fsst) : fsst := match m s with Ret _ s' => s' | _ => s end.
Definition fs1 : fsst := after (iget 1 7) fs0.
Definition fs2 : fsst := after (iget 1 5) fs1.
Definition fs3 : fsst := after (iput 0) fs2.
Definition fs4 : fsst := after (iget 1 6) fs3.
Definition fs5 : fsst := after (idup 0) fs4.

Lemma icache_references_witness : rtc hstep (fs0, []) (fs5, [0; 0; 1]%nat) ∧ ∀ x, icache fs5 !! 0%nat = Some x → i_ref x = 2.
Proof.
  assert (rtc hstep (fs0, []) (fs5, [0; 0; 1]%nat)) as Hr.
  { eapply rtc_l; [apply (h_iget 1 7 0 fs0 fs1); by vm_compute|].
    eapply rtc_l; [apply (h_iget 1 5 1 fs1 fs2); by vm_compute|].
    eapply rtc_l; [apply (h_iput 0 fs2 fs3 _ [1%nat]); [apply Permutation_swap|by vm_compute]|].
    eapply rtc_l; [apply (h_iget 1 6 0 fs3 fs4); by vm_compute|].
    eapply rtc_l; [apply (h_idup 0 0 fs4 fs5); [by left|by vm_compute]|]. apply rtc_refl. }
  split; [exact Hr|]. intros x Hx.
  destruct (icache_references fs0 fs5 [0; 0; 1]%nat) as (Hc & _); [done|by apply Forall_replicate|done|].
  exact (Hc _ _ Hx).
Defined.

(** C33: What [iupdate] writes of an inode is what [ilock] loads, for every
    entry of the cache that names that inode, whatever else happened to the
    cache; the other inodes on the disk keep their contents. *)
Theorem iupdate_ilock (d : Z) (s : fsst) (i : nat) (x : inode) :
  FInv d s → log_room 1 s → icache s !! i = Some x → i_dev x = d → 0 ≤ i_inum x < sb_ninodes (sb s) →
  DinodeOk (dinode_of x) → i_type x ≠ 0 →
  ∃ s1, iupdate i s = Ret tt s1 ∧ FInv d s1 ∧ icache s1 = icache s ∧
    (∀ n, n ≠ i_inum x → disk_inode d s1 n = disk_inode d s n) ∧
    ∀ j y cache', length cache' = NINODE → cache' !! j = Some y → ident y = ident x → 1 ≤ i_ref y → i_busy y = false → i_valid y = false →
      ∃ s2 z, ilock j (set_icache cache' s1) = Ret tt s2 ∧ icache s2 !! j = Some z ∧
        i_busy z = true ∧ i_valid z = true ∧ ident z = ident x ∧ i_ref z = i_ref y ∧ dinode_of z = dinode_of x.
Proof.
  intros HF Hlog Hx Hd Hn Hok Ht. pose proof (iupdate_spec d (λ _, False) s i x HF Hx Hd Hn (or_intror Hlog)) as Hw.
  unfold wpp in Hw. destruct (iupdate i s) as [[] s1| | |]; try done. subst s1.
  exists (updated d x s). split; [done|]. split; [by apply FInv_updated|]. split; [done|]. split.
  { intros n Hne. rewrite disk_inode_updated by done. by rewrite decide_False. }
  intros j y cache' Hl Hy Hid Hr Hb Hv. injection Hid as Ed Ei.
  assert (FInv d (set_icache cache' (updated d x s))) as HF'.
  { destruct (FInv_updated d s x HF Hok Hn) as [? ? ? ? ? ?]. by split. }
  assert (disk_inode d (set_icache cache' (updated d x s)) (i_inum y) = dinode_of x) as Ed'.
  { rewrite Ei. transitivity (disk_inode d (updated d x s) (i_inum x)); [done|]. rewrite disk_inode_updated by done. by rewrite decide_True. }
  destruct (wp_inv _ _ _ (ilock_spec d (set_icache cache' (updated d x s)) j y HF' Hy ltac:(congruence) ltac:(rewrite Ei; exact Hn) Hr Hb ltac:(by rewrite Ed')))
    as ([] & s2 & E & ->). rewrite Hv, Ed' in *.
  eexists _, _. split; [done|]. cbn [icache set_icache]. split; [apply list_lookup_insert_eq; by eapply lookup_lt_Some|].
  unfold ident. cbn. by rewrite Ed, Ei.
Qed.

Definition inode7 : inode := mkInode 1 7 1 true true T_FILE 0 0 1 0 0 493 0 (replicate (S NDIRECT) 0).
Definition fs7 : fsst := set_icache (<[3%nat := inode7]> (icache fs0)) fs0.
Lemma fs7_FInv : FInv 1 fs7.
Proof. destruct fs0_FInv as [H1 H2 H3 H4 H5 H6]. split; [exact H1|exact H2|exact H3|exact H4|reflexivity|exact H6]. Qed.

Lemma inode7_ok : DinodeOk (dinode_of inode7).
Proof. split; cbn [dinode_of inode7 d_type d_major d_minor d_nlink d_uid d_gid d_mode d_size d_addrs i_type i_major i_minor i_nlink i_uid i_gid i_mode i_size i_addrs]; unfold T_FILE, is_u32; [lia..|reflexivity|]. apply Forall_replicate. lia. Qed.

Lemma iupdate_ilock_witness : ∃ s1, iupdate 3 fs7 = Ret tt s1 ∧ disk_inode 1 s1 6 = disk_inode 1 fs7 6.
Proof.
  destruct (iupdate_ilock 1 fs7 3 inode7 fs7_FInv) as (s1 & E & _ & _ & Ho & _);
    [split; by vm_compute|reflexivity|reflexivity|by vm_compute|exact inode7_ok|discriminate|].
  exists s1. exact (conj E (Ho 6 ltac:(discriminate))).
Defined.
