(* ===== verification/FsFile.v ===== *)
(** * File contents (fs.c: bmap, readi, writei)

    A file is an array of bytes: the inode's direct addresses and its indirect
    block map each block of the file to a block of the disk, a missing one
    reading as zeros.  [bmap] adds blocks without changing that array, [readi]
    reads a range of it and [writei] replaces a range; neither touches a block
    that another file uses. *)

From S2P Require Import Prelude CString Layout Fs FsBlocks FsInode.

Local Open Scope Z_scope.

Lemma u32_wraps a b : is_u32 a → is_u32 b → u32 (a + b) < a ↔ 2 ^ 32 ≤ a + b.
Proof.
  unfold is_u32, u32. intros Ha Hb. destruct (decide (a + b < 2 ^ 32)).
  - rewrite Z.mod_small by lia. lia.
  - rewrite <- (Z.mod_unique (a + b) (2 ^ 32) 1 (a + b - 2 ^ 32)) by lia. lia.
Qed.

Section File.
Context (d : Z).

(** ** The blocks of a file *)

(** Slots 0 to MAXFILE - 1 are the blocks of the file, slot MAXFILE is the
    indirect block; 0 stands for no block. *)
Definition slot (s : fsst) (x : inode) (k : nat) : Z :=
  if decide (k < NDIRECT)%nat then i_addrs x !!! k
  else
    let ind := i_addrs x !!! NDIRECT in
    if decide (k = MAXFILE) then ind
    else if decide (ind = 0) then 0 else get_le (4 * (k - NDIRECT)) 4 (blk s d ind).

Definition owned (s : fsst) (x : inode) (b : Z) : Prop := b ≠ 0 ∧ ∃ k, (k ≤ MAXFILE)%nat ∧ slot s x k = b.

Record FileOk (s : fsst) (x : inode) : Prop := {
  fo_dev : i_dev x = d;
  fo_len : length (i_addrs x) = S NDIRECT;
  fo_size : 0 ≤ i_size x ≤ Z.of_nat (MAXFILE * BSIZE);
  fo_slot k : (k ≤ MAXFILE)%nat → slot s x k ≠ 0 → dstart (sb s) ≤ slot s x k < sb_size (sb s) ∧ in_use d s (slot s x k) = true;
  fo_inj k k' : (k ≤ MAXFILE)%nat → (k' ≤ MAXFILE)%nat → slot s x k ≠ 0 → slot s x k = slot s x k' → k = k'
}.

(** Byte [p] of the file. *)
Definition byte (s : fsst) (x : inode) (p : nat) : Z :=
  let a := slot s x (p / BSIZE) in if decide (a = 0) then 0 else blk s d a !!! (p `mod` BSIZE)%nat.

(** Nothing but this file changed: it has more blocks, taken from the free ones. *)
Record grew (s : fsst) (x : inode) (s' : fsst) (x' : inode) : Prop := {
  g_sb : sb s' = sb s;
  g_dev d' : d' ≠ d → blk s' d' = blk s d';
  g_use b : 0 ≤ b < sb_size (sb s) → in_use d s b = true → in_use d s' b = true;
  g_keep b : 0 ≤ b < sb_size (sb s) → in_use d s b = true → b ≠ sb_bmapstart (sb s) → ¬ owned s x b → blk s' d b = blk s d b;
  g_own b : owned s' x' b → owned s x b ∨ in_use d s b = false
}.

(** The cached inode [i], once [x], is now [x'], and the contents of its file
    are [f]; blocks are added, the other fields kept. *)
Record filed (i : nat) (s : fsst) (x : inode) (s' : fsst) (x' : inode) (f : nat → Z) : Prop := {
  m_finv : FInv d s';
  m_file : FileOk s' x';
  m_grew : grew s x s' x';
  m_cache : icache s' = <[i := x']> (icache s);
  m_same : x' = set_i_addrs (i_addrs x') x;
  m_byte p : (p < MAXFILE * BSIZE)%nat → byte s' x' p = f p;
  m_slot k : (k ≤ MAXFILE)%nat → slot s x k ≠ 0 → slot s' x' k = slot s x k
}.

(** The effect of [bmap]: the contents stay. *)
Definition mapped (i : nat) (s : fsst) (x : inode) (s' : fsst) (x' : inode) : Prop := filed i s x s' x' (byte s x).

Lemma owned_use s x b : FileOk s x → owned s x b → dstart (sb s) ≤ b < sb_size (sb s) ∧ in_use d s b = true.
Proof. intros [_ _ _ H _] [Hb (k & Hk & <-)]. by apply H. Qed.

Lemma slot_meta s x k : FInv d s → FileOk s x → (k ≤ MAXFILE)%nat → slot s x k ≠ 0 →
  3 < slot s x k < FSSIZE ∧ slot s x k ≠ sb_bmapstart (sb s) ∧ 0 ≤ slot s x k < sb_size (sb s).
Proof.
  intros HF HO Hk H0. pose proof (so_bounds _ (fi_sb _ _ HF)). destruct (fo_slot _ _ HO k Hk H0) as [Hr _].
  unfold dstart, FSSIZE in *. lia.
Qed.

Lemma mapped_refl i s x : FInv d s → FileOk s x → icache s !! i = Some x → mapped i s x s x.
Proof.
  intros HF HO Hx. split; [done|done| |by rewrite list_insert_id|by destruct x|done|done].
  split; try done. by left.
Qed.

Lemma grew_trans s x s1 x1 s2 x2 : FInv d s → FileOk s2 x2 → grew s x s1 x1 → grew s1 x1 s2 x2 → grew s x s2 x2.
Proof.
  intros HF HO2 [E1 D1 U1 K1 O1] [E2 D2 U2 K2 O2]. rewrite E1 in U2, K2. pose proof (so_bounds _ (fi_sb _ _ HF)). split.
  - by rewrite E2.
  - intros d' Hd. by rewrite D2, D1.
  - intros b Hb Hu. by apply U2, U1.
  - intros b Hb Hu Hne Hno. rewrite K2; [by apply K1|done|by apply U1|done|].
    intros [H'|H']%O1; [done|congruence].
  - intros b Hb. pose proof (owned_use _ _ _ HO2 Hb) as [Hr _]. rewrite E2, E1 in Hr. unfold dstart in Hr.
    destruct (O2 b Hb) as [H'|H']; [by apply O1|]. right. destruct (in_use d s b) eqn:Hu; [|done].
    rewrite U1 in H'; [done|lia|done].
Qed.

Lemma filed_trans i s x s1 x1 s2 x2 f g :
  FInv d s → filed i s x s1 x1 f → filed i s1 x1 s2 x2 g → filed i s x s2 x2 g.
Proof.
  intros HF [F1 O1 G1 C1 S1 B1 L1] [F2 O2 G2 C2 S2 B2 L2]. split; [done|done|by eapply grew_trans| | |done|].
  - by rewrite C2, C1, list_insert_insert_eq.
  - rewrite S2 at 1. rewrite S1 at 1. done.
  - intros k Hk Hn. rewrite L2 by (try done; by rewrite L1). by apply L1.
Qed.

Lemma filed_ext i s x s1 x1 f g : (∀ p, (p < MAXFILE * BSIZE)%nat → f p = g p) → filed i s x s1 x1 f → filed i s x s1 x1 g.
Proof. intros E [F O G C S B L]. split; try done. intros p Hp. by rewrite B, E. Qed.

Lemma mapped_trans i s x s1 x1 s2 x2 :
  FInv d s → mapped i s x s1 x1 → mapped i s1 x1 s2 x2 → mapped i s x s2 x2.
Proof.
  intros HF H1 H2. eapply filed_ext; [|by eapply filed_trans]. intros p Hp. by apply H1.
Qed.

(** One block [a], free until now and zeroed, becomes slot [k0] of the file. *)
Lemma mapped_new i s x s1 x1 k0 a :
  FInv d s → FileOk s x → (k0 ≤ MAXFILE)%nat → slot s x k0 = 0 →
  dstart (sb s) ≤ a < sb_size (sb s) → in_use d s a = false →
  FInv d s1 → sb s1 = sb s → (∀ d', d' ≠ d → blk s1 d' = blk s d') → icache s1 = <[i := x1]> (icache s) →
  (∀ b, 0 ≤ b < sb_size (sb s) → in_use d s1 b = bool_decide (a = b) || in_use d s b) →
  (∀ k, (k ≤ MAXFILE)%nat → slot s1 x1 k = if decide (k = k0) then a else slot s x k) →
  (∀ b, b ≠ a → b ≠ sb_bmapstart (sb s) → (b = 0 ∨ b ≠ slot s x MAXFILE) → blk s1 d b = blk s d b) →
  blk s1 d a = replicate BSIZE 0 →
  x1 = set_i_addrs (i_addrs x1) x → length (i_addrs x1) = S NDIRECT →
  mapped i s x s1 x1.
Proof.
  intros HF HO Hk0 H0 Ha Hfree HF1 Esb Hdev Hc Huse Hslot Hkeep Hz Hx1 Hl1.
  pose proof (so_bounds _ (fi_sb _ _ HF)) as Hb. unfold dstart in Ha.
  assert (∀ k, (k ≤ MAXFILE)%nat → slot s x k ≠ 0 → slot s x k ≠ a) as Hne.
  { intros k Hk Hn E. destruct (fo_slot _ _ HO k Hk Hn) as [_ Hu]. congruence. }
  split; [done| | |done|done| |].
  - split; [rewrite Hx1; apply HO|done|rewrite Hx1; apply HO| |].
    + intros k Hk. rewrite Hslot, Esb by done. case_decide; intros Hn; [unfold dstart; rewrite Huse, bool_decide_true by lia; done|].
      destruct (fo_slot _ _ HO k Hk Hn) as [Hr Hu]. split; [done|]. unfold dstart in Hr. rewrite Huse, Hu by lia. by rewrite orb_true_r.
    + intros k k' Hk Hk'. rewrite !Hslot by done.
      destruct (decide (k = k0)), (decide (k' = k0)); intros Hn E; [congruence| | |by apply (fo_inj _ _ HO)].
      * exfalso. apply (Hne k' Hk'); congruence.
      * exfalso. by apply (Hne k Hk).
  - split; [done|done| | |].
    + intros b Hr Hu. by rewrite Huse, Hu, orb_true_r.
    + intros b Hr Hu Hbm Hno. apply Hkeep; [congruence|done|].
      destruct (decide (b = 0)) as [->|Hb0]; [by left|right]. intros E. apply Hno. split; [done|by exists MAXFILE].
    + intros b [Hb0 (k & Hk & E)]. rewrite Hslot in E by done. case_decide; [right; congruence|left]. split; [done|by exists k].
  - intros p Hp. unfold byte. assert (p / BSIZE < MAXFILE)%nat as Hq by (apply Nat.Div0.div_lt_upper_bound; lia).
    rewrite Hslot by lia. set (q := (p / BSIZE)%nat) in *. destruct (decide (q = k0)) as [->|Hqk].
    + rewrite H0. rewrite decide_False by lia. cbn beta. rewrite decide_True by done. rewrite Hz. apply lookup_total_replicate_2.
      apply Nat.mod_upper_bound. unfold BSIZE. lia.
    + destruct (decide (slot s x q = 0)) as [|Hn]; [done|]. rewrite Hkeep; [done|by apply Hne; [lia|]| |].
      * apply (slot_meta s x q HF HO); [lia|done].
      * right. intros E. apply (fo_inj _ _ HO) in E; [lia|lia|done|done].
  - intros k Hk Hn. rewrite Hslot by done. rewrite decide_False by congruence. done.
Qed.

(** ** bmap *)

Lemma get_le_zero off n m : get_le off n (replicate m 0) = 0.
Proof.
  unfold get_le, slice. rewrite drop_replicate, take_replicate. induction (n `min` (m - off))%nat as [|k IH]; [done|].
  cbn [replicate le_dec]. lia.
Qed.

Lemma FInv_icache s l : FInv d s → length l = NINODE → FInv d (set_icache l s).
Proof. intros [H1 H2 H3 H4 H5 H6] Hl. by split. Qed.

Lemma slot_direct s x s1 k0 a :
  length (i_addrs x) = S NDIRECT → (k0 < NDIRECT)%nat →
  (slot s x MAXFILE ≠ 0 → blk s1 d (slot s x MAXFILE) = blk s d (slot s x MAXFILE)) →
  ∀ k, slot s1 (set_i_addrs (<[k0 := a]> (i_addrs x)) x) k = if decide (k = k0) then a else slot s x k.
Proof.
  intros Hl Hk Hb k. assert (slot s x MAXFILE = i_addrs x !!! NDIRECT) as Ei by done. rewrite Ei in Hb.
  unfold slot. cbn [i_addrs set_i_addrs]. rewrite (list_lookup_total_insert_ne _ k0 NDIRECT) by lia.
  destruct (decide (k < NDIRECT)%nat).
  - destruct (decide (k = k0)) as [->|]; [apply list_lookup_total_insert_eq; lia|by rewrite list_lookup_total_insert_ne].
  - rewrite (decide_False (P := k = k0)) by lia. repeat case_decide; try done. by rewrite Hb.
Qed.

Lemma slot_indirect s x s1 a :
  length (i_addrs x) = S NDIRECT → slot s x MAXFILE = 0 → a ≠ 0 → blk s1 d a = replicate BSIZE 0 →
  ∀ k, slot s1 (set_i_addrs (<[NDIRECT := a]> (i_addrs x)) x) k = if decide (k = MAXFILE) then a else slot s x k.
Proof.
  intros Hl H0 Ha Hz k. assert (i_addrs x !!! NDIRECT = 0) as Ei by done.
  unfold slot. cbn [i_addrs set_i_addrs]. rewrite list_lookup_total_insert_eq by lia. rewrite Ei.
  destruct (decide (k < NDIRECT)%nat).
  - rewrite list_lookup_total_insert_ne by lia. by rewrite (decide_False (P := k = MAXFILE)) by (unfold MAXFILE; lia).
  - destruct (decide (k = MAXFILE)); [done|]. rewrite decide_False, decide_True by done. rewrite Hz. apply get_le_zero.
Qed.

Lemma slot_word s x s1 j a :
  slot s x MAXFILE ≠ 0 → (j < NINDIRECT)%nat → is_u32 a → length (blk s d (slot s x MAXFILE)) = BSIZE →
  blk s1 d (slot s x MAXFILE) = put_le (4 * j) 4 a (blk s d (slot s x MAXFILE)) →
  ∀ k, (k ≤ MAXFILE)%nat → slot s1 x k = if decide (k = (NDIRECT + j)%nat) then a else slot s x k.
Proof.
  assert (slot s x MAXFILE = i_addrs x !!! NDIRECT) as -> by done. intros H0 Hj Ha Hl Hb k Hk. unfold slot.
  destruct (decide (k < NDIRECT)%nat); [by rewrite decide_False by lia|].
  destruct (decide (k = MAXFILE)) as [->|Hk']; [by rewrite decide_False by (unfold MAXFILE; lia)|].
  rewrite !(decide_False (P := _ = 0)) by done. rewrite Hb. unfold MAXFILE, NINDIRECT in *.
  assert (4 * j + 4 ≤ BSIZE)%nat as Hr by (change (BSIZE / 4)%nat with 128%nat in Hj; change BSIZE with 512%nat; lia).
  destruct (decide (k = (NDIRECT + j)%nat)) as [->|].
  - replace (NDIRECT + j - NDIRECT)%nat with j by lia. rewrite get_put_eq by lia. by apply u32_small.
  - rewrite get_put_ne by lia. done.
Qed.

(** [balloc] for slot [k0], as a step of [mapped]. *)
Lemma mapped_alloc i s x k0 a s1 x1 :
  FInv d s → FileOk s x → icache s !! i = Some x → (k0 ≤ MAXFILE)%nat → slot s x k0 = 0 →
  dstart (sb s) ≤ a < sb_size (sb s) → in_use d s a = false →
  x1 = set_i_addrs (i_addrs x1) x → length (i_addrs x1) = S NDIRECT →
  s1 = set_icache (<[i := x1]> (icache s)) (allocated d a s) →
  (∀ k, (k ≤ MAXFILE)%nat → slot s1 x1 k = if decide (k = k0) then a else slot s x k) →
  mapped i s x s1 x1.
Proof.
  intros HF HO Hx Hk H0 Ha Hu Ex Hl -> Hs.
  pose proof (FInv_allocated d s a HF Ha) as HF1.
  eapply mapped_new; try done.
  - apply FInv_icache; [done|]. rewrite length_insert. apply HF.
  - intros d' Hd. cbn [blk set_icache allocated]. unfold allocated. by rewrite !blk_stored_dev.
  - intros b Hb. by apply in_use_allocated.
  - intros b Hba Hbm _. cbn [blk set_icache]. rewrite blk_allocated. by rewrite !decide_False.
  - cbn [blk set_icache]. rewrite blk_allocated. by rewrite decide_True.
Qed.

Context (ok : string → Prop) (Hbig : ok TOO_BIG) (Hfull : ok NO_BLOCKS).

Lemma wpp_balloc s : FInv d s →
  wpp ok (balloc d) s (λ b s', dstart (sb s) ≤ b < sb_size (sb s) ∧ in_use d s b = false ∧ s' = allocated d b s).
Proof. intros HF. apply balloc_spec; [done|by left|by left]. Qed.

Lemma wpp_seti i f s x (Q : unit → fsst → Prop) :
  icache s !! i = Some x → Q tt (set_icache (<[i := f x]> (icache s)) s) → wpp ok (seti i f) s Q.
Proof. intros Hx HQ. unfold wpp. by rewrite (seti_Ret _ _ _ x). Qed.

Lemma addr_lookup x k : length (i_addrs x) = S NDIRECT → (k < S NDIRECT)%nat → i_addrs x !! k = Some (i_addrs x !!! k).
Proof. intros Hl Hk. apply list_lookup_lookup_total_lt. lia. Qed.

(** The addresses of the inode itself, direct and indirect. *)
Lemma alloc_addr i s x (j k0 : nat) :
  FInv d s → FileOk s x → icache s !! i = Some x → slot s x k0 = 0 →
  ((j < NDIRECT)%nat ∧ k0 = j ∨ j = NDIRECT ∧ k0 = MAXFILE) →
  wpp ok (a ← balloc d; seti i (λ x, set_i_addrs (<[j := a]> (i_addrs x)) x);; mret a) s
    (λ a s', ∃ x', mapped i s x s' x' ∧ a = slot s' x' k0 ∧ a ≠ 0).
Proof.
  intros HF HO Hx H0 Hj. pose proof (so_bounds _ (fi_sb _ _ HF)) as Hb. pose proof (fo_len _ _ HO) as Hl.
  wp_steps. wp_call wpp_balloc; [done|]. intros a s1 (Ha & Hu & ->). wp_steps. apply (wpp_seti i _ _ x); [done|]. wp_steps.
  set (x1 := set_i_addrs (<[j := a]> (i_addrs x)) x). unfold dstart in Ha.
  assert (∀ k, (k ≤ MAXFILE)%nat → slot (set_icache (<[i := x1]> (icache s)) (allocated d a s)) x1 k = if decide (k = k0) then a else slot s x k) as Hs.
  { intros k _. destruct Hj as [[Hj ->]|[-> ->]].
    - apply slot_direct; [done|done|]. intros Hn. cbn [blk set_icache]. rewrite blk_allocated.
      destruct (slot_meta s x MAXFILE HF HO) as (_ & Hm & _); [lia|done|].
      rewrite decide_False, decide_False; [done|done|]. intros E. destruct (fo_slot _ _ HO MAXFILE) as [_ Hu']; [lia|done|]. congruence.
    - apply slot_indirect; [done|done|lia|]. cbn [blk set_icache]. rewrite blk_allocated. by rewrite decide_True. }
  exists x1. split; [|split; [rewrite Hs; [by rewrite decide_True|]|lia]].
  - eapply (mapped_alloc i s x k0 a _ x1); try done; [unfold MAXFILE in *; lia|]. unfold x1. cbn. by rewrite length_insert.
  - unfold MAXFILE in *; lia.
Qed.

(** The entry of the indirect block. *)
Lemma alloc_word i s x (j : nat) :
  FInv d s → FileOk s x → icache s !! i = Some x → slot s x MAXFILE ≠ 0 → slot s x (NDIRECT + j) = 0 → (j < NINDIRECT)%nat →
  wpp ok (a ← balloc d; put_block d (slot s x MAXFILE) (put_le (4 * j) 4 a (blk s d (slot s x MAXFILE)));; mret a) s
    (λ a s', mapped i s x s' x ∧ a = slot s' x (NDIRECT + j) ∧ a ≠ 0).
Proof.
  intros HF HO Hx Hi H0 Hj. pose proof (so_bounds _ (fi_sb _ _ HF)) as Hb. set (ind := slot s x MAXFILE) in *.
  assert (4 * j + 4 ≤ BSIZE)%nat as Hr by (unfold NINDIRECT in Hj; change (BSIZE / 4)%nat with 128%nat in Hj; change BSIZE with 512%nat; lia).
  destruct (slot_meta s x MAXFILE HF HO) as (Hi3 & Hm & Hir); [lia|done|]. fold ind in Hi3, Hm, Hir.
  destruct (fo_slot _ _ HO MAXFILE) as [_ Hiu]; [lia|done|]. fold ind in Hiu.
  wp_steps. wp_call wpp_balloc; [done|]. intros a s1 (Ha & Hu & ->). wp_steps.
  apply wpp_put_block; [apply HF|by left|]. wp_steps. unfold dstart in Ha.
  set (v := put_le (4 * j) 4 a (blk s d ind)). set (s2 := stored d ind v (allocated d a s)).
  assert (FInv d (allocated d a s)) as HF1 by (by apply FInv_allocated).
  assert (ind ≠ a) as Hia by congruence.
  assert (FInv d s2) as HF2 by (apply FInv_stored; [done|unfold v; rewrite length_put_le; rewrite (fi_len _ _ HF); lia|lia|done]).
  assert (∀ b, blk s2 d b = if decide (b = ind) then v else blk (allocated d a s) d b) as Eb by (intros b; apply blk_stored).
  assert (∀ k, (k ≤ MAXFILE)%nat → slot s2 x k = if decide (k = (NDIRECT + j)%nat) then a else slot s x k) as Hs.
  { apply slot_word; [done|done|unfold is_u32; lia|apply HF|]. fold ind. rewrite Eb. by rewrite decide_True. }
  assert (NDIRECT + j ≤ MAXFILE)%nat as Hjm by (unfold MAXFILE; lia).
  split; [|split; [rewrite Hs by done; by rewrite decide_True|lia]].
  eapply (mapped_new i s x s2 x (NDIRECT + j) a); try done.
  - intros d' Hd. unfold s2, allocated. by rewrite !blk_stored_dev.
  - unfold s2. cbn [icache stored allocated]. by rewrite list_insert_id.
  - intros b Hbr. rewrite <- in_use_allocated by done. unfold in_use. cbn [sb s2 stored]. rewrite Eb.
    rewrite decide_False; [done|]. rewrite (BBLOCK_small _ _ (fi_sb _ _ HF)) by done. done.
  - intros b H1 H2 H3. rewrite Eb. rewrite decide_False by (destruct H3; [lia|done]). rewrite blk_allocated. by rewrite !decide_False.
  - rewrite Eb, decide_False by done. rewrite blk_allocated. by rewrite decide_True.
  - by destruct x.
  - apply HO.
Qed.

Lemma filed_lookup i s x s1 x1 f : icache s !! i = Some x → filed i s x s1 x1 f → icache s1 !! i = Some x1.
Proof. intros Hx HM. rewrite (m_cache _ _ _ _ _ _ HM). apply list_lookup_insert_eq. by eapply lookup_lt_Some. Qed.

Lemma bmap_spec i s x (bn : nat) :
  FInv d s → FileOk s x → icache s !! i = Some x → (bn < MAXFILE)%nat →
  wpp ok (bmap i (Z.of_nat bn)) s (λ a s', ∃ x', mapped i s x s' x' ∧ a = slot s' x' bn ∧ a ≠ 0 ∧ (slot s x bn ≠ 0 → s' = s)).
Proof.
  intros HF HO Hx Hbn. pose proof (fo_len _ _ HO) as Hl. pose proof (fo_dev _ _ HO) as Hd.
  unfold bmap, geti. wp_steps. eapply wpp_lookupM; [done|]. rewrite Hd. destruct (decide (bn < NDIRECT)%nat) as [Hdir|Hdir].
  - rewrite decide_True, Nat2Z.id by lia. wp_steps. eapply wpp_lookupM; [apply addr_lookup; [done|lia]|]. cbn beta.
    assert (i_addrs x !!! bn = slot s x bn) as -> by (unfold slot; by rewrite decide_True).
    destruct (decide (slot s x bn = 0)) as [H0|H0].
    + wp_call alloc_addr; [done|done|done|exact H0|by left|]. intros a s1 (x1 & HM & -> & Ha). by exists x1.
    + wp_steps. exists x. split; [by apply mapped_refl|done].
  - rewrite decide_False by lia. assert (Z.of_nat bn - Z.of_nat NDIRECT = Z.of_nat (bn - NDIRECT)) as -> by lia.
    rewrite decide_True by (unfold MAXFILE in Hbn; lia). rewrite Nat2Z.id. wp_steps.
    eapply wpp_lookupM; [apply addr_lookup; [done|lia]|]. cbn beta. wp_steps.
    assert (i_addrs x !!! NDIRECT = slot s x MAXFILE) as -> by done.
    eapply (wpp_mono _ _ _ (λ ind s1, ∃ x1, mapped i s x s1 x1 ∧ ind = slot s1 x1 MAXFILE ∧ ind ≠ 0 ∧ (slot s x MAXFILE ≠ 0 → s1 = s ∧ x1 = x))).
    { destruct (decide (slot s x MAXFILE = 0)) as [H0|H0].
      - wp_call alloc_addr; [done|done|done|exact H0|by right|]. intros a s1 (x1 & HM & -> & Ha). by exists x1.
      - wp_steps. exists x. split; [by apply mapped_refl|done]. }
    intros ind s1 (x1 & HM & -> & Hi & Hsame). wp_steps. pose proof (filed_lookup _ _ _ _ _ _ Hx HM) as Hx1. destruct (HM) as [F1 O1 G1 C1 S1 B1 L1].
    destruct (slot_meta s1 x1 MAXFILE F1 O1) as (Hi3 & _ & _); [lia|done|].
    apply wpp_get_block; [lia|]. assert (NDIRECT + (bn - NDIRECT) = bn)%nat as Ebn by lia.
    assert (get_le (4 * (bn - NDIRECT)) 4 (blk s1 d (slot s1 x1 MAXFILE)) = slot s1 x1 bn) as ->.
    { unfold slot at 2. rewrite decide_False by lia. rewrite decide_False by lia. by rewrite decide_False. }
    assert (slot s x bn ≠ 0 → slot s x MAXFILE ≠ 0) as Hneed.
    { intros Hn E. apply Hn. unfold slot. rewrite decide_False by lia. rewrite decide_False by lia. by rewrite decide_True. }
    destruct (decide (slot s1 x1 bn = 0)) as [H0|H0].
    + wp_call (alloc_word i s1 x1 (bn - NDIRECT)); [done|done|done|done|by rewrite Ebn|unfold MAXFILE in Hbn; lia|].
      rewrite Ebn. intros a s2 (HM2 & -> & Ha). exists x1. split; [by eapply mapped_trans|]. split; [done|]. split; [done|].
      intros Hn. by rewrite L1 in H0 by (try done; lia).
    + wp_steps. exists x1. split; [done|]. split; [done|]. split; [done|]. intros Hn. by apply Hsame, Hneed.
Qed.

(** ** readi *)

Lemma BSIZE_pos : (0 < BSIZE)%nat.
Proof. unfold BSIZE. lia. Qed.

Definition nchunk (rem off : nat) : nat := rem `min` (BSIZE - off `mod` BSIZE)%nat.

Lemma chunk_nat rem off : chunk (Z.of_nat rem) (Z.of_nat off) = Z.of_nat (nchunk rem off).
Proof. unfold chunk, nchunk. pose proof (Nat.mod_upper_bound off BSIZE ltac:(pose proof BSIZE_pos; lia)). rewrite <- Nat2Z.inj_mod. lia. Qed.

Lemma nchunk_range rem off : (0 < rem)%nat → (0 < nchunk rem off ≤ rem)%nat ∧ (nchunk rem off ≤ BSIZE - off `mod` BSIZE)%nat.
Proof. intros Hr. unfold nchunk. pose proof (Nat.mod_upper_bound off BSIZE ltac:(pose proof BSIZE_pos; lia)). lia. Qed.

(** Where the next chunk starts, there is one block less to go. *)
Definition enough (f rem off : nat) : Prop := rem = 0%nat ∨ (off `mod` BSIZE + rem ≤ f * BSIZE)%nat.

Lemma enough_next f rem off :
  (0 < rem)%nat → enough (S f) rem off → enough f (rem - nchunk rem off) (off + nchunk rem off).
Proof.
  intros Hr [?|Hf]; [lia|]. pose proof BSIZE_pos as HB. pose proof (Nat.mod_upper_bound off BSIZE ltac:(lia)) as Hm.
  pose proof (Nat.div_mod off BSIZE ltac:(lia)) as Ed. unfold enough, nchunk.
  destruct (decide (rem ≤ BSIZE - off `mod` BSIZE)%nat); [left; lia|right]. rewrite Nat.min_r by lia.
  replace (off + (BSIZE - off `mod` BSIZE))%nat with ((off / BSIZE + 1) * BSIZE)%nat by lia.
  rewrite Nat.Div0.mod_mul. lia.
Qed.

Lemma enough_start rem off : enough (Z.to_nat (Z.of_nat rem / Z.of_nat BSIZE + 2)) rem off.
Proof.
  right. pose proof BSIZE_pos as HB. pose proof (Nat.mod_upper_bound off BSIZE ltac:(lia)) as Hm.
  pose proof (Nat.div_mod rem BSIZE ltac:(lia)) as Ed. pose proof (Nat.mod_upper_bound rem BSIZE ltac:(lia)).
  rewrite <- Nat2Z.inj_div. replace (Z.to_nat (Z.of_nat (rem / BSIZE) + 2)) with (rem / BSIZE + 2)%nat by lia. lia.
Qed.

(** Positions within one block. *)
Lemma same_block o i : (i < BSIZE - o `mod` BSIZE)%nat → ((o + i) / BSIZE = o / BSIZE ∧ (o + i) `mod` BSIZE = o `mod` BSIZE + i)%nat.
Proof.
  intros Hi. pose proof BSIZE_pos as HB. pose proof (Nat.div_mod o BSIZE ltac:(lia)) as Ed.
  split; [symmetry; apply (Nat.div_unique _ _ _ (o `mod` BSIZE + i)); lia|symmetry; apply (Nat.mod_unique _ _ (o / BSIZE)); lia].
Qed.

Lemma slice_bytes s x o m :
  slot s x (o / BSIZE) ≠ 0 → length (blk s d (slot s x (o / BSIZE))) = BSIZE → (m ≤ BSIZE - o `mod` BSIZE)%nat →
  slice (o `mod` BSIZE) m (blk s d (slot s x (o / BSIZE))) = byte s x <$> seq o m.
Proof.
  intros H0 Hl Hm. pose proof (Nat.mod_upper_bound o BSIZE ltac:(pose proof BSIZE_pos; lia)) as Hb.
  apply list_eq. intros i. unfold slice. rewrite list_lookup_fmap. destruct (decide (i < m)%nat).
  - rewrite lookup_take_lt, lookup_drop, lookup_seq_lt by done. cbn [fmap option_fmap option_map].
    destruct (same_block o i) as [E1 E2]; [lia|]. unfold byte. rewrite E1, E2, decide_False by done.
    apply list_lookup_lookup_total_lt. lia.
  - rewrite lookup_take_ge, lookup_seq_ge by lia. done.
Qed.

Context `{Devices}.

Lemma maxfile_bytes : Z.of_nat (MAXFILE * BSIZE) = 70656.
Proof. by vm_compute. Qed.

Definition mapped_range (s : fsst) (x : inode) (o n : nat) : Prop := ∀ p, (o ≤ p < o + n)%nat → slot s x (p / BSIZE) ≠ 0.

Lemma pos_block o n : (0 < n)%nat → (o + n ≤ MAXFILE * BSIZE)%nat → (o / BSIZE < MAXFILE)%nat.
Proof. intros Hn Ho. apply Nat.Div0.div_lt_upper_bound. lia. Qed.

(** Reading needs no transaction: [tx s] is [s] inside one. *)
Definition tx (s : fsst) : fsst := mkFs (blk s) (icache s) (sb s) (logged s) 1.
Lemma FInv_tx s : FInv d s → FInv d (tx s).
Proof. intros [H1 H2 H3 H4 H5 H6]. by split. Qed.
Lemma FileOk_tx s x : FileOk s x → FileOk (tx s) x.
Proof. intros [H1 H2 H3 H4 H5]. by split. Qed.

(** A block that is there is found without any change. *)
Lemma bmap_hit i s x (bn : nat) :
  FInv d (tx s) → FileOk s x → icache s !! i = Some x → (bn < MAXFILE)%nat → slot s x bn ≠ 0 →
  wp (bmap i (Z.of_nat bn)) s (λ a s', a = slot s x bn ∧ s' = s).
Proof.
  intros HF HO Hx Hbn. pose proof (fo_len _ _ HO) as Hl. pose proof (fo_dev _ _ HO) as Hd.
  unfold bmap, geti, slot. intros Hs. wp_steps. eapply wp_lookupM; [done|]. rewrite Hd. destruct (decide (bn < NDIRECT)%nat) as [Hdir|Hdir].
  - rewrite decide_True, Nat2Z.id by lia. wp_steps. eapply wp_lookupM; [apply addr_lookup; [done|lia]|]. cbn beta.
    rewrite decide_False by done. by wp_steps.
  - rewrite decide_False by lia. assert (Z.of_nat bn - Z.of_nat NDIRECT = Z.of_nat (bn - NDIRECT)) as -> by lia.
    rewrite decide_True by (unfold MAXFILE in Hbn; lia). rewrite Nat2Z.id. wp_steps.
    rewrite decide_False in Hs |- * by lia. destruct (decide (i_addrs x !!! NDIRECT = 0)) as [|Hi]; [done|].
    eapply wp_lookupM; [apply addr_lookup; [done|lia]|]. cbn beta. wp_steps. rewrite decide_False by done. wp_steps.
    destruct (slot_meta (tx s) x MAXFILE HF (FileOk_tx _ _ HO)) as (Hi3 & _ & _); [lia|done|]. change (slot (tx s) x MAXFILE) with (i_addrs x !!! NDIRECT) in Hi3.
    unfold get_block. rewrite decide_False by lia. wp_steps. rewrite decide_False by done. by wp_steps.
Qed.

Lemma readi_loop_spec i s x : FInv d (tx s) → FileOk s x → icache s !! i = Some x → ∀ fuel o r,
  (o + r ≤ MAXFILE * BSIZE)%nat → enough fuel r o → mapped_range s x o r →
  wp (readi_loop fuel i (Z.of_nat o) (Z.of_nat r)) s (λ l s', l = byte s x <$> seq o r ∧ s' = s).
Proof.
  intros HF HO Hx. induction fuel as [|f IH]; intros o r Hr Hf Hmap; cbn [readi_loop].
  { destruct Hf as [->|Hf]; [|cbn in Hf; assert (r = 0)%nat as -> by lia]; (rewrite decide_False by lia; by wp_steps). }
  destruct (decide (r = 0)%nat) as [->|Hr0]; [rewrite decide_False by lia; by wp_steps|].
  assert (o / BSIZE < MAXFILE)%nat as Hq by (apply (pos_block o r); lia).
  assert (slot s x (o / BSIZE) ≠ 0) as Hs by (apply Hmap; lia).
  rewrite decide_True by lia. unfold geti. wp_steps. eapply wp_lookupM; [done|]. wp_steps.
  rewrite <- Nat2Z.inj_div. wp_call bmap_hit; [done..|]. intros a s1 [-> ->]. wp_steps. rewrite (fo_dev _ _ HO).
  destruct (slot_meta (tx s) x (o / BSIZE) HF (FileOk_tx _ _ HO)) as (Hi3 & _ & _); [lia|done|]. change (slot (tx s) x (o / BSIZE)) with (slot s x (o / BSIZE)) in Hi3.
  unfold get_block. rewrite decide_False by lia. wp_steps.
  rewrite chunk_nat. destruct (nchunk_range r o) as [Hm1 Hm2]; [lia|]. set (m := nchunk r o) in *.
  rewrite u32_small by (pose proof maxfile_bytes; unfold is_u32; lia). rewrite <- Nat2Z.inj_add, <- Nat2Z.inj_sub by lia.
  wp_call IH; [lia|apply enough_next; [lia|done]|intros p Hp; apply Hmap; lia|].
  intros l s2 [-> ->]. wp_steps. split; [|done].
  rewrite Nat2Z.id, <- Nat2Z.inj_mod, Nat2Z.id, slice_bytes; [|done|apply (fi_len _ _ HF)|done].
  rewrite <- fmap_app, <- seq_app. do 2 f_equal. lia.
Qed.

(** A file without holes. *)
Definition no_holes (s : fsst) (x : inode) : Prop := mapped_range s x 0 (Z.to_nat (i_size x)).

(** What a read of [n] bytes at [off] gives of a file with [size] bytes. *)
Definition read_len (size off n : Z) : Z := Z.min n (size - off).

Lemma readi_idle i s x off n :
  FInv d (tx s) → FileOk s x → no_holes s x → icache s !! i = Some x → i_type x ≠ T_DEV → is_u32 off → is_u32 n →
  readi i off n s =
    if decide (i_size x < off ∨ 2 ^ 32 ≤ off + n) then Ret (-1, []) s
    else Ret (read_len (i_size x) off n, byte s x <$> seq (Z.to_nat off) (Z.to_nat (read_len (i_size x) off n))) s.
Proof.
  intros HF HO Hh Hx Ht Ho Hn. pose proof (u32_wraps _ _ Ho Hn) as Hwrap. unfold is_u32 in *. pose proof (fo_size _ _ HO) as Hsz. pose proof maxfile_bytes as Emax.
  assert (off + n < 2 ^ 32 → u32 (off + n) = off + n) as Hu by (intros; apply u32_small; unfold is_u32; lia).
  unfold readi, geti. unfold mbind at 1, M_bind at 1, lookupM at 1. rewrite Hx. rewrite decide_False by done.
  destruct (decide (i_size x < off ∨ 2 ^ 32 ≤ off + n)) as [H1|H1]; [by rewrite decide_True by tauto|rewrite decide_False by tauto].
  assert (i_size x - off = u32 (i_size x - off)) as Es by (symmetry; apply u32_small; unfold is_u32; lia).
  assert ((if decide (i_size x < u32 (off + n)) then u32 (i_size x - off) else n) = read_len (i_size x) off n) as ->.
  { rewrite Hu by lia. rewrite <- Es. unfold read_len. case_decide; lia. }
  set (r := read_len (i_size x) off n). assert (0 ≤ r ≤ i_size x - off) as Hr by (unfold r, read_len; lia).
  destruct (wp_inv _ _ _ (readi_loop_spec i s x HF HO Hx _ (Z.to_nat off) (Z.to_nat r) ltac:(lia) (enough_start _ _)
    ltac:(intros p Hp; apply Hh; lia))) as (l & s' & E & -> & ->).
  rewrite !Z2Nat.id in E by lia. unfold mbind, M_bind. rewrite E. by rewrite i32_small by (unfold is_i32; lia).
Qed.

Lemma readi_spec i s x off n :
  FInv d s → FileOk s x → no_holes s x → icache s !! i = Some x → i_type x ≠ T_DEV → is_u32 off → is_u32 n →
  readi i off n s =
    if decide (i_size x < off ∨ 2 ^ 32 ≤ off + n) then Ret (-1, []) s
    else Ret (read_len (i_size x) off n, byte s x <$> seq (Z.to_nat off) (Z.to_nat (read_len (i_size x) off n))) s.
Proof. intros HF. by apply readi_idle, FInv_tx. Qed.

(** ** writei *)

(** Contents [f] with [src] written at [o]. *)
Definition overwrite (f : nat → Z) (o : nat) (src : list Z) (p : nat) : Z :=
  if decide (o ≤ p < o + length src)%nat then src !!! (p - o)%nat else f p.

Lemma overwrite_app f o l1 l2 p : overwrite (overwrite f o l1) (o + length l1) l2 p = overwrite f o (l1 ++ l2) p.
Proof.
  unfold overwrite. rewrite length_app. destruct (decide (o + length l1 ≤ p < o + length l1 + length l2)%nat).
  - rewrite decide_True by lia. rewrite !list_lookup_total_alt, lookup_app_r by lia. do 2 f_equal. lia.
  - destruct (decide (o ≤ p < o + length l1)%nat).
    + rewrite decide_True by lia. rewrite !list_lookup_total_alt, lookup_app_l by lia. done.
    + by rewrite decide_False by lia.
Qed.

Lemma splice_lookup off bs v j : (off + length bs ≤ length v)%nat →
  splice off bs v !!! j = if decide (off ≤ j < off + length bs)%nat then bs !!! (j - off)%nat else v !!! j.
Proof.
  intros Hl. rewrite !list_lookup_total_alt. unfold splice. destruct (decide (j < off)%nat).
  - rewrite decide_False by lia. rewrite lookup_app_l, lookup_take_lt by (rewrite ?length_take; lia). done.
  - rewrite lookup_app_r by (rewrite length_take; lia). rewrite length_take, Nat.min_l by lia.
    case_decide; [by rewrite lookup_app_l by lia|]. rewrite lookup_app_r, lookup_drop by lia. do 2 f_equal. lia.
Qed.

(** A store into one block of the file. *)
Lemma filed_store i s x o src :
  FInv d s → FileOk s x → icache s !! i = Some x → slot s x (o / BSIZE) ≠ 0 → (o / BSIZE < MAXFILE)%nat →
  (length src ≤ BSIZE - o `mod` BSIZE)%nat →
  filed i s x (stored d (slot s x (o / BSIZE)) (splice (o `mod` BSIZE) src (blk s d (slot s x (o / BSIZE)))) s) x (overwrite (byte s x) o src).
Proof.
  intros HF HO Hx Ha Hq Hl. pose proof (Nat.mod_upper_bound o BSIZE ltac:(pose proof BSIZE_pos; lia)) as Hm.
  destruct (slot_meta s x (o / BSIZE) HF HO) as (H3 & Hbm & Hr); [lia|done|].
  set (a := slot s x (o / BSIZE)) in *. set (v := splice _ _ _). set (s1 := stored d a v s).
  assert (∀ b, blk s1 d b = if decide (b = a) then v else blk s d b) as Eb by (intros; apply blk_stored).
  assert (length v = BSIZE) as Hv by (unfold v; rewrite length_splice; rewrite (fi_len _ _ HF); lia).
  assert (∀ k, (k ≤ MAXFILE)%nat → slot s1 x k = slot s x k) as Hs.
  { intros k Hk. unfold slot at 1 2. repeat case_decide; try done. rewrite Eb, decide_False; [done|].
    intros E. assert (MAXFILE = o / BSIZE)%nat; [|lia]. apply (fo_inj _ _ HO); [lia|lia|done|done]. }
  assert (∀ b, 0 ≤ b < sb_size (sb s) → in_use d s1 b = in_use d s b) as Hu.
  { intros b Hb. unfold in_use. cbn [sb s1 stored]. rewrite Eb, decide_False; [done|]. by rewrite (BBLOCK_small _ _ (fi_sb _ _ HF)). }
  split.
  - by apply FInv_stored; [| |lia|].
  - destruct HO as [O1 O2 O3 O4 O5]. split; [done|done|done| |].
    + intros k Hk. rewrite Hs by done. intros Hn. cbn [sb s1 stored]. destruct (O4 k Hk Hn) as [Hk1 Hk2]. split; [done|].
      rewrite Hu; [done|]. pose proof (so_bounds _ (fi_sb _ _ HF)). unfold dstart in Hk1. lia.
    + intros k k' Hk Hk'. rewrite !Hs by done. by apply O5.
  - split; [done|intros; by apply blk_stored_dev|intros; by rewrite Hu| |].
    + intros b Hb Hbu Hbb Hno. rewrite Eb, decide_False; [done|]. intros ->. apply Hno. split; [done|]. exists (o / BSIZE)%nat. split; [lia|done].
    + intros b [Hb0 (k & Hk & E)]. left. split; [done|]. exists k. by rewrite <- Hs.
  - cbn [icache s1 stored]. by rewrite list_insert_id.
  - by destruct x.
  - intros p Hp. assert (p / BSIZE < MAXFILE)%nat as Hpq by (apply Nat.Div0.div_lt_upper_bound; lia).
    unfold overwrite, byte. rewrite Hs by lia. rewrite Eb. cbn beta zeta. pose proof BSIZE_pos as HB.
    pose proof (Nat.div_mod p BSIZE ltac:(lia)) as E1. pose proof (Nat.div_mod o BSIZE ltac:(lia)) as E2.
    destruct (decide (p / BSIZE = o / BSIZE)%nat) as [Eq|Hne].
    + rewrite Eq. fold a. rewrite decide_False by done. rewrite decide_True by done. unfold v. rewrite splice_lookup by (rewrite (fi_len _ _ HF); lia).
      destruct (decide (o ≤ p < o + length src)%nat); [rewrite decide_True by lia; f_equal; lia|rewrite decide_False by lia; by rewrite decide_False].
    + rewrite (decide_False (P := (o ≤ p < o + length src)%nat)).
      * destruct (decide (slot s x (p / BSIZE) = 0)); [done|]. rewrite decide_False; [done|].
        intros E. apply Hne, (fo_inj _ _ HO); [lia|lia|done|done].
      * intros Hpo. apply Hne. destruct (same_block o (p - o)) as [<- _]; [lia|]. f_equal. lia.
  - intros k Hk _. by apply Hs.
Qed.

Lemma writei_loop_spec i : ∀ fuel s x o src,
  FInv d s → FileOk s x → icache s !! i = Some x → (o + length src ≤ MAXFILE * BSIZE)%nat → enough fuel (length src) o →
  wpp ok (writei_loop fuel i src (Z.of_nat o) (Z.of_nat (length src))) s
    (λ off' s', off' = Z.of_nat (o + length src) ∧
       ∃ x', filed i s x s' x' (overwrite (byte s x) o src) ∧ mapped_range s' x' o (length src) ∧
         (mapped_range s x o (length src) → x' = x)).
Proof.
  induction fuel as [|f IH]; intros s x o src HF HO Hx Hr Hf; cbn [writei_loop].
  all: destruct (decide (length src = 0)%nat) as [Hr0|Hr0].
  1,3: apply nil_length_inv in Hr0 as ->; rewrite decide_False by done; wp_steps; cbn [length]; split; [f_equal; lia|];
    exists x; split; [|split; [intros p Hp; lia|done]]; eapply filed_ext; [|by apply mapped_refl];
    intros p Hp; unfold overwrite; cbn [length]; by rewrite decide_False by lia.
  { exfalso. destruct Hf as [?|Hf]; [done|]. cbn in Hf. lia. }
  assert (o / BSIZE < MAXFILE)%nat as Hq by (apply (pos_block o (length src)); lia).
  rewrite decide_True by lia. unfold geti. wp_steps. eapply wpp_lookupM; [done|]. wp_steps.
  rewrite <- Nat2Z.inj_div. wp_call bmap_spec; [done..|].
  intros a s1 (x1 & HM & -> & Ha & Hsame). wp_steps. pose proof (filed_lookup _ _ _ _ _ _ Hx HM) as Hx1. destruct (HM) as [F1 O1 G1 C1 S1 B1 L1].
  rewrite (fo_dev _ _ HO). destruct (slot_meta s1 x1 (o / BSIZE) F1 O1) as (Hi3 & _ & _); [lia|done|].
  apply wpp_get_block; [lia|]. wp_steps. rewrite chunk_nat. destruct (nchunk_range (length src) o) as [Hm1 Hm2]; [lia|].
  set (m := nchunk (length src) o) in *. rewrite Nat2Z.id. rewrite <- Nat2Z.inj_mod, Nat2Z.id.
  apply wpp_put_block; [apply F1|by left|]. wp_steps. rewrite u32_small by (pose proof maxfile_bytes; unfold is_u32; lia).
  assert (length (take m src) = m) as Hlt by (rewrite length_take; lia).
  assert (length src = m + length (drop m src))%nat as Hls by (rewrite length_drop; lia).
  pose proof (filed_store i s1 x1 o (take m src) F1 O1 Hx1 Ha Hq ltac:(lia)) as HS. set (s2 := stored _ _ _ s1) in *.
  replace (Z.of_nat (length src) - Z.of_nat m) with (Z.of_nat (length (drop m src))) by lia. rewrite <- Nat2Z.inj_add.
  destruct (HS) as [F2 O2 G2 C2 S2 B2 L2].
  wp_call (IH s2 x1); [done|done|by eapply filed_lookup|lia| |].
  { rewrite length_drop. apply enough_next; [lia|done]. }
  intros off' s3 (-> & x3 & H3 & Hmap & Hkeep). split; [f_equal; lia|]. exists x3. split_and!.
  - eapply filed_ext; [|eapply filed_trans; [done|exact HM|eapply filed_trans; [done|exact HS|exact H3]]].
    intros p Hp. pose proof (overwrite_app (byte s x) o (take m src) (drop m src) p) as E. rewrite Hlt, take_drop in E. rewrite <- E.
    unfold overwrite at 1 2. case_decide; [done|]. rewrite B2 by done. unfold overwrite. case_decide; [done|]. by apply B1.
  - intros p Hp. destruct (decide (p < o + m)%nat) as [Hpm|].
    + assert (p / BSIZE = o / BSIZE)%nat as -> by (destruct (same_block o (p - o)) as [<- _]; [lia|]; f_equal; lia).
      rewrite (m_slot _ _ _ _ _ _ H3), (m_slot _ _ _ _ _ _ HS); try done; [lia|lia|]. rewrite (m_slot _ _ _ _ _ _ HS); [done|lia|done].
    + apply Hmap. lia.
  - intros Hrange. assert (s1 = s) as -> by (apply Hsame, Hrange; lia). assert (x1 = x) as -> by congruence.
    apply Hkeep. intros p Hp. pose proof (pos_block p 1 ltac:(lia) ltac:(lia)). rewrite (m_slot _ _ _ _ _ _ HS); [apply Hrange; lia|lia|apply Hrange; lia].
Qed.

(** ** What a write leaves alone *)

(** A file none of whose blocks changed. *)
Lemma file_frame s s' y :
  FileOk s y → sb s' = sb s → (∀ b, owned s y b → blk s' d b = blk s d b ∧ in_use d s' b = true) →
  FileOk s' y ∧ (∀ k, (k ≤ MAXFILE)%nat → slot s' y k = slot s y k) ∧ ∀ p, (p < MAXFILE * BSIZE)%nat → byte s' y p = byte s y p.
Proof.
  intros HO Hsb Hk. assert (∀ k, (k ≤ MAXFILE)%nat → slot s y k ≠ 0 → owned s y (slot s y k)) as Hown by (intros k ? ?; split; [done|by exists k]).
  assert (∀ k, (k ≤ MAXFILE)%nat → slot s' y k = slot s y k) as Hs.
  { intros k Hkm. unfold slot at 1 2. repeat case_decide; try done. destruct (Hk (i_addrs y !!! NDIRECT)) as [-> _]; [|done].
    apply (Hown MAXFILE); [lia|done]. }
  split; [|split; [done|]].
  - destruct (HO) as [O1 O2 O3 O4 O5]. split; [done|done|done| |].
    + intros k Hkm. rewrite Hs, Hsb by done. intros Hn. split; [by apply O4|]. by apply Hk, Hown.
    + intros k k' H1 H2. rewrite !Hs by done. by apply O5.
  - intros p Hp. assert (p / BSIZE < MAXFILE)%nat by (apply Nat.Div0.div_lt_upper_bound; lia).
    unfold byte. rewrite Hs by lia. case_decide; [done|]. destruct (Hk (slot s y (p / BSIZE))) as [-> _]; [apply Hown; [lia|done]|done].
Qed.

Definition disjoint (s : fsst) (x y : inode) : Prop := ∀ b, owned s x b → ¬ owned s y b.

Lemma other_file s x s' x' y :
  FInv d s → grew s x s' x' → FileOk s y → disjoint s x y →
  FileOk s' y ∧ disjoint s' x' y ∧ ∀ p, (p < MAXFILE * BSIZE)%nat → byte s' y p = byte s y p.
Proof.
  intros HF [Hsb Hdev Hu Hk Ho] HO Hd. destruct (file_frame s s' y HO Hsb) as (HO' & Hs & Hbyte).
  { intros b Hb. destruct (owned_use _ _ _ HO Hb) as [Hr Hbu]. pose proof (so_bounds _ (fi_sb _ _ HF)). unfold dstart in Hr.
    split; [apply Hk; [lia|done|lia|]|apply Hu; [lia|done]]. intros Hx. by apply (Hd b). }
  split; [done|]. split; [|done]. intros b Hb [Hb0 (k & Hkm & E)]. rewrite Hs in E by done.
  assert (owned s y b) as Hy by (split; [done|by exists k]).
  destruct (Ho b Hb) as [Hx|Hfree]; [by apply (Hd b)|]. destruct (owned_use _ _ _ HO Hy) as [_ ?]. congruence.
Qed.

Lemma disk_inode_grew s x s' x' n :
  FInv d s → FileOk s x → grew s x s' x' → 0 ≤ n < sb_ninodes (sb s) → disk_inode d s' n = disk_inode d s n.
Proof.
  intros HF HO [Hsb Hdev Hu Hk Ho] Hn. pose proof (so_bounds _ (fi_sb _ _ HF)). pose proof (IBLOCK_range _ _ (fi_sb _ _ HF) Hn).
  unfold disk_inode. rewrite Hsb, Hk; [done|lia|apply (fi_meta _ _ HF); unfold dstart; lia|lia|].
  intros [Hr _]%owned_use; [|done]. unfold dstart in Hr. lia.
Qed.

Lemma DinodeOk_file s x x' :
  FileOk s x' → FInv d s → DinodeOk (dinode_of x) → x' = set_i_addrs (i_addrs x') (set_i_size (i_size x') x) → DinodeOk (dinode_of x').
Proof.
  intros HO HF [H1 H2 H3 H4 H5 H6 H7 H8 H9 H10] E. pose proof (fo_size _ _ HO) as Hsz. pose proof (fo_len _ _ HO) as Hl.
  pose proof maxfile_bytes. pose proof (so_bounds _ (fi_sb _ _ HF)).
  unfold dinode_of in *. cbn [d_type d_major d_minor d_nlink d_uid d_gid d_mode d_size d_addrs] in *.
  split; cbn [d_type d_major d_minor d_nlink d_uid d_gid d_mode d_size d_addrs]; try (rewrite E; assumption); [unfold is_u32; lia|].
  apply Forall_lookup_2. intros k a Ha. assert (k < S NDIRECT)%nat by (rewrite <- Hl; by eapply lookup_lt_Some).
  assert (∃ k', (k' ≤ MAXFILE)%nat ∧ slot s x' k' = a) as (k' & Hk' & Es).
  { apply list_lookup_total_correct in Ha. destruct (decide (k < NDIRECT)%nat).
    - exists k. split; [unfold MAXFILE; lia|]. unfold slot. by rewrite decide_True.
    - exists MAXFILE. split; [lia|]. assert (k = NDIRECT) as -> by lia. done. }
  unfold is_u32. destruct (decide (a = 0)); [lia|]. destruct (slot_meta s x' k' HF HO Hk') as (_ & _ & ?); [congruence|]. lia.
Qed.

(** The on-disk copy of the inode is up to date. *)
Definition synced (s : fsst) (x : inode) : Prop := disk_inode d s (i_inum x) = dinode_of x.

(** [src] has been written at offset [o] of the file of the cached inode [i],
    and nothing else has changed. *)
Record written (i : nat) (s : fsst) (x : inode) (o : nat) (src : list Z) (s' : fsst) (x' : inode) : Prop := {
  w_cache : icache s' = <[i := x']> (icache s);
  w_finv : FInv d s';
  w_file : FileOk s' x';
  w_holes : no_holes s' x';
  w_synced : synced s' x';
  w_attr : x' = set_i_addrs (i_addrs x') (set_i_size (Z.max (i_size x) (Z.of_nat (o + length src))) x);
  w_byte p : (p < MAXFILE * BSIZE)%nat → byte s' x' p = overwrite (byte s x) o src p;
  w_inode n : 0 ≤ n < sb_ninodes (sb s) → n ≠ i_inum x → disk_inode d s' n = disk_inode d s n;
  w_other y : FileOk s y → disjoint s x y →
    FileOk s' y ∧ disjoint s' x' y ∧ ∀ p, (p < MAXFILE * BSIZE)%nat → byte s' y p = byte s y p;
  w_sb : sb s' = sb s
}.

Lemma written_inside i s x o src s1 :
  FInv d s → FileOk s x → no_holes s x → synced s x → icache s !! i = Some x → 0 ≤ i_inum x < sb_ninodes (sb s) →
  Z.of_nat (o + length src) ≤ i_size x →
  filed i s x s1 x (overwrite (byte s x) o src) → written i s x o src s1 x.
Proof.
  intros HF HO Hh Hsy Hx Hn Hin [F1 O1 G1 C1 S1 B1 L1]. pose proof (fo_size _ _ HO) as Hsz. split; [done|done|done| | | |done| | |].
  - intros p Hp. pose proof (pos_block p 1 ltac:(lia) ltac:(lia)). rewrite L1; [by apply Hh|lia|by apply Hh].
  - unfold synced. rewrite <- Hsy. by eapply disk_inode_grew.
  - rewrite Z.max_l by lia. by destruct x.
  - intros n Hnr _. by eapply disk_inode_grew.
  - intros y Hy Hdis. by apply (other_file s x).
  - apply G1.
Qed.

(** The last step of an extending write: the new size, and [iupdate]. *)
Lemma written_extend i s x o src s1 x1 :
  FInv d s → FileOk s x → no_holes s x → icache s !! i = Some x → 0 ≤ i_inum x < sb_ninodes (sb s) → DinodeOk (dinode_of x) →
  (Z.of_nat o ≤ i_size x < Z.of_nat (o + length src)) → (o + length src ≤ MAXFILE * BSIZE)%nat →
  filed i s x s1 x1 (overwrite (byte s x) o src) → mapped_range s1 x1 o (length src) →
  let x2 := set_i_size (Z.of_nat (o + length src)) x1 in
  let s2 := set_icache (<[i := x2]> (icache s1)) s1 in
  FInv d s2 ∧ DinodeOk (dinode_of x2) ∧ written i s x o src (updated d x2 s2) x2.
Proof.
  intros HF HO Hh Hx Hn Hdi Hsz Hmax HM Hmap x2 s2. destruct (HM) as [F1 O1 G1 C1 S1 B1 L1].
  assert (i_inum x2 = i_inum x) as Einum by (unfold x2; rewrite S1; done).
  assert (FInv d s2) as F2 by (apply FInv_icache; [done|rewrite length_insert; apply F1]).
  assert (FileOk s1 x2) as O2.
  { destruct O1 as [P1 P2 P3 P4 P5]. split; [done|done|change (i_size x2) with (Z.of_nat (o + length src)); lia|done|done]. }
  assert (x2 = set_i_addrs (i_addrs x2) (set_i_size (i_size x2) x)) as Ex2 by (unfold x2; rewrite S1; done).
  assert (DinodeOk (dinode_of x2)) as D2 by by eapply DinodeOk_file.
  assert (sb s2 = sb s) as Esb by apply G1.
  assert (∀ b, dstart (sb s) ≤ b → blk (updated d x2 s2) d b = blk s1 d b) as Eb.
  { intros b Hb. unfold updated. rewrite blk_stored, decide_False; [done|]. rewrite Einum, Esb.
    pose proof (IBLOCK_range _ _ (fi_sb _ _ HF) Hn). unfold dstart in Hb. lia. }
  assert (∀ b, dstart (sb s) ≤ b < sb_size (sb s) → in_use d (updated d x2 s2) b = in_use d s1 b) as Eu.
  { intros b Hb. pose proof (IBLOCK_range _ _ (fi_sb _ _ HF) Hn). pose proof (so_bounds _ (fi_sb _ _ HF)). unfold dstart in Hb.
    unfold in_use. change (sb (updated d x2 s2)) with (sb s2). change (sb s1) with (sb s2). rewrite Esb. rewrite (BBLOCK_small _ _ (fi_sb _ _ HF)) by lia.
    unfold updated. rewrite blk_stored, decide_False; [done|]. rewrite Einum, Esb. lia. }
  assert (∀ y, FileOk s1 y → FileOk (updated d x2 s2) y ∧ (∀ k, (k ≤ MAXFILE)%nat → slot (updated d x2 s2) y k = slot s1 y k) ∧
    ∀ p, (p < MAXFILE * BSIZE)%nat → byte (updated d x2 s2) y p = byte s1 y p) as Hfile.
  { intros y Hy. apply file_frame; [done|done|]. intros b Hb. destruct (owned_use _ _ _ Hy Hb) as [Hr Hu].
    rewrite (g_sb _ _ _ _ G1) in Hr. split; [apply Eb; lia|by rewrite Eu]. }
  destruct (Hfile x2 O2) as (O3 & Hs3 & Hb3).
  split; [done|]. split; [done|]. split.
  - change (icache (updated d x2 s2)) with (<[i := x2]> (icache s1)). by rewrite C1, list_insert_insert_eq.
  - apply FInv_updated; [done|done|by rewrite Einum, Esb].
  - done.
  - intros p Hp. change (i_size x2) with (Z.of_nat (o + length src)) in Hp. pose proof (pos_block p 1 ltac:(lia) ltac:(lia)). rewrite Hs3 by lia.
    destruct (decide (p < o)%nat); [|apply Hmap; lia]. change (slot s1 x2 (p / BSIZE)) with (slot s1 x1 (p / BSIZE)).
    rewrite L1; [apply Hh; lia|lia|apply Hh; lia].
  - unfold synced. rewrite disk_inode_updated by done. by rewrite decide_True.
  - by rewrite Z.max_r by lia.
  - intros p Hp. rewrite Hb3 by done. by apply B1.
  - intros n Hnr Hne. rewrite disk_inode_updated by done. rewrite Einum, decide_False by done.
    change (disk_inode d s2 n) with (disk_inode d s1 n). by eapply disk_inode_grew.
  - intros y Hy Hdis. destruct (other_file s x s1 x1 y HF G1 Hy Hdis) as (Hy1 & Hdis1 & Hb1). destruct (Hfile y Hy1) as (Hy2 & Hs2 & Hb2).
    split; [done|]. split; [|intros p Hp; by rewrite Hb2, Hb1].
    intros b [Hb0 (k & Hk & E)] [_ (k' & Hk' & E')]. rewrite Hs3 in E by done. rewrite Hs2 in E' by done.
    apply (Hdis1 b); split; try done; [by exists k|by exists k'].
  - exact Esb.
Qed.

Lemma writei_spec i s x o src :
  FInv d s → FileOk s x → no_holes s x → synced s x → icache s !! i = Some x → i_type x ≠ T_DEV →
  0 ≤ i_inum x < sb_ninodes (sb s) → DinodeOk (dinode_of x) → Z.of_nat o ≤ i_size x → (o + length src ≤ MAXFILE * BSIZE)%nat →
  wpp ok (writei i src (Z.of_nat o) (Z.of_nat (length src))) s
    (λ r s', r = Z.of_nat (length src) ∧ ∃ x', written i s x o src s' x').
Proof.
  intros HF HO Hh Hsy Hx Ht Hn Hdi Ho Hmax. pose proof maxfile_bytes as Emax. pose proof (fo_size _ _ HO) as Hsz.
  unfold writei, geti. wp_steps. eapply wpp_lookupM; [done|]. rewrite decide_False by done.
  rewrite <- Nat2Z.inj_add. rewrite u32_small by (unfold is_u32; lia). rewrite decide_False by lia. rewrite decide_False by lia. wp_steps.
  wp_call writei_loop_spec; [done|done|done|done|apply enough_start|]. intros off' s1 (-> & x1 & HM & Hmap & Hsame). wp_steps.
  rewrite i32_small by (unfold is_i32; lia).
  pose proof (filed_lookup _ _ _ _ _ _ Hx HM) as Hx1. eapply wpp_lookupM; [done|].
  assert (i_size x1 = i_size x) as Es by (rewrite (m_same _ _ _ _ _ _ HM); done). rewrite Es. wp_steps. case_decide as He.
  - destruct He as [He1 He2].
    destruct (written_extend i s x o src s1 x1) as (F2 & D2 & W2); try done.
    set (x2 := set_i_size (Z.of_nat (o + length src)) x1) in *. set (s2 := set_icache (<[i := x2]> (icache s1)) s1) in *.
    wp_steps. apply (wpp_seti i _ _ x1); [done|]. fold x2 s2.
    wp_call (iupdate_spec d ok s2 i x2); [done|by apply list_lookup_insert_eq; eapply lookup_lt_Some|apply (fo_dev _ _ (w_file _ _ _ _ _ _ _ W2))| |by left|].
    { unfold x2. rewrite (m_same _ _ _ _ _ _ HM). change (sb s2) with (sb s1). rewrite (g_sb _ _ _ _ (m_grew _ _ _ _ _ _ HM)). done. }
    intros _ s3 ->. wp_steps. split; [done|]. by exists x2.
  - wp_steps. split; [done|]. exists x. assert (x1 = x) as ->.
    { apply Hsame. intros p Hp. apply Hh. lia. }
    destruct (decide (length src = 0)%nat) as [E0|]; [|apply written_inside; try done; lia].
    apply written_inside; try done. lia.
Qed.
End File.

(** ** Claims *)

Section FileClaims.
Context `{Devices}.

(** C34: [readi] reads the file: for a file without holes it gives the bytes of
    the contents from the offset on, as many as asked for and there are, and
    changes nothing; an offset past the end or a range that wraps around 2^32
    gives -1. *)
Theorem readi_reads (d : Z) (s : fsst) (i : nat) (x : inode) (off n : Z) :
  FInv d s → FileOk d s x → no_holes d s x → icache s !! i = Some x → i_type x ≠ T_DEV → is_u32 off → is_u32 n →
  readi i off n s =
    if decide (i_size x < off ∨ 2 ^ 32 ≤ off + n) then Ret (-1, []) s
    else Ret (read_len (i_size x) off n, byte d s x <$> seq (Z.to_nat off) (Z.to_nat (read_len (i_size x) off n))) s.
Proof. apply readi_spec. Qed.

(** C10: [writei] writes the file: a write that starts inside the file and
    fits into MAXFILE blocks replaces exactly the bytes of its range, extends
    the size if it ends past it, leaves the file without holes and its inode
    on the disk up to date, and leaves every other inode and the contents of
    every other file alone; reading the range back gives what was written.
    Any other write returns -1 and changes nothing.  The only panics are those
    of a full disk and of a full log. *)
Theorem writei_writes (d : Z) (s : fsst) (i : nat) (x : inode) (src : list Z) (off : Z) :
  FInv d s → FileOk d s x → no_holes d s x → synced d s x → icache s !! i = Some x → i_type x ≠ T_DEV →
  0 ≤ i_inum x < sb_ninodes (sb s) → DinodeOk (dinode_of x) → is_u32 off → is_u32 (Z.of_nat (length src)) →
  let n := Z.of_nat (length src) in
  if decide (i_size x < off ∨ Z.of_nat (MAXFILE * BSIZE) < off + n) then writei i src off n s = Ret (-1) s
  else
    wpp (λ m, m = TOO_BIG ∨ m = NO_BLOCKS) (writei i src off n) s (λ r s', r = n ∧
      ∃ x', written d i s x (Z.to_nat off) src s' x' ∧ readi i off n s' = Ret (n, src) s').
Proof.
  intros HF HO Hh Hsy Hx Ht Hn Hdi Hoff Hlen n. unfold is_u32 in Hoff, Hlen. fold n in Hlen. pose proof maxfile_bytes as Emax.
  pose proof (fo_size _ _ _ HO) as Hsz. case_decide as Hd.
  - unfold writei, geti, mbind, M_bind, lookupM. rewrite Hx. rewrite decide_False by done.
    assert (off + n < 2 ^ 32 → u32 (off + n) = off + n) as Hu by (intros; apply u32_small; unfold is_u32; lia).
    pose proof (u32_wraps off n Hoff Hlen) as Hw.
    destruct (decide (i_size x < off ∨ u32 (off + n) < off)); [done|]. by rewrite decide_True by lia.
  - set (o := Z.to_nat off). replace off with (Z.of_nat o) by lia. subst n.
    eapply wpp_mono; [apply (writei_spec d); try done; [by left|by right|lia|lia]|].
    intros r s' (-> & x' & HW). split; [done|]. exists x'. split; [done|].
    destruct (HW) as [C1 F1 O1 H1 S1 A1 B1 I1 Y1 _].
    assert (i_size x' = Z.max (i_size x) (Z.of_nat (o + length src))) as Es by (rewrite A1; done).
    rewrite (readi_spec d _ _ x'); [|done|done|done|rewrite C1; apply list_lookup_insert_eq; by eapply lookup_lt_Some|by rewrite A1|unfold is_u32; lia|unfold is_u32; lia].
    rewrite decide_False by lia. unfold read_len. rewrite Z.min_l by lia. rewrite !Nat2Z.id. do 2 f_equal.
    apply list_eq. intros k. rewrite list_lookup_fmap. destruct (decide (k < length src)%nat) as [Hk|].
    + rewrite lookup_seq_lt by done. cbn [fmap option_fmap option_map]. rewrite B1 by lia. unfold overwrite. rewrite decide_True by lia.
      replace (o + k - o)%nat with k by lia. symmetry. by apply list_lookup_lookup_total_lt.
    + rewrite lookup_seq_ge by lia. symmetry. apply lookup_ge_None. lia.
Qed.
End FileClaims.

(** ** Instances *)

(** A file without blocks. *)
Lemma empty_slot d s x k : i_addrs x = replicate (S NDIRECT) 0 → slot d s x k = 0.
Proof.
  intros E. unfold slot. rewrite E. change (replicate (S NDIRECT) 0 !!! NDIRECT) with 0. rewrite (decide_True (P := 0 = 0)) by reflexivity.
  destruct (decide (k < NDIRECT)%nat); [apply lookup_total_replicate_2; lia|by destruct (decide (k = MAXFILE))].
Qed.

Lemma empty_FileOk d s x : i_dev x = d → i_addrs x = replicate (S NDIRECT) 0 → i_size x = 0 → FileOk d s x ∧ no_holes d s x.
Proof.
  intros Hd E Hs. split; [|intros p; rewrite Hs; cbn; lia].
  split; [done|by rewrite E|rewrite Hs, maxfile_bytes; lia| |]; intros k; intros; exfalso; by eauto using empty_slot.
Qed.

#[local] Instance no_devices : Devices := {| dev_read := λ _, None; dev_write := λ _, None |}.

(** A file with one block, holding [hi], and an empty one. *)
Definition hi_inode : inode := mkInode 1 2 1 true true T_FILE 0 0 1 0 0 493 2 (5 :: replicate NDIRECT 0).
Definition hi_fs : fsst :=
  fs_of (hi_inode :: replicate (NINODE - 1) inode0)
    (λ n, if decide (n = 5) then 104 :: 105 :: replicate (BSIZE - 2) 0 else replicate BSIZE 0) [63; 0].

Lemma hi_FInv : FInv 1 hi_fs.
Proof.
  apply fs_of_FInv; [reflexivity| |reflexivity]. intros n. case_decide; [reflexivity|apply length_replicate].
Qed.

Lemma hi_slot k : slot 1 hi_fs hi_inode k = if decide (k = 0)%nat then 5 else 0.
Proof.
  unfold slot. destruct k as [|k]; [reflexivity|]. rewrite (decide_False (P := S k = 0%nat)) by lia.
  change (i_addrs hi_inode !!! NDIRECT) with 0. rewrite (decide_True (P := 0 = 0)) by reflexivity. cbn [i_addrs hi_inode].
  destruct (decide (S k < NDIRECT)%nat); [|by destruct (decide (S k = MAXFILE))].
  change ((5 :: replicate NDIRECT 0) !!! S k) with (replicate NDIRECT 0 !!! k). apply lookup_total_replicate_2. lia.
Qed.

Lemma hi_FileOk : FileOk 1 hi_fs hi_inode.
Proof.
  split; [reflexivity|reflexivity|rewrite maxfile_bytes; cbn; lia| |].
  - intros k _. rewrite hi_slot. destruct (decide (k = 0)%nat); [|congruence]. intros _. split; [unfold dstart; cbn; lia|by vm_compute].
  - intros k k' _ _. rewrite !hi_slot. destruct (decide (k = 0)%nat), (decide (k' = 0)%nat); congruence.
Qed.

Lemma hi_no_holes : no_holes 1 hi_fs hi_inode.
Proof.
  intros p Hp. change (Z.to_nat (i_size hi_inode)) with 2%nat in Hp. rewrite hi_slot, Nat.div_small by (unfold BSIZE; lia). by rewrite decide_True.
Qed.

Lemma readi_reads_witness : readi 0 1 10 hi_fs = Ret (1, [105]) hi_fs.
Proof.
  rewrite (readi_reads 1 hi_fs 0 hi_inode 1 10 hi_FInv hi_FileOk hi_no_holes);
    [by vm_compute|reflexivity|discriminate|unfold is_u32; lia|unfold is_u32; lia].
Defined.

Definition empty_fs : fsst := updated 1 inode7 fs7.

Lemma empty_FInv : FInv 1 empty_fs.
Proof. apply FInv_updated; [exact fs7_FInv|exact inode7_ok|cbn; lia]. Qed.

Lemma writei_writes_witness :
  wpp (λ m, m = TOO_BIG ∨ m = NO_BLOCKS) (writei 3 [1; 2; 3] 0 3) empty_fs (λ r s', r = 3 ∧
    ∃ x', written 1 3 empty_fs inode7 0 [1; 2; 3] s' x' ∧ readi 3 0 3 s' = Ret (3, [1; 2; 3]) s').
Proof.
  destruct (empty_FileOk 1 empty_fs inode7 eq_refl eq_refl eq_refl) as [HO Hh].
  assert (synced 1 empty_fs inode7) as Hsy.
  { unfold synced, empty_fs. rewrite disk_inode_updated; [by rewrite decide_True|exact fs7_FInv|exact inode7_ok]. }
  pose proof (writei_writes 1 empty_fs 3 inode7 [1; 2; 3] 0 empty_FInv HO Hh Hsy) as W. cbv zeta in W.
  rewrite decide_False in W by (rewrite maxfile_bytes; cbn; lia).
  apply W; [reflexivity|discriminate|cbn; lia|exact inode7_ok|unfold is_u32; lia|unfold is_u32; cbn; lia].
Defined.
