(* ===== verification/FsPath.v ===== *)
(** * Path names (fs.c: skipelem)

    [skipelem] against the elements of a path: the non-empty parts between
    slashes. *)

From S2P Require Import Prelude CString Layout Fs.

Local Open Scope Z_scope.

(** The parts of [p] between slashes, the empty ones included. *)
Fixpoint parts (p : list Z) : list Z * list (list Z) :=
  match p with
  | [] => ([], [])
  | c :: p' => let '(e, es) := parts p' in if decide (c = 47) then ([], e :: es) else (c :: e, es)
  end.
Definition elems (p : list Z) : list (list Z) := filter (λ e, e ≠ []) ((parts p).1 :: (parts p).2).

(** What [skipelem] leaves in the name buffer for an element. *)
Definition name_of (e name : list Z) : list Z :=
  if decide (DIRSIZ ≤ length e)%nat then take DIRSIZ e else e ++ 0 :: drop (S (length e)) name.

Definition no_nul (p : list Z) : Prop := Forall (λ c, c ≠ 0) p.
Definition no_slash (e : list Z) : Prop := Forall (λ c, c ≠ 47) e.

Lemma elems_nil : elems [] = [].
Proof. done. Qed.

Lemma elems_slash p : elems (47 :: p) = elems p.
Proof. unfold elems. cbn [parts]. destruct (parts p) as [e es]. rewrite decide_True by done. done. Qed.

Lemma parts_app e q : no_slash e → parts (e ++ q) = (e ++ (parts q).1, (parts q).2).
Proof.
  induction 1 as [|c e Hc _ IH]; [cbn [app]; by destruct (parts q)|]. cbn [parts app]. rewrite IH. by rewrite decide_False.
Qed.

Lemma elems_elem e q : no_slash e → e ≠ [] → q = [] ∨ head q = Some 47 → elems (e ++ q) = e :: elems q.
Proof.
  intros Hs He Hq. unfold elems. rewrite parts_app by done. cbn [fst snd].
  assert ((parts q).1 = []) as E.
  { destruct Hq as [->|Hq]; [done|]. destruct q as [|c q]; [done|]. injection Hq as ->. cbn [parts]. destruct (parts q). by rewrite decide_True. }
  rewrite E, app_nil_r, !filter_cons. rewrite decide_True by done. by rewrite decide_False by (intros ?; done).
Qed.

(** ** The two loops *)

Lemma skip_slashes_spec p : no_nul p →
  ∃ q, skip_slashes (p ++ [0]) = Some (q ++ [0]) ∧ no_nul q ∧ elems q = elems p ∧ head q ≠ Some 47 ∧ (length q ≤ length p)%nat.
Proof.
  induction 1 as [|c p Hc Hp IH]; [exists []; split_and!; [done|constructor|done|done|done]|]. cbn [skip_slashes app]. destruct (decide (c = 47)) as [->|Hs].
  - destruct IH as (q & E & Hq & He & Hh & Hl). exists q. rewrite elems_slash. cbn. split_and!; try done. lia.
  - exists (c :: p). split_and!; [done|by constructor|done|cbn; congruence|done].
Qed.

Lemma span_elem_spec p : no_nul p →
  ∃ e q, p = e ++ q ∧ span_elem (p ++ [0]) = Some (e, q ++ [0]) ∧ no_slash e ∧ (q = [] ∨ head q = Some 47).
Proof.
  induction 1 as [|c p Hc Hp IH].
  - exists [], []. split_and!; [done|done|constructor|by left].
  - cbn [span_elem app]. destruct (decide (c = 47 ∨ c = 0)) as [Hs|Hs].
    + exists [], (c :: p). split_and!; [done|done|constructor|right]. cbn. f_equal. tauto.
    + destruct IH as (e & q & -> & E & He & Hq). exists (c :: e), q. rewrite E. split_and!; [done|done| |done].
      constructor; [tauto|done].
Qed.

(** [skipelem] takes a path apart element by element: on a string without
    elements (empty, or all slashes) it returns null; otherwise it puts the
    first element, cut to DIRSIZ bytes and NUL-terminated if shorter, into the
    name buffer, and returns the rest of the path without leading slashes,
    which is the empty string exactly if that element was the last. *)
Theorem skipelem_splits_path (p name : list Z) :
  no_nul p → length name = DIRSIZ →
  match elems p with
  | [] => skipelem (p ++ [0]) name = Some None
  | e :: es => ∃ q,
      skipelem (p ++ [0]) name = Some (Some (q ++ [0], name_of e name)) ∧
      no_nul q ∧ elems q = es ∧ (q = [] ↔ es = []) ∧ (length q < length p)%nat ∧ length (name_of e name) = DIRSIZ
  end.
Proof.
  intros Hp Hn. destruct (skip_slashes_spec p Hp) as (q & E & Hq & He & Hh & Hl). unfold skipelem. rewrite E, <- He. cbn [mbind option_bind].
  destruct q as [|c q]; [by rewrite elems_nil|]. cbn [app]. inversion Hq as [|? ? Hc Hq']; subst.
  rewrite decide_False by done. destruct (span_elem_spec (c :: q) Hq) as (e & r & Er & E2 & Hs & Hr).
  assert (e ≠ []) as Hne by (intros ->; cbn in Er; subst r; destruct Hr; [done|cbn in *; congruence]).
  change (c :: q ++ [0]) with ((c :: q) ++ [0]). rewrite E2, Er, elems_elem by done. cbn [mbind option_bind].
  assert (no_nul r) as Hr0 by (rewrite Er in Hq; by apply Forall_app in Hq as [_ ?]).
  destruct (skip_slashes_spec r Hr0) as (t & E3 & Ht & Het & Hht & Hlt). rewrite E3. cbn [mbind option_bind].
  exists t. split; [done|]. split; [done|]. split; [done|]. split.
  - rewrite <- Het. split; [by intros ->|]. destruct t as [|c' t]; [done|]. destruct (span_elem_spec (c' :: t) Ht) as (e' & r' & Er' & _ & Hs' & Hr').
    rewrite Er', elems_elem; [done|done| |done]. intros ->. cbn in Er'. subst r'. destruct Hr'; [done|congruence].
  - apply (f_equal length) in Er. rewrite length_app in Er. cbn [length] in Er, Hl. assert (0 < length e)%nat by (destruct e; [done|cbn; lia]).
    split; [lia|]. unfold name_of. case_decide as Hd; [rewrite length_take; lia|]. rewrite length_app. cbn [length]. rewrite length_drop. lia.
Qed.

(** [skipelem("///a//bb", name) = "bb", setting name = "a"] *)
Lemma skipelem_splits_path_witness :
  ∃ q, skipelem [47; 47; 47; 97; 47; 47; 98; 98; 0] (replicate DIRSIZ 0) = Some (Some (q ++ [0], 97 :: replicate 13 0)) ∧ elems q = [[98; 98]].
Proof.
  destruct (skipelem_splits_path [47; 47; 47; 97; 47; 47; 98; 98] (replicate DIRSIZ 0)) as (q & E & _ & Hq & _);
    [by repeat constructor|done|]. by exists q.
Defined.
