(* ===== verification/FsDir.v ===== *)
(** * Directories (fs.c: dirlookup, dirlink)

    A directory is a file of 16-byte entries.  [dirlookup] finds the first
    entry in use with the given name, [dirlink] adds an entry that it then
    finds, and the other names keep their inodes. *)

From S2P Require Import Prelude CString Layout Fs FsBlocks FsInode FsFile.

Local Open Scope Z_scope.

(** ** Names *)

(** A name of at most DIRSIZ characters: the bytes before a NUL, or DIRSIZ. *)
Definition ename (p : list Z) : list Z := take DIRSIZ (cstr p).
Definition readable (n : nat) (p : list Z) : Prop := terminated p ∨ (n ≤ length p)%nat.

Lemma readable_cons n c p : readable (S n) (c :: p) → c ≠ 0 → readable n p.
Proof. intros [Ht|Hl] Hc; [left|right; cbn in Hl; lia]. by apply elem_of_cons in Ht as [|]. Qed.
Lemma readable_nil n : ¬ readable (S n) [].
Proof. intros [Ht|Hl]; [by apply elem_of_nil in Ht|cbn in Hl; lia]. Qed.

Lemma strncmp_names p q n :
  readable n p → readable n q → ∃ r, strncmp p q n = Some r ∧ (r = 0 ↔ take n (cstr p) = take n (cstr q)).
Proof.
  revert p q. induction n as [|n IH]; intros p q Hp Hq; cbn [strncmp]; [by exists 0|].
  destruct p as [|a p]; [by apply readable_nil in Hp|]. destruct q as [|b q]; [by apply readable_nil in Hq|]. cbn [cstr].
  destruct (decide (a = 0)) as [->|Ha]; destruct (decide (b = 0)) as [->|Hb]; cbn [take].
  - rewrite decide_False by tauto. by exists 0.
  - rewrite decide_False by tauto. eexists. split; [done|]. split; [lia|done].
  - rewrite decide_False by lia. eexists. split; [done|]. split; [lia|done].
  - destruct (decide (a = b)) as [->|Hab].
    + rewrite decide_True by done. destruct (IH p q) as (r & -> & Hr); [by eapply readable_cons|by eapply readable_cons|].
      exists r. split; [done|]. rewrite Hr. split; congruence.
    + rewrite decide_False by tauto. eexists. split; [done|]. split; [lia|congruence].
Qed.

Lemma zero_fill_spec s n : (n ≤ length s)%nat → zero_fill s n = Some (replicate n 0 ++ drop n s).
Proof.
  revert s. induction n as [|n IH]; intros s Hn; [done|]. destruct s as [|c s]; [cbn in Hn; lia|]. cbn in Hn |- *.
  by rewrite IH by lia.
Qed.

Lemma cstr_zeros n s : cstr (replicate (S n) 0 ++ s) = [].
Proof. done. Qed.

Lemma strncpy_spec t n : readable n t →
  ∃ r, strncpy (replicate n 0) t n = Some r ∧ length r = n ∧ take n (cstr r) = take n (cstr t).
Proof.
  revert t. induction n as [|n IH]; intros t Ht; [by exists []|].
  destruct t as [|c t]; [by apply readable_nil in Ht|]. cbn [strncpy replicate cstr].
  destruct (decide (c = 0)) as [->|Hc].
  - rewrite zero_fill_spec by (rewrite length_replicate; lia). eexists. split; [done|].
    rewrite drop_ge, app_nil_r by (rewrite length_replicate; lia). cbn. by rewrite length_replicate.
  - destruct (IH t) as (r & -> & Hl & Hr); [by eapply readable_cons|]. exists (c :: r). split; [done|]. cbn.
    rewrite decide_False by done. cbn. by rewrite Hl, Hr.
Qed.

(** ** Entries *)

Lemma dirent_roundtrip e : length (de_name e) = DIRSIZ → 0 ≤ de_inum e < 2 ^ 16 →
  length (encode_dirent e) = sizeof_dirent ∧ decode_dirent (encode_dirent e) = e.
Proof.
  intros Hl Hi. unfold encode_dirent, decode_dirent. rewrite length_app, length_le_enc, Hl. split; [done|].
  destruct e as [n nm]. cbn [de_inum de_name] in *. f_equal.
  - unfold get_le, slice. rewrite drop_0. rewrite take_app_le by (by rewrite length_le_enc). rewrite take_ge by (by rewrite length_le_enc).
    rewrite le_dec_enc. apply Z.mod_small. exact Hi.
  - unfold slice. rewrite drop_app_ge by (by rewrite length_le_enc). rewrite length_le_enc. cbn [Nat.sub drop]. apply take_ge. lia.
Qed.

Section Dir.
Context (d : Z).

Definition dent (s : fsst) (x : inode) (k : nat) : dirent := decode_dirent (byte d s x <$> seq (sizeof_dirent * k) sizeof_dirent).
Definition nents (x : inode) : nat := Z.to_nat (i_size x / Z.of_nat sizeof_dirent).
Definition dents (s : fsst) (x : inode) : list dirent := dent s x <$> seq 0 (nents x).

(** The entry is in use, under the name [e]. *)
Definition names (e : list Z) (de : dirent) : Prop := de_inum de ≠ 0 ∧ ename (de_name de) = e.
#[export] Instance names_dec e de : Decision (names e de).
Proof. unfold names. apply _. Defined.

(** The inode that the directory gives for a name. *)
Definition dir_inum (s : fsst) (x : inode) (e : list Z) : option Z := de_inum <$> head (filter (names e) (dents s x)).

Record DirOk (s : fsst) (x : inode) : Prop := {
  dk_file : FileOk d s x;
  dk_holes : no_holes d s x;
  dk_type : i_type x = T_DIR;
  dk_size : i_size x = Z.of_nat (sizeof_dirent * nents x)
}.

Lemma length_dents s x : length (dents s x) = nents x.
Proof. unfold dents. by rewrite length_fmap, length_seq. Qed.
Lemma lookup_dents s x k : (k < nents x)%nat → dents s x !! k = Some (dent s x k).
Proof. intros Hk. unfold dents. by rewrite list_lookup_fmap, lookup_seq_lt. Qed.

Lemma dent_name s x k : length (de_name (dent s x k)) = DIRSIZ.
Proof. unfold dent, decode_dirent, slice. cbn [de_name]. rewrite length_take, length_drop, length_fmap, length_seq. done. Qed.

Context `{Devices}.

Lemma readi_dent i s x k :
  FInv d s → DirOk s x → icache s !! i = Some x → (k < nents x)%nat →
  ∃ l, readi i (Z.of_nat (sizeof_dirent * k)) (Z.of_nat sizeof_dirent) s = Ret (Z.of_nat sizeof_dirent, l) s ∧ decode_dirent l = dent s x k.
Proof.
  intros HF [HO Hh Ht Hs] Hx Hk. pose proof (fo_size _ _ _ HO). pose proof maxfile_bytes. unfold sizeof_dirent in *.
  eexists. split; [|reflexivity]. rewrite (readi_spec d _ _ x); [|done|done|done|done|by rewrite Ht|unfold is_u32; lia|unfold is_u32; lia].
  rewrite decide_False by lia. unfold read_len. rewrite Z.min_l by lia. by rewrite !Nat2Z.id.
Qed.

(** ** dirlookup *)

(** The scan from entry [k] on. *)
Lemma dirlookup_loop_spec dp s x name : FInv d s → DirOk s x → icache s !! dp = Some x → readable DIRSIZ name → ∀ f k,
  (k ≤ nents x)%nat → (nents x - k ≤ f)%nat →
  dirlookup_loop f dp name (Z.of_nat (sizeof_dirent * k)) s =
    match list_find (names (ename name)) (drop k (dents s x)) with
    | None => Ret None s
    | Some (j, de) => (ip ← iget d (de_inum de); mret (Some (ip, Z.of_nat (sizeof_dirent * (k + j))))) s
    end.
Proof.
  intros HF HD Hx Hn. pose proof (dk_size _ _ HD) as Hs. pose proof (fo_size _ _ _ (dk_file _ _ HD)) as Hsz. pose proof maxfile_bytes as Emax.
  induction f as [|f IH]; intros k Hk Hf; cbn [dirlookup_loop]; unfold geti; unfold mbind at 1, M_bind at 1, lookupM at 1; rewrite Hx, Hs.
  - rewrite decide_False by (unfold sizeof_dirent; lia). rewrite drop_ge by (rewrite length_dents; lia). done.
  - destruct (decide (k = nents x)) as [->|Hne].
    { rewrite decide_False by lia. rewrite drop_ge by (rewrite length_dents; lia). done. }
    rewrite decide_True by (unfold sizeof_dirent; lia). destruct (readi_dent dp s x k HF HD Hx) as (l & E & El); [lia|].
    unfold mbind at 1, M_bind at 1. rewrite E. cbn [fst snd]. rewrite decide_False by congruence. rewrite El.
    rewrite (drop_S _ (dent s x k)) by (apply lookup_dents; lia). cbn [list_find].
    assert (u32 (Z.of_nat (sizeof_dirent * k) + Z.of_nat sizeof_dirent) = Z.of_nat (sizeof_dirent * S k)) as Eoff.
    { rewrite u32_small; unfold is_u32, sizeof_dirent in *; lia. }
    assert (dirlookup_loop f dp name (Z.of_nat (sizeof_dirent * S k)) s =
      match prod_map S id <$> list_find (names (ename name)) (drop (S k) (dents s x)) with
      | None => Ret None s
      | Some (j, de) => (ip ← iget d (de_inum de); mret (Some (ip, Z.of_nat (sizeof_dirent * (k + j))))) s
      end) as Enext.
    { rewrite IH by lia. destruct (list_find _ _) as [[j de]|]; [|done]. cbn. by replace (k + S j)%nat with (S k + j)%nat by lia. }
    destruct (decide (de_inum (dent s x k) = 0)) as [E0|E0].
    { rewrite Eoff, (decide_False (P := names _ _)) by (by intros [? _]). apply Enext. }
    destruct (strncmp_names name (de_name (dent s x k)) DIRSIZ Hn) as (c & Ec & Hc).
    { right. by rewrite dent_name. }
    unfold namecmp, lookupM. unfold mbind at 1, M_bind at 1. rewrite Ec. rewrite (fo_dev _ _ _ (dk_file _ _ HD)).
    destruct (decide (c = 0)) as [Hc0|Hc0].
    + rewrite (decide_True (P := names _ _)) by (split; [done|symmetry; by apply Hc]). by rewrite Nat.add_0_r.
    + rewrite Eoff, (decide_False (P := names _ _)); [apply Enext|]. intros [_ Hd]. apply Hc0, Hc. by symmetry.
Qed.

Lemma dirlookup_spec dp s x name :
  FInv d s → DirOk s x → icache s !! dp = Some x → readable DIRSIZ name →
  dirlookup dp name s =
    match list_find (names (ename name)) (dents s x) with
    | None => Ret None s
    | Some (j, de) => (ip ← iget d (de_inum de); mret (Some (ip, Z.of_nat (sizeof_dirent * j)))) s
    end.
Proof.
  intros HF HD Hx Hn. unfold dirlookup, geti. unfold mbind at 1, M_bind at 1, lookupM at 1. rewrite Hx.
  rewrite decide_False by (rewrite (dk_type _ _ HD); congruence).
  change 0 with (Z.of_nat (sizeof_dirent * 0)) at 1. rewrite (dirlookup_loop_spec dp s x) by (try done; unfold nents; lia).
  by rewrite drop_0.
Qed.

(** ** dirlink *)

(** The entry that [dirlink] takes. *)
Definition free_from (k : nat) (s : fsst) (x : inode) : nat :=
  match list_find (λ de, de_inum de = 0) (drop k (dents s x)) with Some (j, _) => k + j | None => nents x end.

Lemma dirlink_loop_spec dp s x : FInv d s → DirOk s x → icache s !! dp = Some x → ∀ f k,
  (k ≤ nents x)%nat → (nents x - k ≤ f)%nat →
  dirlink_loop f dp (Z.of_nat (sizeof_dirent * k)) s = Ret (Z.of_nat (sizeof_dirent * free_from k s x)) s.
Proof.
  intros HF HD Hx. pose proof (dk_size _ _ HD) as Hs. pose proof (fo_size _ _ _ (dk_file _ _ HD)) as Hsz. pose proof maxfile_bytes as Emax.
  induction f as [|f IH]; intros k Hk Hf; cbn [dirlink_loop]; unfold geti; unfold mbind at 1, M_bind at 1, lookupM at 1; rewrite Hx, Hs; unfold free_from.
  - rewrite decide_False by (unfold sizeof_dirent; lia). rewrite drop_ge by (rewrite length_dents; lia). cbn. by replace k with (nents x) by lia.
  - destruct (decide (k = nents x)) as [->|Hne].
    { rewrite decide_False by lia. rewrite drop_ge by (rewrite length_dents; lia). done. }
    rewrite decide_True by (unfold sizeof_dirent; lia). destruct (readi_dent dp s x k HF HD Hx) as (l & E & El); [lia|].
    unfold mbind at 1, M_bind at 1. rewrite E. cbn [fst snd]. rewrite decide_False by congruence. rewrite El.
    rewrite (drop_S _ (dent s x k)) by (apply lookup_dents; lia). cbn [list_find].
    destruct (decide (de_inum (dent s x k) = 0)) as [E0|E0]; [by rewrite Nat.add_0_r|].
    replace (u32 (Z.of_nat (sizeof_dirent * k) + Z.of_nat sizeof_dirent)) with (Z.of_nat (sizeof_dirent * S k)).
    + rewrite IH by lia. unfold free_from. destruct (list_find _ _) as [[j de]|]; [|done]. cbn. by replace (k + S j)%nat with (S k + j)%nat by lia.
    + rewrite u32_small; unfold is_u32, sizeof_dirent in *; lia.
Qed.

(** The directory with the entry of [k] replaced, or added at the end. *)
Lemma dents_written dp s x k de s' x' :
  DirOk s x → (k ≤ nents x)%nat → (sizeof_dirent * S k ≤ MAXFILE * BSIZE)%nat →
  length (de_name de) = DIRSIZ → 0 ≤ de_inum de < 2 ^ 16 →
  written d dp s x (sizeof_dirent * k) (encode_dirent de) s' x' →
  DirOk s' x' ∧ dents s' x' = take k (dents s x) ++ de :: drop (S k) (dents s x).
Proof.
  intros [HO Hh Ht Hs] Hk Hmax Hl Hi [W1 W2 W3 W4 W5 W6 W7 W8 W9]. destruct (dirent_roundtrip de Hl Hi) as [Elen Edec]. rewrite Elen in W6.
  pose proof (fo_size _ _ _ HO) as Hsz.
  assert (i_size x' = Z.of_nat (sizeof_dirent * (nents x `max` S k))) as Es by (rewrite W6; cbn [i_size set_i_addrs set_i_size]; rewrite Hs; unfold sizeof_dirent; lia).
  assert (nents x' = nents x `max` S k)%nat as En.
  { unfold nents at 1. rewrite Es. unfold sizeof_dirent. rewrite Nat2Z.inj_mul, Z.mul_comm, Z.div_mul by done. lia. }
  split; [split; [done|done|by rewrite W6|by rewrite Es, En]|].
  apply list_eq. intros j. destruct (decide (j < nents x')%nat) as [Hj|Hj].
  - rewrite lookup_dents by done. destruct (decide (j = k)) as [->|Hjk].
    + rewrite lookup_app_r; rewrite length_take, length_dents, Nat.min_l by lia; [|lia]. rewrite Nat.sub_diag. cbn. f_equal.
      rewrite <- Edec. unfold dent. f_equal. apply list_eq. intros i. rewrite list_lookup_fmap. destruct (decide (i < sizeof_dirent)%nat).
      * rewrite lookup_seq_lt by done. cbn [fmap option_fmap option_map]. unfold sizeof_dirent in *. rewrite W7 by lia. unfold overwrite. rewrite Elen.
        rewrite decide_True by lia. rewrite (list_lookup_lookup_total_lt (encode_dirent de)) by lia. do 2 f_equal. lia.
      * rewrite lookup_seq_ge by lia. symmetry. apply lookup_ge_None. lia.
    + assert (j < nents x)%nat as Hjx by lia.
      assert (dent s' x' j = dent s x j) as ->.
      { unfold dent. f_equal. apply list_fmap_ext. intros i p [-> Hp]%lookup_seq. unfold sizeof_dirent in *. rewrite W7 by lia.
        unfold overwrite. rewrite Elen. by rewrite decide_False by lia. }
      rewrite <- lookup_dents by done. destruct (decide (j < k)%nat).
      * rewrite lookup_app_l, lookup_take_lt by (rewrite ?length_take, ?length_dents; lia). done.
      * rewrite lookup_app_r; rewrite length_take, length_dents, Nat.min_l by lia; [|lia].
        rewrite lookup_cons_ne_0 by lia. rewrite lookup_drop. f_equal. lia.
  - rewrite !lookup_ge_None_2; [done| |rewrite length_dents; lia].
    rewrite length_app. cbn [length]. rewrite length_take, length_drop, length_dents. lia.
Qed.

Lemma free_from_spec s x : (free_from 0 s x ≤ nents x)%nat ∧ ∀ de, dents s x !! free_from 0 s x = Some de → de_inum de = 0.
Proof.
  unfold free_from. rewrite drop_0. destruct (list_find _ _) as [[j de]|] eqn:E.
  - apply list_find_Some in E as (Hj & H0 & _). pose proof (lookup_lt_Some _ _ _ Hj) as Hl. rewrite length_dents in Hl. cbn [Nat.add].
    split; [lia|]. intros de' Hde. rewrite Hj in Hde. by injection Hde as <-.
  - split; [done|]. intros de Hde. apply lookup_lt_Some in Hde. rewrite length_dents in Hde. lia.
Qed.

Lemma filter_names_free e k l : (∀ de, l !! k = Some de → de_inum de = 0) →
  filter (names e) l = filter (names e) (take k l) ++ filter (names e) (drop (S k) l).
Proof.
  intros Hk. rewrite <- (take_drop k l) at 1. rewrite filter_app. f_equal. destruct (l !! k) as [de|] eqn:E.
  - rewrite (drop_S _ de) by done. rewrite filter_cons, decide_False; [done|]. intros [Hn _]. apply Hn. by apply Hk.
  - apply lookup_ge_None in E. by rewrite !drop_ge by lia.
Qed.

Lemma dir_inum_written s x s' x' k de e :
  dents s' x' = take k (dents s x) ++ de :: drop (S k) (dents s x) → (∀ o, dents s x !! k = Some o → de_inum o = 0) →
  de_inum de ≠ 0 → dir_inum s x (ename (de_name de)) = None →
  dir_inum s' x' e = if decide (e = ename (de_name de)) then Some (de_inum de) else dir_inum s x e.
Proof.
  intros E Hk Hi Hno. unfold dir_inum in *. rewrite E, filter_app, filter_cons, (filter_names_free e k _ Hk).
  rewrite (filter_names_free _ k _ Hk) in Hno. destruct (decide (e = ename (de_name de))) as [->|Hne].
  - rewrite decide_True by done. destruct (filter _ (take _ _)); [done|]. by cbn in Hno.
  - by rewrite decide_False by (intros [_ ?]; congruence).
Qed.

Lemma list_find_head e l : snd <$> list_find (names e) l = head (filter (names e) l).
Proof.
  induction l as [|de l IH]; [done|]. cbn [list_find]. rewrite filter_cons. destruct (decide (names e de)); [done|].
  rewrite <- IH. by destruct (list_find (names e) l) as [[]|].
Qed.

Lemma dirlookup_found dp s x name n :
  FInv d s → DirOk s x → icache s !! dp = Some x → readable DIRSIZ name → dir_inum s x (ename name) = Some n →
  ∃ off, dirlookup dp name s = (ip ← iget d n; mret (Some (ip, off))) s.
Proof.
  intros HF HD Hx Hn Hf. rewrite (dirlookup_spec dp s x) by done. unfold dir_inum in Hf. rewrite <- list_find_head in Hf.
  destruct (list_find _ _) as [[j de]|]; [|done]. injection Hf as <-. by eexists.
Qed.

Lemma dirlookup_absent dp s x name :
  FInv d s → DirOk s x → icache s !! dp = Some x → readable DIRSIZ name → dir_inum s x (ename name) = None →
  dirlookup dp name s = Ret None s.
Proof.
  intros HF HD Hx Hn Hf. rewrite (dirlookup_spec dp s x) by done. unfold dir_inum in Hf. rewrite <- list_find_head in Hf.
  by destruct (list_find _ _) as [[j de]|].
Qed.
End Dir.

(** C11: A directory maps names to inodes, and [dirlink] extends the map: for
    a name that is there it drops the inode that [dirlookup] found and returns
    -1; for a new one it returns 0 and the directory maps the name, compared
    up to DIRSIZ characters, to the given inode and every other name as
    before, so that [dirlookup] of the name then gets that inode.  The rest of
    the disk is as after a [writei] of the directory, and the only panics are
    those of a full disk and of a full log. *)
Theorem dirlink_then_dirlookup `{Devices} (d : Z) (s : fsst) (dp : nat) (x : inode) (name : list Z) (inum : Z) :
  FInv d s → DirOk d s x → synced d s x → icache s !! dp = Some x → 0 ≤ i_inum x < sb_ninodes (sb s) → DinodeOk (dinode_of x) →
  readable DIRSIZ name → 0 < inum < 2 ^ 16 → (sizeof_dirent * S (free_from d 0 s x) ≤ MAXFILE * BSIZE)%nat →
  match dir_inum d s x (ename name) with
  | Some n => dirlink dp name inum s = (ip ← iget d n; iput ip;; mret (-1)) s
  | None =>
      wpp (λ m, m = TOO_BIG ∨ m = NO_BLOCKS) (dirlink dp name inum) s (λ r s', r = 0 ∧
        ∃ x' off de, written d dp s x off (encode_dirent de) s' x' ∧ DirOk d s' x' ∧
          (∀ e, dir_inum d s' x' e = if decide (e = ename name) then Some inum else dir_inum d s x e) ∧
          ∃ off', dirlookup dp name s' = (ip ← iget d inum; mret (Some (ip, off'))) s')
  end.
Proof.
  intros HF HD Hsy Hx Hnum Hdi Hname Hi Hmax. destruct (dir_inum d s x (ename name)) as [n|] eqn:Ef.
  { destruct (dirlookup_found d dp s x name n) as [off E]; try done. unfold dirlink. unfold mbind at 1, M_bind at 1. rewrite E.
    unfold mbind, M_bind. by destruct (iget d n s) as [ip s1| | |]. }
  unfold dirlink. apply wpp_bind. unfold wpp at 1. rewrite (dirlookup_absent d dp s x) by done.
  unfold geti. wp_steps. eapply wpp_lookupM; [done|]. wp_steps.
  destruct (free_from_spec d s x) as [Hk Hfree]. set (k := free_from d 0 s x) in *.
  unfold wpp at 1. change 0 with (Z.of_nat (sizeof_dirent * 0)) at 1. rewrite (dirlink_loop_spec d dp s x) by (try done; unfold nents; lia). fold k.
  destruct (strncpy_spec name DIRSIZ Hname) as (nm & Enm & Hl & Hnm). wp_steps. eapply wpp_lookupM; [exact Enm|]. wp_steps.
  set (de := mkDirent (u16 inum) nm). assert (u16 inum = inum) as Eu by (unfold u16; apply Z.mod_small; lia).
  assert (length (de_name de) = DIRSIZ ∧ 0 ≤ de_inum de < 2 ^ 16) as [Hde1 Hde2] by (cbn; rewrite Eu; split; [done|lia]).
  destruct (dirent_roundtrip de Hde1 Hde2) as [Elen _]. rewrite <- Elen at 2. destruct (HD) as [HO Hh Ht Hs].
  eapply wpp_mono; [apply (writei_spec d (λ m, m = TOO_BIG ∨ m = NO_BLOCKS) (or_introl eq_refl) (or_intror eq_refl) dp s x); try done|].
  { by rewrite Ht. } { rewrite Hs. unfold sizeof_dirent; lia. } { rewrite Elen. unfold sizeof_dirent in *; lia. }
  intros r s' (-> & x' & HW). rewrite decide_False by (rewrite Elen; congruence). wp_steps. split; [done|].
  destruct (dents_written d dp s x k de s' x' HD Hk Hmax Hde1 Hde2 HW) as [HD' Edents].
  assert (ename nm = ename name) as Ename by (unfold ename; exact Hnm).
  assert (∀ e, dir_inum d s' x' e = if decide (e = ename name) then Some inum else dir_inum d s x e) as Hmap.
  { intros e. rewrite (dir_inum_written d s x s' x' k de e Edents Hfree); cbn [de_name de de_inum]; [by rewrite Ename, Eu|lia|by rewrite Ename]. }
  exists x', (sizeof_dirent * k)%nat, de. split; [done|]. split; [done|]. split; [done|].
  apply (dirlookup_found d dp s' x'); [apply HW|done| |done|by rewrite Hmap, decide_True].
  rewrite (w_cache _ _ _ _ _ _ _ _ HW). apply list_lookup_insert_eq. by eapply lookup_lt_Some.
Qed.

(** ** An instance: a first entry in an empty directory *)

#[local] Instance no_devices : Devices := {| dev_read := λ _, None; dev_write := λ _, None |}.

Definition dir7 : inode := set_i_type T_DIR inode7.
Definition dir_fs : fsst := updated 1 dir7 (set_icache (<[3%nat := dir7]> (icache fs0)) fs0).

Lemma dir7_ok : DinodeOk (dinode_of dir7).
Proof. destruct inode7_ok as [H1 H2 H3 H4 H5 H6 H7 H8 H9 H10]. split; try assumption; unfold T_DIR; cbn; lia. Qed.
Lemma dir7_FInv : FInv 1 (set_icache (<[3%nat := dir7]> (icache fs0)) fs0).
Proof. apply FInv_icache; [exact fs0_FInv|reflexivity]. Qed.
Lemma dir_fs_FInv : FInv 1 dir_fs.
Proof. apply FInv_updated; [exact dir7_FInv|exact dir7_ok|cbn; lia]. Qed.

Lemma nul_a : terminated [97; 0].
Proof. unfold terminated. set_solver. Qed.

Lemma dir7_no_a : dir_inum 1 dir_fs dir7 (ename [97; 0]) = None.
Proof. reflexivity. Qed.
Lemma dir7_room : (sizeof_dirent * S (free_from 1 0 dir_fs dir7) ≤ MAXFILE * BSIZE)%nat.
Proof. change (free_from 1 0 dir_fs dir7) with 0%nat. apply Nat2Z.inj_le. rewrite maxfile_bytes. unfold sizeof_dirent. lia. Qed.

Lemma dirlink_then_dirlookup_witness :
  wpp (λ m, m = TOO_BIG ∨ m = NO_BLOCKS) (dirlink 3 [97; 0] 5) dir_fs (λ r s', r = 0 ∧
    ∃ x', DirOk 1 s' x' ∧ dir_inum 1 s' x' [97] = Some 5).
Proof.
  destruct (empty_FileOk 1 dir_fs dir7 eq_refl eq_refl eq_refl) as [HO Hh].
  assert (synced 1 dir_fs dir7) as Hsy.
  { unfold synced, dir_fs. rewrite disk_inode_updated; [by rewrite decide_True|exact dir7_FInv|exact dir7_ok]. }
  assert (DirOk 1 dir_fs dir7) as HD by (split; [exact HO|exact Hh|reflexivity|reflexivity]).
  pose proof (dirlink_then_dirlookup 1 dir_fs 3 dir7 [97; 0] 5 dir_fs_FInv HD Hsy) as W.
  rewrite dir7_no_a in W.
  eapply wpp_mono; [apply W; [reflexivity|cbn; lia|exact dir7_ok|left; exact nul_a|lia|exact dir7_room]|].
  intros r s' (-> & x' & off & de & _ & HD' & Hm & _). split; [reflexivity|]. exists x'. split; [exact HD'|]. rewrite Hm. by rewrite decide_True.
Defined.
