(* ===== verification/Console.v ===== *)
(** * The console (console.c, uart.c)

    Output: a character goes to the serial line and to the CGA text screen,
    whose cursor position is kept in two registers of the controller.  Input:
    characters from the keyboard or the serial line are edited in a ring of
    INPUT_BUF bytes and handed to readers line by line.

    The console's lock is held throughout each of the routines below, given up
    only to sleep; a run of consoleread is what happens between two sleeps. *)

From S2P Require Import Prelude Ring Layout Fs.

Local Open Scope Z_scope.

Definition BACKSPACE : Z := 0x100.
Definition INPUT_BUF : Z := 128.
(** [C(x)], control-x *)
Definition C (x : Z) : Z := x - 64.

Record consst := mkCons {
  panicked : bool;
  uart : bool;             (* is there a uart? *)
  sent : list Z;           (* bytes sent on the serial line *)
  crt : list Z;            (* the 25 rows of the screen, ushort each cell *)
  cursor_hi : Z;           (* CRT controller registers 14 and 15 *)
  cursor_lo : Z;
  buf : list Z;            (* input.buf[INPUT_BUF] *)
  input_r : Z;             (* input.r, input.w, input.e: uint *)
  input_w : Z;
  input_e : Z;
  readers : nat            (* processes asleep on &input.r *)
}.
Definition set_sent (v : list Z) (s : consst) : consst :=
  mkCons (panicked s) (uart s) v (crt s) (cursor_hi s) (cursor_lo s) (buf s) (input_r s) (input_w s) (input_e s) (readers s).
Definition set_crt (v : list Z) (s : consst) : consst :=
  mkCons (panicked s) (uart s) (sent s) v (cursor_hi s) (cursor_lo s) (buf s) (input_r s) (input_w s) (input_e s) (readers s).
Definition set_cursor (hi lo : Z) (s : consst) : consst :=
  mkCons (panicked s) (uart s) (sent s) (crt s) hi lo (buf s) (input_r s) (input_w s) (input_e s) (readers s).
Definition set_buf (v : list Z) (s : consst) : consst :=
  mkCons (panicked s) (uart s) (sent s) (crt s) (cursor_hi s) (cursor_lo s) v (input_r s) (input_w s) (input_e s) (readers s).
Definition set_r (v : Z) (s : consst) : consst :=
  mkCons (panicked s) (uart s) (sent s) (crt s) (cursor_hi s) (cursor_lo s) (buf s) v (input_w s) (input_e s) (readers s).
Definition set_w (v : Z) (s : consst) : consst :=
  mkCons (panicked s) (uart s) (sent s) (crt s) (cursor_hi s) (cursor_lo s) (buf s) (input_r s) v (input_e s) (readers s).
Definition set_e (v : Z) (s : consst) : consst :=
  mkCons (panicked s) (uart s) (sent s) (crt s) (cursor_hi s) (cursor_lo s) (buf s) (input_r s) (input_w s) v (readers s).
Definition set_readers (v : nat) (s : consst) : consst :=
  mkCons (panicked s) (uart s) (sent s) (crt s) (cursor_hi s) (cursor_lo s) (buf s) (input_r s) (input_w s) (input_e s) v.

(** ** Output *)

(** The bounded wait for the transmitter has no effect on the kernel. *)
Definition uartputc (c : Z) : M consst unit :=
  u ← gets uart;
  if negb u then mret tt else modify (λ s, set_sent (sent s ++ [u8 c]) s).

(** [crt[pos] = v] *)
Definition poke (pos v : Z) : M consst unit :=
  l ← gets crt;
  if decide (0 ≤ pos < Z.of_nat (length l)) then modify (set_crt (<[Z.to_nat pos := v]> l)) else fault.

(** [memmove(crt, crt+80, sizeof(crt[0])*23*80)] *)
Definition scroll (l : list Z) : list Z := take (23 * 80) (drop 80 l) ++ drop (23 * 80) l.
(** [memset(crt+pos, 0, sizeof(crt[0])*(24*80 - pos))], for [pos <= 24*80] *)
Definition clear_from (pos : nat) (l : list Z) : list Z := take pos l ++ replicate (24 * 80 - pos) 0 ++ drop (24 * 80) l.

Definition cgaputc (c : Z) : M consst unit :=
  s ← gets id;
  let pos := Z.lor (Z.shiftl (cursor_hi s) 8) (cursor_lo s) in
  pos ← (if decide (c = 10) then mret (pos + (80 - pos `mod` 80))
         else if decide (c = BACKSPACE) then mret (if decide (0 < pos) then pos - 1 else pos)
         else poke pos (Z.lor (Z.land c 0xff) 0x0700);; mret (pos + 1));
  if decide (pos < 0 ∨ 25 * 80 < pos) then panic "pos under/overflow" else
  pos ← (if decide (24 ≤ pos / 80) then
           modify (λ s, set_crt (clear_from (Z.to_nat (pos - 80)) (scroll (crt s))) s);;
           mret (pos - 80)
         else mret pos);
  modify (set_cursor (u8 (Z.shiftr pos 8)) (u8 pos));;
  poke pos (Z.lor 32 0x0700).

Definition consputc (c : Z) : M consst unit :=
  p ← gets panicked;
  if (p : bool) then diverge else
  (if decide (c = BACKSPACE) then uartputc 8;; uartputc 32;; uartputc 8 else uartputc c);;
  cgaputc c.

(** ** Input *)

(** [input.buf[a % INPUT_BUF]] *)
Definition islot (a : Z) : nat := rslot INPUT_BUF a.

(** The loop of control-U; at most INPUT_BUF characters are being edited. *)
Fixpoint kill_line (fuel : nat) : M consst unit :=
  s ← gets id;
  if decide (input_e s ≠ input_w s) then
    match fuel with
    | O => diverge
    | S f =>
        c ← lookupM (λ s, buf s !! islot (u32 (input_e s - 1)));
        if decide (c ≠ 10) then
          modify (λ s, set_e (u32 (input_e s - 1)) s);;
          consputc BACKSPACE;;
          kill_line f
        else mret tt
    end
  else mret tt.

(** The listings asked for, to be printed once the lock is released. *)
Inductive listing := Procdump | Ctrlr | Ctrlf | Ctrls | Ctrlz.
#[export] Instance listing_eq_dec : EqDecision listing.
Proof. solve_decision. Defined.

(** The body of the [while] loop of consoleintr for the character [c]. *)
Definition consoleintr_char (c : Z) : M consst (option listing) :=
  if decide (c = C 80) then mret (Some Procdump) else
  if decide (c = C 85) then kill_line (Z.to_nat INPUT_BUF);; mret None else
  if decide (c = C 72 ∨ c = 0x7f) then
    s ← gets id;
    (if decide (input_e s ≠ input_w s) then
       modify (λ s, set_e (u32 (input_e s - 1)) s);;
       consputc BACKSPACE
     else mret tt);;
    mret None
  else
  if decide (c = C 82) then mret (Some Ctrlr) else
  if decide (c = C 70) then mret (Some Ctrlf) else
  if decide (c = C 83) then mret (Some Ctrls) else
  if decide (c = C 90) then mret (Some Ctrlz) else
  s ← gets id;
  (if decide (c ≠ 0 ∧ u32 (input_e s - input_r s) < INPUT_BUF) then
     let c := if decide (c = 13) then 10 else c in
     modify (λ s, set_buf (<[islot (input_e s) := i8 c]> (buf s)) s);;
     modify (λ s, set_e (u32 (input_e s + 1)) s);;
     consputc c;;
     s ← gets id;
     if decide (c = 10 ∨ c = C 68 ∨ input_e s = u32 (input_r s + INPUT_BUF)) then
       modify (λ s, set_w (input_e s) s);;
       modify (set_readers 0)
     else mret tt
   else mret tt);;
  mret None.

Fixpoint consoleintr_loop (cs : list Z) (ask : list listing) : M consst (list listing) :=
  match cs with
  | [] => mret ask
  | c :: cs' =>
      r ← consoleintr_char c;
      consoleintr_loop cs' (match r with Some l => l :: ask | None => ask end)
  end.

(** [consoleintr(getc)], where [getc] delivers [cs] and then a negative
    number; the result lists the routines it then calls, in their order. *)
Definition consoleintr (cs : list Z) : M consst (list listing) :=
  ask ← consoleintr_loop cs [];
  mret (filter (λ l, l ∈ ask) [Procdump; Ctrlr; Ctrlf; Ctrls; Ctrlz]).

(** How a run of consoleread ends: asleep with [n] bytes to go, or done. *)
Inductive crun := CSleep (n : Z) | CRet (r : Z).

(** The [while] loop with [n] bytes to go of the [target] asked for; the bytes
    it stores. *)
Fixpoint consoleread_loop (fuel : nat) (killed : bool) (target n : Z) : M consst (crun * list Z) :=
  if decide (0 < n) then
    match fuel with
    | O => diverge
    | S f =>
        s ← gets id;
        if decide (input_r s = input_w s) then
          if (killed : bool) then mret (CRet (-1), [])
          else
            modify (λ s, set_readers (S (readers s)) s);;
            mret (CSleep n, [])
        else
          c ← lookupM (λ s, buf s !! islot (input_r s));
          modify (λ s, set_r (u32 (input_r s + 1)) s);;
          if decide (c = C 68) then
            (if decide (n < target) then modify (λ s, set_r (u32 (input_r s - 1)) s) else mret tt);;
            mret (CRet (target - n), [])
          else if decide (c = 10) then mret (CRet (target - (n - 1)), [c])
          else
            r ← consoleread_loop f killed target (n - 1);
            mret (r.1, c :: r.2)
    end
  else mret (CRet (target - n), []).

(** ** The device, between the file system and the console *)

Record devst := mkDev { dev_fs : fsst; dev_cons : consst }.
Definition on_fs {A} (m : M fsst A) : M devst A := zoom dev_fs (λ f s, mkDev f (dev_cons s)) m.
Definition on_cons {A} (m : M consst A) : M devst A := zoom dev_cons (λ c s, mkDev (dev_fs s) c) m.

(** What follows the release of the console's lock. *)
Definition consoleread_run (ip : nat) (killed : bool) (target n : Z) : M devst (crun * list Z) :=
  r ← on_cons (consoleread_loop (Z.to_nat n) killed target n);
  match r.1 with
  | CSleep _ => mret r
  | CRet _ => on_fs (ilock ip);; mret r
  end.

Definition consoleread (ip : nat) (killed : bool) (n : Z) : M devst (crun * list Z) :=
  on_fs (iunlock ip);;
  consoleread_run ip killed n n.

Fixpoint write_chars (cs : list Z) : M consst unit :=
  match cs with
  | [] => mret tt
  | c :: cs' => consputc (Z.land c 0xff);; write_chars cs'
  end.

Definition consolewrite (ip : nat) (b : list Z) (n : Z) : M devst Z :=
  on_fs (iunlock ip);;
  cs ← lookupM (λ _, if decide (Z.to_nat n ≤ length b)%nat then Some (take (Z.to_nat n) b) else None);
  on_cons (write_chars cs);;
  on_fs (ilock ip);;
  mret n.
