(* ===== verification/ConsoleProps.v ===== *)
(** * What the console shows and what it hands to readers

    The screen is a terminal of 24 lines that scrolls; the input ring is a line
    editor in front of a queue of complete lines. *)

From S2P Require Import Prelude Ring Layout Fs Console.

Local Open Scope Z_scope.

(** ** The screen *)

(** The character a cell shows; cells of zeros are blank. *)
Definition shown (v : Z) : Z := let b := Z.land v 0xff in if decide (b = 0) then 32 else b.
Definition pos (s : consst) : nat := Z.to_nat (Z.lor (Z.shiftl (cursor_hi s) 8) (cursor_lo s)).
(** The text on the screen up to the cursor, 80 characters a line. *)
Definition text (s : consst) : list Z := shown <$> take (pos s) (crt s).

(** A terminal: what a character does to the text. *)
Definition term_put (c : Z) (t : list Z) : list Z :=
  let t := if decide (c = 10) then t ++ replicate (80 - length t `mod` 80) 32
           else if decide (c = BACKSPACE) then take (length t - 1) t
           else t ++ [shown c] in
  if decide (24 * 80 ≤ length t)%nat then drop 80 t else t.

Definition blank_from (p : nat) (l : list Z) : Prop := ∀ j v, (p ≤ j)%nat → l !! j = Some v → shown v = 32.

Record SInv (s : consst) : Prop := {
  si_hi : 0 ≤ cursor_hi s < 2 ^ 8;
  si_lo : 0 ≤ cursor_lo s < 2 ^ 8;
  si_pos : (pos s < 24 * 80)%nat;
  si_len : length (crt s) = (25 * 80)%nat;
  si_blank : blank_from (pos s) (crt s)
}.

Lemma cursor_value hi lo : 0 ≤ hi → 0 ≤ lo < 2 ^ 8 → Z.lor (Z.shiftl hi 8) lo = hi * 2 ^ 8 + lo.
Proof.
  intros Hh Hl. rewrite Z.shiftl_mul_pow2 by lia. pose proof (Z.add_lor_land (hi * 2 ^ 8) lo) as E.
  assert (Z.land (hi * 2 ^ 8) lo = 0); [|lia]. apply Z.bits_inj'. intros n Hn.
  rewrite Z.land_spec, Z.bits_0. destruct (decide (n < 8)).
  - rewrite Z.mul_pow2_bits_low by lia. done.
  - rewrite <- (Z.mod_small lo (2 ^ 8)) by lia. rewrite Z.mod_pow2_bits_high by lia. apply andb_false_r.
Qed.

Lemma cursor_split p : 0 ≤ p < 2 ^ 16 → Z.lor (Z.shiftl (u8 (Z.shiftr p 8)) 8) (u8 p) = p.
Proof.
  intros Hp. rewrite Z.shiftr_div_pow2 by lia. unfold u8. rewrite cursor_value by zlia.
  rewrite (Z.mod_small (p / 2 ^ 8)) by zlia. zlia.
Qed.

Lemma shown_char c : shown (Z.lor (Z.land c 0xff) 0x0700) = shown c.
Proof.
  unfold shown. rewrite Z.land_lor_distr_l, <- Z.land_assoc. change (Z.land 0xff 0xff) with 0xff. change (Z.land 0x0700 0xff) with 0.
  by rewrite Z.lor_0_r.
Qed.
Lemma shown_cursor : shown (Z.lor 32 0x0700) = 32.
Proof. reflexivity. Qed.

(** The second half of [cgaputc]: scroll, and show the cursor. *)
Definition settle (pos : Z) : M consst unit :=
  if decide (pos < 0 ∨ 25 * 80 < pos) then panic "pos under/overflow" else
  pos ← (if decide (24 ≤ pos / 80) then
           modify (λ s, set_crt (clear_from (Z.to_nat (pos - 80)) (scroll (crt s))) s);;
           mret (pos - 80)
         else mret pos);
  modify (set_cursor (u8 (Z.shiftr pos 8)) (u8 pos));;
  poke pos (Z.lor 32 0x0700).

Lemma wp_poke p v s (Q : unit → consst → Prop) :
  (p < length (crt s))%nat → Q tt (set_crt (<[p := v]> (crt s)) s) → wp (poke (Z.of_nat p) v) s Q.
Proof. intros Hp HQ. unfold poke. wp_steps. rewrite decide_True by lia. wp_steps. by rewrite Nat2Z.id. Qed.

Lemma text_take p l : (p ≤ length l)%nat → length (shown <$> take p l) = p.
Proof. intros Hp. rewrite length_fmap, length_take. lia. Qed.

(** Nothing but the screen changes. *)
Definition same_input (s s' : consst) : Prop :=
  panicked s' = panicked s ∧ uart s' = uart s ∧ buf s' = buf s ∧ input_r s' = input_r s ∧ input_w s' = input_w s ∧
  input_e s' = input_e s ∧ readers s' = readers s.

Lemma SInv_cursor (p : nat) l s :
  (p < 24 * 80)%nat → length l = (25 * 80)%nat → blank_from (S p) l →
  let s' := set_crt (<[p := Z.lor 32 0x0700]> l) (set_cursor (u8 (Z.shiftr (Z.of_nat p) 8)) (u8 (Z.of_nat p)) s) in
  SInv s' ∧ text s' = shown <$> take p l.
Proof.
  intros Hp Hl Hb s'. assert (pos s' = p) as Ep by (unfold pos; cbn [s' cursor_hi cursor_lo set_crt set_cursor]; rewrite cursor_split by lia; lia).
  assert (∀ z, 0 ≤ u8 z < 2 ^ 8) as Hu by (intros; unfold u8; apply Z.mod_pos_bound; lia).
  split.
  - split; [apply Hu|apply Hu|by rewrite Ep|cbn; by rewrite length_insert|].
    rewrite Ep. intros j v Hj Hv. cbn in Hv. destruct (decide (j = p)) as [->|].
    + rewrite list_lookup_insert_eq in Hv by lia. injection Hv as <-. apply shown_cursor.
    + rewrite list_lookup_insert_ne in Hv by done. eapply Hb; [|done]. lia.
  - unfold text. rewrite Ep. cbn. by rewrite take_insert_ge by lia.
Qed.

Lemma settle_spec (p : nat) s :
  (p ≤ 24 * 80)%nat → length (crt s) = (25 * 80)%nat → blank_from (S p) (crt s) → (p = 24 * 80 → blank_from p (crt s))%nat →
  wp (settle (Z.of_nat p)) s (λ _ s', SInv s' ∧ same_input s s' ∧ sent s' = sent s ∧
    text s' = let t := shown <$> take p (crt s) in if decide (24 * 80 ≤ p)%nat then drop 80 t else t).
Proof.
  intros Hp Hl Hb Hlast. unfold settle. rewrite decide_False by lia. destruct (decide (p = 24 * 80)%nat) as [->|Hne].
  - rewrite decide_True by done. wp_steps. change (Z.of_nat (24 * 80) - 80) with (Z.of_nat (23 * 80)).
    set (l := clear_from _ _).
    assert (length l = (25 * 80)%nat) as Hll.
    { unfold l, clear_from, scroll. repeat rewrite ?length_app, ?length_take, ?length_drop, ?length_replicate. lia. }
    assert (take (23 * 80) l = take (23 * 80) (drop 80 (crt s))) as Et.
    { unfold l, clear_from. rewrite Nat2Z.id, take_app_le, take_take by (rewrite length_take; unfold scroll; rewrite length_app, length_take, !length_drop; lia).
      rewrite Nat.min_id. unfold scroll. rewrite take_app_le, take_take by (rewrite length_take, length_drop; lia). by rewrite Nat.min_id. }
    apply wp_poke; [cbn; lia|]. destruct (SInv_cursor (23 * 80) l s) as [HS Ht]; [lia|done| |].
    + intros j v Hj Hv. unfold l, clear_from in Hv. rewrite Nat2Z.id in Hv. rewrite lookup_app_r in Hv by (rewrite length_take; lia).
      rewrite length_take, (Nat.min_l) in Hv by (unfold scroll; rewrite length_app, length_take, !length_drop; lia).
      apply lookup_app_Some in Hv as [Hv|[Hj' Hv]].
      * apply lookup_replicate in Hv as [-> _]. reflexivity.
      * rewrite length_replicate, lookup_drop in Hv. rewrite length_replicate in Hj'. unfold scroll in Hv.
        rewrite lookup_app_r in Hv by (rewrite length_take, length_drop; lia). rewrite length_take, length_drop, lookup_drop in Hv.
        eapply Hlast; [done| |exact Hv]. lia.
    + split; [exact HS|]. split; [done|]. split; [done|]. etrans; [exact Ht|]. rewrite Et. cbv zeta. rewrite decide_True by lia.
      rewrite <- fmap_drop. f_equal. by rewrite skipn_firstn_comm.
  - rewrite decide_False by (intros ?; zlia). wp_steps. apply wp_poke; [cbn; lia|].
    destruct (SInv_cursor p (crt s) s) as [HS Ht]; [lia|done|done|]. split; [exact HS|]. split; [done|]. split; [done|].
    etrans; [exact Ht|]. cbv zeta. by rewrite decide_False by lia.
Qed.

Lemma newline_pos P : (P < 24 * 80)%nat →
  Z.of_nat P + (80 - Z.of_nat P `mod` 80) = Z.of_nat (P + (80 - P `mod` 80)) ∧ (P < P + (80 - P `mod` 80) ≤ 24 * 80)%nat.
Proof.
  intros HP. pose proof (Nat2Z.inj_mod P 80) as E. change (Z.of_nat 80) with 80 in E.
  pose proof (Nat.mod_upper_bound P 80). pose proof (Nat.div_mod P 80). lia.
Qed.

Lemma text_pad s p : SInv s → (pos s ≤ p ≤ length (crt s))%nat →
  shown <$> take p (crt s) = text s ++ replicate (p - pos s) 32.
Proof.
  intros [_ _ _ Hl Hb] Hp. unfold text. replace p with (pos s + (p - pos s))%nat at 1 by lia. set (k := (p - pos s)%nat).
  rewrite <- (take_drop (pos s) (crt s)) at 1. rewrite take_app, take_take, length_take.
  rewrite (Nat.min_r (pos s + k)), (Nat.min_l (pos s) (length (crt s))) by lia. rewrite fmap_app. f_equal. apply list_eq. intros i.
  rewrite list_lookup_fmap. destruct (decide (i < k)%nat) as [Hi|Hi].
  - rewrite lookup_replicate_2, lookup_take_lt, lookup_drop by lia.
    destruct (lookup_lt_is_Some_2 (crt s) (pos s + i)) as [v Hv]; [lia|]. rewrite Hv. cbn. f_equal. eapply Hb; [|done]. lia.
  - rewrite (lookup_ge_None_2 (replicate k 32)) by (rewrite length_replicate; lia). rewrite lookup_take_ge by lia. done.
Qed.

Lemma cgaputc_spec c s : SInv s →
  wp (cgaputc c) s (λ _ s', SInv s' ∧ same_input s s' ∧ sent s' = sent s ∧ text s' = term_put c (text s)).
Proof.
  intros HS. destruct (HS) as [Hhi Hlo Hp Hl Hb]. set (P := pos s) in *.
  assert (length (text s) = P) as Et by (apply text_take; lia).
  assert (Z.lor (Z.shiftl (cursor_hi s) 8) (cursor_lo s) = Z.of_nat P) as Ep by (unfold P, pos; rewrite cursor_value by lia; lia).
  unfold cgaputc. wp_steps. cbn [id]. rewrite Ep. unfold term_put. rewrite Et.
  destruct (decide (c = 10)) as [->|Hnl]; [|destruct (decide (c = BACKSPACE)) as [->|Hbs]]; wp_steps.
  - destruct (newline_pos P Hp) as [-> Hq]. set (q := (P + (80 - P `mod` 80))%nat) in *.
    eapply wp_mono; [apply (settle_spec q s); [lia|done|intros j v Hj; apply Hb; lia|intros _ j v Hj; apply Hb; lia]|].
    intros _ s' (H1 & H2 & H3 & H4). split; [done|]. split; [done|]. split; [done|]. rewrite H4. cbv zeta.
    rewrite text_pad by (try done; fold P; lia). rewrite length_app, length_replicate, Et. fold P. unfold q.
    by replace (P + (80 - P `mod` 80) - P)%nat with (80 - P `mod` 80)%nat by lia.
  - assert ((if decide (0 < Z.of_nat P) then Z.of_nat P - 1 else Z.of_nat P) = Z.of_nat (P - 1)) as -> by (case_decide; lia).
    eapply wp_mono; [apply (settle_spec (P - 1) s); [lia|done|intros j v Hj; apply Hb; lia|lia]|].
    intros _ s' (H1 & H2 & H3 & H4). split; [done|]. split; [done|]. split; [done|]. rewrite H4. cbv zeta.
    rewrite !decide_False by (rewrite ?length_take; lia). unfold text. fold P. rewrite <- fmap_take, take_take. by rewrite Nat.min_l by lia.
  - apply wp_poke; [lia|]. wp_steps. replace (Z.of_nat P + 1) with (Z.of_nat (S P)) by lia.
    set (s1 := set_crt _ s). assert (length (crt s1) = (25 * 80)%nat) as Hl1 by (cbn; by rewrite length_insert).
    assert (blank_from (S P) (crt s1)) as Hb1.
    { intros j v Hj Hv. cbn in Hv. rewrite list_lookup_insert_ne in Hv by lia. eapply Hb; [|done]. lia. }
    eapply wp_mono; [apply (settle_spec (S P) s1); [lia|done|intros j v Hj; apply Hb1; lia|done]|].
    intros _ s' (H1 & H2 & H3 & H4). split; [done|]. split; [exact H2|]. split; [exact H3|]. rewrite H4. cbv zeta.
    rewrite length_app, Et. cbn [length]. replace (P + 1)%nat with (S P) by lia.
    assert (shown <$> take (S P) (crt s1) = text s ++ [shown c]) as ->; [|done].
    cbn [crt s1 set_crt]. rewrite (take_S_r _ _ (Z.lor (Z.land c 0xff) 0x0700)) by (apply list_lookup_insert_eq; lia).
    rewrite take_insert_ge by lia. rewrite fmap_app. cbn [fmap list_fmap]. by rewrite shown_char.
Qed.

(** What a character puts on the serial line. *)
Definition serial (u : bool) (c : Z) : list Z :=
  if u then if decide (c = BACKSPACE) then [8; 32; 8] else [u8 c] else [].

Lemma uartputc_spec c s : wp (uartputc c) s (λ _ s', s' = set_sent (sent s ++ if uart s then [u8 c] else []) s).
Proof. unfold uartputc. wp_steps. destruct (uart s) eqn:E; cbn; wp_steps; [done|]. rewrite app_nil_r. by destruct s. Qed.

Lemma SInv_sent l s : SInv s → SInv (set_sent l s).
Proof. by intros [? ? ? ? ?]. Qed.

Lemma consputc_spec c s : SInv s → panicked s = false →
  wp (consputc c) s (λ _ s', SInv s' ∧ same_input s s' ∧ sent s' = sent s ++ serial (uart s) c ∧ text s' = term_put c (text s)).
Proof.
  intros HS Hp. unfold consputc. wp_steps. rewrite Hp. wp_steps.
  assert (∀ s1, s1 = set_sent (sent s ++ serial (uart s) c) s → wp (cgaputc c) s1 (λ _ s', SInv s' ∧ same_input s s' ∧
    sent s' = sent s ++ serial (uart s) c ∧ text s' = term_put c (text s))) as Hcga.
  { intros s1 ->. eapply wp_mono; [apply cgaputc_spec, SInv_sent, HS|]. intros _ s' (H1 & H2 & H3 & H4). by split_and!. }
  unfold serial in *. destruct (decide (c = BACKSPACE)) as [->|Hc]; wp_steps.
  - wp_call uartputc_spec. intros _ s1 ->. wp_steps. wp_call uartputc_spec. intros _ s2 ->.
    wp_call uartputc_spec. intros _ s3 ->. apply Hcga. cbn. destruct (uart s); by rewrite <- ?app_assoc, ?app_nil_r.
  - wp_call uartputc_spec. intros _ s1 ->. by apply Hcga.
Qed.

(** ** The input ring *)

Definition in_count (s : consst) : nat := Z.to_nat (u32 (input_w s - input_r s)).
Definition edit_count (s : consst) : nat := Z.to_nat (u32 (input_e s - input_w s)).
(** The bytes a reader may take, and those still being edited. *)
Definition lines (s : consst) : list Z := rseq INPUT_BUF (buf s) (input_r s) (in_count s).
Definition editing (s : consst) : list Z := rseq INPUT_BUF (buf s) (input_w s) (edit_count s).

Record IInv (s : consst) : Prop := {
  ii_len : length (buf s) = Z.to_nat INPUT_BUF;
  ii_r : is_u32 (input_r s);
  ii_w : is_u32 (input_w s);
  ii_e : is_u32 (input_e s);
  ii_room : Z.of_nat (in_count s + edit_count s) ≤ INPUT_BUF
}.

Lemma length_lines s : length (lines s) = in_count s.
Proof. apply length_rseq. Qed.
Lemma length_editing s : length (editing s) = edit_count s.
Proof. apply length_rseq. Qed.

Lemma e_from_w s : IInv s → input_e s = u32 (input_w s + Z.of_nat (edit_count s)).
Proof.
  intros [_ _ _ He _]. unfold edit_count. pose proof (u32_range (input_e s - input_w s)) as Hr. unfold is_u32 in Hr.
  rewrite Z2Nat.id, u32_add_idemp_r by lia. replace (input_w s + _) with (input_e s) by lia. by rewrite u32_small.
Qed.
Lemma w_from_r s : IInv s → input_w s = u32 (input_r s + Z.of_nat (in_count s)).
Proof.
  intros [_ _ Hw _ _]. unfold in_count. pose proof (u32_range (input_w s - input_r s)) as Hr. unfold is_u32 in Hr.
  rewrite Z2Nat.id, u32_add_idemp_r by lia. replace (input_r s + _) with (input_w s) by lia. by rewrite u32_small.
Qed.
Lemma e_from_r s : IInv s → input_e s = u32 (input_r s + Z.of_nat (in_count s + edit_count s)).
Proof.
  intros HI. rewrite (e_from_w s HI), (w_from_r s HI) at 1. rewrite u32_add_idemp_l. f_equal. lia.
Qed.

(** Distances of counters that are close to each other. *)
Lemma u32_dist a k : 0 ≤ k < 2 ^ 32 → u32 (u32 (a + k) - a) = k.
Proof.
  intros Hk. replace (u32 (a + k) - a) with (u32 (a + k) + - a) by lia. rewrite u32_add_idemp_l.
  replace (a + k + - a) with k by lia. by apply u32_small.
Qed.

Lemma input_total s : IInv s → u32 (input_e s - input_r s) = Z.of_nat (in_count s + edit_count s).
Proof.
  intros HI. rewrite (e_from_r s HI). apply u32_dist. pose proof (ii_room _ HI). unfold INPUT_BUF in *. lia.
Qed.

Lemma is_full s : IInv s → input_e s = u32 (input_r s + INPUT_BUF) ↔ Z.of_nat (in_count s + edit_count s) = INPUT_BUF.
Proof.
  intros HI. rewrite <- (input_total s HI). split; [|intros <-].
  - intros ->. apply u32_dist. unfold INPUT_BUF. lia.
  - rewrite u32_add_idemp_r. replace (input_r s + _) with (input_e s) by lia. symmetry. apply u32_small, HI.
Qed.

Lemma no_edit s : IInv s → input_e s = input_w s ↔ edit_count s = 0%nat.
Proof.
  intros HI. split.
  - unfold edit_count. intros ->. by rewrite Z.sub_diag.
  - intros E. rewrite (e_from_w s HI), E. cbn. rewrite Z.add_0_r. apply u32_small, HI.
Qed.
Lemma no_lines s : IInv s → input_r s = input_w s ↔ in_count s = 0%nat.
Proof.
  intros HI. split.
  - unfold in_count. intros ->. by rewrite Z.sub_diag.
  - intros E. rewrite (w_from_r s HI), E. cbn. rewrite Z.add_0_r. symmetry. apply u32_small, HI.
Qed.

(** The ring holds the complete lines [q] and the line [ed] being edited. *)
Definition holds (s : consst) (q ed : list Z) : Prop := IInv s ∧ lines s = q ∧ editing s = ed.

Lemma holds_same s s' q ed : same_input s s' → holds s q ed → holds s' q ed.
Proof.
  intros (_ & _ & E1 & E2 & E3 & E4 & _) [[H1 H2 H3 H4 H5] [H7 H8]]. unfold holds, lines, editing, in_count, edit_count in *.
  rewrite E1, E2, E3, E4. split; [|done]. split; unfold in_count, edit_count, editing, edit_count in *; by rewrite ?E1, ?E2, ?E3, ?E4.
Qed.

Lemma holds_readers s n q ed : holds s q ed → holds (set_readers n s) q ed.
Proof. by intros [[? ? ? ? ?] [? ?]]. Qed.

Lemma ring_pos : 0 < INPUT_BUF. Proof. done. Qed.
Lemma ring_div : 2 ^ 32 = INPUT_BUF * 2 ^ 25. Proof. done. Qed.

Lemma holds_push s q ed v :
  holds s q ed → Z.of_nat (length q + length ed) < INPUT_BUF →
  holds (set_e (u32 (input_e s + 1)) (set_buf (<[islot (input_e s) := v]> (buf s)) s)) q (ed ++ [v]).
Proof.
  intros (HI & <- & <-) Hroom. rewrite length_lines, length_editing in Hroom. destruct (HI) as [H1 H2 H3 H4 H5].
  set (s1 := set_e _ _). assert (in_count s1 = in_count s) as Ei by done.
  assert (edit_count s1 = S (edit_count s)) as Ee.
  { unfold edit_count at 1. cbn [s1 input_e input_w set_e set_buf]. rewrite (e_from_w s HI), u32_add_idemp_l.
    replace (input_w s + _ + 1) with (input_w s + Z.of_nat (S (edit_count s))) by lia. rewrite u32_dist; unfold INPUT_BUF in *; lia. }
  assert (lines s1 = lines s) as El.
  { unfold lines. rewrite Ei. cbn [s1 buf input_r set_e set_buf]. unfold islot. rewrite (e_from_r s HI), (rslot_u32 _ ring_pos _ ring_div).
    apply (rseq_store _ ring_pos); lia. }
  assert (editing s1 = editing s ++ [v]) as Eed.
  { unfold editing. rewrite Ee. cbn [s1 buf input_w set_e set_buf]. unfold islot. rewrite (e_from_w s HI), (rslot_u32 _ ring_pos _ ring_div).
    apply (rseq_snoc _ ring_pos _ ring_div); lia. }
  split; [|by rewrite El, Eed]. split; [cbn; by rewrite length_insert|done|done|apply u32_range|rewrite Ei, Ee; lia].
Qed.

Lemma holds_pop s q ed :
  holds s q ed → ed ≠ [] →
  (∃ v, last ed = Some v ∧ buf s !! islot (u32 (input_e s - 1)) = Some v) ∧
  holds (set_e (u32 (input_e s - 1)) s) q (take (length ed - 1) ed).
Proof.
  intros (HI & <- & <-) Hne. rewrite length_editing. destruct (HI) as [H1 H2 H3 H4 H5].
  assert (0 < edit_count s)%nat as Hpos by (rewrite <- length_editing; destruct (editing s); [done|cbn; lia]).
  set (n := (edit_count s - 1)%nat). set (s1 := set_e _ s).
  assert (u32 (input_e s - 1) = u32 (input_w s + Z.of_nat n)) as E1.
  { rewrite (e_from_w s HI). replace (u32 (input_w s + Z.of_nat (edit_count s)) - 1) with (u32 (input_w s + Z.of_nat (edit_count s)) + -1) by lia.
    rewrite u32_add_idemp_l. f_equal. lia. }
  assert (edit_count s1 = n) as Ee.
  { unfold edit_count. cbn [s1 input_e input_w set_e]. rewrite E1, u32_dist; unfold INPUT_BUF in *; lia. }
  assert (editing s = editing s1 ++ [buf s !!! islot (u32 (input_e s - 1))]) as Eed.
  { unfold editing. rewrite Ee. replace (edit_count s) with (n + 1)%nat by lia. rewrite (rseq_add _ ring_pos _ ring_div).
    f_equal. unfold islot. rewrite E1. by apply rseq_1. }
  split.
  - eexists. rewrite Eed, last_snoc. split; [done|]. apply list_lookup_lookup_total_lt. rewrite H1. apply rslot_lt. done.
  - split; [|split; [done|]].
    + split; [done|done|done|apply u32_range|unfold in_count in *; cbn in *; rewrite Ee; lia].
    + rewrite Eed. rewrite take_app_le, take_ge; rewrite ?length_editing, ?Ee; unfold n; lia || done.
Qed.

Lemma holds_commit s q ed : holds s q ed → holds (set_w (input_e s) s) (q ++ ed) [].
Proof.
  intros (HI & <- & <-). destruct (HI) as [H1 H2 H3 H4 H5]. set (s1 := set_w _ s).
  assert (edit_count s1 = 0%nat) as Ee by (unfold edit_count; cbn; by rewrite Z.sub_diag).
  assert (in_count s1 = in_count s + edit_count s)%nat as Ei.
  { unfold in_count at 1. cbn [s1 input_w input_r set_w]. rewrite input_total by done. lia. }
  assert (lines s1 = lines s ++ editing s) as El.
  { unfold lines, editing. rewrite Ei. cbn [s1 buf input_r set_w]. rewrite (rseq_add _ ring_pos _ ring_div). by rewrite <- w_from_r. }
  assert (editing s1 = []) as Eed by (unfold editing; by rewrite Ee).
  split; [|done]. split; [done|done|done|done|rewrite Ei, Ee; lia].
Qed.

Lemma holds_take s q ed c :
  holds s (c :: q) ed → buf s !! islot (input_r s) = Some c ∧ holds (set_r (u32 (input_r s + 1)) s) q ed.
Proof.
  intros (HI & Hq & <-). destruct (HI) as [H1 H2 H3 H4 H5]. set (s1 := set_r _ s).
  assert (in_count s = S (length q)) as Ei by (rewrite <- length_lines, Hq; done).
  assert (in_count s1 = length q) as Ei1.
  { unfold in_count. cbn [s1 input_w input_r set_r]. rewrite (w_from_r s HI), Ei.
    replace (input_r s + Z.of_nat (S (length q))) with (input_r s + 1 + Z.of_nat (length q)) by lia. rewrite <- u32_add_idemp_l.
    rewrite u32_dist; unfold INPUT_BUF in *; lia. }
  unfold lines in Hq. rewrite Ei in Hq. change (S (length q)) with (1 + length q)%nat in Hq. rewrite (rseq_add _ ring_pos _ ring_div) in Hq.
  destruct (rseq_1 INPUT_BUF ring_pos (buf s) (input_r s) H1) as [Hb E1]. rewrite E1 in Hq. injection Hq as <- Hq.
  split; [exact Hb|]. split; [|split; [|done]].
  - split; [done|apply u32_range|done|done|]. rewrite Ei1. change (edit_count s1) with (edit_count s). lia.
  - unfold lines. rewrite Ei1. exact Hq.
Qed.

(** ** The line editor *)

(** What a character does to the complete lines and the line being edited. *)
Definition edit (c : Z) (x : list Z * list Z) : list Z * list Z :=
  let '(q, ed) := x in
  if decide (c ∈ [C 80; C 82; C 70; C 83; C 90]) then (q, ed)
  else if decide (c = C 85) then (q, [])
  else if decide (c = C 72 ∨ c = 0x7f) then (q, take (length ed - 1) ed)
  else if decide (c ≠ 0 ∧ Z.of_nat (length q + length ed) < INPUT_BUF) then
    let c := if decide (c = 13) then 10 else c in
    let ed' := ed ++ [i8 c] in
    if decide (c = 10 ∨ c = C 68 ∨ Z.of_nat (length q + length ed') = INPUT_BUF) then (q ++ ed', []) else (q, ed')
  else (q, ed).

Definition asks (c : Z) : option listing :=
  if decide (c = C 80) then Some Procdump else if decide (c = C 82) then Some Ctrlr else
  if decide (c = C 70) then Some Ctrlf else if decide (c = C 83) then Some Ctrls else
  if decide (c = C 90) then Some Ctrlz else None.

Definition no_newline (ed : list Z) : Prop := Forall (λ c, c ≠ 10) ed.

(** The console between two interrupts. *)
Record CInv (s : consst) (q ed : list Z) : Prop := {
  ci_screen : SInv s;
  ci_run : panicked s = false;
  ci_input : holds s q ed;
  ci_edit : no_newline ed
}.

Lemma take_snoc (ed : list Z) v : take (length (ed ++ [v]) - 1) (ed ++ [v]) = ed.
Proof. rewrite length_app. cbn [length]. rewrite Nat.add_sub. apply take_app_length. Qed.

Lemma erase_spec s q ed v : CInv s q (ed ++ [v]) →
  buf s !! islot (u32 (input_e s - 1)) = Some v ∧
  wp (consputc BACKSPACE) (set_e (u32 (input_e s - 1)) s) (λ _ s', CInv s' q ed ∧ readers s' = readers s).
Proof.
  intros [HS Hp Hh He]. destruct (holds_pop s q (ed ++ [v]) Hh) as [(v' & Hl & Hb) Hh1]; [by destruct ed|].
  rewrite last_snoc in Hl. injection Hl as <-. rewrite take_snoc in Hh1. split; [done|]. set (s1 := set_e _ s) in *.
  wp_call (consputc_spec BACKSPACE s1); [by destruct HS|done|]. intros _ s' (H1 & H2 & _ & _). split; [|apply H2].
  split; [done|by rewrite (proj1 H2)|by eapply holds_same|by apply Forall_app in He as [? _]].
Qed.

Lemma edit_empty s q ed : holds s q ed → input_e s = input_w s ↔ ed = [].
Proof.
  intros (HI & _ & <-). rewrite no_edit by done. rewrite <- length_editing. split; [apply nil_length_inv|by intros ->].
Qed.

Lemma kill_line_spec q ed : ∀ fuel s, CInv s q ed → (length ed ≤ fuel)%nat →
  wp (kill_line fuel) s (λ _ s', CInv s' q [] ∧ readers s' = readers s).
Proof.
  induction ed as [|v ed IH] using rev_ind; intros fuel s HC Hf.
  - assert (input_e s = input_w s) as E by (apply (edit_empty s q []); [apply HC|done]).
    destruct fuel; cbn [kill_line]; wp_steps; cbn [id]; rewrite decide_False by tauto; by wp_steps.
  - rewrite length_app in Hf. cbn in Hf. destruct fuel as [|f]; [lia|]. destruct (erase_spec s q ed v HC) as [Hb He].
    destruct (HC) as [HS Hp Hh Hn]. cbn [kill_line]. wp_steps. cbn [id]. rewrite decide_True.
    2: { intros E%(edit_empty s q _ Hh). by destruct ed. }
    assert (v ≠ 10) as Hv by (apply Forall_app in Hn as [_ Hn]; by inversion Hn).
    wp_steps. eapply wp_lookupM; [done|]. rewrite decide_True by done.
    wp_steps. eapply wp_mono; [exact He|]. intros _ s1 [HC1 Hr]. eapply wp_mono; [apply IH; [done|lia]|].
    intros _ s2 [HC2 Hr2]. split; [done|congruence].
Qed.

Lemma i8_newline c : 0 ≤ c < 256 → i8 c = 10 ↔ c = 10.
Proof.
  intros Hc. unfold i8, u8. rewrite Z.mod_small by lia. destruct (Z.ltb_spec c (2 ^ 7)); lia.
Qed.

(** Backspace. *)
Lemma backspace_spec s q ed : CInv s q ed →
  wp (s ← gets id;
      (if decide (input_e s ≠ input_w s) then
         modify (λ s, set_e (u32 (input_e s - 1)) s);; consputc BACKSPACE
       else mret tt);;
      mret (@None listing)) s
    (λ r s', r = None ∧ CInv s' q (take (length ed - 1) ed) ∧ readers s' = readers s).
Proof.
  intros HC. wp_steps. cbn [id]. destruct ed as [|v ed _] using rev_ind.
  - rewrite decide_False by (rewrite (edit_empty s q []); [tauto|apply HC]). by wp_steps.
  - rewrite decide_True by (rewrite (edit_empty s q _ (ci_input _ _ _ HC)); by destruct ed).
    destruct (erase_spec s q ed v HC) as [_ He]. wp_steps. eapply wp_mono; [exact He|]. intros _ s1 [HC1 Hr]. wp_steps.
    by rewrite take_snoc.
Qed.

(** Any other character. *)
Lemma type_spec c s q ed : 0 ≤ c < 256 → CInv s q ed →
  wp (s ← gets id;
      (if decide (c ≠ 0 ∧ u32 (input_e s - input_r s) < INPUT_BUF) then
         let c := if decide (c = 13) then 10 else c in
         modify (λ s, set_buf (<[islot (input_e s) := i8 c]> (buf s)) s);;
         modify (λ s, set_e (u32 (input_e s + 1)) s);;
         consputc c;;
         s ← gets id;
         if decide (c = 10 ∨ c = C 68 ∨ input_e s = u32 (input_r s + INPUT_BUF)) then
           modify (λ s, set_w (input_e s) s);;
           modify (set_readers 0)
         else mret tt
       else mret tt);;
      mret (@None listing)) s
    (λ r s', r = None ∧
      if decide (c ≠ 0 ∧ Z.of_nat (length q + length ed) < INPUT_BUF) then
        let c := if decide (c = 13) then 10 else c in
        let ed' := ed ++ [i8 c] in
        if decide (c = 10 ∨ c = C 68 ∨ Z.of_nat (length q + length ed') = INPUT_BUF)
        then CInv s' (q ++ ed') [] ∧ readers s' = 0%nat
        else CInv s' q ed' ∧ readers s' = readers s
      else CInv s' q ed ∧ readers s' = readers s).
Proof.
  intros Hc HC. destruct (HC) as [HS Hp Hh Hn]. destruct (Hh) as (HI & Eq & Ee).
  assert (u32 (input_e s - input_r s) = Z.of_nat (length q + length ed)) as Et by (rewrite input_total, <- length_lines, <- length_editing by done; congruence).
  wp_steps. cbn [id]. rewrite Et. destruct (decide (c ≠ 0 ∧ _)) as [[Hc0 Hr]|]; [|by wp_steps]. cbv zeta.
  set (c' := if decide (c = 13) then 10 else c). assert (0 ≤ c' < 256) as Hc' by (unfold c'; case_decide; lia).
  pose proof (holds_push s q ed (i8 c') Hh Hr) as Hh1. wp_steps. set (s1 := set_e _ _) in *.
  wp_call (consputc_spec c' s1); [by destruct HS|done|]. intros _ s2 (HS2 & Hsame & _ & _). wp_steps. cbn [id].
  pose proof (holds_same _ _ _ _ Hsame Hh1) as Hh2. destruct (Hsame) as (Ep & _ & _ & _ & _ & _ & Er).
  assert (input_e s2 = u32 (input_r s2 + INPUT_BUF) ↔ Z.of_nat (length q + length (ed ++ [i8 c'])) = INPUT_BUF) as Hfull.
  { destruct Hh2 as (HI2 & E1 & E2). rewrite is_full by done. by rewrite <- E1, <- E2, length_lines, length_editing. }
  destruct (decide (c' = 10 ∨ c' = C 68 ∨ input_e s2 = _)) as [Hend|Hend].
  - wp_steps. rewrite decide_True by tauto. split; [done|]. split; [|done].
    split; [by destruct HS2|cbn; by rewrite Ep| |by constructor]. by apply holds_readers, (holds_commit s2).
  - wp_steps. rewrite decide_False by tauto. split; [done|]. split; [|by rewrite Er].
    split; [done|by rewrite Ep|done|]. apply Forall_app. split; [done|]. constructor; [|by constructor]. rewrite i8_newline by done. tauto.
Qed.

Ltac pick := repeat first [ rewrite decide_False by (done || tauto) | rewrite decide_True by (done || tauto) ].

Lemma consoleintr_char_spec c s q ed : 0 ≤ c < 256 → CInv s q ed →
  wp (consoleintr_char c) s (λ r s', r = asks c ∧ CInv s' (edit c (q, ed)).1 (edit c (q, ed)).2 ∧
    (readers s' = readers s ∨ readers s' = 0%nat)).
Proof.
  intros Hc HC. unfold edit. destruct (decide (c ∈ _)) as [Hin|Hno].
  - rewrite !elem_of_cons, elem_of_nil in Hin. destruct Hin as [->|[->|[->|[->|[->|[]]]]]]; unfold consoleintr_char; pick; wp_steps; (split; [reflexivity|]); (split; [exact HC|by left]).
  - rewrite !not_elem_of_cons in Hno. destruct Hno as (N1 & N2 & N3 & N4 & N5 & _). unfold consoleintr_char.
    assert (asks c = None) as -> by (unfold asks; by pick). rewrite (decide_False (P := c = C 80)) by done.
    destruct (decide (c = C 85)) as [->|H2]; [|destruct (decide (c = C 72 ∨ c = 0x7f)) as [H3|H3]].
    + wp_steps. wp_call (kill_line_spec q ed); [done| |].
      * destruct HC as [_ _ (HI & Eq & Ee) _]. rewrite <- Ee, length_editing. pose proof (ii_room _ HI). unfold INPUT_BUF in *. lia.
      * intros _ s1 [HC1 Hr]. wp_steps. by auto.
    + wp_call backspace_spec; [done|]. intros r s' (-> & HC' & Hr). by auto.
    + rewrite (decide_False (P := c = C 82)), (decide_False (P := c = C 70)), (decide_False (P := c = C 83)), (decide_False (P := c = C 90)) by done.
      wp_call type_spec; [done|done|]. intros r s' (-> & Hpost). split; [done|].
      destruct (decide (c ≠ 0 ∧ _)); [|by destruct Hpost; auto]. cbv zeta in Hpost |- *. destruct (decide (_ ∨ _)); destruct Hpost; auto.
Qed.

Lemma consoleintr_loop_spec cs : ∀ s q ed ask, Forall (λ c, 0 ≤ c < 256) cs → CInv s q ed →
  wp (consoleintr_loop cs ask) s (λ r s', r = reverse (omap asks cs) ++ ask ∧
    CInv s' (foldl (flip edit) (q, ed) cs).1 (foldl (flip edit) (q, ed) cs).2).
Proof.
  induction cs as [|c cs IH]; intros s q ed ask Hcs HC; cbn [consoleintr_loop]; [by wp_steps|].
  inversion_clear Hcs as [|? ? Hc Hcs']. wp_steps. wp_call consoleintr_char_spec; [done|done|]. intros r s1 (-> & HC1 & _).
  eapply wp_mono; [by apply IH|]. intros r s2 [-> HC2]. cbn [foldl flip]. rewrite <- (surjective_pairing (edit c (q, ed))) in HC2. split; [|done].
  cbn [omap list_omap]. destruct (asks c); [|done]. by rewrite reverse_cons, <- app_assoc.
Qed.

Lemma write_chars_spec cs : ∀ s, SInv s → panicked s = false →
  wp (write_chars cs) s (λ _ s', SInv s' ∧ same_input s s' ∧
    text s' = foldl (λ t c, term_put (Z.land c 0xff) t) (text s) cs ∧
    sent s' = sent s ++ (cs ≫= λ c, serial (uart s) (Z.land c 0xff))).
Proof.
  induction cs as [|c cs IH]; intros s HS Hp; cbn [write_chars]; wp_steps.
  { rewrite app_nil_r. by split_and!. }
  wp_call consputc_spec; [done|done|]. intros _ s1 (HS1 & Hin & Hs & Ht). destruct (Hin) as (E1 & E2 & E3 & E4 & E5 & E6 & E7).
  eapply wp_mono; [apply IH; [done|congruence]|]. intros _ s2 (HS2 & (F1 & F2 & F3 & F4 & F5 & F6 & F7) & Ht2 & Hs2).
  split; [done|]. split; [unfold same_input; by split_and!; etrans|]. cbn [foldl]. rewrite Ht2, Ht. split; [done|].
  rewrite Hs2, Hs, E2. by rewrite <- app_assoc.
Qed.

(** ** Reading *)

(** What a run of consoleread that may take [n] bytes does with the lines [q]:
    it stores [l] and leaves [q'].  [fresh] says that nothing was read yet. *)
Definition delivered (killed fresh : bool) (n target : Z) (q l q' : list Z) (r : crun) : Prop :=
  Z.of_nat (length l) ≤ n ∧ C 68 ∉ l ∧
  match r with
  | CSleep m => killed = false ∧ q = l ∧ q' = [] ∧ 10 ∉ l ∧ m = n - Z.of_nat (length l) ∧ 0 < m
  | CRet m =>
      (m = -1 ∧ killed = true ∧ q = l ∧ q' = [] ∧ 10 ∉ l ∧ Z.of_nat (length l) < n) ∨
      (m = target - (n - Z.of_nat (length l)) ∧
        ((q = l ++ q' ∧ ∃ l0, l = l0 ++ [10] ∧ 10 ∉ l0) ∨
         (10 ∉ l ∧ (q = l ++ q' ∧ Z.of_nat (length l) = n ∨
            Z.of_nat (length l) < n ∧ ∃ t, q = l ++ C 68 :: t ∧ q' = if fresh && bool_decide (l = []) then t else C 68 :: t))))
  end.

Lemma delivered_cons killed n target q l q' r c fresh :
  c ≠ 10 → c ≠ C 68 → 0 < n → delivered killed false (n - 1) target q l q' r → delivered killed fresh n target (c :: q) (c :: l) q' r.
Proof.
  intros H1 H2 Hn (Hl & Hd & Hr). unfold delivered. cbn [length]. split; [lia|]. split; [apply not_elem_of_cons; auto|].
  assert (10 ∉ l → 10 ∉ c :: l) as H10 by (intros; apply not_elem_of_cons; auto).
  destruct r as [m|m].
  - destruct Hr as (-> & -> & -> & ? & -> & ?). split_and!; auto; lia.
  - destruct Hr as [(-> & -> & -> & -> & ? & ?)|(-> & Hr)]; [left; split_and!; auto; lia|right]. split; [lia|].
    destruct Hr as [[-> (l0 & -> & ?)]|[? Hr]]; [left; split; [done|]; exists (c :: l0); split; [done|apply not_elem_of_cons; auto]|right].
    split; [auto|]. destruct Hr as [[-> ?]|[? (t & -> & ->)]]; [left; split; [done|lia]|right]. split; [lia|]. exists t.
    split; [done|]. cbn. by rewrite andb_false_r.
Qed.

Lemma lines_empty s q ed : holds s q ed → input_r s = input_w s ↔ q = [].
Proof. intros (HI & <- & _). rewrite no_lines by done. rewrite <- length_lines. split; [apply nil_length_inv|by intros ->]. Qed.

Lemma CInv_r s r : SInv s → SInv (set_r r s).
Proof. by intros [? ? ? ? ?]. Qed.

Lemma consoleread_loop_spec killed target ed : ∀ fuel n s q,
  CInv s q ed → Z.to_nat n = fuel → n ≤ target →
  wp (consoleread_loop fuel killed target n) s (λ x s', ∃ q', CInv s' q' ed ∧
    (0 ≤ n → delivered killed (bool_decide (n = target)) n target q x.2 q' x.1)).
Proof.
  induction fuel as [|f IH]; intros n s q HC Hn Ht; cbn [consoleread_loop].
  { rewrite decide_False by lia. wp_steps. exists q. split; [done|]. intros ?. split; [cbn; lia|]. split; [apply not_elem_of_nil|].
    right. cbn. split; [lia|]. right. split; [apply not_elem_of_nil|]. left. split; [done|lia]. }
  rewrite decide_True by lia. wp_steps. cbn [id]. destruct (HC) as [HS Hp Hh He]. destruct q as [|c q].
  - rewrite decide_True by (by apply (lines_empty s [] ed)). destruct killed; wp_steps.
    + exists []. split; [done|]. intros _. split; [cbn; lia|]. split; [apply not_elem_of_nil|]. left. cbn. split_and!; try done; [apply not_elem_of_nil|lia].
    + exists []. split; [by split; [destruct HS|done|by apply holds_readers|done]|]. intros _.
      split; [cbn; lia|]. split; [apply not_elem_of_nil|]. cbn. split_and!; try done; [apply not_elem_of_nil|lia|lia].
  - rewrite decide_False by (intros E%(lines_empty _ _ _ Hh); done). destruct (holds_take s q ed c Hh) as [Hb Hh1].
    wp_steps. eapply wp_lookupM; [done|]. wp_steps. set (s1 := set_r _ s) in *.
    assert (CInv s1 q ed) as HC1 by (split; [by apply CInv_r|done|done|done]).
    destruct (decide (c = C 68)) as [->|Hd]; [|destruct (decide (c = 10)) as [->|Hnl]]; wp_steps.
    + destruct (decide (n < target)) as [Hlt|Hge]; wp_steps.
      * exists (C 68 :: q). assert (set_r (u32 (input_r s1 - 1)) s1 = s) as ->.
        { unfold s1. cbn [input_r set_r]. replace (u32 (input_r s + 1) - 1) with (u32 (input_r s + 1) + -1) by lia. rewrite u32_add_idemp_l.
          replace (input_r s + 1 + -1) with (input_r s) by lia. rewrite u32_small by apply Hh. by destruct s. }
        split; [done|]. intros _. split; [cbn; lia|]. split; [apply not_elem_of_nil|]. right. cbn. split; [lia|]. right. split; [apply not_elem_of_nil|]. right.
        split; [lia|]. exists q. split; [done|]. by rewrite bool_decide_false by lia.
      * exists q. split; [done|]. intros _. split; [cbn; lia|]. split; [apply not_elem_of_nil|]. right. cbn. split; [lia|]. right. split; [apply not_elem_of_nil|]. right.
        split; [lia|]. exists q. split; [done|]. by rewrite bool_decide_true by lia.
    + exists q. split; [done|]. intros _. split; [cbn; lia|]. split; [apply not_elem_of_cons; split; [done|apply not_elem_of_nil]|]. right. cbn.
      split; [lia|]. left. split; [done|]. exists []. split; [done|apply not_elem_of_nil].
    + eapply wp_mono; [apply (IH (n - 1) s1 q); [done|lia|lia]|]. intros x s2 (q' & HC2 & Hdel). wp_steps. exists q'. split; [done|]. intros _.
      cbn [fst snd]. apply delivered_cons; [done|done|lia|]. rewrite (bool_decide_false (n - 1 = target)) in Hdel by lia. apply Hdel. lia.
Qed.

(** ** The device *)

(** The caller has the console's inode locked, as readi and writei do. *)
Definition locked (f : fsst) (ip : nat) : Prop := ∃ x, icache f !! ip = Some x ∧ i_busy x = true ∧ i_valid x = true ∧ 1 ≤ i_ref x.
Definition unlocked (ip : nat) (f : fsst) : fsst :=
  set_icache (match icache f !! ip with Some x => <[ip := set_i_flags false (i_valid x) x]> (icache f) | None => icache f end) f.

Lemma iunlock_locked ip f : locked f ip → wp (iunlock ip) f (λ _ f', f' = unlocked ip f).
Proof.
  intros (x & Hx & Hb & Hv & Hr). unfold iunlock, geti, seti, unlocked. wp_steps. eapply wp_lookupM; [done|].
  rewrite decide_False by (rewrite Hb; intros [|]; [done|lia]). wp_steps. eapply wp_lookupM; [done|]. wp_steps.
  by rewrite Hx.
Qed.

Lemma ilock_unlocked ip f : locked f ip → wp (ilock ip) (unlocked ip f) (λ _ f', f' = f).
Proof.
  intros (x & Hx & Hb & Hv & Hr). unfold ilock, geti, seti. set (y := set_i_flags false (i_valid x) x).
  assert (unlocked ip f = set_icache (<[ip := y]> (icache f)) f) as -> by (unfold unlocked; by rewrite Hx).
  assert (ip < length (icache f))%nat as Hl by by eapply lookup_lt_Some.
  wp_steps. eapply wp_lookupM; [by apply list_lookup_insert_eq|]. cbn [i_ref i_busy y set_i_flags]. rewrite decide_False by lia.
  wp_steps. eapply wp_lookupM; [by apply list_lookup_insert_eq|]. wp_steps. cbn [i_valid y set_i_flags icache set_icache]. rewrite Hv. wp_steps.
  rewrite list_insert_insert_eq, list_insert_id; [by destruct f|]. rewrite Hx. f_equal. destruct x; cbn in *. by subst.
Qed.

(** C31: The screen is a terminal: whatever bytes are written to the console,
    the text up to the cursor is what 24 lines of 80 characters show that
    scroll, with newlines filling the line with blanks; the cursor stays on the
    screen, so that the out-of-range panic of cgaputc is never reached; the
    same bytes go to the serial line; consolewrite returns their number, with
    the inode locked as before. *)
Theorem consolewrite_shows (ip : nat) (b : list Z) (f : fsst) (s : consst) :
  locked f ip → SInv s → panicked s = false →
  wp (consolewrite ip b (Z.of_nat (length b))) (mkDev f s) (λ r d', r = Z.of_nat (length b) ∧ dev_fs d' = f ∧
    SInv (dev_cons d') ∧ same_input s (dev_cons d') ∧
    text (dev_cons d') = foldl (λ t c, term_put (Z.land c 0xff) t) (text s) b ∧
    sent (dev_cons d') = sent s ++ (b ≫= λ c, serial (uart s) (Z.land c 0xff))).
Proof.
  intros Hf HS Hp. unfold consolewrite, on_fs, on_cons. wp_steps. wp_call iunlock_locked; [done|]. intros _ f1 ->. wp_steps.
  rewrite Nat2Z.id. eapply wp_lookupM; [rewrite decide_True by lia; by rewrite take_ge|]. wp_steps.
  wp_call write_chars_spec; [done|done|]. intros _ s1 H1. wp_steps. wp_call ilock_unlocked; [done|]. intros _ f2 ->. by wp_steps.
Qed.

(** C29: Typing: for any characters that the keyboard or the serial line
    delivers, consoleintr keeps the input ring a line editor in front of a
    queue of complete lines.  A character is added to the line unless the ring
    is full, a carriage return counting as a newline; backspace and delete
    take back the last character of the line and control-U all of it, never
    more; a newline, a control-D or a full ring completes the line.  The
    listings are asked for by their control characters alone, and printed in a
    fixed order. *)
Theorem consoleintr_edits_lines (cs : list Z) (s : consst) (q ed : list Z) :
  Forall (λ c, 0 ≤ c < 256) cs → CInv s q ed →
  wp (consoleintr cs) s (λ ls s',
    ls = filter (λ l, l ∈ omap asks cs) [Procdump; Ctrlr; Ctrlf; Ctrls; Ctrlz] ∧
    CInv s' (foldl (flip edit) (q, ed) cs).1 (foldl (flip edit) (q, ed) cs).2).
Proof.
  intros Hcs HC. unfold consoleintr. wp_steps. wp_call consoleintr_loop_spec; [done|done|]. intros ask s1 [-> HC1]. wp_steps. split; [|done].
  apply list_filter_iff. intros l. rewrite app_nil_r. by rewrite elem_of_reverse.
Qed.

(** C30: Reading: consoleread hands over the queue of complete lines, in order,
    up to and including a newline, up to the number of bytes asked for, or up
    to a control-D, which ends the read and is consumed only by a read that
    got nothing before it; otherwise it sleeps, or returns -1 if the process
    was killed.  It holds its inode again exactly when it returns. *)
Theorem consoleread_delivers (ip : nat) (killed : bool) (n : Z) (f : fsst) (s : consst) (q ed : list Z) :
  locked f ip → CInv s q ed → 0 ≤ n →
  wp (consoleread ip killed n) (mkDev f s) (λ x d', ∃ q', CInv (dev_cons d') q' ed ∧
    delivered killed true n n q x.2 q' x.1 ∧
    dev_fs d' = match x.1 with CSleep _ => unlocked ip f | CRet _ => f end).
Proof.
  intros Hf HC Hn. unfold consoleread, consoleread_run, on_fs, on_cons. wp_steps. wp_call iunlock_locked; [done|]. intros _ f1 ->. wp_steps.
  wp_call (consoleread_loop_spec killed n ed); [done|done|done|]. intros [r l] s1 (q' & HC1 & Hd). cbn [fst snd] in *. specialize (Hd Hn).
  rewrite bool_decide_true in Hd by done. destruct r as [m|m]; wp_steps.
  - by exists q'.
  - wp_call ilock_unlocked; [done|]. intros _ f2 ->. wp_steps. by exists q'.
Qed.

(** ** Instances *)

(** A cleared screen, the cursor at the start of the last line but one. *)
Definition cons0 : consst := mkCons false true [] (replicate (25 * 80) 0) 7 48 (replicate (Z.to_nat INPUT_BUF) 0) (2 ^ 32 - 2) (2 ^ 32 - 2) (2 ^ 32 - 2) 0.
Definition tty : inode := mkInode 1 3 1 true true T_DEV 1 1 1 0 0 493 0 (replicate (S NDIRECT) 0).
Definition tty_fs : fsst := mkFs (λ _ _, []) [tty] (mkSb 0 0 0 0 0 0 0) [] 0.

Lemma tty_locked : locked tty_fs 0.
Proof. exists tty. split_and!; [reflexivity|reflexivity|reflexivity|cbn; lia]. Qed.
Lemma cons0_SInv : SInv cons0.
Proof.
  split; [cbn; lia|cbn; lia|by apply Nat.ltb_lt|apply length_replicate|].
  intros j v _ Hv. cbn [crt cons0] in Hv. apply lookup_replicate in Hv as [-> _]. reflexivity.
Qed.
Lemma cons0_CInv : CInv cons0 [] [].
Proof.
  split; [exact cons0_SInv|reflexivity| |by constructor]. split; [|by split].
  split; [apply length_replicate|unfold is_u32; cbn; lia|unfold is_u32; cbn; lia|unfold is_u32; cbn; lia|by vm_compute].
Qed.

Lemma consolewrite_shows_witness :
  wp (consolewrite 0 [104; 105; 10] 3) (mkDev tty_fs cons0) (λ r d', r = 3 ∧ sent (dev_cons d') = [104; 105; 10]).
Proof.
  eapply wp_mono; [apply (consolewrite_shows 0 [104; 105; 10] tty_fs cons0); [exact tty_locked|exact cons0_SInv|reflexivity]|].
  intros r d' (-> & _ & _ & _ & _ & ->). split; reflexivity.
Defined.

(** [x, backspace, h, i, return, y]: the ring holds a line, across the
    wrap-around of the counters, and [y] waits. *)
Lemma consoleintr_edits_lines_witness :
  wp (consoleintr [120; 8; 104; 105; 13; 121]) cons0 (λ ls s', ls = [] ∧ CInv s' [104; 105; 10] [121]).
Proof.
  eapply wp_mono; [apply (consoleintr_edits_lines [120; 8; 104; 105; 13; 121] cons0 [] []); [repeat constructor; lia|exact cons0_CInv]|].
  intros ls s' [-> HC]. split; [reflexivity|exact HC].
Defined.

(** A complete line in the ring, across the wrap-around of its counters. *)
Definition cons1 : consst :=
  set_e 1 (set_w 1 (set_buf (<[126%nat := 104]> (<[127%nat := 105]> (<[0%nat := 10]> (buf cons0)))) cons0)).
Lemma cons1_CInv : CInv cons1 [104; 105; 10] [].
Proof.
  split; [destruct cons0_SInv as [? ? ? ? ?]; by split|reflexivity| |by constructor]. split; [|split; by vm_compute].
  split; [reflexivity|unfold is_u32; cbn; lia|unfold is_u32; cbn; lia|unfold is_u32; cbn; lia|by vm_compute].
Qed.

Lemma consoleread_delivers_witness :
  wp (consoleread 0 false 5) (mkDev tty_fs cons1) (λ x d', ∃ q', delivered false true 5 5 [104; 105; 10] x.2 q' x.1).
Proof.
  eapply wp_mono; [apply (consoleread_delivers 0 false 5 tty_fs cons1 [104; 105; 10] []); [exact tty_locked|exact cons1_CInv|lia]|].
  intros x d' (q' & _ & Hd & _). exists q'. exact Hd.
Defined.
