(* ===== verification/Kbd.v ===== *)
(** * The keyboard (kbd.c, kbd.h)

    The scan-code automaton: the modifiers held or toggled, the escape for
    extended keys, and the tables that give a key's character. *)

From S2P Require Import Prelude Console ConsoleProps.

Local Open Scope Z_scope.

Definition SHIFT : Z := 1.
Definition CTL : Z := 2.
Definition ALT : Z := 4.
Definition CAPSLOCK : Z := 8.
Definition NUMLOCK : Z := 16.
Definition SCROLLLOCK : Z := 32.
Definition E0ESC : Z := 64.

Definition KEY_HOME : Z := 0xE0.
Definition KEY_END : Z := 0xE1.
Definition KEY_UP : Z := 0xE2.
Definition KEY_DN : Z := 0xE3.
Definition KEY_LF : Z := 0xE4.
Definition KEY_RT : Z := 0xE5.
Definition KEY_PGUP : Z := 0xE6.
Definition KEY_PGDN : Z := 0xE7.
Definition KEY_INS : Z := 0xE8.
Definition KEY_DEL : Z := 0xE9.

(** A table of 256 entries: the first ones in order, then those with a
    designator. *)
Definition table (l : list Z) (sp : list (Z * Z)) : list Z :=
  foldl (λ t e, <[Z.to_nat e.1 := e.2]> t) (l ++ replicate (256 - length l) 0) sp.

Definition shiftcode : list Z :=
  table [] [(0x1D, CTL); (0x2A, SHIFT); (0x36, SHIFT); (0x38, ALT); (0x9D, CTL); (0xB8, ALT)].

Definition togglecode : list Z :=
  table [] [(0x3A, CAPSLOCK); (0x45, NUMLOCK); (0x46, SCROLLLOCK)].

Definition normalmap : list Z :=
  table
    [ 0; 0x1B; 49; 50; 51; 52; 53; 54;           (* ESC 1 2 3 4 5 6 *)
      55; 56; 57; 48; 45; 61; 8; 9;              (* 7 8 9 0 - = backspace tab *)
      113; 119; 101; 114; 116; 121; 117; 105;    (* q w e r t y u i *)
      111; 112; 91; 93; 10; 0; 97; 115;          (* o p [ ] newline . a s *)
      100; 102; 103; 104; 106; 107; 108; 59;     (* d f g h j k l ; *)
      39; 96; 0; 92; 122; 120; 99; 118;          (* quote backquote . backslash z x c v *)
      98; 110; 109; 44; 46; 47; 0; 42;           (* b n m , . / . star *)
      0; 32; 0; 0; 0; 0; 0; 0;
      0; 0; 0; 0; 0; 0; 0; 55;                   (* 7 *)
      56; 57; 45; 52; 53; 54; 43; 49;            (* 8 9 - 4 5 6 + 1 *)
      50; 51; 48; 46; 0; 0; 0; 0 ]               (* 2 3 0 . *)
    [ (0x9C, 10); (0xB5, 47); (0xC8, KEY_UP); (0xD0, KEY_DN); (0xC9, KEY_PGUP); (0xD1, KEY_PGDN);
      (0xCB, KEY_LF); (0xCD, KEY_RT); (0x97, KEY_HOME); (0xCF, KEY_END); (0xD2, KEY_INS); (0xD3, KEY_DEL) ].

Definition shiftmap : list Z :=
  table
    [ 0; 27; 33; 64; 35; 36; 37; 94;             (* ESC ! @ # $ % ^ *)
      38; 42; 40; 41; 95; 43; 8; 9;              (* & star ( ) _ + backspace tab *)
      81; 87; 69; 82; 84; 89; 85; 73;            (* Q W E R T Y U I *)
      79; 80; 123; 125; 10; 0; 65; 83;           (* O P { } newline . A S *)
      68; 70; 71; 72; 74; 75; 76; 58;            (* D F G H J K L : *)
      34; 126; 0; 124; 90; 88; 67; 86;           (* double quote ~ . | Z X C V *)
      66; 78; 77; 60; 62; 63; 0; 42;             (* B N M < > ? . star *)
      0; 32; 0; 0; 0; 0; 0; 0;
      0; 0; 0; 0; 0; 0; 0; 55;
      56; 57; 45; 52; 53; 54; 43; 49;
      50; 51; 48; 46; 0; 0; 0; 0 ]
    [ (0x9C, 10); (0xB5, 47); (0xC8, KEY_UP); (0xD0, KEY_DN); (0xC9, KEY_PGUP); (0xD1, KEY_PGDN);
      (0xCB, KEY_LF); (0xCD, KEY_RT); (0x97, KEY_HOME); (0xCF, KEY_END); (0xD2, KEY_INS); (0xD3, KEY_DEL) ].

(** [C(x)] of a character [x], stored as a byte: the slash gives 0xEF. *)
Definition ctl (x : Z) : Z := u8 (C x).

Definition ctlmap : list Z :=
  table
    [ 0; 0; 0; 0; 0; 0; 0; 0;
      0; 0; 0; 0; 0; 0; 0; 0;
      ctl 81; ctl 87; ctl 69; ctl 82; ctl 84; ctl 89; ctl 85; ctl 73;
      ctl 79; ctl 80; 0; 0; 13; 0; ctl 65; ctl 83;
      ctl 68; ctl 70; ctl 71; ctl 72; ctl 74; ctl 75; ctl 76; 0;
      0; 0; 0; ctl 92; ctl 90; ctl 88; ctl 67; ctl 86;
      ctl 66; ctl 78; ctl 77; 0; 0; ctl 47; 0; 0 ]
    [ (0x9C, 13); (0xB5, ctl 47); (0xC8, KEY_UP); (0xD0, KEY_DN); (0xC9, KEY_PGUP); (0xD1, KEY_PGDN);
      (0xCB, KEY_LF); (0xCD, KEY_RT); (0x97, KEY_HOME); (0xCF, KEY_END); (0xD2, KEY_INS); (0xD3, KEY_DEL) ].

Definition charcode : list (list Z) := [normalmap; shiftmap; ctlmap; ctlmap].

(** One call of kbdgetc: the state is the static [shift]; the argument is what
    the controller has, [None] if its buffer is empty. *)
Definition kbdgetc (port : option Z) : M Z Z :=
  match port with
  | None => mret (-1)
  | Some data =>
      shift ← gets id;
      if decide (data = 0xE0) then
        modify (λ _, Z.lor shift E0ESC);; mret 0
      else if decide (Z.land data 0x80 ≠ 0) then
        let data := if decide (Z.land shift E0ESC ≠ 0) then data else Z.land data 0x7F in
        sc ← lookupM (λ _, shiftcode !! Z.to_nat data);
        modify (λ _, Z.land shift (u32 (Z.lnot (Z.lor sc E0ESC))));;
        mret 0
      else
        let '(data, shift) := if decide (Z.land shift E0ESC ≠ 0) then (Z.lor data 0x80, Z.land shift (u32 (Z.lnot E0ESC))) else (data, shift) in
        sc ← lookupM (λ _, shiftcode !! Z.to_nat data);
        tc ← lookupM (λ _, togglecode !! Z.to_nat data);
        let shift := Z.lxor (Z.lor shift sc) tc in
        modify (λ _, shift);;
        c ← lookupM (λ _, charcode !! Z.to_nat (Z.land shift (Z.lor CTL SHIFT)) ≫= λ m, m !! Z.to_nat data);
        mret (if decide (Z.land shift CAPSLOCK ≠ 0) then
                if decide (97 ≤ c ≤ 122) then c + (65 - 97)
                else if decide (65 ≤ c ≤ 90) then c + (97 - 65) else c
              else c)
  end.

(** The scan codes of one interrupt, up to the empty buffer that ends it. *)
Fixpoint kbd_codes (ports : list Z) : M Z (list Z) :=
  match ports with
  | [] => mret []
  | p :: ports' => c ← kbdgetc (Some p); cs ← kbd_codes ports'; mret (c :: cs)
  end.

(** [kbdintr]: consoleintr with kbdgetc, on the keyboard's and the console's
    state. *)
Definition kbdintr (ports : list Z) : M (Z * consst) (list listing) :=
  cs ← zoom fst (λ k s, (k, s.2)) (kbd_codes ports);
  zoom snd (λ c s, (s.1, c)) (consoleintr cs).

(** ** What the automaton guarantees *)

(** The values of [shift]: seven bits. *)
Definition shift_ok (k : Z) : Prop := 0 ≤ k < 128.

(** Every scan code in every state, by evaluation: the run returns, with a
    state and a character that are bytes. *)
Definition kbd_step_ok (k p : Z) : bool :=
  match kbdgetc (Some p) k with
  | Ret c k' => bool_decide (0 ≤ c < 256) && bool_decide (0 ≤ k' < 128)
  | _ => false
  end.

Lemma kbd_all : forallb (λ k, forallb (kbd_step_ok k) (seqZ 0 256)) (seqZ 0 128) = true.
Proof. by vm_compute. Qed.

Lemma kbdgetc_spec p k : 0 ≤ p < 256 → shift_ok k → wp (kbdgetc (Some p)) k (λ c k', 0 ≤ c < 256 ∧ shift_ok k').
Proof.
  intros Hp Hk. pose proof kbd_all as H. rewrite forallb_forall in H. specialize (H k). rewrite forallb_forall in H.
  assert (kbd_step_ok k p = true) as E.
  { apply H; apply list_elem_of_In, elem_of_seqZ; [unfold shift_ok in Hk|]; lia. }
  unfold kbd_step_ok in E. unfold wp. destruct (kbdgetc (Some p) k); try done.
  apply andb_true_iff in E as [E1%bool_decide_eq_true E2%bool_decide_eq_true]. done.
Qed.

Lemma kbd_codes_spec ports : ∀ k, Forall (λ p, 0 ≤ p < 256) ports → shift_ok k →
  wp (kbd_codes ports) k (λ cs k', Forall (λ c, 0 ≤ c < 256) cs ∧ length cs = length ports ∧ shift_ok k').
Proof.
  induction ports as [|p ports IH]; intros k Hp Hk; cbn [kbd_codes]; [by wp_steps|].
  inversion_clear Hp as [|? ? Hp1 Hp2]. wp_steps. wp_call kbdgetc_spec; [done|done|]. intros c k1 [Hc Hk1]. wp_steps.
  wp_call IH; [done|done|]. intros cs k2 (Hcs & Hl & Hk2). wp_steps. split; [by constructor|]. cbn. split; [lia|done].
Qed.

(** A keyboard interrupt keeps the console's invariant, whatever the scan
    codes. *)
Lemma kbdintr_keeps ports k s q ed : Forall (λ p, 0 ≤ p < 256) ports → shift_ok k → CInv s q ed →
  wp (kbdintr ports) (k, s) (λ _ x, shift_ok x.1 ∧ ∃ q' ed', CInv x.2 q' ed').
Proof.
  intros Hp Hk HC. unfold kbdintr. wp_steps. wp_call kbd_codes_spec; [done|done|]. intros cs k1 (Hcs & _ & Hk1). wp_steps.
  unfold consoleintr. wp_steps. wp_call consoleintr_loop_spec; [done|done|]. intros ask s1 [_ HC1]. wp_steps. split; [done|by eauto].
Qed.

(** Letters: capital exactly if one of shift and caps lock applies, and a
    control character under control. *)
Definition letter_code (k p : Z) : bool :=
  match normalmap !! Z.to_nat p with
  | Some c =>
      if decide (97 ≤ c ≤ 122) then
        match kbdgetc (Some p) k with
        | Ret r k' => bool_decide (k' = k) && bool_decide (r =
            if decide (Z.land k CTL ≠ 0) then c - 96
            else if xorb (bool_decide (Z.land k SHIFT ≠ 0)) (bool_decide (Z.land k CAPSLOCK ≠ 0)) then c - 32 else c)
        | _ => false
        end
      else true
  | None => false
  end.

Lemma letters_follow_modifiers : forallb (λ k, forallb (letter_code k) (seqZ 0 128)) (seqZ 0 64) = true.
Proof. by vm_compute. Qed.
