(* ===== verification/Syscall.v ===== *)
(** * System call arguments and dispatch (syscall.c, syscall.h)

    The kernel runs on the page table of the calling process, so that it reads
    the arguments directly from user memory, after checking them against the
    size of the process.  User memory is a list of bytes; an access outside of
    it is a fault. *)

From S2P Require Import Prelude CString Layout.

Local Open Scope Z_scope.

(** What the routines use of the calling process: [proc->sz], the user stack
    pointer [proc->tf->esp], and its memory. *)
Record uspace := mkU { u_sz : Z; u_esp : Z; u_mem : list Z }.

Section Fetch.
Context {S : Type} (u : uspace).

(** [*(int* )addr], [*(char* )addr] *)
Definition user_int (a : Z) : M S Z :=
  lookupM (λ _, if decide (0 ≤ a ∧ a + 4 ≤ Z.of_nat (length (u_mem u))) then Some (i32 (get_le (Z.to_nat a) 4 (u_mem u))) else None).
Definition user_byte (a : Z) : M S Z :=
  lookupM (λ _, if decide (0 ≤ a) then u_mem u !! Z.to_nat a else None).

(** [None] is the result -1. *)
Definition fetchint (addr : Z) : M S (option Z) :=
  if decide (u_sz u ≤ addr ∨ u_sz u < u32 (addr + 4)) then mret None else
  v ← user_int addr;
  mret (Some v).

(** The loop from [s] up to the end of the process. *)
Fixpoint fetchstr_loop (fuel : nat) (pp s : Z) : M S (option Z) :=
  if decide (s < u_sz u) then
    match fuel with
    | O => diverge
    | Datatypes.S f =>
        c ← user_byte s;
        if decide (c = 0) then mret (Some (s - pp)) else fetchstr_loop f pp (s + 1)
    end
  else mret None.

(** The address and the length of the string. *)
Definition fetchstr (addr : Z) : M S (option (Z * Z)) :=
  if decide (u_sz u ≤ addr) then mret None else
  r ← fetchstr_loop (Z.to_nat (u_sz u - addr)) addr addr;
  mret (match r with Some n => Some (addr, n) | None => None end).

Definition argint (n : Z) : M S (option Z) := fetchint (u32 (u_esp u + 4 + 4 * n)).

Definition argptr (n size : Z) : M S (option Z) :=
  i ← argint n;
  match i with
  | None => mret None
  | Some i =>
      if decide (u_sz u ≤ u32 i ∨ u_sz u < u32 (u32 i + size)) then mret None
      else mret (Some (u32 i))
  end.

Definition argstr (n : Z) : M S (option (Z * Z)) :=
  a ← argint n;
  match a with
  | None => mret None
  | Some a => fetchstr (u32 a)
  end.

(** The bytes of a string that [argstr] returned, with its NUL. *)
Definition user_str (p : Z * Z) : list Z := slice (Z.to_nat p.1) (Datatypes.S (Z.to_nat p.2)) (u_mem u).
End Fetch.

(** ** The dispatch table *)

Inductive sysno :=
  | SYS_fork | SYS_exit | SYS_wait | SYS_pipe | SYS_read | SYS_kill | SYS_exec | SYS_fstat | SYS_chdir | SYS_dup | SYS_getpid
  | SYS_sbrk | SYS_sleep | SYS_uptime | SYS_open | SYS_write | SYS_mknod | SYS_unlink | SYS_link | SYS_mkdir | SYS_close | SYS_halt
  | SYS_date | SYS_getuid | SYS_getgid | SYS_getppid | SYS_setuid | SYS_setgid | SYS_getprocs | SYS_setpriority
  | SYS_chmod | SYS_chown | SYS_chgrp.
#[export] Instance sysno_eq_dec : EqDecision sysno.
Proof. solve_decision. Defined.

(** The numbers of syscall.h, each one more than the one before. *)
Definition number (c : sysno) : Z :=
  match c with
  | SYS_fork => 1 | SYS_exit => 2 | SYS_wait => 3 | SYS_pipe => 4 | SYS_read => 5 | SYS_kill => 6 | SYS_exec => 7
  | SYS_fstat => 8 | SYS_chdir => 9 | SYS_dup => 10 | SYS_getpid => 11 | SYS_sbrk => 12 | SYS_sleep => 13 | SYS_uptime => 14
  | SYS_open => 15 | SYS_write => 16 | SYS_mknod => 17 | SYS_unlink => 18 | SYS_link => 19 | SYS_mkdir => 20 | SYS_close => 21
  | SYS_halt => 22 | SYS_date => 23 | SYS_getuid => 24 | SYS_getgid => 25 | SYS_getppid => 26 | SYS_setuid => 27 | SYS_setgid => 28
  | SYS_getprocs => 29 | SYS_setpriority => 30 | SYS_chmod => 31 | SYS_chown => 32 | SYS_chgrp => 33
  end.

(** [syscalls[]], in the order of its initialiser. *)
Definition initialiser : list sysno :=
  [ SYS_fork; SYS_exit; SYS_wait; SYS_pipe; SYS_read; SYS_kill; SYS_exec; SYS_fstat; SYS_chdir; SYS_dup; SYS_getpid; SYS_sbrk;
    SYS_sleep; SYS_uptime; SYS_open; SYS_write; SYS_mknod; SYS_unlink; SYS_link; SYS_mkdir; SYS_close; SYS_halt; SYS_date;
    SYS_getuid; SYS_getgid; SYS_getppid; SYS_setuid; SYS_setgid; SYS_getprocs; SYS_setpriority; SYS_chmod; SYS_chown; SYS_chgrp ].
Definition syscalls : list (option sysno) :=
  foldl (λ t c, <[Z.to_nat (number c) := Some c]> t) (replicate 34 None) initialiser.

(** [syscall()]: which handler the number in %eax selects; [None] is the
    complaint about an unknown call, which returns -1. *)
Definition dispatch_no (eax : Z) : option sysno :=
  let num := i32 eax in
  if decide (0 < num ∧ num < Z.of_nat (length syscalls)) then
    match syscalls !! Z.to_nat num with Some (Some c) => Some c | _ => None end
  else None.

(** The new %eax, for handlers on a state [S]. *)
Definition syscall {S} (handler : sysno → M S Z) (eax : Z) : M S Z :=
  match dispatch_no eax with
  | Some c => r ← handler c; mret (u32 r)
  | None => mret (u32 (-1))
  end.

(** ** What the checks guarantee *)

(** The process's memory is all there, below the kernel. *)
Record UOk (u : uspace) : Prop := {
  uo_sz : 0 ≤ u_sz u ≤ KERNBASE;
  uo_mem : Z.of_nat (length (u_mem u)) = u_sz u
}.

Section Bounds.
Context {S : Type} (u : uspace) (HU : UOk u).

Lemma fetchint_spec (addr : Z) (s : S) : is_u32 addr →
  wp (fetchint u addr) s (λ r s', s' = s ∧
    r = if decide (addr + 4 ≤ u_sz u) then Some (i32 (get_le (Z.to_nat addr) 4 (u_mem u))) else None).
Proof.
  intros Ha. destruct HU as [Hsz Hm]. unfold fetchint, is_u32 in *.
  assert (Hs : addr < u_sz u → u32 (addr + 4) = addr + 4) by (intros; apply u32_small; unfold is_u32, KERNBASE in *; lia).
  destruct (decide (addr + 4 ≤ u_sz u)) as [Hle|Hle].
  - rewrite decide_False by (rewrite Hs; lia). wp_steps. eapply wp_lookupM; [by rewrite decide_True by lia|]. by wp_steps.
  - rewrite decide_True; [by wp_steps|]. destruct (decide (u_sz u ≤ addr)); [by left|right]. rewrite Hs; lia.
Qed.

(** What [fetchstr] returns for the string at [addr]. *)
Definition str_at (addr n : Z) : Prop :=
  0 ≤ n ∧ 0 ≤ addr ∧ addr + n < u_sz u ∧ u_mem u !! Z.to_nat (addr + n) = Some 0 ∧
  ∀ i, addr ≤ i < addr + n → ∃ c, u_mem u !! Z.to_nat i = Some c ∧ c ≠ 0.

Lemma fetchstr_loop_spec (pp : Z) (s : S) : ∀ (fuel : nat) (a : Z), 0 ≤ pp ≤ a → u_sz u - a ≤ Z.of_nat fuel →
  (∀ i, pp ≤ i < a → ∃ c, u_mem u !! Z.to_nat i = Some c ∧ c ≠ 0) →
  wp (fetchstr_loop u fuel pp a) s (λ r s', s' = s ∧
    match r with Some n => str_at pp n | None => ∀ i, pp ≤ i < u_sz u → u_mem u !! Z.to_nat i ≠ Some 0 end).
Proof.
  destruct HU as [Hsz Hm]. induction fuel as [|f IH]; intros a Ha Hf Hall; cbn [fetchstr_loop].
  { rewrite decide_False by lia. wp_steps. split; [done|]. intros i Hi. destruct (Hall i) as (c & -> & ?); [lia|congruence]. }
  destruct (decide (a < u_sz u)) as [Hlt|Hge]; wp_steps.
  2: { split; [done|]. intros i Hi. destruct (Hall i) as (c & -> & ?); [lia|congruence]. }
  destruct (lookup_lt_is_Some_2 (u_mem u) (Z.to_nat a)) as [c Hc]; [lia|].
  eapply wp_lookupM; [rewrite decide_True by lia; exact Hc|]. destruct (decide (c = 0)) as [->|Hc0]; wp_steps.
  - split; [done|]. split; [lia|]. split; [lia|]. replace (pp + (a - pp)) with a by lia. done.
  - apply IH; [lia|lia|]. intros i Hi. destruct (decide (i = a)) as [->|]; [by exists c|apply Hall; lia].
Qed.

Lemma fetchstr_spec (addr : Z) (s : S) : is_u32 addr →
  wp (fetchstr u addr) s (λ r s', s' = s ∧
    match r with Some p => p.1 = addr ∧ str_at addr p.2 | None => ∀ i, addr ≤ i < u_sz u → u_mem u !! Z.to_nat i ≠ Some 0 end).
Proof.
  intros Ha. unfold fetchstr, is_u32 in *. destruct (decide _) as [Hge|Hlt]; wp_steps; [split; [done|]; intros; lia|].
  wp_call fetchstr_loop_spec; [lia|lia|intros; lia|]. intros [n|] s' [-> H]; wp_steps; done.
Qed.

Lemma argint_spec (n : Z) (s : S) :
  let a := u32 (u_esp u + 4 + 4 * n) in
  wp (argint u n) s (λ r s', s' = s ∧ r = if decide (a + 4 ≤ u_sz u) then Some (i32 (get_le (Z.to_nat a) 4 (u_mem u))) else None).
Proof. apply fetchint_spec, u32_range. Qed.

Lemma argptr_spec (n size : Z) (s : S) : 0 ≤ size < 2 ^ 31 →
  wp (argptr u n size) s (λ r s', s' = s ∧ ∀ p, r = Some p → 0 ≤ p ∧ p < u_sz u ∧ p + size ≤ u_sz u).
Proof.
  intros Hn. unfold argptr. wp_steps. wp_call argint_spec. intros r s' [-> _]. destruct r as [i|]; wp_steps; [|done].
  pose proof (u32_range i) as Hi. unfold is_u32 in Hi. destruct HU as [Hsz _]. unfold KERNBASE in *.
  destruct (decide _) as [Hd|Hd]; wp_steps; (split; [done|]); intros p Hp; simplify_eq. apply Decidable.not_or in Hd as [H1 H2].
  rewrite (u32_small (u32 i + size)) in H2 by (unfold is_u32; lia). lia.
Qed.

Lemma argstr_spec (n : Z) (s : S) :
  wp (argstr u n) s (λ r s', s' = s ∧ ∀ p, r = Some p → str_at p.1 p.2).
Proof.
  unfold argstr. wp_steps. wp_call argint_spec. intros r s' [-> _]. destruct r as [a|]; wp_steps; [|done].
  wp_call fetchstr_spec; [apply u32_range|]. intros [p|] s'' [-> H]; split; try done.
  intros q [= <-]. by destruct H as [-> H].
Qed.

(** C28: Whatever a process passes to the kernel, a stack pointer, numbers and
    pointers of any value, fetching the arguments of a system call neither
    faults nor diverges nor changes anything; a block that is accepted lies in
    the memory of the process, for every size that is not negative, and a
    string that is accepted ends, with its NUL, in the memory of the
    process. *)
Theorem arguments_stay_in_process (n size : Z) (s : S) : 0 ≤ size < 2 ^ 31 →
  wp (argint u n) s (λ r s', s' = s ∧ ∀ v, r = Some v → - 2 ^ 31 ≤ v < 2 ^ 31) ∧
  wp (argptr u n size) s (λ r s', s' = s ∧ ∀ p, r = Some p → 0 ≤ p ∧ p < u_sz u ∧ p + size ≤ u_sz u) ∧
  wp (argstr u n) s (λ r s', s' = s ∧ ∀ p, r = Some p → str_at p.1 p.2).
Proof.
  intros Hs. split; [|split; [by apply argptr_spec|apply argstr_spec]].
  eapply wp_mono; [apply argint_spec|]. intros r s' [-> ->]. split; [done|]. intros v. case_decide; intros [= <-].
  apply i32_range.
Qed.
End Bounds.

(** A negative size defeats the check: with 5 bytes of stack below the top of
    the process, [argptr] accepts the address of its last byte for [-1]. *)
Definition stack_top : uspace := mkU 16 0 (replicate 4 0 ++ [15; 0; 0; 0] ++ replicate 8 0).
Lemma stack_top_ok : UOk stack_top.
Proof. split; [by vm_compute|reflexivity]. Qed.
Lemma argptr_accepts_negative_size : argptr stack_top 0 (-1) tt = Ret (Some 15) tt.
Proof. by vm_compute. Qed.

Lemma arguments_stay_in_process_witness :
  wp (argptr stack_top 0 1) tt (λ r s', s' = tt ∧ ∀ p, r = Some p → 0 ≤ p ∧ p < 16 ∧ p + 1 ≤ 16).
Proof. apply (arguments_stay_in_process stack_top stack_top_ok 0 1 tt). lia. Defined.

(** The table and the numbers of syscall.h agree: [syscall] runs the handler
    of a call exactly for its number, and answers -1, running nothing, for
    every other value of %eax. *)
Theorem syscall_dispatches {S} (handler : sysno → M S Z) (eax : Z) :
  (∀ c, eax = number c → syscall handler eax = (r ← handler c; mret (u32 r))) ∧
  (is_u32 eax → (∀ c, eax ≠ number c) → syscall handler eax = mret (u32 (-1))).
Proof.
  unfold syscall. split; [by intros [] ->|]. intros He Hno.
  assert (dispatch_no eax = None) as ->; [|done]. unfold dispatch_no, is_u32 in *.
  destruct (decide _) as [Hd|]; [|done].
  assert (i32 eax = eax) as Heq by (unfold i32, u32 in *; rewrite Z.mod_small in * by lia; destruct (Z.ltb_spec eax (2 ^ 31)); lia). rewrite Heq in *. change (Z.of_nat (length syscalls)) with 34 in Hd.
  assert (∃ c, eax = number c) as [c Hc]; [|by destruct (Hno c)].
  assert (Hall : forallb (λ k, existsb (λ c, bool_decide (Z.of_nat k = number c)) initialiser) (seq 1 33) = true) by by vm_compute.
  rewrite forallb_forall in Hall. specialize (Hall (Z.to_nat eax)). rewrite existsb_exists in Hall.
  destruct Hall as (c & _ & Hc); [apply in_seq; lia|]. apply bool_decide_eq_true in Hc. exists c. lia.
Qed.
Lemma syscall_dispatches_witness :
  syscall (S := unit) (λ c, mret (number c)) 5 = mret 5 ∨ syscall (S := unit) (λ c, mret (number c)) 99 = mret (u32 (-1)).
Proof.
  right. apply (syscall_dispatches (λ c, mret (number c)) 99); [unfold is_u32; lia|intros []; discriminate].
Defined.
