(* ===== verification/File.v ===== *)
(** * Open files (file.c, pipealloc of pipe.c)

    The table of open files stands between the descriptors of the processes
    and what they name: an inode, or one end of a pipe.  The state is that of
    the file system, the table, the pipes by the address of their page, the
    page allocator, and the descriptors and working directory of every
    process.  A routine runs on behalf of one process; where it sleeps on a
    pipe its result says so. *)

From S2P Require Import Prelude Spinlock Kalloc Ring Pipe Layout Fs.

Local Open Scope Z_scope.

Inductive ftype := FD_NONE | FD_PIPE | FD_INODE.
#[export] Instance ftype_eq_dec : EqDecision ftype.
Proof. solve_decision. Defined.

(** [struct file]; an inode is its index in the cache, a pipe the address of
    its page. *)
Record file := mkFile {
  f_type : ftype; f_ref : Z; f_readable : bool; f_writable : bool; f_pipe : Z; f_ip : nat; f_off : Z
}.
Definition set_f_ref (v : Z) (f : file) : file := mkFile (f_type f) v (f_readable f) (f_writable f) (f_pipe f) (f_ip f) (f_off f).
Definition set_f_type (v : ftype) (f : file) : file := mkFile v (f_ref f) (f_readable f) (f_writable f) (f_pipe f) (f_ip f) (f_off f).
Definition set_f_off (v : Z) (f : file) : file := mkFile (f_type f) (f_ref f) (f_readable f) (f_writable f) (f_pipe f) (f_ip f) v.

(** [proc->ofile[NOFILE]] and [proc->cwd]; an exited process has no cwd. *)
Record fds := mkFds { ofile : list (option nat); cwd : option nat }.

Record kfs := mkKfs {
  fs : fsst;
  ftable : list file;        (* ftable.file[NFILE] *)
  pipes : Z → pst;
  mem : kmem;
  pfds : list fds            (* by process *)
}.
Definition set_fs (v : fsst) (s : kfs) : kfs := mkKfs v (ftable s) (pipes s) (mem s) (pfds s).
Definition set_ftable (v : list file) (s : kfs) : kfs := mkKfs (fs s) v (pipes s) (mem s) (pfds s).
Definition set_pipes (v : Z → pst) (s : kfs) : kfs := mkKfs (fs s) (ftable s) v (mem s) (pfds s).
Definition set_mem (v : kmem) (s : kfs) : kfs := mkKfs (fs s) (ftable s) (pipes s) v (pfds s).
Definition set_pfds (v : list fds) (s : kfs) : kfs := mkKfs (fs s) (ftable s) (pipes s) (mem s) v.

(** Calls into fs.c, a pipe, and kalloc.c. *)
Definition in_fs {A} (m : M fsst A) : M kfs A := zoom fs set_fs m.
Definition in_pipe {A} (p : Z) (m : M pst A) : M kfs A :=
  zoom (λ s, pipes s p) (λ v s, set_pipes (<[p := v]> (pipes s)) s) m.
Definition in_mem {A} (m : M kmem A) : M kfs A := zoom mem set_mem m.

Definition getf (j : nat) : M kfs file := lookupM (λ s, ftable s !! j).
Definition setf (j : nat) (g : file → file) : M kfs unit :=
  f ← getf j; modify (λ s, set_ftable (<[j := g f]> (ftable s)) s).

(** ** Transactions

    [begin_op] and [end_op] as the file system sees them: a transaction that
    does not fit into the log waits; the end of the last one commits.  Log.v
    has the routines themselves. *)
Definition set_outstanding (v : Z) (s : fsst) : fsst := mkFs (blk s) (icache s) (sb s) (logged s) v.

Definition begin_op : M fsst unit :=
  s ← gets id;
  if decide (LOGSIZE < Z.of_nat (length (logged s)) + (outstanding s + 1) * MAXOPBLOCKS) then diverge else
  modify (set_outstanding (outstanding s + 1)).

Definition end_op : M fsst unit :=
  modify (λ s, set_outstanding (outstanding s - 1) s);;
  s ← gets id;
  if decide (outstanding s = 0) then modify (set_logged []) else mret tt.

Section File.
Context `{Devices} (kend : Z).

(** ** Allocation and references *)

(** The scan for [f->ref == 0]. *)
Fixpoint free_file (l : list file) (j : nat) : option nat :=
  match l with
  | [] => None
  | f :: l' => if decide (f_ref f = 0) then Some j else free_file l' (S j)
  end.

Definition filealloc : M kfs (option nat) :=
  l ← gets ftable;
  match free_file l 0 with
  | Some j => setf j (set_f_ref 1);; mret (Some j)
  | None => mret None
  end.

Definition filedup (j : nat) : M kfs nat :=
  f ← getf j;
  if decide (f_ref f < 1) then panic "filedup" else
  setf j (λ f, set_f_ref (f_ref f + 1) f);;
  mret j.

(** [pipeclose]; the pipe records that its page was given back. *)
Definition close_pipe (p : Z) (writable : bool) : M kfs unit :=
  in_pipe p (pipeclose writable);;
  s ← gets id;
  if freed (pipes s p) then in_mem (kfree kend p) else mret tt.

Definition fileclose (j : nat) : M kfs unit :=
  f ← getf j;
  if decide (f_ref f < 1) then panic "fileclose" else
  setf j (λ f, set_f_ref (f_ref f - 1) f);;
  if decide (0 < f_ref f - 1) then mret tt else
  ff ← getf j;
  setf j (set_f_ref 0);;
  setf j (set_f_type FD_NONE);;
  if decide (f_type ff = FD_PIPE) then close_pipe (f_pipe ff) (f_writable ff)
  else if decide (f_type ff = FD_INODE) then in_fs begin_op;; in_fs (iput (f_ip ff));; in_fs end_op
  else mret tt.

(** ** Reading and writing *)

(** [None] is the result -1. *)
Definition filestat (j : nat) : M kfs (option stat) :=
  f ← getf j;
  if decide (f_type f = FD_INODE) then
    in_fs (ilock (f_ip f));;
    st ← in_fs (stati (f_ip f));
    in_fs (iunlock (f_ip f));;
    mret (Some st)
  else mret None.

(** How the call ends, as for a pipe, and the bytes stored at [addr]. *)
Definition fileread (killed : bool) (j : nat) (n : Z) : M kfs (prun * list Z) :=
  f ← getf j;
  if negb (f_readable f) then mret (PRet (-1), []) else
  if decide (f_type f = FD_PIPE) then in_pipe (f_pipe f) (piperead killed n) else
  if decide (f_type f = FD_INODE) then
    in_fs (ilock (f_ip f));;
    r ← in_fs (readi (f_ip f) (f_off f) (u32 n));
    (if decide (0 < r.1) then setf j (λ f, set_f_off (u32 (f_off f + r.1)) f) else mret tt);;
    in_fs (iunlock (f_ip f));;
    mret (PRet r.1, r.2)
  else panic "fileread".

(** [((LOGSIZE-1-1-2) / 2) * 512] *)
Definition max_write : Z := (LOGSIZE - 1 - 1 - 2) / 2 * 512.

(** The [while] loop; [src] is what is at [addr + i]; its result is the final [i]. *)
Fixpoint filewrite_loop (fuel : nat) (j : nat) (src : list Z) (i n : Z) : M kfs Z :=
  if decide (i < n) then
    match fuel with
    | O => diverge
    | S fu =>
        let n1 := if decide (max_write < n - i) then max_write else n - i in
        in_fs begin_op;;
        f ← getf j;
        in_fs (ilock (f_ip f));;
        r ← in_fs (writei (f_ip f) (take (Z.to_nat n1) src) (f_off f) n1);
        (if decide (0 < r) then setf j (λ f, set_f_off (u32 (f_off f + r)) f) else mret tt);;
        in_fs (iunlock (f_ip f));;
        in_fs end_op;;
        if decide (r < 0) then mret i else
        if decide (r ≠ n1) then panic "short filewrite" else
        filewrite_loop fu j (drop (Z.to_nat r) src) (i + r) n
    end
  else mret i.

(** A call for [n] bytes, resumed at byte [i0] of a pipe. *)
Definition filewrite (killed : bool) (j : nat) (src : list Z) (n i0 : Z) : M kfs prun :=
  f ← getf j;
  if negb (f_writable f) then mret (PRet (-1)) else
  if decide (f_type f = FD_PIPE) then in_pipe (f_pipe f) (pipewrite killed src n i0) else
  if decide (f_type f = FD_INODE) then
    i ← filewrite_loop (Z.to_nat n) j src 0 n;
    mret (PRet (if decide (i = n) then n else -1))
  else panic "filewrite".

(** ** pipealloc *)

(** [bad:] *)
Definition pipealloc_bad (p : Z) (f0 f1 : option nat) : M kfs (option (nat * nat)) :=
  (if decide (p ≠ 0) then in_mem (kfree kend p) else mret tt);;
  match f0 with Some j => fileclose j | None => mret tt end;;
  match f1 with Some j => fileclose j | None => mret tt end;;
  mret None.

(** A page of kalloc holds the 1s that kfree filled it with, but for its first
    word, where the lock of the pipe is. *)
Definition pipealloc : M kfs (option (nat * nat)) :=
  f0 ← filealloc;
  match f0 with
  | None => pipealloc_bad 0 None None
  | Some j0 =>
      f1 ← filealloc;
      match f1 with
      | None => pipealloc_bad 0 (Some j0) None
      | Some j1 =>
          p ← in_mem kalloc;
          if decide (p = 0) then pipealloc_bad 0 (Some j0) (Some j1) else
          modify (λ s, set_pipes (<[p := pipe_init (replicate (Z.to_nat PIPESIZE) 1)]> (pipes s)) s);;
          setf j0 (λ f, mkFile FD_PIPE (f_ref f) true false p (f_ip f) (f_off f));;
          setf j1 (λ f, mkFile FD_PIPE (f_ref f) false true p (f_ip f) (f_off f));;
          mret (Some (j0, j1))
      end
  end.
End File.
