(* ===== verification/Sysfile.v ===== *)
(** * File-system calls (sysfile.c)

    Each call as the calling process makes it: it fetches its arguments from
    the memory of the process, works on inodes inside a transaction, and
    changes the descriptors and the working directory of the process. *)

From S2P Require Import Prelude Spinlock CString Kalloc Ring Pipe Layout Fs Syscall File.

Local Open Scope Z_scope.

Definition O_RDONLY : Z := 0x000.
Definition O_WRONLY : Z := 0x001.
Definition O_RDWR : Z := 0x002.
Definition O_CREATE : Z := 0x200.

(** Stores into [nlink], [major] and [minor] (short), [mode.asInt] (uint),
    [uid] and [gid] (ushort). *)
Definition set_i_nlink (v : Z) (x : inode) : inode :=
  mkInode (i_dev x) (i_inum x) (i_ref x) (i_busy x) (i_valid x) (i_type x) (i_major x) (i_minor x) (i16 v)
    (i_uid x) (i_gid x) (i_mode x) (i_size x) (i_addrs x).
Definition set_i_device (major minor : Z) (x : inode) : inode :=
  mkInode (i_dev x) (i_inum x) (i_ref x) (i_busy x) (i_valid x) (i_type x) (i16 major) (i16 minor) (i_nlink x)
    (i_uid x) (i_gid x) (i_mode x) (i_size x) (i_addrs x).
Definition set_i_mode (v : Z) (x : inode) : inode :=
  mkInode (i_dev x) (i_inum x) (i_ref x) (i_busy x) (i_valid x) (i_type x) (i_major x) (i_minor x) (i_nlink x)
    (i_uid x) (i_gid x) (u32 v) (i_size x) (i_addrs x).
Definition set_i_uid (v : Z) (x : inode) : inode :=
  mkInode (i_dev x) (i_inum x) (i_ref x) (i_busy x) (i_valid x) (i_type x) (i_major x) (i_minor x) (i_nlink x)
    (u16 v) (i_gid x) (i_mode x) (i_size x) (i_addrs x).
Definition set_i_gid (v : Z) (x : inode) : inode :=
  mkInode (i_dev x) (i_inum x) (i_ref x) (i_busy x) (i_valid x) (i_type x) (i_major x) (i_minor x) (i_nlink x)
    (i_uid x) (u16 v) (i_mode x) (i_size x) (i_addrs x).

(** ["."] and [".."] *)
Definition DOT : list Z := [46; 0].
Definition DOTDOT : list Z := [46; 46; 0].

(** [u]: the memory of the caller; [name0]: what [char name[DIRSIZ]] holds
    before it is filled in. *)
Section Calls.
Context `{Devices} (kend : Z) (u : uspace) (name0 : list Z).

(** ** Calls on paths

    These change nothing but the file system; [cwd] is [proc->cwd]. *)

(** [bad:] of sys_link *)
Definition link_bad (ip : nat) : M fsst Z :=
  ilock ip;;
  seti ip (λ x, set_i_nlink (i_nlink x - 1) x);;
  iupdate ip;;
  iunlockput ip;;
  end_op;;
  mret (-1).

Definition sys_link (cwd : nat) : M fsst Z :=
  old ← argstr u 0;
  match old with None => mret (-1) | Some old =>
  new ← argstr u 1;
  match new with None => mret (-1) | Some new =>
  begin_op;;
  ip ← namei cwd (user_str u old);
  match ip with
  | None => end_op;; mret (-1)
  | Some ip =>
      ilock ip;;
      x ← geti ip;
      if decide (i_type x = T_DIR) then iunlockput ip;; end_op;; mret (-1) else
      seti ip (λ x, set_i_nlink (i_nlink x + 1) x);;
      iupdate ip;;
      iunlock ip;;
      r ← nameiparent cwd (user_str u new) name0;
      match r.1 with
      | None => link_bad ip
      | Some dp =>
          ilock dp;;
          xd ← geti dp;
          x ← geti ip;
          ok ← (if decide (i_dev xd ≠ i_dev x) then mret (-1) else dirlink dp r.2 (i_inum x));
          if decide (ok < 0) then iunlockput dp;; link_bad ip else
          iunlockput dp;;
          iput ip;;
          end_op;;
          mret 0
      end
  end
  end
  end.

(** Is the directory [dp] empty except for "." and ".."? *)
Fixpoint isdirempty_loop (fuel : nat) (dp : nat) (off : Z) : M fsst bool :=
  x ← geti dp;
  if decide (off < i_size x) then
    match fuel with
    | O => diverge
    | S f =>
        r ← readi dp off (Z.of_nat sizeof_dirent);
        if decide (r.1 ≠ Z.of_nat sizeof_dirent) then panic "isdirempty: readi" else
        if decide (de_inum (decode_dirent r.2) ≠ 0) then mret false
        else isdirempty_loop f dp (off + Z.of_nat sizeof_dirent)
    end
  else mret true.
Definition isdirempty (dp : nat) : M fsst bool :=
  x ← geti dp;
  isdirempty_loop (Z.to_nat (i_size x / Z.of_nat sizeof_dirent + 1)) dp (2 * Z.of_nat sizeof_dirent).

(** [bad:] of sys_unlink *)
Definition unlink_bad (dp : nat) : M fsst Z :=
  iunlockput dp;;
  end_op;;
  mret (-1).

Definition sys_unlink (cwd : nat) : M fsst Z :=
  path ← argstr u 0;
  match path with None => mret (-1) | Some path =>
  begin_op;;
  r ← nameiparent cwd (user_str u path) name0;
  match r.1 with
  | None => end_op;; mret (-1)
  | Some dp =>
      ilock dp;;
      c1 ← lookupM (λ _, namecmp r.2 DOT);
      c2 ← lookupM (λ _, namecmp r.2 DOTDOT);
      if decide (c1 = 0 ∨ c2 = 0) then unlink_bad dp else
      e ← dirlookup dp r.2;
      match e with
      | None => unlink_bad dp
      | Some (ip, off) =>
          ilock ip;;
          x ← geti ip;
          if decide (i_nlink x < 1) then panic "unlink: nlink < 1" else
          full ← (if decide (i_type x = T_DIR) then b ← isdirempty ip; mret (negb b) else mret false);
          if (full : bool) then iunlockput ip;; unlink_bad dp else
          w ← writei dp (replicate sizeof_dirent 0) off (Z.of_nat sizeof_dirent);
          if decide (w ≠ Z.of_nat sizeof_dirent) then panic "unlink: writei" else
          x ← geti ip;
          (if decide (i_type x = T_DIR) then
             seti dp (λ x, set_i_nlink (i_nlink x - 1) x);;
             iupdate dp
           else mret tt);;
          iunlockput dp;;
          seti ip (λ x, set_i_nlink (i_nlink x - 1) x);;
          iupdate ip;;
          iunlockput ip;;
          end_op;;
          mret 0
      end
  end
  end.

(** A new inode is returned locked, as an existing file is. *)
Definition create (cwd : nat) (path : list Z) (type major minor : Z) : M fsst (option nat) :=
  r ← nameiparent cwd path name0;
  match r.1 with
  | None => mret None
  | Some dp =>
      ilock dp;;
      e ← dirlookup dp r.2;
      match e with
      | Some (ip, _) =>
          iunlockput dp;;
          ilock ip;;
          x ← geti ip;
          if decide (type = T_FILE ∧ i_type x = T_FILE) then mret (Some ip)
          else iunlockput ip;; mret None
      | None =>
          xd ← geti dp;
          ip ← ialloc (i_dev xd) type;
          ilock ip;;
          seti ip (set_i_device major minor);;
          seti ip (set_i_nlink 1);;
          iupdate ip;;
          (if decide (type = T_DIR) then
             seti dp (λ x, set_i_nlink (i_nlink x + 1) x);;
             iupdate dp;;
             x ← geti ip;
             r1 ← dirlink ip DOT (i_inum x);
             if decide (r1 < 0) then panic "create dots" else
             xd ← geti dp;
             r2 ← dirlink ip DOTDOT (i_inum xd);
             if decide (r2 < 0) then panic "create dots" else mret tt
           else mret tt);;
          x ← geti ip;
          r3 ← dirlink dp r.2 (i_inum x);
          if decide (r3 < 0) then panic "create: dirlink" else
          iunlockput dp;;
          mret (Some ip)
      end
  end.

(** What sys_mkdir and sys_mknod do with the result of [create]. *)
Definition created (ip : option nat) : M fsst Z :=
  match ip with
  | None => end_op;; mret (-1)
  | Some ip => iunlockput ip;; end_op;; mret 0
  end.

Definition sys_mkdir (cwd : nat) : M fsst Z :=
  begin_op;;
  path ← argstr u 0;
  match path with None => end_op;; mret (-1) | Some path =>
  ip ← create cwd (user_str u path) T_DIR 0 0;
  created ip
  end.

Definition sys_mknod (cwd : nat) : M fsst Z :=
  begin_op;;
  path ← argstr u 0;
  match path with None => end_op;; mret (-1) | Some path =>
  major ← argint u 1;
  match major with None => end_op;; mret (-1) | Some major =>
  minor ← argint u 2;
  match minor with None => end_op;; mret (-1) | Some minor =>
  ip ← create cwd (user_str u path) T_DEV (i16 major) (i16 minor);
  created ip
  end
  end
  end.

(** sys_chmod, sys_chown and sys_chgrp: the same code but for the largest
    value and the field. *)
Definition change (limit : Z) (store : Z → inode → inode) (cwd : nat) : M fsst Z :=
  path ← argstr u 0;
  match path with None => mret (-1) | Some path =>
  v ← argint u 1;
  match v with None => mret (-1) | Some v =>
  if decide (v < 0 ∨ limit < v) then mret (-1) else
  begin_op;;
  ip ← namei cwd (user_str u path);
  match ip with
  | None => end_op;; mret (-1)
  | Some ip =>
      ilock ip;;
      seti ip (store v);;
      iupdate ip;;
      iunlock ip;;
      iput ip;;
      end_op;;
      mret 0
  end
  end
  end.
Definition sys_chmod : nat → M fsst Z := change 1023 set_i_mode. (* 01777 *)
Definition sys_chown : nat → M fsst Z := change 32767 set_i_uid.
Definition sys_chgrp : nat → M fsst Z := change 32767 set_i_gid.

(** ** Calls on descriptors *)

(** [me]: the calling process, and whether it was killed. *)
Context (me : nat) (killed : bool).

Definition getp : M kfs fds := lookupM (λ s, pfds s !! me).
Definition setp (g : fds → fds) : M kfs unit :=
  p ← getp; modify (λ s, set_pfds (<[me := g p]> (pfds s)) s).
Definition set_ofile (fd : nat) (v : option nat) (p : fds) : fds := mkFds (<[fd := v]> (ofile p)) (cwd p).
Definition getcwd : M kfs nat := lookupM (λ s, p ← pfds s !! me; cwd p).

(** The descriptor and the file, or -1. *)
Definition argfd (n : Z) : M kfs (option (nat * nat)) :=
  fd ← argint u n;
  match fd with
  | None => mret None
  | Some fd =>
      if decide (fd < 0 ∨ Z.of_nat NOFILE ≤ fd) then mret None else
      p ← getp;
      o ← lookupM (λ _, ofile p !! Z.to_nat fd);
      mret (match o with Some j => Some (Z.to_nat fd, j) | None => None end)
  end.

Fixpoint free_fd (l : list (option nat)) (k : nat) : option nat :=
  match l with
  | [] => None
  | Some _ :: l' => free_fd l' (S k)
  | None :: _ => Some k
  end.
(** [for(fd = 0; fd < NOFILE; fd++)]: the array has NOFILE entries. *)
Definition fdalloc (j : nat) : M kfs (option nat) :=
  p ← getp;
  match free_fd (ofile p) 0 with
  | Some fd => setp (set_ofile fd (Some j));; mret (Some fd)
  | None => mret None
  end.

Definition sys_dup : M kfs Z :=
  f ← argfd 0;
  match f with None => mret (-1) | Some (_, j) =>
  fd ← fdalloc j;
  match fd with None => mret (-1) | Some fd =>
  filedup j;;
  mret (Z.of_nat fd)
  end
  end.

(** The file, the count and the address of sys_read and sys_write. *)
Definition rwargs : M kfs (option (nat * Z * Z)) :=
  f ← argfd 0;
  match f with None => mret None | Some (_, j) =>
  n ← argint u 2;
  match n with None => mret None | Some n =>
  p ← argptr u 1 n;
  match p with None => mret None | Some p => mret (Some (j, n, p)) end
  end
  end.

(** How the call ends, and what is stored at which address. *)
Definition sys_read : M kfs (prun * option (Z * list Z)) :=
  a ← rwargs;
  match a with
  | None => mret (PRet (-1), None)
  | Some (j, n, p) => r ← fileread killed j n; mret (r.1, Some (p, r.2))
  end.

(** [i0]: the byte of a pipe write to go on with after a sleep. *)
Definition sys_write (i0 : Z) : M kfs prun :=
  a ← rwargs;
  match a with
  | None => mret (PRet (-1))
  | Some (j, n, p) => filewrite killed j (drop (Z.to_nat p) (u_mem u)) n i0
  end.

Definition sys_close : M kfs Z :=
  f ← argfd 0;
  match f with
  | None => mret (-1)
  | Some (fd, j) =>
      setp (set_ofile fd None);;
      fileclose kend j;;
      mret 0
  end.

(** [sizeof(struct stat)] *)
Definition sizeof_stat : Z := 28.
Definition sys_fstat : M kfs (Z * option (Z * stat)) :=
  f ← argfd 0;
  match f with None => mret (-1, None) | Some (_, j) =>
  p ← argptr u 1 sizeof_stat;
  match p with None => mret (-1, None) | Some p =>
  r ← filestat j;
  mret (match r with Some st => (0, Some (p, st)) | None => (-1, None) end)
  end
  end.

(** The inode that sys_open opens, locked; or -1, the transaction ended. *)
Definition open_inode (path : list Z) (omode : Z) : M kfs (option nat) :=
  cwd ← getcwd;
  if decide (Z.land omode O_CREATE ≠ 0) then
    ip ← in_fs (create cwd path T_FILE 0 0);
    match ip with
    | None => in_fs end_op;; mret None
    | Some ip => mret (Some ip)
    end
  else
    ip ← in_fs (namei cwd path);
    match ip with
    | None => in_fs end_op;; mret None
    | Some ip =>
        in_fs (ilock ip);;
        x ← in_fs (geti ip);
        if decide (i_type x = T_DIR ∧ omode ≠ O_RDONLY) then
          in_fs (iunlockput ip);; in_fs end_op;; mret None
        else mret (Some ip)
    end.

(** A file and a descriptor for it, the file closed again if there is none. *)
Definition open_fd : M kfs (option (nat * nat)) :=
  f ← filealloc;
  match f with
  | None => mret None
  | Some j =>
      fd ← fdalloc j;
      match fd with
      | None => fileclose kend j;; mret None
      | Some fd => mret (Some (j, fd))
      end
  end.

Definition sys_open : M kfs Z :=
  path ← argstr u 0;
  match path with None => mret (-1) | Some path =>
  omode ← argint u 1;
  match omode with None => mret (-1) | Some omode =>
  in_fs begin_op;;
  ip ← open_inode (user_str u path) omode;
  match ip with None => mret (-1) | Some ip =>
  r ← open_fd;
  match r with
  | None => in_fs (iunlockput ip);; in_fs end_op;; mret (-1)
  | Some (j, fd) =>
      in_fs (iunlock ip);;
      in_fs end_op;;
      setf j (λ f, mkFile FD_INODE (f_ref f) (bool_decide (Z.land omode O_WRONLY = 0))
        (bool_decide (Z.land omode O_WRONLY ≠ 0 ∨ Z.land omode O_RDWR ≠ 0)) (f_pipe f) ip 0);;
      mret (Z.of_nat fd)
  end
  end
  end
  end.

Definition sys_chdir : M kfs Z :=
  in_fs begin_op;;
  path ← argstr u 0;
  match path with None => in_fs end_op;; mret (-1) | Some path =>
  cwd ← getcwd;
  ip ← in_fs (namei cwd (user_str u path));
  match ip with None => in_fs end_op;; mret (-1) | Some ip =>
  in_fs (ilock ip);;
  x ← in_fs (geti ip);
  if decide (i_type x ≠ T_DIR) then in_fs (iunlockput ip);; in_fs end_op;; mret (-1) else
  in_fs (iunlock ip);;
  in_fs (iput cwd);;
  in_fs end_op;;
  setp (λ p, mkFds (ofile p) (Some ip));;
  mret 0
  end
  end.

(** The result, and the two descriptors stored at [fd]. *)
Definition sys_pipe : M kfs (Z * option (Z * Z * Z)) :=
  fd ← argptr u 0 8;
  match fd with None => mret (-1, None) | Some fd =>
  r ← pipealloc kend;
  match r with None => mret (-1, None) | Some (rf, wf) =>
  fd0 ← fdalloc rf;
  match fd0 with
  | None => fileclose kend rf;; fileclose kend wf;; mret (-1, None)
  | Some fd0 =>
      fd1 ← fdalloc wf;
      match fd1 with
      | None =>
          setp (set_ofile fd0 None);;
          fileclose kend rf;;
          fileclose kend wf;;
          mret (-1, None)
      | Some fd1 => mret (0, Some (fd, Z.of_nat fd0, Z.of_nat fd1))
      end
  end
  end
  end.

(** The loop of sys_exec over the argument vector: the strings, or -1. *)
Fixpoint exec_args {S} (fuel : nat) (uargv i : Z) : M S (option (list (Z * Z))) :=
  match fuel with
  | O => mret None    (* i >= NELEM(argv) *)
  | Datatypes.S f =>
      uarg ← fetchint u (u32 (uargv + 4 * i));
      match uarg with None => mret None | Some uarg =>
      if decide (uarg = 0) then mret (Some []) else
      s ← fetchstr u (u32 uarg);
      match s with None => mret None | Some s =>
      l ← exec_args f uargv (i + 1);
      mret (match l with Some l => Some (s :: l) | None => None end)
      end
      end
  end.
(** What sys_exec passes to exec. *)
Definition sys_exec_args {S} : M S (option ((Z * Z) * list (Z * Z))) :=
  path ← argstr u 0;
  match path with None => mret None | Some path =>
  uargv ← argint u 1;
  match uargv with None => mret None | Some uargv =>
  l ← exec_args MAXARG (u32 uargv) 0;
  mret (match l with Some l => Some (path, l) | None => None end)
  end
  end.

(** ** What fork and exit do with files *)

(** [for(i = 0; i < NOFILE; i++) if(proc->ofile[i]) np->ofile[i] = filedup(proc->ofile[i]);] *)
Fixpoint fork_ofile (c : nat) (ks : list nat) : M kfs unit :=
  match ks with
  | [] => mret tt
  | k :: ks' =>
      p ← getp;
      o ← lookupM (λ _, ofile p !! k);
      match o with
      | None => mret tt
      | Some j =>
          filedup j;;
          q ← lookupM (λ s, pfds s !! c);
          modify (λ s, set_pfds (<[c := set_ofile k (Some j) q]> (pfds s)) s)
      end;;
      fork_ofile c ks'
  end.
Definition fork_fds (c : nat) : M kfs unit :=
  fork_ofile c (seq 0 NOFILE);;
  cw ← getcwd;
  i ← in_fs (idup cw);
  q ← lookupM (λ s, pfds s !! c);
  modify (λ s, set_pfds (<[c := mkFds (ofile q) (Some i)]> (pfds s)) s).

Fixpoint exit_ofile (ks : list nat) : M kfs unit :=
  match ks with
  | [] => mret tt
  | k :: ks' =>
      p ← getp;
      o ← lookupM (λ _, ofile p !! k);
      match o with
      | None => mret tt
      | Some j => fileclose kend j;; setp (set_ofile k None)
      end;;
      exit_ofile ks'
  end.
Definition exit_fds : M kfs unit :=
  exit_ofile (seq 0 NOFILE);;
  in_fs begin_op;;
  cw ← getcwd;
  in_fs (iput cw);;
  in_fs end_op;;
  setp (λ p, mkFds (ofile p) None).

(** [p->cwd = namei("/");] of userinit *)
Definition init_cwd : M kfs unit :=
  ip ← in_fs (namei 0 [47; 0]);
  setp (λ p, mkFds (ofile p) ip).
End Calls.

(** ** All calls *)

(** What a process asks of the file system; [Fwrite i0] goes on with a write at
    byte [i0], [Ffork c] is what fork does for the child [c]. *)
Inductive fcall :=
  | Flink | Funlink | Fmkdir | Fmknod | Fchmod | Fchown | Fchgrp | Fopen | Fchdir
  | Fdup | Fread | Fwrite (i0 : Z) | Fclose | Ffstat | Fpipe
  | Ffork (c : nat) | Fexit | Finit.

(** The caller: its number, memory, stack garbage, and whether it was killed. *)
Record caller := mkCaller { c_me : nat; c_u : uspace; c_name0 : list Z; c_killed : bool }.

Definition run_call `{Devices} (kend : Z) (w : caller) (c : fcall) : M kfs unit :=
  let 'mkCaller me u name0 killed := w in
  let path (m : nat → M fsst Z) : M kfs unit := cw ← getcwd me; in_fs (m cw);; mret tt in
  match c with
  | Flink => path (sys_link u name0)
  | Funlink => path (sys_unlink u name0)
  | Fmkdir => path (sys_mkdir u name0)
  | Fmknod => path (sys_mknod u name0)
  | Fchmod => path (sys_chmod u)
  | Fchown => path (sys_chown u)
  | Fchgrp => path (sys_chgrp u)
  | Fopen => sys_open kend u name0 me;; mret tt
  | Fchdir => sys_chdir u me;; mret tt
  | Fdup => sys_dup u me;; mret tt
  | Fread => sys_read u me killed;; mret tt
  | Fwrite i0 => sys_write u me killed i0;; mret tt
  | Fclose => sys_close kend u me;; mret tt
  | Ffstat => sys_fstat u me;; mret tt
  | Fpipe => sys_pipe kend u me;; mret tt
  | Ffork c => fork_fds me c
  | Fexit => exit_fds kend me
  | Finit => init_cwd me
  end.
