(* ===== verification/FsAcct.v ===== *)
(** * Accounting for inodes and transactions (fs.c as its callers use it)

    What a piece of kernel code holds: pointers to inodes of the cache ([H],
    with repetition), inodes it has locked ([L]), and open transactions ([n]).
    Each routine of fs.c changes these in a fixed way, whatever is on the
    disk.  The rules are about every way a routine can come back, and rule
    out the panics with which the kernel answers an unbalanced use of
    references and locks. *)

From S2P Require Import Prelude CString Layout Fs FsBlocks FsInode File.

Local Open Scope Z_scope.

(** ** Partial correctness without misuse *)

(** The panics of inodes, files and pages that are not used as they must be. *)
Definition misuse : list string :=
  ["ilock"; "iunlock"; "iput busy"; "filedup"; "fileclose"; "fileread"; "filewrite"; "kfree"]%string.

Definition wlp {S A} (m : M S A) (s : S) (Q : A → S → Prop) : Prop :=
  match m s with Ret a s' => Q a s' | Panic msg => msg ∉ misuse | _ => True end.

Section wlp.
Context {S : Type}.

Lemma wlp_ret {A} (a : A) (s : S) (Q : A → S → Prop) : Q a s → wlp (mret a) s Q.
Proof. done. Qed.
Lemma wlp_bind {A B} (m : M S A) (k : A → M S B) s Q : wlp m s (λ a s', wlp (k a) s' Q) → wlp (m ≫= k) s Q.
Proof. unfold wlp, mbind, M_bind. by destruct (m s). Qed.
Lemma wlp_unbind {A B} (m : M S A) (k : A → M S B) s Q : wlp (m ≫= k) s Q → wlp m s (λ a s', wlp (k a) s' Q).
Proof. unfold wlp, mbind, M_bind. by destruct (m s). Qed.
Lemma wlp_mono {A} (m : M S A) s (Q Q' : A → S → Prop) : wlp m s Q → (∀ a s', Q a s' → Q' a s') → wlp m s Q'.
Proof. unfold wlp. destruct (m s); naive_solver. Qed.
Lemma wlp_gets {A} (f : S → A) s (Q : A → S → Prop) : Q (f s) s → wlp (gets f) s Q.
Proof. done. Qed.
Lemma wlp_modify (f : S → S) s (Q : unit → S → Prop) : Q tt (f s) → wlp (modify f) s Q.
Proof. done. Qed.
Lemma wlp_lookupM {A} (f : S → option A) s (Q : A → S → Prop) : (∀ a, f s = Some a → Q a s) → wlp (lookupM f) s Q.
Proof. unfold wlp, lookupM. destruct (f s); naive_solver. Qed.
Lemma wlp_diverge {A} s (Q : A → S → Prop) : wlp diverge s Q.
Proof. done. Qed.
Lemma wlp_panic {A} msg s (Q : A → S → Prop) : bool_decide (msg ∈ misuse) = false → wlp (panic msg) s Q.
Proof. intros Hm. by apply bool_decide_eq_false in Hm. Qed.
Lemma wlp_zoom {T A} (get : T → S) put (m : M S A) t (Q : A → T → Prop) :
  wlp m (get t) (λ a s, Q a (put s t)) → wlp (zoom get put m) t Q.
Proof. unfold wlp, zoom. by destruct (m (get t)). Qed.
Lemma wp_wlp {A} (m : M S A) s Q : wp m s Q → wlp m s Q.
Proof. unfold wlp, wp. by destruct (m s). Qed.
End wlp.

Ltac wlp_step :=
  match goal with
  | |- wlp (mret _) _ _ => apply wlp_ret
  | |- wlp (_ ≫= _) _ _ => apply wlp_bind
  | |- wlp (gets _) _ _ => apply wlp_gets
  | |- wlp (modify _) _ _ => apply wlp_modify
  | |- wlp (zoom _ _ _) _ _ => apply wlp_zoom
  | |- wlp (panic _) _ _ => apply wlp_panic; reflexivity
  | |- wlp diverge _ _ => apply wlp_diverge
  | |- wlp (lookupM _) _ _ => apply wlp_lookupM; intros ? ?
  end; cbn beta.
Ltac wlp_steps := repeat wlp_step.
Ltac wlp_if := match goal with |- wlp (if ?b then _ else _) _ _ => destruct b end; wlp_steps.
Tactic Notation "wlp_call" uconstr(lem) := eapply wlp_mono; [eapply lem|]; cbn beta.

(** ** Routines that leave the accounts alone *)

Definition acct (s : fsst) : list (Z * Z * Z * bool) * Z :=
  ((λ x, (ident x, i_ref x, i_busy x)) <$> icache s, outstanding s).
Definition tame {A} (m : M fsst A) : Prop := ∀ s, wlp m s (λ _ s', acct s' = acct s).

Lemma tame_ret {A} (a : A) : tame (mret a).
Proof. by intros s. Qed.
Lemma tame_bind {A C} (m : M fsst A) (k : A → M fsst C) : tame m → (∀ a, tame (k a)) → tame (m ≫= k).
Proof. intros Hm Hk s. wlp_steps. wlp_call Hm. intros a s' E. wlp_call Hk. intros b s''. congruence. Qed.
Lemma tame_gets {A} (g : fsst → A) : tame (gets g).
Proof. by intros s. Qed.
Lemma tame_modify (g : fsst → fsst) : (∀ s, acct (g s) = acct s) → tame (modify g).
Proof. intros Hg s. apply Hg. Qed.
Lemma tame_lookupM {A} (g : fsst → option A) : tame (lookupM g).
Proof. intros s. by wlp_steps. Qed.
Lemma tame_panic {A} msg : bool_decide (msg ∈ misuse) = false → tame (panic (A := A) msg).
Proof. intros Hm s. by apply wlp_panic. Qed.
Lemma tame_diverge {A} : tame (diverge (A := A)).
Proof. by intros s. Qed.
Lemma tame_geti i : tame (geti i).
Proof. apply tame_lookupM. Qed.
Lemma tame_seti i g : (∀ x, ident (g x) = ident x ∧ i_ref (g x) = i_ref x ∧ i_busy (g x) = i_busy x) → tame (seti i g).
Proof.
  intros Hg s. unfold seti, geti. wlp_steps. unfold acct. cbn [icache set_icache outstanding]. f_equal.
  rewrite list_fmap_insert. apply list_insert_id. rewrite list_lookup_fmap.
  match goal with E : icache s !! i = Some ?x |- _ => rewrite E; cbn; by destruct (Hg x) as (-> & -> & ->) end.
Qed.

Create HintDb tame.
#[export] Hint Resolve tame_ret tame_gets tame_lookupM tame_diverge tame_geti : tame.
#[export] Hint Extern 1 (tame (panic _)) => (apply tame_panic; reflexivity) : tame.
#[export] Hint Extern 1 (tame (modify _)) => (apply tame_modify; intros ?; reflexivity) : tame.
#[export] Hint Extern 1 (tame (seti _ _)) => (apply tame_seti; intros ?; split; [reflexivity|split; reflexivity]) : tame.
Ltac tames := repeat first
  [ progress (eauto 1 with tame)
  | match goal with |- tame (_ ≫= _) => apply tame_bind; [|intros ?] end
  | match goal with |- tame (if ?b then _ else _) => destruct b end
  | match goal with |- tame (match ?b with _ => _ end) => destruct b end ].

Lemma tame_get_block d n : tame (get_block d n).
Proof. unfold get_block. tames. Qed.
Lemma tame_put_block d n v : tame (put_block d n v).
Proof. unfold put_block. tames. Qed.
#[export] Hint Resolve tame_get_block tame_put_block : tame.
Lemma tame_bzero d n : tame (bzero d n).
Proof. unfold bzero. tames. Qed.
Lemma tame_bfree d b : tame (bfree d b).
Proof. unfold bfree, readsb. tames. Qed.
Lemma tame_iupdate i : tame (iupdate i).
Proof. unfold iupdate. tames. Qed.
Lemma tame_free_bit v bis : tame (free_bit v bis).
Proof. induction bis; cbn [free_bit]; tames. Qed.
#[export] Hint Resolve tame_bzero tame_bfree tame_iupdate tame_free_bit : tame.
Lemma tame_balloc_loop fuel : ∀ d b, tame (balloc_loop fuel d b).
Proof. induction fuel; intros d b; cbn [balloc_loop]; tames. Qed.
Lemma tame_balloc d : tame (balloc d).
Proof. unfold balloc. tames. apply tame_balloc_loop. Qed.
#[export] Hint Resolve tame_balloc : tame.
Lemma tame_bmap i bn : tame (bmap i bn).
Proof. unfold bmap. tames. Qed.
Lemma tame_itrunc_direct i ks : tame (itrunc_direct i ks).
Proof. induction ks; cbn [itrunc_direct]; tames. Qed.
Lemma tame_itrunc_indirect d v js : tame (itrunc_indirect d v js).
Proof. induction js; cbn [itrunc_indirect]; tames. Qed.
#[export] Hint Resolve tame_bmap tame_itrunc_direct tame_itrunc_indirect : tame.
Lemma tame_itrunc i : tame (itrunc i).
Proof. unfold itrunc. tames. Qed.
Lemma tame_stati i : tame (stati i).
Proof. unfold stati. tames. Qed.
Lemma tame_readi_loop fuel : ∀ i off r, tame (readi_loop fuel i off r).
Proof. induction fuel; intros i off r; cbn [readi_loop]; tames. Qed.
Lemma tame_writei_loop fuel : ∀ i src off r, tame (writei_loop fuel i src off r).
Proof. induction fuel; intros i src off r; cbn [writei_loop]; tames. Qed.
#[export] Hint Resolve tame_itrunc tame_stati tame_readi_loop tame_writei_loop : tame.

(** ** The accounts *)

Record Acc (s : fsst) (H L : list nat) (n : Z) : Prop := {
  ac_refs : RInv (holding s) H;
  ac_busy i x : icache s !! i = Some x → i_busy x = true ↔ i ∈ L;
  ac_nodup : NoDup L;
  ac_held : L ⊆ H;
  ac_open : outstanding s = n
}.

Definition busys (s : fsst) : list bool := i_busy <$> icache s.

Lemma acct_parts s s' : acct s' = acct s → holding s' = holding s ∧ busys s' = busys s ∧ outstanding s' = outstanding s.
Proof.
  unfold acct. intros [= E ->]. unfold holding, busys. split; [|split; [|done]].
  - assert (fst <$> ((λ x, (ident x, i_ref x, i_busy x)) <$> icache s') = fst <$> ((λ x, (ident x, i_ref x, i_busy x)) <$> icache s)) as E' by by rewrite E.
    by rewrite <- !list_fmap_compose in E'.
  - assert (snd <$> ((λ x, (ident x, i_ref x, i_busy x)) <$> icache s') = snd <$> ((λ x, (ident x, i_ref x, i_busy x)) <$> icache s)) as E' by by rewrite E.
    by rewrite <- !list_fmap_compose in E'.
Qed.

Lemma busys_lookup s i x : icache s !! i = Some x → busys s !! i = Some (i_busy x).
Proof. intros E. unfold busys. by rewrite list_lookup_fmap, E. Qed.
Lemma busys_seti i x s : busys (set_icache (<[i := x]> (icache s)) s) = <[i := i_busy x]> (busys s).
Proof. unfold busys. cbn [icache set_icache]. by rewrite list_fmap_insert. Qed.

(** The accounts through their three parts. *)
Lemma Acc_intro s s' H L n H' L' n' :
  Acc s H L n → RInv (holding s') H' → (∀ i b, busys s' !! i = Some b → b = true ↔ i ∈ L') → NoDup L' → L' ⊆ H' → outstanding s' = n' →
  Acc s' H' L' n'.
Proof. intros HA HR Hb HN HL Hn. split; [done| |done|done|done]. intros i x Hx. by apply Hb, busys_lookup. Qed.
Lemma Acc_busys s H L n i b : Acc s H L n → busys s !! i = Some b → b = true ↔ i ∈ L.
Proof.
  intros HA. unfold busys. rewrite list_lookup_fmap. destruct (icache s !! i) as [x|] eqn:E; [|done]. intros [= <-].
  by apply (ac_busy _ _ _ _ HA).
Qed.

Lemma Acc_acct s s' H L n : acct s' = acct s → Acc s H L n → Acc s' H L n.
Proof.
  intros (E1 & E2 & E3)%acct_parts HA. destruct (HA) as [HR Hb HN HL Hn]. eapply Acc_intro; [done|by rewrite E1| |done|done|congruence].
  rewrite E2. intros i b. by eapply Acc_busys.
Qed.

Lemma RInv_perm h H H' : H ≡ₚ H' → RInv h H → RInv h H'.
Proof. intros E [? ? Hr ?]. split; [done|by rewrite <- E| |done]. intros i p r Hi. rewrite <- (count_perm _ _ _ E). by eapply Hr. Qed.
#[export] Instance Acc_Proper s : Proper ((≡ₚ) ==> (≡ₚ) ==> (=) ==> iff) (Acc s).
Proof.
  assert (∀ H H' L L' n, H ≡ₚ H' → L ≡ₚ L' → Acc s H L n → Acc s H' L' n) as Himp.
  { intros H H' L L' n EH EL [HR Hb HN HL Hn]. split; [by eapply RInv_perm| |by rewrite <- EL|by rewrite <- EH, <- EL|done].
    intros i x Hx. rewrite <- EL. by apply Hb. }
  intros H H' EH L L' EL n ? <-. split; by apply Himp.
Qed.

Lemma tame_acc {A} (m : M fsst A) s H L n : tame m → Acc s H L n → wlp m s (λ _ s', Acc s' H L n).
Proof. intros Hm HA. wlp_call Hm. intros a s' E. by eapply Acc_acct. Qed.

(** What a step of FsInode.v establishes of the references, with what is known
    of the rest. *)
Lemma wlp_and {A} (m : M fsst A) s (P Q : A → fsst → Prop) :
  (∀ a s', m s = Ret a s' → P a s') → wlp m s Q → wlp m s (λ a s', P a s' ∧ Q a s').
Proof. unfold wlp. destruct (m s) eqn:E; naive_solver. Qed.

Lemma held_lookup s H L n i : Acc s H L n → i ∈ H → ∃ x, icache s !! i = Some x ∧ i_ref x = count i H ∧ 1 ≤ i_ref x.
Proof.
  intros HA Hi. destruct (ac_refs _ _ _ _ HA) as [Hl Hin Hr _].
  destruct (lookup_lt_is_Some_2 (icache s) i) as [x Hx].
  { unfold holding in Hl. rewrite length_fmap in Hl. rewrite Hl. by eapply Forall_forall in Hin. }
  exists x. split; [done|]. pose proof (Hr _ _ _ (lookup_holding _ _ _ Hx)). pose proof (proj2 (count_elem i H) Hi). lia.
Qed.

Lemma wlp_seti i g s x (Q : unit → fsst → Prop) :
  icache s !! i = Some x → Q tt (set_icache (<[i := g x]> (icache s)) s) → wlp (seti i g) s Q.
Proof. intros Hx HQ. unfold wlp. by rewrite (seti_Ret _ _ _ x). Qed.

Lemma iget_acc d n s H L k : Acc s H L k → wlp (iget d n) s (λ i s', Acc s' (i :: H) L k).
Proof.
  intros HA. destruct (HA) as [HR Hb HN HL Hn].
  destruct (iget_spec d n s H HR) as [[E _]|(i & s' & x & E & Hx & _ & _ & Es)].
  { unfold wlp. rewrite E. by apply (bool_decide_unpack _). }
  unfold wlp. rewrite E. eapply Acc_intro; [done|eapply (hstep_RInv s H); [done|by eapply h_iget]| |done|set_solver|rewrite Es; exact Hn].
  intros j b. rewrite Es, busys_seti. destruct (decide (j = i)) as [->|Hne].
  2: { rewrite list_lookup_insert_ne by done. by eapply Acc_busys. }
  rewrite list_lookup_insert_eq by (eapply lookup_lt_Some, busys_lookup, Hx). intros [= <-]. case_decide as Hi; [exact (Hb i x Hx)|].
  cbn. split; [done|]. intros Hil. by apply HL in Hil.
Qed.

Lemma idup_acc i s H L k : i ∈ H → Acc s H L k → wlp (idup i) s (λ j s', j = i ∧ Acc s' (i :: H) L k).
Proof.
  intros Hi HA. destruct (HA) as [HR Hb HN HL Hn]. destruct (held_lookup _ _ _ _ _ HA Hi) as (x & Hx & _).
  assert (idup i s = Ret i (set_icache (<[i := set_i_ref (i_ref x + 1) x]> (icache s)) s)) as E.
  { unfold idup, mbind, M_bind. by rewrite (seti_Ret _ _ _ x). }
  unfold wlp. rewrite E. split; [done|].
  eapply Acc_intro; [done|eapply (hstep_RInv s H); [done|by eapply h_idup]| |done|set_solver|done].
  intros j b. rewrite busys_seti. cbn [i_busy set_i_ref]. rewrite list_insert_id by by apply busys_lookup. by eapply Acc_busys.
Qed.

Lemma ilock_acc i s H L k : i ∈ H → Acc s H L k → wlp (ilock i) s (λ _ s', i ∉ L ∧ Acc s' H (i :: L) k).
Proof.
  intros Hi HA. destruct (HA) as [HR Hb HN HL Hn]. destruct (held_lookup _ _ _ _ _ HA Hi) as (x & Hx & _ & Hpos).
  destruct (i_busy x) eqn:Eb.
  { unfold wlp, ilock, geti, mbind, M_bind, lookupM. rewrite Hx. rewrite decide_False by lia. by rewrite Eb. }
  assert (i ∉ L) as HnL by (intros Hil; apply (Hb i x Hx) in Hil; congruence).
  eapply (wlp_mono _ _ (λ _ s', RInv (holding s') H ∧ busys s' = <[i := true]> (busys s) ∧ outstanding s' = outstanding s)).
  - apply wlp_and; [intros [] s' E; eapply (hstep_RInv s H); [done|by eapply h_ilock]|].
    unfold ilock, geti. wlp_steps. simplify_eq. rewrite decide_False by lia. rewrite Eb. wlp_steps.
    eapply wlp_seti; [done|]. set (s1 := set_icache _ s).
    assert (busys s1 = <[i := true]> (busys s) ∧ outstanding s1 = outstanding s) as [B1 O1] by (split; [unfold s1; by rewrite busys_seti|done]).
    rewrite <- B1, <- O1. destruct (i_valid x); [by wlp_steps|].
    match goal with |- wlp ?m _ _ => assert (tame m) as Ht by tames end.
    eapply wlp_mono; [apply Ht|]. cbn beta. intros _ s' (_ & ? & ?)%acct_parts. done.
  - intros _ s' (R1 & B1 & O1). split; [done|]. eapply Acc_intro; [done|done| |by constructor|set_solver|congruence].
    intros j b. rewrite B1. destruct (decide (j = i)) as [->|Hne].
    + rewrite list_lookup_insert_eq by (eapply lookup_lt_Some, busys_lookup, Hx). intros [= <-]. set_solver.
    + rewrite list_lookup_insert_ne by done. intros Hj%(Acc_busys _ _ _ _ _ _ HA). set_solver.
Qed.

Lemma iunlock_acc i s H L k : Acc s H (i :: L) k → wlp (iunlock i) s (λ _ s', Acc s' H L k).
Proof.
  intros HA. destruct (HA) as [HR Hb HN HL Hn]. assert (i ∈ H) as Hi by (apply HL; by constructor).
  destruct (held_lookup _ _ _ _ _ HA Hi) as (x & Hx & _ & Hpos). apply NoDup_cons in HN as [HiL HN].
  assert (iunlock i s = Ret tt (set_icache (<[i := set_i_flags false (i_valid x) x]> (icache s)) s)) as E.
  { unfold iunlock, geti, mbind, M_bind. unfold lookupM at 1. rewrite Hx. rewrite decide_False; [by rewrite (seti_Ret _ _ _ x)|].
    rewrite (proj2 (Hb i x Hx)) by by constructor. intros [?|?]; [done|lia]. }
  unfold wlp. rewrite E. eapply Acc_intro; [done|eapply (hstep_RInv s H); [done|by eapply h_iunlock]| |done|set_solver|done].
  intros j b. rewrite busys_seti. cbn [i_busy set_i_flags]. destruct (decide (j = i)) as [->|Hne].
  - rewrite list_lookup_insert_eq by (eapply lookup_lt_Some, busys_lookup, Hx). by intros [= <-].
  - rewrite list_lookup_insert_ne by done. intros Hj%(Acc_busys _ _ _ _ _ _ HA). set_solver.
Qed.

(** What freeing the inode in [iput] does to the locks. *)
Lemma iput_busys i s x :
  icache s !! i = Some x → (i_busy x = true → i_ref x ≠ 1) →
  wlp (iput i) s (λ _ s', busys s' = busys s ∧ outstanding s' = outstanding s).
Proof.
  intros Hx Hb. unfold iput, geti. wlp_steps. simplify_eq.
  eapply (wlp_mono _ _ (λ _ s', busys s' = busys s ∧ outstanding s' = outstanding s)).
  2: { intros _ s1 [E1 E2]. unfold seti, geti. wlp_steps. rewrite busys_seti. cbn [i_busy set_i_ref outstanding set_icache].
       rewrite list_insert_id by by apply busys_lookup. done. }
  destruct (decide _) as [(Hr & _ & _)|]; [|by wlp_steps]. destruct (i_busy x) eqn:Eb; [by destruct Hb|].
  wlp_steps. eapply wlp_seti; [done|]. set (s1 := set_icache _ s).
  assert (busys s1 = <[i := true]> (busys s) ∧ outstanding s1 = outstanding s) as [B1 O1] by (split; [unfold s1; by rewrite busys_seti|done]).
  wlp_steps. wlp_call tame_itrunc. intros _ s2 (_ & B2 & O2)%acct_parts. wlp_steps.
  wlp_call (tame_seti i (set_i_type 0)); [done|]. intros _ s3 (_ & B3 & O3)%acct_parts. wlp_steps.
  wlp_call tame_iupdate. intros _ s4 (_ & B4 & O4)%acct_parts. unfold seti, geti. wlp_steps.
  rewrite busys_seti, B4, B3, B2, B1. cbn [i_busy set_i_flags outstanding set_icache]. rewrite list_insert_insert_eq, list_insert_id; [|rewrite <- Eb; by apply busys_lookup].
  split; [done|]. congruence.
Qed.

Lemma iput_acc i s H L k : L ⊆ H → Acc s (i :: H) L k → wlp (iput i) s (λ _ s', Acc s' H L k).
Proof.
  intros HLH HA. destruct (HA) as [HR Hb HN HL Hn].
  destruct (held_lookup _ _ _ _ i HA) as (x & Hx & Hc & Hpos); [by constructor|].
  eapply wlp_mono; [apply (wlp_and _ _ (λ _ s', RInv (holding s') H)); [|apply (iput_busys i s x Hx)]|].
  - intros [] s' E. eapply (hstep_RInv s (i :: H)); [done|by eapply h_iput].
  - intros Hbx Hr. apply (Hb i x Hx), HLH, count_elem in Hbx. rewrite count_cons, decide_True in Hc by done. lia.
  - cbn beta. intros _ s' (R1 & B1 & O1). eapply Acc_intro; [done|exact R1| |done|done|congruence].
    intros j b. rewrite B1. by eapply Acc_busys.
Qed.

Lemma iunlockput_acc i s H L k : Acc s (i :: H) (i :: L) k → wlp (iunlockput i) s (λ _ s', Acc s' H L k).
Proof.
  intros HA. unfold iunlockput. wlp_steps. wlp_call iunlock_acc; [done|]. intros _ s1 HA1. wlp_call iput_acc; [|done|done].
  pose proof (ac_held _ _ _ _ HA) as HL. pose proof (ac_nodup _ _ _ _ HA) as [Hi _]%NoDup_cons.
  intros j Hj. assert (j ∈ i :: H) as [->|?]%elem_of_cons by (apply HL; by constructor); done.
Qed.

Lemma begin_op_acc s H L k : Acc s H L k → wlp begin_op s (λ _ s', Acc s' H L (k + 1)).
Proof.
  intros HA. unfold begin_op. wlp_steps. destruct (decide _); wlp_steps. destruct HA as [HR Hb HN HL Hn].
  split; [exact HR|exact Hb|done|done|]. cbn. unfold id. lia.
Qed.
Lemma end_op_acc s H L k : Acc s H L k → wlp end_op s (λ _ s', Acc s' H L (k - 1)).
Proof.
  intros [HR Hb HN HL Hn]. unfold end_op. wlp_steps. destruct (decide _); wlp_steps;
    (split; [exact HR|exact Hb|done|done|cbn; lia]).
Qed.

(** ** Files and directories *)

(** What the drivers of devsw promise: they may unlock the inode they are given
    while they wait, and keep the accounts. *)
Class DevicesOk `{Devices} : Prop := {
  dev_read_acc major rd i n s H L k :
    dev_read major = Some rd → i ∈ L → Acc s H L k → wlp (rd i n) s (λ _ s', Acc s' H L k);
  dev_write_acc major wr i src n s H L k :
    dev_write major = Some wr → i ∈ L → Acc s H L k → wlp (wr i src n) s (λ _ s', Acc s' H L k)
}.

Section Content.
Context `{DevicesOk}.

Lemma readi_acc i off n s G L k : i ∈ L → Acc s G L k → wlp (readi i off n) s (λ _ s', Acc s' G L k).
Proof.
  intros Hi HA. unfold readi, geti. wlp_steps. repeat destruct (decide _).
  - by wlp_steps.
  - destruct (dev_read _) eqn:E; [by eapply dev_read_acc|by wlp_steps].
  - by wlp_steps.
  - apply tame_acc; [|done]. apply (tame_bind (readi_loop _ _ _ _) (λ l, mret (i32 _, l))); tames.
  - apply tame_acc; [|done]. apply (tame_bind (readi_loop _ _ _ _) (λ l, mret (i32 _, l))); tames.
Qed.

Lemma writei_acc i src off n s G L k : i ∈ L → Acc s G L k → wlp (writei i src off n) s (λ _ s', Acc s' G L k).
Proof.
  intros Hi HA. unfold writei, geti. wlp_steps. repeat destruct (decide _).
  - by wlp_steps.
  - destruct (dev_write _) eqn:E; [by eapply dev_write_acc|by wlp_steps].
  - by wlp_steps.
  - by wlp_steps.
  - match goal with |- wlp ?m _ _ => assert (tame m) as Ht by (tames; unfold geti; tames) end. by apply tame_acc.
Qed.

Lemma dirlookup_loop_acc dp name G L k : dp ∈ L → ∀ fuel s off, Acc s G L k →
  wlp (dirlookup_loop fuel dp name off) s (λ r s', match r with Some (i, _) => Acc s' (i :: G) L k | None => Acc s' G L k end).
Proof.
  intros Hi. induction fuel as [|f IH]; intros s off HA; cbn [dirlookup_loop]; unfold geti; wlp_steps; (destruct (decide _); wlp_steps; try exact HA).
  wlp_call readi_acc; [done|done|]. intros r s1 HA1. destruct (decide _); wlp_steps. destruct (decide _); [by apply IH|].
  wlp_steps. destruct (decide _); [|by apply IH]. wlp_steps. wlp_call iget_acc; [done|]. intros i s2 HA2. by wlp_steps.
Qed.
Lemma dirlookup_acc dp name s G L k : dp ∈ L → Acc s G L k →
  wlp (dirlookup dp name) s (λ r s', match r with Some (i, _) => Acc s' (i :: G) L k | None => Acc s' G L k end).
Proof. intros Hi HA. unfold dirlookup, geti. wlp_steps. destruct (decide _); wlp_steps. by apply dirlookup_loop_acc. Qed.

Lemma dirlink_loop_acc dp G L k : dp ∈ L → ∀ fuel s off, Acc s G L k → wlp (dirlink_loop fuel dp off) s (λ _ s', Acc s' G L k).
Proof.
  intros Hi. induction fuel as [|f IH]; intros s off HA; cbn [dirlink_loop]; unfold geti; wlp_steps; (destruct (decide _); wlp_steps; try exact HA).
  wlp_call readi_acc; [done|done|]. intros r s1 HA1. destruct (decide _); wlp_steps. destruct (decide _); [by wlp_steps|by apply IH].
Qed.
Lemma dirlink_acc dp name inum s G L k : dp ∈ L → Acc s G L k → wlp (dirlink dp name inum) s (λ _ s', Acc s' G L k).
Proof.
  intros Hi HA. unfold dirlink. wlp_steps. wlp_call dirlookup_acc; [done|done|]. intros [[i off]|] s1 HA1; wlp_steps.
  - wlp_call iput_acc; [apply (ac_held _ _ _ _ HA)|done|]. intros _ s2 HA2. by wlp_steps.
  - unfold geti. wlp_steps. wlp_call dirlink_loop_acc; [done|done|]. intros off s2 HA2. wlp_steps.
    wlp_call writei_acc; [done|done|]. intros r s3 HA3. destruct (decide _); by wlp_steps.
Qed.

Lemma namex_loop_acc (par : bool) G k : ∀ fuel ip path name s, Acc s (ip :: G) [] k →
  wlp (namex_loop fuel ip path par name) s (λ r s', match r.1 with Some i => Acc s' (i :: G) [] k | None => Acc s' G [] k end).
Proof.
  assert (∀ (ip : nat) (name : list Z) s, Acc s (ip :: G) [] k →
    wlp (if par then iput ip;; mret (None, name) else mret (Some ip, name)) s
      (λ r s', match r.1 with Some i => Acc s' (i :: G) [] k | None => Acc s' G [] k end)) as Hend.
  { intros ip name s HA. destruct par; wlp_steps; [|done]. wlp_call (iput_acc ip s G []); [set_solver|done|]. intros _ s1 HA1. by wlp_steps. }
  induction fuel as [|f IH]; intros ip path name s HA; cbn [namex_loop]; wlp_steps;
    (match goal with |- wlp (match ?r with _ => _ end) _ _ => destruct r as [[p' nm]|] end; [|by apply Hend]); wlp_steps.
  wlp_call ilock_acc; [by constructor|done|]. intros _ s1 [_ HA1]. wlp_steps. unfold geti. wlp_steps. destruct (decide _); wlp_steps.
  { wlp_call iunlockput_acc; [done|]. intros _ s2 HA2. by wlp_steps. }
  destruct (decide _); wlp_steps. { wlp_call iunlock_acc; [done|]. intros _ s2 HA2. by wlp_steps. }
  wlp_call dirlookup_acc; [by constructor|done|]. intros [[nx off]|] s2 HA2; wlp_steps.
  - wlp_call (iunlockput_acc ip _ (nx :: G) []); [by rewrite (Permutation_swap ip nx) in HA2|]. intros _ s3 HA3. by apply IH.
  - wlp_call iunlockput_acc; [done|]. intros _ s3 HA3. by wlp_steps.
Qed.

Lemma namex_acc cwd path par name s G k : cwd ∈ G → Acc s G [] k →
  wlp (namex cwd path par name) s (λ r s', match r.1 with Some i => Acc s' (i :: G) [] k | None => Acc s' G [] k end).
Proof.
  intros Hc HA. unfold namex. wlp_steps. destruct (decide _).
  - wlp_call iget_acc; [done|]. intros ip s1 HA1. by apply namex_loop_acc.
  - wlp_call idup_acc; [done|done|]. intros ip s1 [-> HA1]. by apply namex_loop_acc.
Qed.
Lemma namei_acc cwd path s G k : cwd ∈ G → Acc s G [] k →
  wlp (namei cwd path) s (λ r s', match r with Some i => Acc s' (i :: G) [] k | None => Acc s' G [] k end).
Proof. intros Hc HA. unfold namei. wlp_steps. wlp_call namex_acc; [done|done|]. intros r s1 HA1. by wlp_steps. Qed.

(** A path from the root needs no working directory. *)
Lemma namei_root_acc cwd s G k : Acc s G [] k →
  wlp (namei cwd [47; 0]) s (λ r s', match r with Some i => Acc s' (i :: G) [] k | None => Acc s' G [] k end).
Proof.
  intros HA. unfold namei, namex. wlp_steps. match goal with E : head _ = Some _ |- _ => injection E as <- end. rewrite decide_True by done.
  wlp_call iget_acc; [done|]. intros ip s1 HA1. wlp_call namex_loop_acc; [done|]. intros r s2 HA2. by wlp_steps.
Qed.

Lemma ialloc_acc d type s G L k : Acc s G L k → wlp (ialloc d type) s (λ i s', Acc s' (i :: G) L k).
Proof.
  intros HA. unfold ialloc. wlp_steps. generalize (Z.of_nat <$> seq 1 (Z.to_nat (sb_ninodes (sb s)) - 1)). intros l. revert s HA.
  induction l as [|n l IH]; intros s HA; cbn [ialloc_loop]; wlp_steps.
  wlp_call (tame_acc (get_block d (IBLOCK n (sb s)))); [tames|done|]. intros v s1 HA1. destruct (decide _); [|by apply IH]. wlp_steps.
  wlp_call (tame_acc (put_block d (IBLOCK n (sb s)) _)); [tames|done|]. intros _ s2 HA2. by apply iget_acc.
Qed.
End Content.
