(* ===== verification/FileAcct.v ===== *)
(** * The table of open files (file.c, pipe.c)

    A file is in use as long as a descriptor names it: its count is the number
    of those that do.  A file in use holds a reference to its inode, or is the
    one reading or writing end of a live pipe; the page of a pipe is given
    back when both ends are closed, and only then. *)

From S2P Require Import Prelude Spinlock Kalloc Ring Layout Fs FsBlocks FsInode File FsAcct Pipe.

Local Open Scope Z_scope.

(** ** The invariant *)

Definition inode_of (f : file) : list nat := if decide (f_type f = FD_INODE) then [f_ip f] else [].
Definition file_inodes (l : list file) : list nat := l ≫= inode_of.
Definition end_of (f : file) : option (Z * bool) := if decide (f_type f = FD_PIPE) then Some (f_pipe f, f_writable f) else None.
Definition ends (l : list file) : list (option (Z * bool)) := end_of <$> l.

(** [D]: the files that are named, with repetition; [R]: the files among them
    that were just allocated and are nothing yet. *)
Record FilesOk (l : list file) (D R : list nat) : Prop := {
  fl_len : length l = NFILE;
  fl_in : Forall (λ j, (j < NFILE)%nat) D;
  fl_ref j f : l !! j = Some f → f_ref f = FsInode.count j D;
  fl_type j f : l !! j = Some f → f_type f ≠ FD_NONE ↔ j ∈ D ∧ j ∉ R;
  fl_raw j : j ∈ R → FsInode.count j D = 1;
  fl_nodup : NoDup R
}.

(** [e]: the pipe ends that are open; [ps]: the pages of the live pipes; [fl]:
    the free pages. *)
Definition is_open (w : bool) (p : pipe) : bool := if w then writeopen p else readopen p.
Record PipesOk (kend : Z) (e : list (option (Z * bool))) (P : Z → pst) (m : kmem) (ps fl : list Z) : Prop := {
  pi_free : Free kend m fl;
  pi_nodup : NoDup ps;
  pi_page p : p ∈ ps → page kend p ∧ p ∉ fl;
  pi_live p : p ∈ ps → freed (P p) = false;
  pi_open p w : p ∈ ps → is_open w (pp (P p)) = true ↔ Some (p, w) ∈ e;
  pi_some p : p ∈ ps → ∃ w, Some (p, w) ∈ e;
  pi_in p w : Some (p, w) ∈ e → p ∈ ps;
  pi_uniq i j pw : e !! i = Some (Some pw) → e !! j = Some (Some pw) → i = j
}.

(** What running code holds: references to inodes [X] beside those of the open
    files, locked inodes [L], transactions [n], and names of files [D], [R]. *)
Definition KF (kend : Z) (s : kfs) (X L : list nat) (n : Z) (D R : list nat) : Prop :=
  Acc (fs s) (X ++ file_inodes (ftable s)) L n ∧ FilesOk (ftable s) D R ∧
  ∃ ps fl, PipesOk kend (ends (ftable s)) (pipes s) (mem s) ps fl.

(** ** Updates of the table *)

(** Lists put together from the elements of another list, one of which changes. *)
Lemma bind_insert {A B} (g : A → list B) l j x : l !! j = Some x →
  ∃ r, l ≫= g ≡ₚ g x ++ r ∧ ∀ y, <[j := y]> l ≫= g ≡ₚ g y ++ r.
Proof.
  intros Hj. exists ((take j l ≫= g) ++ (drop (S j) l ≫= g)). split; [|intros y].
  - rewrite <- (take_drop_middle l j x Hj) at 1. rewrite bind_app, bind_cons. solve_Permutation.
  - rewrite insert_take_drop by by eapply lookup_lt_Some. rewrite bind_app, bind_cons. solve_Permutation.
Qed.
Lemma file_inodes_insert l j f f' : l !! j = Some f →
  ∃ r, file_inodes l ≡ₚ inode_of f ++ r ∧ file_inodes (<[j := f']> l) ≡ₚ inode_of f' ++ r.
Proof. intros Hj. destruct (bind_insert inode_of l j f Hj) as (r & ? & Hr). exists r. split; [done|apply Hr]. Qed.
Lemma file_inodes_same l j f f' : l !! j = Some f → inode_of f' = inode_of f → file_inodes (<[j := f']> l) ≡ₚ file_inodes l.
Proof. intros Hj E. destruct (file_inodes_insert l j f f' Hj) as (r & -> & ->). by rewrite E. Qed.

Lemma ends_insert l j f' : ends (<[j := f']> l) = <[j := end_of f']> (ends l).
Proof. unfold ends. by rewrite list_fmap_insert. Qed.
Lemma ends_lookup l j f : l !! j = Some f → ends l !! j = Some (end_of f).
Proof. intros Hj. unfold ends. by rewrite list_lookup_fmap, Hj. Qed.
Lemma ends_same l j f f' : l !! j = Some f → end_of f' = end_of f → ends (<[j := f']> l) = ends l.
Proof. intros Hj E. rewrite ends_insert, E. apply list_insert_id. by apply ends_lookup. Qed.

Lemma FilesOk_perm l D D' R : D ≡ₚ D' → FilesOk l D R → FilesOk l D' R.
Proof.
  intros E [Hl Hi Hr Ht Hw Hn]. split; [done|by rewrite <- E| | | |done].
  - intros j f Hj. rewrite <- (count_perm j _ _ E). by apply Hr.
  - intros j f Hj. rewrite <- E. by apply Ht.
  - intros j Hj. rewrite <- (count_perm j _ _ E). by apply Hw.
Qed.

Lemma KF_perm kend s X X' L n D D' R : X ≡ₚ X' → D ≡ₚ D' → KF kend s X L n D R → KF kend s X' L n D' R.
Proof. intros EX ED (HA & HF & HP). split; [by rewrite <- EX|]. split; [by eapply FilesOk_perm|done]. Qed.

(** The file [j] changes, and with it who names it. *)
Lemma FilesOk_insert l D R D' R' j f' : FilesOk l D R →
  (∀ k, k ≠ j → FsInode.count k D' = FsInode.count k D) → (∀ k, k ≠ j → k ∈ R' ↔ k ∈ R) →
  f_ref f' = FsInode.count j D' → (f_type f' ≠ FD_NONE ↔ j ∈ D' ∧ j ∉ R') → (j ∈ R' → FsInode.count j D' = 1) →
  Forall (λ j, (j < NFILE)%nat) D' → NoDup R' → (j < NFILE)%nat → FilesOk (<[j := f']> l) D' R'.
Proof.
  intros [Hl Hi Hr Ht Hw Hn] HD HR Hf Hty Hraw Hin HN Hj. split; [by rewrite length_insert|done| | | |done].
  - intros k f Hk. destruct (decide (k = j)) as [->|Hne].
    + rewrite list_lookup_insert_eq in Hk by lia. by injection Hk as <-.
    + rewrite list_lookup_insert_ne in Hk by done. rewrite HD by done. by apply Hr.
  - intros k f Hk. destruct (decide (k = j)) as [->|Hne].
    + rewrite list_lookup_insert_eq in Hk by lia. by injection Hk as <-.
    + rewrite list_lookup_insert_ne in Hk by done. rewrite <- count_elem, HD, HR, count_elem by done. by apply Ht.
  - intros k Hk. destruct (decide (k = j)) as [->|Hne]; [by apply Hraw|]. rewrite HD by done. by apply Hw, HR.
Qed.

Lemma count_ne k j D : k ≠ j → FsInode.count k (j :: D) = FsInode.count k D.
Proof. intros. rewrite count_cons, decide_False by done. lia. Qed.
Lemma count_hd j D : FsInode.count j (j :: D) = 1 + FsInode.count j D.
Proof. by rewrite count_cons, decide_True by done. Qed.
Lemma count_nonneg j D : 0 ≤ FsInode.count j D.
Proof. unfold FsInode.count. lia. Qed.

Lemma FilesOk_lookup l D R j : FilesOk l D R → j ∈ D → ∃ f, l !! j = Some f ∧ f_ref f = FsInode.count j D ∧ 1 ≤ f_ref f ∧ (j < NFILE)%nat.
Proof.
  intros HF Hj. destruct (HF) as [Hl Hi Hr _ _ _]. assert (j < NFILE)%nat as Hlt by by eapply Forall_forall in Hi.
  destruct (lookup_lt_is_Some_2 l j) as [f Hf]; [lia|]. exists f. split; [done|]. pose proof (Hr j f Hf). apply count_elem in Hj. lia.
Qed.

(** ** Pipes *)

Definition flags (q : pst) : bool * bool * bool := (readopen (pp q), writeopen (pp q), freed q).

Lemma pipewrite_flags killed addr n : ∀ k i q, wlp (pipewrite_loop k killed addr n i) q (λ _ q', flags q' = flags q).
Proof.
  induction k as [|k IH]; intros i q; cbn [pipewrite_loop]; unfold wakeupR, upd_pipe; (wlp_if; try done).
  wlp_if; [by wlp_if|]. wlp_call IH. intros r q' ->. done.
Qed.
Lemma piperead_loop_flags : ∀ k q, wlp (piperead_loop k) q (λ _ q', flags q' = flags q).
Proof.
  induction k as [|k IH]; intros q; cbn [piperead_loop]; unfold upd_pipe; wlp_steps; [done|]. wlp_if; [done|].
  wlp_call IH. intros l q' E. by wlp_steps.
Qed.
Lemma piperead_flags killed n q : wlp (piperead killed n) q (λ _ q', flags q' = flags q).
Proof.
  unfold piperead, wakeupW. wlp_steps. wlp_if; [by wlp_if|]. wlp_call piperead_loop_flags. intros l q' E. by wlp_steps.
Qed.

Lemma pipeclose_flags w q :
  wp (pipeclose w) q (λ _ q', is_open w (pp q') = false ∧ is_open (negb w) (pp q') = is_open (negb w) (pp q) ∧
    freed q' = freed q || negb (is_open (negb w) (pp q))).
Proof. destruct q as [[d r v ro wo] sr sw f st ta], w, ro, wo, f; repeat split. Qed.

Section Pipes.
Context (kend : Z).

(** Reads and writes on a pipe. *)
Lemma PipesOk_flags e P m ps fl p q : PipesOk kend e P m ps fl → flags q = flags (P p) → PipesOk kend e (<[p := q]> P) m ps fl.
Proof.
  intros [H1 H2 H3 H4 H5 H6 H7 H8] [= E1 E2 E3]. split; try done.
  - intros p' Hp. rewrite fn_insert_dec. destruct (decide (p = p')) as [<-|]; [|by apply H4]. rewrite E3. by apply H4.
  - intros p' w Hp. rewrite fn_insert_dec. destruct (decide (p = p')) as [<-|]; [|by apply H5]. rewrite <- H5 by done.
    destruct w; cbn; by rewrite ?E1, ?E2.
Qed.

Lemma elem_close (e : list (option (Z * bool))) (j : nat) (p : Z) (w : bool) pw : (∀ i k x, e !! i = Some (Some x) → e !! k = Some (Some x) → i = k) → e !! j = Some (Some (p, w)) →
  Some pw ∈ <[j := None]> e ↔ Some pw ∈ e ∧ pw ≠ (p, w).
Proof.
  intros Hu Hj. pose proof (lookup_lt_Some _ _ _ Hj) as Hlt. rewrite !list_elem_of_lookup. split.
  - intros [i Hi]. destruct (decide (i = j)) as [->|Hne]; [by rewrite list_lookup_insert_eq in Hi|].
    rewrite list_lookup_insert_ne in Hi by done. split; [by exists i|]. intros ->. apply Hne. by eapply Hu.
  - intros [[i Hi] Hne]. exists i. rewrite list_lookup_insert_ne; [done|]. intros <-. congruence.
Qed.

(** The end stays behind closed; its page is kept for the other end. *)
Lemma PipesOk_half e P m ps fl j p w q :
  PipesOk kend e P m ps fl → e !! j = Some (Some (p, w)) →
  is_open w (pp q) = false → is_open (negb w) (pp q) = true → is_open (negb w) (pp (P p)) = true → freed q = false →
  PipesOk kend (<[j := None]> e) (<[p := q]> P) m ps fl.
Proof.
  intros [H1 H2 H3 H4 H5 H6 H7 H8] Hj Hc Ho Ho' Hf. pose proof (elem_close e j p w) as He.
  assert (p ∈ ps) as Hp by (apply (H7 p w), list_elem_of_lookup; by exists j).
  split; try done.
  - intros p' Hp'. rewrite fn_insert_dec. destruct (decide (p = p')); [done|by apply H4].
  - intros p' w' Hp'. rewrite He, <- H5, fn_insert_dec by done. destruct (decide (p = p')) as [<-|Hne].
    + destruct (decide (w' = w)) as [->|Hw]; [rewrite Hc; naive_solver|].
      assert (w' = negb w) as -> by (destruct w, w'; done). rewrite Ho, Ho'. destruct w; naive_solver.
    + naive_solver.
  - intros p' Hp'. destruct (decide (p' = p)) as [->|Hne].
    + exists (negb w). rewrite He, <- H5 by done. split; [done|]. destruct w; congruence.
    + destruct (H6 p' Hp') as [w' Hw]. exists w'. rewrite He by done. split; [done|congruence].
  - intros p' w'. rewrite He by done. intros [Hw _]. by eapply H7.
  - intros i k pw Hi Hk. assert (i ≠ j ∧ k ≠ j) as [? ?].
    { split; intros ->; [rewrite list_lookup_insert_eq in Hi|rewrite list_lookup_insert_eq in Hk]; try done; by eapply lookup_lt_Some. }
    rewrite list_lookup_insert_ne in Hi, Hk by done. by eapply H8.
Qed.

(** The last end: the page goes back to the allocator. *)
Lemma PipesOk_last e P m m' ps fl j p w q :
  PipesOk kend e P m ps fl → e !! j = Some (Some (p, w)) → is_open (negb w) (pp (P p)) = false → Free kend m' (p :: fl) →
  PipesOk kend (<[j := None]> e) (<[p := q]> P) m' (filter (λ p', p' ≠ p) ps) (p :: fl).
Proof.
  intros [H1 H2 H3 H4 H5 H6 H7 H8] Hj Ho HF. pose proof (elem_close e j p w) as He.
  assert (p ∈ ps) as Hp by (apply (H7 p w), list_elem_of_lookup; by exists j).
  assert (∀ w', Some (p, w') ∈ e → w' = w) as Hno.
  { intros w' Hw. apply H5 in Hw; [|done]. destruct w, w'; cbn in *; congruence. }
  split; [done|by apply NoDup_filter| | | | | |].
  - intros p' [Hne Hp']%list_elem_of_filter. destruct (H3 p' Hp') as [? ?]. split; [done|]. set_solver.
  - intros p' [Hne Hp']%list_elem_of_filter. rewrite fn_insert_dec, decide_False by done. by apply H4.
  - intros p' w' [Hne Hp']%list_elem_of_filter. rewrite fn_insert_dec, decide_False, He, H5 by done. naive_solver.
  - intros p' [Hne Hp']%list_elem_of_filter. destruct (H6 p' Hp') as [w' Hw]. exists w'. rewrite He by done. split; [done|congruence].
  - intros p' w'. rewrite He by done. intros [Hw Hpw]. apply list_elem_of_filter. split; [|by eapply H7].
    intros ->. apply Hpw. by rewrite (Hno w').
  - intros i k pw Hi Hk. assert (i ≠ j ∧ k ≠ j) as [? ?].
    { split; intros ->; [rewrite list_lookup_insert_eq in Hi|rewrite list_lookup_insert_eq in Hk]; try done; by eapply lookup_lt_Some. }
    rewrite list_lookup_insert_ne in Hi, Hk by done. by eapply H8.
Qed.

Lemma close_pipe_spec e ps fl j p w s :
  PipesOk kend e (pipes s) (mem s) ps fl → e !! j = Some (Some (p, w)) →
  wlp (close_pipe kend p w) s (λ _ s', fs s' = fs s ∧ ftable s' = ftable s ∧ pfds s' = pfds s ∧
    ∃ ps' fl', PipesOk kend (<[j := None]> e) (pipes s') (mem s') ps' fl').
Proof.
  intros HP Hj. destruct (HP) as [H1 H2 H3 H4 H5 H6 H7 H8].
  assert (p ∈ ps) as Hp by (apply (H7 p w), list_elem_of_lookup; by exists j).
  unfold close_pipe, in_pipe, in_mem. wlp_steps. apply wp_wlp. eapply wp_mono; [apply pipeclose_flags|]. cbn beta. intros _ q (Hc & Ho & Hf).
  wlp_steps. unfold id. cbn [pipes set_pipes]. rewrite fn_insert_dec, decide_True by done. rewrite Hf, H4 by done. cbn [orb].
  destruct (is_open (negb w) (pp (pipes s p))) eqn:E; cbn [negb].
  - wlp_steps. do 3 (split; [done|]). exists ps, fl. apply PipesOk_half with w; try done. by rewrite Hf, H4.
  - wlp_steps. destruct (H3 p Hp) as [Hpg Hfl]. apply wp_wlp. eapply wp_mono; [by apply (kfree_spec kend (mem s) fl p)|]. intros _ m' (HF & _).
    do 3 (split; [done|]). eexists _, _. by eapply PipesOk_last.
Qed.

(** A new pipe on a free page. *)
Lemma PipesOk_new e P m m' ps fl p j0 j1 d :
  PipesOk kend e P m ps (p :: fl) → Free kend m' fl → e !! j0 = Some None → e !! j1 = Some None → j0 ≠ j1 →
  PipesOk kend (<[j1 := Some (p, true)]> (<[j0 := Some (p, false)]> e)) (<[p := pipe_init d]> P) m' (p :: ps) fl.
Proof.
  intros [H1 H2 H3 H4 H5 H6 H7 H8] HF Hj0 Hj1 Hne. destruct H1 as [Hc Hn Hp Hl].
  apply NoDup_cons in Hn as [Hpf Hn]. assert (p ∉ ps) as Hps by (intros Hps; destruct (H3 p Hps) as [_ []]; by constructor).
  set (e' := <[j1 := _]> _). pose proof (lookup_lt_Some _ _ _ Hj0). pose proof (lookup_lt_Some _ _ _ Hj1).
  assert (∀ i, e' !! i = if decide (i = j1) then Some (Some (p, true)) else if decide (i = j0) then Some (Some (p, false)) else e !! i) as Hi.
  { intros i. unfold e'. destruct (decide (i = j1)) as [->|]; [by rewrite list_lookup_insert_eq by (rewrite length_insert; lia)|].
    rewrite list_lookup_insert_ne by done. destruct (decide (i = j0)) as [->|]; [by rewrite list_lookup_insert_eq|by rewrite list_lookup_insert_ne]. }
  assert (∀ p' w, Some (p', w) ∈ e' ↔ p' = p ∨ Some (p', w) ∈ e) as He.
  { intros p' w. rewrite !list_elem_of_lookup. split.
    - intros [i Hi']. rewrite Hi in Hi'. repeat case_decide; simplify_eq; [by left|by left|right; by exists i].
    - intros [->|[i Hi']]; [destruct w; [exists j1|exists j0]; rewrite Hi; by repeat case_decide|].
      exists i. rewrite Hi. repeat case_decide; simplify_eq; done. }
  assert (∀ w, Some (p, w) ∉ e) as Hno by (intros w Hw; by apply H7 in Hw).
  split; [done|by constructor| | | | | |].
  - intros p' [->|Hp']%elem_of_cons; [split; [apply Hp; by constructor|done]|]. destruct (H3 p' Hp') as [? ?]. split; [done|set_solver].
  - intros p' Hp'. rewrite fn_insert_dec. destruct (decide (p = p')); [done|]. apply H4. set_solver.
  - intros p' w Hp'. rewrite He, fn_insert_dec. destruct (decide (p = p')) as [<-|]; [destruct w; cbn; naive_solver|]. rewrite H5 by set_solver. naive_solver.
  - intros p' [->|Hp']%elem_of_cons; [exists true; rewrite He; by left|]. destruct (H6 p' Hp') as [w Hw]. exists w. rewrite He. by right.
  - intros p' w [->|Hw]%He; [by constructor|]. constructor. by eapply H7.
  - intros i k [p' w'] Hi1 Hk1. rewrite Hi in Hi1. rewrite Hi in Hk1. repeat case_decide; simplify_eq; try done; try (by eapply H8);
      exfalso; eapply Hno, list_elem_of_lookup; eauto.
Qed.
End Pipes.

(** ** Files *)

Section Files.
Context `{DevicesOk} (kend : Z).

(** The descriptors of the processes are [l]. *)
Definition KP (s : kfs) (X L : list nat) (n : Z) (D R : list nat) (l : list fds) : Prop := KF kend s X L n D R ∧ pfds s = l.

Lemma wlp_setf j g s f (Q : unit → kfs → Prop) :
  ftable s !! j = Some f → Q tt (set_ftable (<[j := g f]> (ftable s)) s) → wlp (setf j g) s Q.
Proof. intros Hj HQ. unfold setf, getf. wlp_steps. by simplify_eq. Qed.

(** A change of a file that is none of inode, pipe, type or count. *)
Lemma KP_setf s X L n D R l j f g :
  KP s X L n D R l → ftable s !! j = Some f →
  f_type (g f) = f_type f → f_ref (g f) = f_ref f → inode_of (g f) = inode_of f → end_of (g f) = end_of f →
  KP (set_ftable (<[j := g f]> (ftable s)) s) X L n D R l.
Proof.
  intros [(HA & HF & HP) Hl] Hj Et Er Ei Ee. split; [|done]. unfold KF. cbn [fs ftable pipes mem set_ftable].
  split; [by rewrite (file_inodes_same _ _ f)|]. split; [|by rewrite (ends_same _ _ f)].
  destruct (HF) as [Hlen Hin Hr Ht Hw Hn]. apply (FilesOk_insert _ D R); try done.
  - rewrite Er. by apply Hr.
  - rewrite Et. by apply (Ht j f).
  - apply Hw.
  - rewrite <- Hlen. by eapply lookup_lt_Some.
Qed.

Lemma free_file_spec l : ∀ k, match free_file l k with Some j => ∃ f, (k ≤ j)%nat ∧ l !! (j - k)%nat = Some f ∧ f_ref f = 0 | None => True end.
Proof.
  induction l as [|f l IH]; intros k; cbn [free_file]; [done|]. case_decide.
  - exists f. by rewrite Nat.sub_diag.
  - specialize (IH (S k)). destruct (free_file l (S k)) as [j|]; [|done]. destruct IH as (g & Hj & Hg & Hr). exists g.
    split; [lia|]. by replace (j - k)%nat with (S (j - S k)) by lia.
Qed.

Lemma filealloc_spec s X L n D R l : KP s X L n D R l →
  wlp filealloc s (λ r s', match r with None => KP s' X L n D R l | Some j => j ∉ D ∧ KP s' X L n (j :: D) (j :: R) l end).
Proof.
  intros HK. unfold filealloc. wlp_steps. pose proof (free_file_spec (ftable s) 0) as Hf.
  destruct (free_file (ftable s) 0) as [j|]; [|by wlp_steps]. destruct Hf as (f & _ & Hj & Hr). rewrite Nat.sub_0_r in Hj.
  destruct HK as [(HA & HF & HP) Hl]. wlp_steps. apply (wlp_setf _ _ _ f); [done|]. wlp_steps.
  destruct (HF) as [Hlen Hin Href Ht Hw Hn]. assert (FsInode.count j D = 0) as Hc by (rewrite <- Hr; symmetry; by apply Href).
  assert (j ∉ D) as HjD by (rewrite <- count_elem; lia). split; [done|]. split; [|done]. unfold KF. cbn [fs ftable pipes mem set_ftable].
  split; [by rewrite (file_inodes_same _ _ f)|]. split; [|by rewrite (ends_same _ _ f)].
  assert (j < NFILE)%nat as Hlt by (rewrite <- Hlen; by eapply lookup_lt_Some).
  assert (j ∉ R) as HjR by (intros HjR; apply Hw in HjR; lia).
  apply (FilesOk_insert _ D R); [done| | | | | | | |done].
  - intros k ?. by apply count_ne.
  - intros k ?. set_solver.
  - rewrite count_hd, Hc. done.
  - cbn. pose proof (Ht j f Hj). set_solver.
  - intros _. rewrite count_hd. lia.
  - by constructor.
  - by constructor.
Qed.

Lemma filedup_spec s X L n D R l j : KP s X L n D R l → j ∈ D → j ∉ R → wlp (filedup j) s (λ _ s', KP s' X L n (j :: D) R l).
Proof.
  intros [(HA & HF & HP) Hl] Hj HR. destruct (FilesOk_lookup _ _ _ _ HF Hj) as (f & Hf & Hr & Hpos & Hlt).
  unfold filedup, getf. wlp_steps. simplify_eq. rewrite decide_False by lia. wlp_steps. eapply wlp_setf; [done|]. wlp_steps.
  split; [|done]. unfold KF. cbn [fs ftable pipes mem set_ftable].
  split; [by rewrite (file_inodes_same _ _ f)|]. split; [|by rewrite (ends_same _ _ f)].
  destruct (HF) as [Hlen Hin Href Ht Hw Hn]. apply (FilesOk_insert _ D R); [done| |done| | |done|by constructor|done|done].
  - intros k ?. by apply count_ne.
  - rewrite count_hd. cbn. lia.
  - cbn. rewrite (Ht j f Hf). set_solver.
Qed.

(** The last descriptor of a file is gone. *)
Lemma FilesOk_close t D R R' j f : FilesOk t (j :: D) R → t !! j = Some f → FsInode.count j D = 0 →
  R ≡ₚ R' ∨ R ≡ₚ j :: R' → j ∉ R' → FilesOk (<[j := set_f_type FD_NONE (set_f_ref 0 (set_f_ref (f_ref f - 1) f))]> t) D R'.
Proof.
  intros HF Hf Hc HR HjR. destruct (HF) as [Hlen Hin Href Ht Hw Hn]. apply Forall_cons in Hin as [Hlt Hin].
  apply (FilesOk_insert _ (j :: D) R); try done.
  - intros k ?. symmetry. by apply count_ne.
  - intros k ?. destruct HR as [->| ->]; set_solver.
  - cbn. split; [done|]. intros [Hj _]. apply count_elem in Hj. lia.
  - destruct HR as [HR|HR]; rewrite HR in Hn; [done|by apply NoDup_cons in Hn as [_ ?]].
Qed.

(** What is left to do once a file's last descriptor is gone. *)
Definition closed (f : file) : file := set_f_type FD_NONE (set_f_ref 0 (set_f_ref (f_ref f - 1) f)).
Lemma wlp_fileclose j s f (Q : unit → kfs → Prop) : ftable s !! j = Some f → 1 ≤ f_ref f →
  (1 < f_ref f → Q tt (set_ftable (<[j := set_f_ref (f_ref f - 1) f]> (ftable s)) s)) →
  (f_ref f = 1 →
   wlp (if decide (f_type f = FD_PIPE) then close_pipe kend (f_pipe f) (f_writable f)
        else if decide (f_type f = FD_INODE) then in_fs begin_op;; in_fs (iput (f_ip f));; in_fs end_op
        else mret tt) (set_ftable (<[j := closed f]> (ftable s)) s) Q) →
  wlp (fileclose kend j) s Q.
Proof.
  intros Hf Hpos H1 H2. pose proof (lookup_lt_Some _ _ _ Hf) as Hlt.
  unfold fileclose, getf. wlp_steps. simplify_eq. rewrite decide_False by lia. wlp_steps. eapply wlp_setf; [done|]. wlp_steps.
  destruct (decide (0 < f_ref f - 1)); wlp_steps; [apply H1; lia|].
  cbn [ftable set_ftable] in *. rewrite list_lookup_insert_eq in * by lia. simplify_eq.
  eapply wlp_setf; [cbn; by rewrite list_lookup_insert_eq by lia|]. wlp_steps.
  eapply wlp_setf; [cbn; by rewrite list_lookup_insert_eq by (rewrite length_insert; lia)|]. cbn [ftable set_ftable].
  rewrite !list_insert_insert_eq. apply H2. lia.
Qed.

Lemma fileclose_raw_spec s X L n D R l j : KP s X L n (j :: D) (j :: R) l → wlp (fileclose kend j) s (λ _ s', KP s' X L n D R l).
Proof.
  intros [(HA & HF & HP) Hl]. destruct (FilesOk_lookup _ _ _ j HF) as (f & Hf & Hr & Hpos & Hlt); [by constructor|].
  destruct (HF) as [Hlen Hin Href Ht Hw Hn]. pose proof (Hw j ltac:(by constructor)) as Hc. rewrite count_hd in Hr, Hc.
  assert (f_type f = FD_NONE) as Et by (destruct (decide (f_type f = FD_NONE)) as [|Hne]; [done|apply (Ht j f Hf) in Hne as [_ []]; by constructor]).
  apply (wlp_fileclose _ _ f); [done|done|lia|]. intros _. rewrite decide_False, decide_False by congruence. wlp_steps.
  apply NoDup_cons in Hn as [HjR Hn]. split; [|done]. unfold KF. cbn [fs ftable pipes mem set_ftable set_pipes]. split; [|split].
  - rewrite (file_inodes_same _ _ f); [done|done|]. unfold inode_of. cbn. by rewrite Et.
  - apply (FilesOk_close _ _ (j :: R)); [done|done|lia|by right|done].
  - rewrite (ends_same _ _ f); [done|done|]. unfold end_of. cbn. by rewrite Et.
Qed.

Lemma fileclose_inode s X n D R l j f :
  KP s X [] n (j :: D) R l → ftable s !! j = Some f → f_type f = FD_INODE → FsInode.count j D = 0 → j ∉ R →
  wlp (in_fs begin_op;; in_fs (iput (f_ip f));; in_fs end_op) (set_ftable (<[j := closed f]> (ftable s)) s) (λ _ s', KP s' X [] n D R l).
Proof.
  intros [(HA & HF & ps & fl & HP) Hl] Hf Et Hc HjR. set (t := <[j := closed f]> (ftable s)).
  destruct (file_inodes_insert (ftable s) j f (closed f) Hf) as (r & E1 & E2). unfold inode_of in E1, E2. rewrite decide_True in E1 by done. rewrite decide_False in E2 by done. cbn [app] in E1, E2. fold t in E2.
  unfold in_fs. wlp_steps. wlp_call begin_op_acc; [exact HA|]. intros _ f1 HA1. wlp_steps. cbn [fs set_fs set_ftable].
  wlp_call (iput_acc (f_ip f) f1 (X ++ file_inodes t) []); [set_solver| |].
  { rewrite E1 in HA1. rewrite E2. by rewrite <- Permutation_middle in HA1. }
  intros _ f2 HA2. wlp_steps. cbn [fs set_fs]. wlp_call end_op_acc; [done|]. intros _ f3 HA3. split; [|done].
  replace (n + 1 - 1) with n in HA3 by lia. split; [exact HA3|]. cbn [fs ftable pipes mem set_ftable set_fs]. split.
  - apply (FilesOk_close _ _ R); [done|done|done|by left|done].
  - exists ps, fl. fold t. unfold t. rewrite (ends_same _ _ f); [done|done|]. unfold end_of. cbn. by rewrite Et.
Qed.

Lemma fileclose_pipe s X n D R l j f :
  KP s X [] n (j :: D) R l → ftable s !! j = Some f → f_type f = FD_PIPE → FsInode.count j D = 0 → j ∉ R →
  wlp (close_pipe kend (f_pipe f) (f_writable f)) (set_ftable (<[j := closed f]> (ftable s)) s) (λ _ s', KP s' X [] n D R l).
Proof.
  intros [(HA & HF & ps & fl & HP) Hl] Hf Et Hc HjR.
  eapply wlp_mono; [apply (close_pipe_spec kend (ends (ftable s)) ps fl j); [exact HP|]|].
  { rewrite (ends_lookup _ _ f) by done. unfold end_of. by rewrite Et. }
  cbn beta. intros _ s' (E1 & E2 & E3 & ps' & fl' & HP'). split; [|by rewrite E3]. unfold KF. rewrite E1, E2. cbn [fs ftable set_ftable]. split; [|split].
  - rewrite (file_inodes_same _ _ f); [done|done|]. unfold inode_of. cbn. by rewrite Et.
  - apply (FilesOk_close _ _ R); [done|done|done|by left|done].
  - exists ps', fl'. by rewrite ends_insert.
Qed.

Lemma fileclose_spec s X n D R l j : KP s X [] n (j :: D) R l → j ∉ R → wlp (fileclose kend j) s (λ _ s', KP s' X [] n D R l).
Proof.
  intros HK HjR. destruct (HK) as [(HA & HF & HP) Hl]. destruct (FilesOk_lookup _ _ _ j HF) as (f & Hf & Hr & Hpos & Hlt); [by constructor|].
  rewrite count_hd in Hr. destruct (HF) as [Hlen Hin Href Ht Hw Hn]. apply (wlp_fileclose _ _ f); [done|done| |].
  - intros Hgt. split; [|done]. unfold KF. cbn [fs ftable pipes mem set_ftable].
    split; [by rewrite (file_inodes_same _ _ f)|]. split; [|by rewrite (ends_same _ _ f)].
    apply (FilesOk_insert _ (j :: D) R); [done| |done| | |done|by apply Forall_cons in Hin as [_ ?]|done|done].
    + intros k ?. symmetry. by apply count_ne.
    + cbn. lia.
    + cbn. rewrite (Ht j f Hf), <- (count_elem j D), <- count_elem, count_hd. split; intros [? ?]; (split; [lia|done]).
  - intros H1. assert (FsInode.count j D = 0) as Hc by lia.
    destruct (decide (f_type f = FD_PIPE)); [by apply fileclose_pipe|].
    destruct (decide (f_type f = FD_INODE)); [by apply fileclose_inode|].
    assert (f_type f ≠ FD_NONE) as Hne by (apply (Ht j f Hf); split; [by constructor|done]). by destruct (f_type f).
Qed.

(** ** Reading and writing *)

Lemma KP_fs s X L n D R l f X' L' n' :
  KP s X L n D R l → Acc f (X' ++ file_inodes (ftable s)) L' n' → KP (set_fs f s) X' L' n' D R l.
Proof. intros [(_ & HF & HP) Hl] HA. by split. Qed.
Lemma KP_acc s X L n D R l : KP s X L n D R l → Acc (fs s) (X ++ file_inodes (ftable s)) L n.
Proof. by intros [(HA & _) _]. Qed.
Lemma KP_pipe s X L n D R l p q : KP s X L n D R l → flags q = flags (pipes s p) → KP (set_pipes (<[p := q]> (pipes s)) s) X L n D R l.
Proof. intros [(HA & HF & ps & fl & HP) Hl] Eq. split; [|done]. split; [done|]. split; [done|]. exists ps, fl. by apply PipesOk_flags. Qed.

(** A named file is there, and is an inode or a pipe. *)
Lemma KP_file s X L n D l j : KP s X L n D [] l → j ∈ D →
  ∃ f, ftable s !! j = Some f ∧ f_type f ≠ FD_NONE ∧ (f_type f = FD_INODE → f_ip f ∈ X ++ file_inodes (ftable s)).
Proof.
  intros [(HA & HF & HP) Hl] Hj. destruct (FilesOk_lookup _ _ _ _ HF Hj) as (f & Hf & _). exists f. split; [done|].
  split; [apply (fl_type _ _ _ HF j f Hf); set_solver|]. intros Et. apply elem_of_app. right. unfold file_inodes. apply list_elem_of_bind.
  exists f. split; [unfold inode_of; rewrite Et; cbn; by constructor|]. apply list_elem_of_lookup. by exists j.
Qed.

Lemma filestat_spec s X n D l j : KP s X [] n D [] l → j ∈ D → wlp (filestat j) s (λ _ s', KP s' X [] n D [] l).
Proof.
  intros HK Hj. destruct (KP_file _ _ _ _ _ _ _ HK Hj) as (f & Hf & Ht & Hi). unfold filestat, getf, in_fs. wlp_steps. simplify_eq.
  destruct (decide (f_type f = FD_INODE)) as [Et|]; wlp_steps; [|done].
  wlp_call ilock_acc; [by apply Hi|by eapply KP_acc|]. intros _ f1 [_ HA1]. wlp_steps. cbn [fs set_fs].
  wlp_call (tame_acc (stati (f_ip f))); [tames|done|]. intros st f2 HA2. wlp_steps. cbn [fs set_fs].
  wlp_call iunlock_acc; [done|]. intros _ f3 HA3. wlp_steps. exact (KP_fs _ _ _ _ _ _ _ f3 X [] n HK HA3).
Qed.

Lemma fileread_spec killed s X n D l j nn : KP s X [] n D [] l → j ∈ D → wlp (fileread killed j nn) s (λ _ s', KP s' X [] n D [] l).
Proof.
  intros HK Hj. destruct (KP_file _ _ _ _ _ _ _ HK Hj) as (f & Hf & Ht & Hi). unfold fileread, getf, in_fs, in_pipe. wlp_steps. simplify_eq.
  destruct (f_readable f); cbn [negb]; [|by wlp_steps]. destruct (decide (f_type f = FD_PIPE)); wlp_steps.
  { wlp_call piperead_flags. intros r q Eq. by apply KP_pipe. }
  destruct (decide (f_type f = FD_INODE)) as [Et|]; [|by destruct (f_type f)]. wlp_steps.
  wlp_call ilock_acc; [by apply Hi|by eapply KP_acc|]. intros _ f1 [_ HA1]. wlp_steps. cbn [fs set_fs].
  wlp_call readi_acc; [|done|]; [by constructor|]. intros r f2 HA2. wlp_steps.
  eapply (wlp_mono _ _ (λ _ s', KP s' X [f_ip f] n D [] l)).
  - assert (KP (set_fs f2 (set_fs f1 s)) X [f_ip f] n D [] l) as HK2 by exact (KP_fs _ _ _ _ _ _ _ f2 X [f_ip f] n HK HA2).
    wlp_if; [|done]. apply (wlp_setf _ _ _ f); [done|]. by apply (KP_setf _ _ _ _ _ _ _ _ f (λ f, set_f_off (u32 (f_off f + r.1)) f)).
  - intros _ s2 HK2. wlp_steps. wlp_call iunlock_acc; [by eapply KP_acc|]. intros _ f3 HA3. wlp_steps. exact (KP_fs _ _ _ _ _ _ _ f3 X [] n HK2 HA3).
Qed.

Lemma filewrite_loop_spec X n D l j nn : j ∈ D → ∀ fuel src i s f, KP s X [] n D [] l → ftable s !! j = Some f → f_type f = FD_INODE →
  wlp (filewrite_loop fuel j src i nn) s (λ _ s', KP s' X [] n D [] l).
Proof.
  intros Hj. induction fuel as [|fu IH]; intros src i s f HK Hf Et; cbn [filewrite_loop]; (wlp_if; try done).
  set (n1 := if decide (max_write < nn - i) then _ else _). unfold in_fs at 1. wlp_steps.
  wlp_call begin_op_acc; [by eapply KP_acc|]. intros _ f1 HA1. unfold getf, in_fs. wlp_steps. cbn [ftable set_fs fs] in *. simplify_eq.
  destruct (KP_file _ _ _ _ _ _ _ HK Hj) as (f' & Hf' & _ & Hi). assert (f' = f) as -> by congruence.
  wlp_call ilock_acc; [by apply Hi|done|]. intros _ f2 [_ HA2]. wlp_steps. cbn [fs set_fs].
  wlp_call writei_acc; [|done|]; [by constructor|]. intros r f3 HA3. wlp_steps.
  eapply (wlp_mono _ _ (λ _ s', KP s' X [f_ip f] (n + 1) D [] l ∧ ∃ f', ftable s' !! j = Some f' ∧ f_type f' = FD_INODE)).
  - assert (KP (set_fs f3 (set_fs f2 (set_fs f1 s))) X [f_ip f] (n + 1) D [] l) as HK3 by exact (KP_fs _ _ _ _ _ _ _ f3 X [f_ip f] (n + 1) HK HA3).
    wlp_if; [|split; [done|by exists f]]. apply (wlp_setf _ _ _ f); [done|].
    split; [by apply (KP_setf _ _ _ _ _ _ _ _ f (λ f, set_f_off (u32 (f_off f + r)) f))|].
    eexists. split; [apply list_lookup_insert_eq; by eapply lookup_lt_Some|done].
  - intros _ s3 [HK3 (f' & Hf3 & Et3)]. wlp_steps. wlp_call iunlock_acc; [by eapply KP_acc|]. intros _ f4 HA4. wlp_steps. cbn [fs set_fs].
    wlp_call end_op_acc; [done|]. intros _ f5 HA5. cbn beta. replace (n + 1 - 1) with n in HA5 by lia.
    assert (KP (set_fs f5 (set_fs f4 s3)) X [] n D [] l) as HK5 by exact (KP_fs _ _ _ _ _ _ _ f5 X [] n HK3 HA5).
    wlp_if; [done|]. wlp_if. by apply (IH _ _ _ f').
Qed.

Lemma filewrite_spec killed s X n D l j src nn i0 : KP s X [] n D [] l → j ∈ D →
  wlp (filewrite killed j src nn i0) s (λ _ s', KP s' X [] n D [] l).
Proof.
  intros HK Hj. destruct (KP_file _ _ _ _ _ _ _ HK Hj) as (f & Hf & Ht & Hi). unfold filewrite, getf, in_pipe. wlp_steps. simplify_eq.
  destruct (f_writable f); cbn [negb]; [|by wlp_steps]. destruct (decide (f_type f = FD_PIPE)); wlp_steps.
  { unfold pipewrite. wlp_call pipewrite_flags. intros r q Eq. by apply KP_pipe. }
  destruct (decide (f_type f = FD_INODE)) as [Et|]; [|by destruct (f_type f)]. wlp_steps.
  wlp_call filewrite_loop_spec; [done|done|done|done|]. intros i s' HK'. by wlp_steps.
Qed.

(** ** pipealloc *)

(** A file that was allocated becomes one that can be used. *)
Lemma FilesOk_typed t D R R' j f f' : FilesOk t D R → R ≡ₚ j :: R' → t !! j = Some f → f_ref f' = f_ref f → f_type f' ≠ FD_NONE →
  FilesOk (<[j := f']> t) D R'.
Proof.
  intros HF HR Hf Er Et. destruct (HF) as [Hlen Hin Href Ht Hw Hn]. rewrite HR in Hn. apply NoDup_cons in Hn as [HjR Hn].
  apply (FilesOk_insert _ D R); try done.
  - intros k Hk'. rewrite HR. set_solver.
  - rewrite Er. by apply Href.
  - split; [intros _|done]. split; [|done]. apply count_elem. rewrite Hw; [done|rewrite HR; by constructor].
  - rewrite <- Hlen. by eapply lookup_lt_Some.
Qed.

Lemma KP_raw_swap s X L n D i j l : KP s X L n (i :: j :: D) [i; j] l → KP s X L n (j :: i :: D) [j; i] l.
Proof.
  intros [HK Hl]. split; [|done]. apply (KF_perm _ _ X X _ _ (i :: j :: D)); [done|apply Permutation_swap|]. destruct HK as (HA & HF & HP).
  split; [done|]. split; [|done]. destruct HF as [? ? ? Ht Hw Hn]. split; try done.
  - intros k f Hf. rewrite (Ht k f Hf). set_solver.
  - intros k Hk'. apply Hw. set_solver.
  - by rewrite Permutation_swap.
Qed.

Lemma pipe_install s X n D l j0 j1 p fl ps m' f0 f1 d :
  KP s X [] n (j1 :: j0 :: D) [j1; j0] l → j1 ≠ j0 → PipesOk kend (ends (ftable s)) (pipes s) (mem s) ps (p :: fl) → Free kend m' fl →
  ftable s !! j0 = Some f0 → ftable s !! j1 = Some f1 →
  KP (set_ftable (<[j1 := mkFile FD_PIPE (f_ref f1) false true p (f_ip f1) (f_off f1)]>
       (<[j0 := mkFile FD_PIPE (f_ref f0) true false p (f_ip f0) (f_off f0)]> (ftable s)))
     (set_pipes (<[p := pipe_init d]> (pipes s)) (set_mem m' s))) X [] n (j0 :: j1 :: D) [] l.
Proof.
  intros [(HA & HF & _) Hl] Hne HP HF' Hf0 Hf1. split; [|done].
  assert (∀ j f, j ∈ [j1; j0] → ftable s !! j = Some f → f_type f = FD_NONE) as Hraw.
  { intros j f Hj Hf. destruct (decide (f_type f = FD_NONE)) as [|Hnn]; [done|]. by apply (fl_type _ _ _ HF j f Hf) in Hnn as [_ []]. }
  pose proof (Hraw j0 f0 ltac:(set_solver) Hf0) as E0. pose proof (Hraw j1 f1 ltac:(set_solver) Hf1) as E1.
  assert (∀ f, f_type f = FD_NONE → inode_of f = [] ∧ end_of f = None) as Hnone.
  { intros f E. unfold inode_of, end_of. by rewrite E. }
  unfold KF. cbn [fs ftable pipes mem set_ftable set_mem set_pipes]. split; [|split].
  - rewrite (file_inodes_same _ j1 f1); [|by rewrite list_lookup_insert_ne|by rewrite (proj1 (Hnone f1 E1))].
    rewrite (file_inodes_same _ j0 f0); [done|done|by rewrite (proj1 (Hnone f0 E0))].
  - apply (FilesOk_perm _ (j1 :: j0 :: D)); [apply Permutation_swap|].
    apply (FilesOk_typed _ _ [j1] [] _ f1); [|done|by rewrite list_lookup_insert_ne|done|done].
    apply (FilesOk_typed _ _ [j1; j0] [j1] _ f0); [done|apply Permutation_swap|done|done|done].
  - eexists _, fl. rewrite !ends_insert. eapply PipesOk_new; [done|done| | |done].
    + rewrite (ends_lookup _ _ f0) by done. by rewrite (proj2 (Hnone f0 E0)).
    + rewrite (ends_lookup _ _ f1) by done. by rewrite (proj2 (Hnone f1 E1)).
Qed.

Lemma pipealloc_spec s X n D l : 0 < kend → KP s X [] n D [] l →
  wlp (pipealloc kend) s (λ r s', match r with None => KP s' X [] n D [] l | Some (j0, j1) => KP s' X [] n (j0 :: j1 :: D) [] l end).
Proof.
  intros Hk HK. unfold pipealloc. wlp_steps. wlp_call filealloc_spec; [done|]. intros [j0|] s0; [intros [Hj0 HK0]|intros HK0].
  2: { unfold pipealloc_bad. rewrite decide_False by lia. by wlp_steps. }
  wlp_steps. wlp_call filealloc_spec; [done|]. intros [j1|] s1; [intros [Hj1 HK1]|intros HK1].
  2: { unfold pipealloc_bad. rewrite decide_False by lia. wlp_steps. wlp_call fileclose_raw_spec; [done|]. intros _ s2 HK2. by wlp_steps. }
  assert (j1 ≠ j0) as Hne by set_solver. wlp_steps. unfold in_mem. wlp_steps. destruct (HK1) as [(HA & HF & ps & fl & HP) Hl].
  apply wp_wlp. eapply wp_mono; [apply (kalloc_spec kend (mem s1) fl Hk (pi_free _ _ _ _ _ _ HP))|]. cbn beta. intros p m' (_ & _ & Hp).
  destruct fl as [|v fl]; destruct Hp as [-> HF'].
  { rewrite decide_True by done. unfold pipealloc_bad. rewrite decide_False by lia. wlp_steps.
    assert (KP (set_mem m' s1) X [] n (j1 :: j0 :: D) [j1; j0] l) as HK2%KP_raw_swap.
    { split; [|done]. split; [done|]. split; [done|]. exists ps, []. destruct HP. by split. }
    wlp_call fileclose_raw_spec; [done|]. intros _ s2 HK3. wlp_steps. wlp_call fileclose_raw_spec; [done|]. intros _ s3 HK4. by wlp_steps. }
  rewrite decide_False by (destruct (fr_page _ _ _ (pi_free _ _ _ _ _ _ HP) v ltac:(by constructor)) as (_ & ? & _); lia). wlp_steps.
  destruct (FilesOk_lookup _ _ _ j0 HF) as (f0 & Hf0 & _); [set_solver|].
  destruct (FilesOk_lookup _ _ _ j1 HF) as (f1 & Hf1 & _); [set_solver|].
  apply (wlp_setf _ _ _ f0); [done|]. wlp_steps. apply (wlp_setf _ _ _ f1); [cbn; by rewrite list_lookup_insert_ne|]. wlp_steps.
  by apply (pipe_install s1 X n D l j0 j1 v fl ps m' f0 f1).
Qed.
End Files.
