(* ===== verification/FileProps.v ===== *)
(** * What reading and writing an open file does (file.c)

    [filewrite] splits a write into transactions; together they write the
    whole range, as [fileread] reads it back. *)

From S2P Require Import Prelude Spinlock CString Kalloc Ring Pipe Layout Fs FsBlocks FsInode FsFile File FsAcct.

Local Open Scope Z_scope.

(** What is known of a file depends on the blocks, the superblock, and the
    size and addresses in its inode. *)
Section Ext.
Context (d : Z) (s s' : fsst) (x x' : inode).
Context (Eb : blk s' = blk s) (Es : sb s' = sb s) (Ed : i_dev x' = i_dev x) (Ea : i_addrs x' = i_addrs x) (Ez : i_size x' = i_size x).

Lemma slot_ext k : slot d s' x' k = slot d s x k.
Proof. unfold slot. by rewrite Eb, Ea. Qed.
Lemma byte_ext p : byte d s' x' p = byte d s x p.
Proof. unfold byte. by rewrite slot_ext, Eb. Qed.
Lemma in_use_ext b : in_use d s' b = in_use d s b.
Proof. unfold in_use. by rewrite Eb, Es. Qed.
Lemma FileOk_ext : FileOk d s x → FileOk d s' x'.
Proof.
  intros [H1 H2 H3 H4 H5]. split; [by rewrite Ed|by rewrite Ea|by rewrite Ez| |].
  - intros k. rewrite slot_ext, Es, in_use_ext. apply H4.
  - intros k k'. rewrite !slot_ext. apply H5.
Qed.
Lemma no_holes_ext : no_holes d s x → no_holes d s' x'.
Proof. intros Hh p. rewrite Ez, slot_ext. apply Hh. Qed.
Lemma owned_ext b : owned d s' x' b ↔ owned d s x b.
Proof. unfold owned. split; intros (H & k & Hk); split; try done; exists k; [rewrite <- slot_ext|rewrite slot_ext]; done. Qed.
Lemma disk_inode_ext n : disk_inode d s' n = disk_inode d s n.
Proof. unfold disk_inode. by rewrite Eb, Es. Qed.
Lemma FInv_ext : length (icache s') = NINODE → 1 ≤ outstanding s' → FInv d s → FInv d s'.
Proof. intros Hl Ho [H1 H2 H3 H4 H5 H6]. split; rewrite ?Es, ?Eb; try done. intros b. rewrite in_use_ext. apply H4. Qed.
End Ext.

(** The file system between transactions, with the inode [i] of a file in use
    that nobody has locked. *)
Record FReady (d : Z) (s : fsst) (i : nat) (x : inode) : Prop := {
  fr_inv : FInv d (set_outstanding 1 s);
  fr_idle : outstanding s = 0;
  fr_log : logged s = [];
  fr_file : FileOk d s x;
  fr_holes : no_holes d s x;
  fr_sync : synced d s x;
  fr_in : icache s !! i = Some x;
  fr_flags : i_busy x = false ∧ i_valid x = true ∧ 1 ≤ i_ref x;
  fr_type : i_type x ≠ T_DEV;
  fr_inum : 0 ≤ i_inum x < sb_ninodes (sb s);
  fr_dinode : DinodeOk (dinode_of x)
}.

Lemma wpp_wlp {S A} ok (m : M S A) s (P Q : A → S → Prop) : wpp ok m s P → wlp m s Q → wpp ok m s (λ a s', P a s' ∧ Q a s').
Proof. unfold wpp, wlp. by destruct (m s). Qed.

Section Rounds.
Context `{Devices} (d : Z).
#[local] Notation ok := (λ m, m = TOO_BIG ∨ m = NO_BLOCKS).

Lemma writei_tame i src off n s x : icache s !! i = Some x → i_type x ≠ T_DEV → wlp (writei i src off n) s (λ _ s', acct s' = acct s).
Proof.
  intros Hx Ht. unfold writei, geti. wlp_steps. simplify_eq. rewrite decide_False by done. repeat (wlp_if; [done|]).
  match goal with |- wlp (writei_loop ?f ?i ?l ?o ?r) _ _ => eapply wlp_mono; [apply (tame_writei_loop f i l o r)|] end. cbn beta. intros o1 s1 E1.
  wlp_steps. eapply (wlp_mono _ _ (λ _ s', acct s' = acct s1)); [|intros _ s2 E2; wlp_steps; congruence].
  match goal with |- wlp ?m _ _ => assert (tame m) as Ht' by tames end. apply Ht'.
Qed.

(** The file locked, inside a transaction. *)
Definition locked_fs (s : fsst) (i : nat) (x : inode) : fsst :=
  set_icache (<[i := set_i_flags true true x]> (icache s)) (set_outstanding 1 s).

Lemma begin_ready s i x : FReady d s i x → begin_op s = Ret tt (set_outstanding 1 s).
Proof. intros HR. unfold begin_op, gets, mbind, M_bind. unfold id. rewrite (fr_log _ _ _ _ HR), (fr_idle _ _ _ _ HR). by rewrite decide_False by by vm_compute. Qed.
Lemma ilock_ready s i x n : FReady d s i x → ilock i (set_outstanding n s) = Ret tt (set_icache (<[i := set_i_flags true true x]> (icache s)) (set_outstanding n s)).
Proof.
  intros HR. destruct (fr_flags _ _ _ _ HR) as (Hb & Hv & Hr). unfold ilock, geti, mbind, M_bind. unfold lookupM at 1. cbn [icache set_outstanding].
  rewrite (fr_in _ _ _ _ HR). rewrite decide_False by lia. rewrite Hb, (seti_Ret _ _ _ x) by apply (fr_in _ _ _ _ HR). by rewrite Hv.
Qed.

Lemma locked_pre s i x : FReady d s i x → let s1 := locked_fs s i x in let x1 := set_i_flags true true x in
  FInv d s1 ∧ FileOk d s1 x1 ∧ no_holes d s1 x1 ∧ synced d s1 x1 ∧ icache s1 !! i = Some x1.
Proof.
  intros HR. cbn zeta. destruct (HR) as [HF _ _ HO Hh Hs Hx _ _ _ _]. pose proof (lookup_lt_Some _ _ _ Hx) as Hlt. split; [|split; [|split; [|split]]].
  - eapply FInv_ext; [..|exact HF]; [done|done|unfold locked_fs; cbn; rewrite length_insert; apply HF|done].
  - by apply (FileOk_ext d s _ x).
  - by apply (no_holes_ext d s _ x).
  - unfold synced. by rewrite (disk_inode_ext d s).
  - by apply list_lookup_insert_eq.
Qed.

(** One transaction of a write. *)
Record round (s : fsst) (i : nat) (x : inode) (o : nat) (src : list Z) (s' : fsst) (x' : inode) : Prop := {
  ro_ready : FReady d s' i x';
  ro_size : i_size x' = Z.max (i_size x) (Z.of_nat (o + length src));
  ro_byte p : (p < MAXFILE * BSIZE)%nat → byte d s' x' p = overwrite (byte d s x) o src p;
  ro_inode n : 0 ≤ n < sb_ninodes (sb s) → n ≠ i_inum x → disk_inode d s' n = disk_inode d s n;
  ro_other y : FileOk d s y → disjoint d s x y →
    FileOk d s' y ∧ disjoint d s' x' y ∧ ∀ p, (p < MAXFILE * BSIZE)%nat → byte d s' y p = byte d s y p;
  ro_ident : i_inum x' = i_inum x ∧ sb s' = sb s
}.

(** What [iunlock] and [end_op] leave after the write. *)
Definition unlocked_fs (s : fsst) (i : nat) (x : inode) : fsst :=
  set_logged [] (set_outstanding 0 (set_icache (<[i := set_i_flags false true x]> (icache s)) s)).

Lemma round_written s i x o src s2 x2 : FReady d s i x →
  written d i (locked_fs s i x) (set_i_flags true true x) o src s2 x2 → outstanding s2 = 1 → (o + length src ≤ MAXFILE * BSIZE)%nat →
  round s i x o src (unlocked_fs s2 i x2) (set_i_flags false true x2).
Proof.
  intros HR HW Ho Hmax. destruct (HR) as [HF Hi Hl HO Hh Hs Hx (Hb & Hv & Hr) Ht Hn Hdi]. destruct HW as [C1 F1 O1 H1 S1 A1 B1 I1 Y1 E1].
  set (x3 := set_i_flags false true x2). set (s3 := unlocked_fs s2 i x2). pose proof maxfile_bytes as Emax. pose proof (fo_size _ _ _ HO) as Hsz.
  assert (i_inum x2 = i_inum x ∧ i_type x2 = i_type x ∧ i_ref x2 = i_ref x) as (Ein & Ety & Eref) by (rewrite A1; done).
  assert (i_size x2 = Z.max (i_size x) (Z.of_nat (o + length src))) as Esz by (rewrite A1; done).
  assert (length (icache s3) = NINODE) as Hlen by (cbn; rewrite length_insert; apply F1).
  split.
  - split.
    + eapply (FInv_ext d s2); [done|done|exact Hlen|done|done].
    + done.
    + done.
    + by apply (FileOk_ext d s2 _ x2).
    + by apply (no_holes_ext d s2 _ x2).
    + unfold synced in *. by rewrite (disk_inode_ext d s2).
    + cbn. rewrite C1, list_insert_insert_eq. apply list_lookup_insert_eq. cbn. rewrite length_insert. by eapply lookup_lt_Some.
    + cbn. split; [done|]. split; [done|]. by rewrite Eref.
    + cbn. by rewrite Ety.
    + cbn. rewrite Ein, E1. exact Hn.
    + apply (DinodeOk_file d s2 (set_i_flags true true x) x2); [done|done|exact Hdi|by rewrite Esz].
  - exact Esz.
  - intros p Hp. rewrite (byte_ext d s2 s3 x2 x3) by done. rewrite B1 by done. unfold overwrite. case_decide; [done|]. by apply (byte_ext d s _ x).
  - intros n Hnr Hne. rewrite (disk_inode_ext d s2) by done. rewrite I1 by done. by apply disk_inode_ext.
  - intros y Hy Hdis. destruct (Y1 y) as (Y2 & Y3 & Y4); [by apply (FileOk_ext d s _ y)| |].
    { intros b Hb1 Hb2. apply (Hdis b); [by apply (owned_ext d s (locked_fs s i x) x (set_i_flags true true x))|by apply (owned_ext d s (locked_fs s i x) y y)]. }
    split; [by apply (FileOk_ext d s2 _ y)|]. split.
    + intros b Hb1 Hb2. apply (Y3 b); [by apply (owned_ext d s2 s3 x2 x3)|by apply (owned_ext d s2 s3 y y)].
    + intros p Hp. rewrite (byte_ext d s2 s3 y y) by done. rewrite Y4 by done. by apply (byte_ext d s _ y).
  - split; [done|]. cbn. by rewrite E1.
Qed.

Lemma round_refl s i x o : FReady d s i x → Z.of_nat o ≤ i_size x → round s i x o [] s x.
Proof.
  intros HR Ho. split; try done.
  - cbn [length]. lia.
  - intros p Hp. unfold overwrite. by rewrite decide_False by (cbn [length]; lia).
Qed.
Lemma round_trans s i x o l1 s1 x1 l2 s2 x2 :
  round s i x o l1 s1 x1 → round s1 i x1 (o + length l1) l2 s2 x2 → (o + length l1 ≤ MAXFILE * BSIZE)%nat → round s i x o (l1 ++ l2) s2 x2.
Proof.
  intros [R1 S1 B1 I1 Y1 [N1 E1]] [R2 S2 B2 I2 Y2 [N2 E2]] Hm. split.
  - done.
  - rewrite S2, S1, length_app. lia.
  - intros p Hp. rewrite B2, <- overwrite_app by done. unfold overwrite at 1 2. case_decide; [done|by apply B1].
  - intros n Hn Hne. rewrite I2; [by apply I1|by rewrite E1|by rewrite N1].
  - intros y Hy Hd. destruct (Y1 y Hy Hd) as (Ha & Hb & Hc). destruct (Y2 y Ha Hb) as (Ha' & Hb' & Hc').
    split; [done|]. split; [done|]. intros p Hp. by rewrite Hc', Hc.
  - by rewrite N2, N1, E2, E1.
Qed.

(** One turn of the loop of [filewrite]. *)
Lemma write_round s i x o src (Q : Z → fsst → Prop) : FReady d s i x → Z.of_nat o ≤ i_size x → (o + length src ≤ MAXFILE * BSIZE)%nat →
  (∀ s2 x2, written d i (locked_fs s i x) (set_i_flags true true x) o src s2 x2 → outstanding s2 = 1 →
    round s i x o src (unlocked_fs s2 i x2) (set_i_flags false true x2) → Q (Z.of_nat (length src)) s2) →
  wpp ok (writei i src (Z.of_nat o) (Z.of_nat (length src))) (locked_fs s i x) Q.
Proof.
  intros HR Ho Hm HQ. destruct (locked_pre s i x HR) as (F1 & O1 & H1 & S1 & C1). destruct (HR) as [_ _ _ _ _ _ _ _ Ht Hn Hdi].
  eapply wpp_mono; [eapply wpp_wlp; [apply (writei_spec d ok (or_introl eq_refl) (or_intror eq_refl) i _ (set_i_flags true true x)); try done|by eapply writei_tame]|].
  cbn beta. intros r s2 [(-> & x2 & HW) (_ & _ & E)%acct_parts]. apply (HQ s2 x2); [done|done|]. by apply round_written.
Qed.

Lemma iunlock_written s i x o src s2 x2 : FReady d s i x → written d i (locked_fs s i x) (set_i_flags true true x) o src s2 x2 →
  iunlock i s2 = Ret tt (set_icache (<[i := set_i_flags false true x2]> (icache s2)) s2).
Proof.
  intros HR HW. destruct (fr_flags _ _ _ _ HR) as (_ & _ & Hr). pose proof (lookup_lt_Some _ _ _ (fr_in _ _ _ _ HR)) as Hlt.
  pose proof (w_attr _ _ _ _ _ _ _ _ HW) as EA. assert (i_busy x2 = true ∧ i_ref x2 = i_ref x ∧ i_valid x2 = true) as (Eb & Er & Ev) by (rewrite EA; done).
  assert (icache s2 !! i = Some x2) as Hx2.
  { rewrite (w_cache _ _ _ _ _ _ _ _ HW). apply list_lookup_insert_eq. cbn. by rewrite length_insert. }
  unfold iunlock, geti, mbind, M_bind. unfold lookupM at 1. rewrite Hx2. rewrite decide_False by (rewrite Eb, Er; intros [?|?]; [done|lia]).
  rewrite (seti_Ret _ _ _ x2) by done. by rewrite Ev.
Qed.

Lemma wpp_Ret {S A} (m : M S A) s a s' (Q : A → S → Prop) : m s = Ret a s' → Q a s' → wpp ok m s Q.
Proof. unfold wpp. by intros ->. Qed.

Section Loop.
Context (j i : nat) (n : Z).

Lemma filewrite_loop_writes : ∀ fuel src k s f x o,
  ftable s !! j = Some f → f_ip f = i → f_off f = Z.of_nat o → FReady d (fs s) i x → Z.of_nat o ≤ i_size x →
  0 ≤ k ≤ n → n - k ≤ Z.of_nat fuel → n - k ≤ Z.of_nat (length src) → Z.of_nat o + (n - k) ≤ Z.of_nat (MAXFILE * BSIZE) →
  wpp ok (filewrite_loop fuel j src k n) s (λ r s', r = n ∧ ∃ x',
    round (fs s) i x o (take (Z.to_nat (n - k)) src) (fs s') x' ∧
    s' = set_ftable (<[j := set_f_off (Z.of_nat o + (n - k)) f]> (ftable s)) (set_fs (fs s') s)).
Proof.
  induction fuel as [|fuel IH]; intros src k s f x o Hf Hi Hoff HR Ho Hk Hfu Hlen Hmax; cbn [filewrite_loop]; pose proof maxfile_bytes as Emax.
  all: destruct (decide (k < n)) as [Hlt|Hge]; [|assert (n = k) as -> by lia; wp_steps; split; [done|]; exists x; rewrite Z.sub_diag, Z.add_0_r, <- Hoff;
    (split; [by apply round_refl|]); rewrite list_insert_id; [by destruct s|by destruct f]]; try lia.
  set (n1 := if decide (max_write < n - k) then max_write else n - k).
  assert (0 < n1 ≤ n - k) as Hn1 by (unfold n1; change max_write with 6656; case_decide; lia).
  set (src1 := take (Z.to_nat n1) src). assert (Z.of_nat (length src1) = n1) as El by (unfold src1; rewrite length_take; lia).
  unfold in_fs, getf. wp_steps. eapply wpp_Ret; [by eapply begin_ready|]. wp_steps. cbn [ftable set_fs fs]. eapply wpp_lookupM; [exact Hf|]. wp_steps.
  cbn [fs set_fs]. rewrite Hi, Hoff. eapply wpp_Ret; [by eapply ilock_ready|]. wp_steps. cbn [fs set_fs]. fold (locked_fs (fs s) i x). rewrite <- El at 1.
  apply (write_round (fs s) i x o src1); [done|done|lia|]. intros s2 x2 HW Hs2 Hrd. rewrite El. wp_steps.
  rewrite decide_True by lia. unfold setf, getf. wp_steps. cbn [ftable set_fs]. eapply wpp_lookupM; [exact Hf|]. wp_steps. cbn [fs set_fs set_ftable].
  eapply wpp_Ret; [by eapply iunlock_written|]. wp_steps. unfold end_op. wp_steps. cbn [fs set_fs set_ftable outstanding set_outstanding set_icache]. unfold id.
  cbn [outstanding set_outstanding set_icache]. rewrite Hs2. rewrite decide_True by done. wp_steps. rewrite decide_False by lia. rewrite decide_False by tauto.
  set (f1 := set_f_off _ f). assert (f_off f1 = Z.of_nat (o + length src1)) as Hoff1.
  { unfold f1. cbn. rewrite Hoff, u32_small; [lia|unfold is_u32; lia]. }
  match goal with |- wpp _ _ ?s' _ => set (s3 := s') end. assert (fs s3 = unlocked_fs s2 i x2) as Es3 by reflexivity. pose proof (lookup_lt_Some _ _ _ Hf) as Hlt'.
  eapply wpp_mono; [apply (IH (drop (Z.to_nat n1) src) (k + n1) s3 f1 (set_i_flags false true x2) (o + length src1)%nat);
    [by apply list_lookup_insert_eq|exact Hi|exact Hoff1|rewrite Es3; apply Hrd|rewrite (ro_size _ _ _ _ _ _ _ Hrd); lia|lia|lia|rewrite length_drop; lia|lia]|].
  cbn beta. intros r s' [-> (x' & HR' & Es)]. split; [done|]. exists x'. split.
  - replace (take (Z.to_nat (n - k)) src) with (src1 ++ take (Z.to_nat (n - (k + n1))) (drop (Z.to_nat n1) src)).
    { eapply round_trans; [exact Hrd|exact HR'|lia]. }
    unfold src1. rewrite take_take_drop. f_equal. lia.
  - rewrite Es at 1. unfold s3, f1. cbn [ftable set_fs set_ftable fs]. rewrite list_insert_insert_eq.
    unfold set_ftable, set_fs. cbn [fs ftable pipes mem pfds]. f_equal. f_equal. unfold set_f_off. cbn. f_equal. lia.
Qed.
End Loop.
End Rounds.

Section Claims.
Context `{Devices} (d : Z).

(** The file is open on the inode [i], at offset [o]. *)
Definition open_at (s : kfs) (j : nat) (f : file) (i o : nat) : Prop :=
  ftable s !! j = Some f ∧ f_type f = FD_INODE ∧ f_ip f = i ∧ f_off f = Z.of_nat o.

Lemma setf_Ret j g s f : ftable s !! j = Some f → setf j g s = Ret tt (set_ftable (<[j := g f]> (ftable s)) s).
Proof. intros E. unfold setf, getf, mbind, M_bind, lookupM. by rewrite E. Qed.

Lemma fileread_reads killed s j f i x o n :
  open_at s j f i o → f_readable f = true → FReady d (fs s) i x → Z.of_nat o ≤ i_size x → 0 ≤ n < 2 ^ 31 →
  let r := read_len (i_size x) (Z.of_nat o) n in
  fileread killed j n s = Ret (PRet r, byte d (fs s) x <$> seq o (Z.to_nat r)) (set_ftable (<[j := set_f_off (Z.of_nat o + r) f]> (ftable s)) s).
Proof.
  intros (Hf & Ht & Hi & Hoff) Hrd HR Ho Hn r. destruct (HR) as [HF _ _ HO Hh _ Hx (Hb & Hv & Href) Hty _ _].
  pose proof (fo_size _ _ _ HO) as Hsz. pose proof maxfile_bytes as Emax. assert (0 ≤ r ≤ i_size x - Z.of_nat o) as Hr by (unfold r, read_len; lia).
  set (s1 := set_icache (<[i := set_i_flags true true x]> (icache (fs s))) (fs s)). set (x1 := set_i_flags true true x).
  pose proof (lookup_lt_Some _ _ _ Hx) as Hlt.
  assert (ilock i (fs s) = Ret tt s1) as E1.
  { pose proof (ilock_ready d (fs s) i x (outstanding (fs s)) HR) as E. unfold s1. by destruct (fs s). }
  assert (readi i (Z.of_nat o) (u32 n) s1 = Ret (r, byte d (fs s) x <$> seq o (Z.to_nat r)) s1) as E2.
  { rewrite (readi_idle d i s1 x1); [|eapply FInv_ext; [..|exact HF]; [done|done|unfold s1; cbn; rewrite length_insert; apply HF|done]
      |by apply (FileOk_ext d (fs s) s1 x)|by apply (no_holes_ext d (fs s) s1 x)|by apply list_lookup_insert_eq|done|unfold is_u32; lia|apply u32_range].
    rewrite u32_small by (unfold is_u32; lia). rewrite decide_False by (cbn; lia). rewrite Nat2Z.id. done. }
  assert (iunlock i s1 = Ret tt (fs s)) as E3.
  { unfold iunlock, geti, mbind, M_bind. unfold lookupM at 1. assert (icache s1 !! i = Some x1) as Hx1 by by apply list_lookup_insert_eq. rewrite Hx1.
    rewrite decide_False by (cbn; intros [?|?]; [done|lia]). rewrite (seti_Ret _ _ _ x1) by done. unfold s1. cbn [icache set_icache]. rewrite list_insert_insert_eq, list_insert_id; [by destruct (fs s)|].
    rewrite Hx. f_equal. unfold x1, set_i_flags. cbn. rewrite <- Hb, <- Hv. by destruct x. }
  unfold fileread, getf, in_fs, zoom, mbind, M_bind. unfold lookupM at 1. rewrite Hf, Hrd. cbn [negb]. rewrite decide_False by (rewrite Ht; done). rewrite decide_True by done.
  rewrite Hi, Hoff, E1. cbn [fs set_fs]. rewrite E2. cbn [fst snd].
  destruct (decide (0 < r)); [rewrite (setf_Ret _ _ _ f) by exact Hf|unfold mret, M_ret]; cbn [fs set_fs set_ftable]; rewrite E3.
  - cbn [ftable set_fs set_ftable]. rewrite Hoff, (u32_small (Z.of_nat o + r)) by (unfold is_u32; lia). by destruct s.
  - assert (r = 0) as -> by lia. rewrite Z.add_0_r, <- Hoff. rewrite list_insert_id; [by destruct s|]. rewrite Hf. by destruct f.
Qed.

End Claims.

(** ** Instances *)

#[local] Instance no_devs : Devices := {| dev_read := λ _, None; dev_write := λ _, None |}.

(** An empty file, open for reading and for writing. *)
Definition idle7 : inode := set_i_flags false true inode7.
Definition idle_fs : fsst := mkFs (blk empty_fs) (<[3%nat := idle7]> (icache empty_fs)) (sb empty_fs) [] 0.
Lemma idle_ready : FReady 1 idle_fs 3 idle7.
Proof.
  destruct (empty_FileOk 1 empty_fs inode7 eq_refl eq_refl eq_refl) as [HO Hh]. split; [|reflexivity|reflexivity| | | |reflexivity| | | |].
  - eapply (FInv_ext 1 empty_fs); [reflexivity|reflexivity|reflexivity|cbn; lia|exact empty_FInv].
  - by apply (FileOk_ext 1 empty_fs _ inode7).
  - by apply (no_holes_ext 1 empty_fs _ inode7).
  - unfold synced. rewrite (disk_inode_ext 1 empty_fs) by reflexivity. unfold empty_fs.
    rewrite disk_inode_updated; [by rewrite decide_True|exact fs7_FInv|exact inode7_ok].
  - split; [reflexivity|]. split; [reflexivity|]. cbn. lia.
  - discriminate.
  - cbn. lia.
  - exact inode7_ok.
Qed.
Definition idle_kfs : kfs :=
  mkKfs idle_fs [mkFile FD_INODE 1 true true 0 3 0; mkFile FD_INODE 1 true false 0 3 0] (λ _, pipe_init []) kmem0 [].


(** One transaction of [filewrite] logs more blocks than the MAXOPBLOCKS that
    [begin_op] reserves for it: 13 blocks of data, the bitmap, the indirect
    block and the inode. *)
Lemma filewrite_outgrows_reservation :
  match (begin_op;; ilock 3;; writei 3 (replicate 6656 1) 0 6656) idle_fs with
  | Ret r s' => r = max_write ∧ outstanding s' = 1 ∧ MAXOPBLOCKS < Z.of_nat (length (logged s'))
  | _ => False
  end.
Proof. vm_compute. repeat split. Qed.
