(* ===== verification/SysfileAcct.v ===== *)
(** * File-system calls balance their accounts (sysfile.c, file.c)

    Every path through every call gives back the inode references and locks it
    took and ends the transaction it began. *)

From S2P Require Import Prelude Spinlock CString Kalloc Ring Pipe Layout Fs FsBlocks FsInode Syscall File Sysfile FsAcct.

Local Open Scope Z_scope.

(** ** Fetching arguments changes nothing *)

Section Args.
Context {S : Type} (u : uspace).

Lemma fetchint_pure a (s : S) : wlp (fetchint u a) s (λ _ s', s' = s).
Proof. unfold fetchint, user_int. destruct (decide _); by wlp_steps. Qed.
Lemma fetchstr_loop_pure pp (s : S) : ∀ fuel a, wlp (fetchstr_loop u fuel pp a) s (λ _ s', s' = s).
Proof.
  induction fuel as [|f IH]; intros a; cbn [fetchstr_loop]; unfold user_byte; (destruct (decide (a < _)); wlp_steps; try reflexivity).
  wlp_if; [done|apply IH].
Qed.
Lemma argint_pure n (s : S) : wlp (argint u n) s (λ _ s', s' = s).
Proof. apply fetchint_pure. Qed.
Lemma argptr_pure n size (s : S) : wlp (argptr u n size) s (λ _ s', s' = s).
Proof.
  unfold argptr. wlp_steps. wlp_call argint_pure. intros [i|] s' ->; [|by wlp_steps]. destruct (decide _); by wlp_steps.
Qed.
Lemma argstr_pure n (s : S) : wlp (argstr u n) s (λ _ s', s' = s).
Proof.
  unfold argstr. wlp_steps. wlp_call argint_pure. intros [a|] s' ->; [|by wlp_steps]. unfold fetchstr. destruct (decide _); wlp_steps; [done|].
  wlp_call fetchstr_loop_pure. intros [n'|] s' ->; by wlp_steps.
Qed.
End Args.

(** Continue only where an argument was fetched; the rest of the goals are the
    calls that return at once. *)
Tactic Notation "arg" uconstr(lem) := wlp_call lem; let r := fresh "r" in let E := fresh in intros r ? E; subst; destruct r as [r|]; [wlp_steps|try by wlp_steps].

Section Paths.
Context `{DevicesOk} (u : uspace) (name0 : list Z) (cwd : nat).

Lemma finish_acc (r : Z) s G L k : Acc s G L k → wlp (end_op;; mret r) s (λ _ s', Acc s' G L (k - 1)).
Proof. intros HA. wlp_steps. wlp_call end_op_acc; [done|]. intros _ s' HA'. by wlp_steps. Qed.

Lemma link_bad_acc ip s G : Acc s (ip :: G) [] 1 → wlp (link_bad ip) s (λ _ s', Acc s' G [] 0).
Proof.
  intros HA. unfold link_bad. wlp_steps. wlp_call ilock_acc; [by constructor|done|]. intros _ s1 [_ HA1]. wlp_steps.
  wlp_call (tame_acc (seti ip _)); [tames|done|]. intros _ s2 HA2. wlp_steps.
  wlp_call (tame_acc (iupdate ip)); [tames|done|]. intros _ s3 HA3. wlp_steps.
  wlp_call iunlockput_acc; [done|]. intros _ s4 HA4. by apply (finish_acc (-1)) in HA4.
Qed.

Lemma sys_link_acc s G : cwd ∈ G → Acc s G [] 0 → wlp (sys_link u name0 cwd) s (λ _ s', Acc s' G [] 0).
Proof.
  intros Hc HA. unfold sys_link. wlp_steps. arg argstr_pure. arg argstr_pure.
  wlp_call begin_op_acc; [done|]. intros _ s1 HA1. wlp_steps. wlp_call namei_acc; [done|done|]. intros [ip|] s2 HA2; [|by apply (finish_acc (-1)) in HA2].
  wlp_steps. wlp_call ilock_acc; [by constructor|done|]. intros _ s3 [_ HA3]. wlp_steps. unfold geti. wlp_steps. destruct (decide _); wlp_steps.
  { wlp_call iunlockput_acc; [done|]. intros _ s4 HA4. by apply (finish_acc (-1)) in HA4. }
  wlp_call (tame_acc (seti ip _)); [tames|done|]. intros _ s4 HA4. wlp_steps.
  wlp_call (tame_acc (iupdate ip)); [tames|done|]. intros _ s5 HA5. wlp_steps.
  wlp_call iunlock_acc; [done|]. intros _ s6 HA6. wlp_steps.
  wlp_call namex_acc; [|done|]; [by constructor|]. intros [[dp|] nm] s7 HA7; cbn [fst snd] in *; [|by apply link_bad_acc].
  wlp_steps. wlp_call ilock_acc; [by constructor|done|]. intros _ s8 [_ HA8]. wlp_steps.
  eapply (wlp_mono _ _ (λ _ s', Acc s' (dp :: ip :: G) [dp] 1)).
  { destruct (decide _); [by wlp_steps|]. apply dirlink_acc; [by constructor|done]. }
  intros ok s9 HA9. destruct (decide _); wlp_steps; (wlp_call iunlockput_acc; [done|]); intros _ s10 HA10; [by apply link_bad_acc|].
  wlp_steps. wlp_call (iput_acc ip s10 G []); [set_solver|done|]. intros _ s11 HA11. by apply (finish_acc 0) in HA11.
Qed.

Lemma isdirempty_acc dp s G L k : dp ∈ L → Acc s G L k → wlp (isdirempty dp) s (λ _ s', Acc s' G L k).
Proof.
  intros Hd HA. unfold isdirempty, geti. wlp_steps. match goal with |- wlp (isdirempty_loop ?f _ ?o) _ _ => generalize f, o end.
  intros f. clear -Hd HA H0. revert s HA. induction f as [|f IH]; intros s HA off; cbn [isdirempty_loop]; unfold geti; wlp_steps;
    (destruct (decide (off < _)); wlp_steps; try exact HA).
  wlp_call readi_acc; [done|done|]. intros r s1 HA1. destruct (decide _); wlp_steps. destruct (decide _); [by wlp_steps|by apply IH].
Qed.

Lemma unlink_bad_acc dp s G : Acc s (dp :: G) [dp] 1 → wlp (unlink_bad dp) s (λ _ s', Acc s' G [] 0).
Proof.
  intros HA. unfold unlink_bad. wlp_steps. wlp_call iunlockput_acc; [done|]. intros _ s1 HA1. by apply (finish_acc (-1)) in HA1.
Qed.

Lemma sys_unlink_acc s G : cwd ∈ G → Acc s G [] 0 → wlp (sys_unlink u name0 cwd) s (λ _ s', Acc s' G [] 0).
Proof.
  intros Hc HA. unfold sys_unlink. wlp_steps. arg argstr_pure.
  wlp_call begin_op_acc; [done|]. intros _ s1 HA1. wlp_steps.
  wlp_call namex_acc; [done|done|]. intros [[dp|] nm] s2 HA2; cbn [fst snd] in *; [|by apply (finish_acc (-1)) in HA2].
  wlp_steps. wlp_call ilock_acc; [by constructor|done|]. intros _ s3 [_ HA3]. wlp_steps. destruct (decide _); [by apply unlink_bad_acc|]. wlp_steps.
  wlp_call dirlookup_acc; [by constructor|done|]. intros [[ip off]|] s4 HA4; [|by apply unlink_bad_acc]. wlp_steps.
  wlp_call ilock_acc; [by constructor|done|]. intros _ s5 [_ HA5]. wlp_steps. unfold geti. wlp_steps. destruct (decide _); wlp_steps.
  eapply (wlp_mono _ _ (λ _ s', Acc s' (ip :: dp :: G) [ip; dp] 1)).
  { destruct (decide _); wlp_steps; [|done]. wlp_call isdirempty_acc; [|done|]; [by constructor|]. intros b s6 HA6. by wlp_steps. }
  intros full s6 HA6. destruct full; wlp_steps.
  { wlp_call iunlockput_acc; [done|]. intros _ s7 HA7. by apply unlink_bad_acc. }
  wlp_call writei_acc; [|done|]; [by do 2 constructor|]. intros w s7 HA7. destruct (decide _); wlp_steps.
  rewrite (Permutation_swap dp ip G), (Permutation_swap dp ip []) in HA7.
  eapply (wlp_mono _ _ (λ _ s', Acc s' (dp :: ip :: G) [dp; ip] 1)).
  { destruct (decide _); wlp_steps; [|done].
    wlp_call (tame_acc (seti dp _)); [tames|done|]. intros _ s8 HA8. by apply tame_acc; [tames|]. }
  intros _ s8 HA8. wlp_steps. wlp_call iunlockput_acc; [done|]. intros _ s9 HA9. wlp_steps.
  wlp_call (tame_acc (seti ip _)); [tames|done|]. intros _ s10 HA10. wlp_steps.
  wlp_call (tame_acc (iupdate ip)); [tames|done|]. intros _ s11 HA11. wlp_steps.
  wlp_call iunlockput_acc; [done|]. intros _ s12 HA12. by apply (finish_acc 0) in HA12.
Qed.

(** [create] returns a reference to an inode that it locked. *)
Lemma create_acc path type major minor s G : cwd ∈ G → Acc s G [] 1 →
  wlp (create name0 cwd path type major minor) s
    (λ r s', match r with Some ip => Acc s' (ip :: G) [ip] 1 | None => Acc s' G [] 1 end).
Proof.
  intros Hc HA. unfold create. wlp_steps.
  wlp_call namex_acc; [done|done|]. intros [[dp|] nm] s2 HA2; cbn [fst snd] in *; [|by wlp_steps]. wlp_steps.
  wlp_call ilock_acc; [by constructor|done|]. intros _ s3 [_ HA3]. wlp_steps.
  wlp_call dirlookup_acc; [by constructor|done|]. intros [[ip off]|] s4 HA4; wlp_steps.
  - rewrite (Permutation_swap dp ip) in HA4. wlp_call iunlockput_acc; [done|]. intros _ s5 HA5. wlp_steps.
    wlp_call ilock_acc; [by constructor|done|]. intros _ s6 [_ HA6]. unfold geti. wlp_steps. wlp_if; [done|].
    wlp_call iunlockput_acc; [done|]. intros _ s7 HA7. by wlp_steps.
  - unfold geti. wlp_steps. wlp_call ialloc_acc; [done|]. intros ip s5 HA5. wlp_steps.
    wlp_call ilock_acc; [by constructor|done|]. intros _ s6 [_ HA6]. wlp_steps.
    wlp_call (tame_acc (seti ip _)); [tames|done|]. intros _ s7 HA7. wlp_steps.
    wlp_call (tame_acc (seti ip _)); [tames|done|]. intros _ s8 HA8. wlp_steps.
    wlp_call (tame_acc (iupdate ip)); [tames|done|]. intros _ s9 HA9. wlp_steps.
    eapply (wlp_mono _ _ (λ _ s', Acc s' (ip :: dp :: G) [ip; dp] 1)).
    { wlp_if; [|done]. wlp_call (tame_acc (seti dp _)); [tames|done|]. intros _ s10 HA10. wlp_steps.
      wlp_call (tame_acc (iupdate dp)); [tames|done|]. intros _ s11 HA11. wlp_steps.
      wlp_call dirlink_acc; [|done|]; [by constructor|]. intros r1 s12 HA12. wlp_if.
      wlp_call dirlink_acc; [|done|]; [by constructor|]. intros r2 s13 HA13. by wlp_if. }
    intros _ s10 HA10. wlp_steps. wlp_call dirlink_acc; [|done|]; [by do 2 constructor|]. intros r3 s11 HA11. wlp_if.
    rewrite (Permutation_swap dp ip G), (Permutation_swap dp ip []) in HA11.
    wlp_call iunlockput_acc; [done|]. intros _ s12 HA12. by wlp_steps.
Qed.

Lemma created_acc ip s G : match ip with Some ip => Acc s (ip :: G) [ip] 1 | None => Acc s G [] 1 end →
  wlp (created ip) s (λ _ s', Acc s' G [] 0).
Proof.
  intros HA. unfold created. destruct ip as [ip|]; [|by apply (finish_acc (-1)) in HA].
  wlp_steps. wlp_call iunlockput_acc; [done|]. intros _ s1 HA1. by apply (finish_acc 0) in HA1.
Qed.

Lemma sys_mkdir_acc s G : cwd ∈ G → Acc s G [] 0 → wlp (sys_mkdir u name0 cwd) s (λ _ s', Acc s' G [] 0).
Proof.
  intros Hc HA. unfold sys_mkdir. wlp_steps. wlp_call begin_op_acc; [done|]. intros _ s1 HA1. wlp_steps.
  arg argstr_pure; [|by apply (finish_acc (-1)) in HA1].
  wlp_call create_acc; [done|done|]. intros ip s2 HA2. by apply created_acc.
Qed.

Lemma sys_mknod_acc s G : cwd ∈ G → Acc s G [] 0 → wlp (sys_mknod u name0 cwd) s (λ _ s', Acc s' G [] 0).
Proof.
  intros Hc HA. unfold sys_mknod. wlp_steps. wlp_call begin_op_acc; [done|]. intros _ s1 HA1. wlp_steps.
  arg argstr_pure; [|by apply (finish_acc (-1)) in HA1]. arg argint_pure; [|by apply (finish_acc (-1)) in HA1].
  arg argint_pure; [|by apply (finish_acc (-1)) in HA1].
  wlp_call create_acc; [done|done|]. intros ip s2 HA2. by apply created_acc.
Qed.

Lemma change_acc limit store s G :
  (∀ v x, ident (store v x) = ident x ∧ i_ref (store v x) = i_ref x ∧ i_busy (store v x) = i_busy x) →
  cwd ∈ G → Acc s G [] 0 → wlp (change u limit store cwd) s (λ _ s', Acc s' G [] 0).
Proof.
  intros Hst Hc HA. unfold change. wlp_steps. arg argstr_pure. arg argint_pure. wlp_if; [done|].
  wlp_call begin_op_acc; [done|]. intros _ s1 HA1. wlp_steps. wlp_call namei_acc; [done|done|]. intros [ip|] s2 HA2; [|by apply (finish_acc (-1)) in HA2].
  wlp_steps. wlp_call ilock_acc; [by constructor|done|]. intros _ s3 [_ HA3]. wlp_steps.
  wlp_call (tame_acc (seti ip _)); [by apply tame_seti|done|]. intros _ s4 HA4. wlp_steps.
  wlp_call (tame_acc (iupdate ip)); [tames|done|]. intros _ s5 HA5. wlp_steps.
  wlp_call iunlock_acc; [done|]. intros _ s6 HA6. wlp_steps.
  wlp_call (iput_acc ip s6 G []); [set_solver|done|]. intros _ s7 HA7. by apply (finish_acc 0) in HA7.
Qed.
End Paths.
