(* ===== verification/SysfileProps.v ===== *)
(** * Descriptors, files and inodes across all calls (sysfile.c)

    The calls of all processes, one after the other, and what they leave
    between them: every count of a reference is exact, nothing is locked and no
    transaction is open. *)

From S2P Require Import Prelude Spinlock CString Kalloc Ring Pipe Layout Fs FsBlocks FsInode FsFile Syscall File Sysfile FsAcct SysfileAcct FileAcct.

Local Open Scope Z_scope.

Definition olist {A} (o : option A) : list A := match o with Some x => [x] | None => [] end.
(** The files named by the descriptors of all processes, and the inodes that
    are their working directories. *)
Definition descs (l : list fds) : list nat := l ≫= λ p, ofile p ≫= olist.
Definition cwds (l : list fds) : list nat := l ≫= λ p, olist (cwd p).

(** A process without a working directory is none, and has no files. *)
Definition FdsOk (p : fds) : Prop := length (ofile p) = NOFILE ∧ (cwd p = None → Forall (λ o, o = None) (ofile p)).

(** Between calls. *)
Record BInv (kend : Z) (s : kfs) : Prop := {
  b_acc : KF kend s (cwds (pfds s)) [] 0 (descs (pfds s)) [];
  b_fds : Forall FdsOk (pfds s)
}.

(** ** The lists of references *)

Lemma descs_set l me p fd o : l !! me = Some p → ofile p !! fd = Some o →
  ∃ r, descs l ≡ₚ olist o ++ r ∧ ∀ o', descs (<[me := set_ofile fd o' p]> l) ≡ₚ olist o' ++ r.
Proof.
  intros Hp Ho. destruct (bind_insert (λ p, ofile p ≫= olist) l me p Hp) as (r & E1 & E2).
  destruct (bind_insert olist (ofile p) fd o Ho) as (r' & E3 & E4). exists (r' ++ r). unfold descs. split.
  - rewrite E1, E3. by rewrite app_assoc.
  - intros o'. rewrite E2. cbn [ofile set_ofile]. rewrite E4. by rewrite app_assoc.
Qed.
Lemma cwds_set l me p : l !! me = Some p →
  ∃ r, cwds l ≡ₚ olist (cwd p) ++ r ∧ ∀ q, cwds (<[me := q]> l) ≡ₚ olist (cwd q) ++ r.
Proof. apply (bind_insert (λ p, olist (cwd p))). Qed.
Lemma descs_same l me p q : l !! me = Some p → ofile q = ofile p → descs (<[me := q]> l) ≡ₚ descs l.
Proof. intros Hp Eo. destruct (bind_insert (λ p, ofile p ≫= olist) l me p Hp) as (r & E1 & E2). unfold descs. by rewrite E1, E2, Eo. Qed.
Lemma cwds_same l me p q : l !! me = Some p → cwd q = cwd p → cwds (<[me := q]> l) ≡ₚ cwds l.
Proof. intros Hp Eo. destruct (cwds_set l me p Hp) as (r & E1 & E2). by rewrite E1, E2, Eo. Qed.

Lemma descs_ext l me p q q' : l !! me = Some p → ofile q = ofile q' → descs (<[me := q]> l) ≡ₚ descs (<[me := q']> l).
Proof. intros Hp Eo. destruct (bind_insert (λ p, ofile p ≫= olist) l me p Hp) as (r & E1 & E2). unfold descs. by rewrite !E2, Eo. Qed.

Lemma elem_descs l me p fd j : l !! me = Some p → ofile p !! fd = Some (Some j) → j ∈ descs l.
Proof. intros Hp Ho. destruct (descs_set l me p fd _ Hp Ho) as (r & -> & _). by constructor. Qed.
Lemma elem_cwds l me p i : l !! me = Some p → cwd p = Some i → i ∈ cwds l.
Proof. intros Hp Hc. destruct (cwds_set l me p Hp) as (r & -> & _). rewrite Hc. by constructor. Qed.

Section Props.
Context `{DevicesOk} (kend : Z).
#[local] Notation KP := (KP kend).

Lemma BInv_KP s : BInv kend s → KP s (cwds (pfds s)) [] 0 (descs (pfds s)) [] (pfds s).
Proof. by intros [? _]. Qed.
Lemma BInv_intro s X D l : KP s X [] 0 D [] l → X ≡ₚ cwds l → D ≡ₚ descs l → Forall FdsOk l → BInv kend s.
Proof. intros [HK <-] EX ED HF. split; [|done]. by eapply KF_perm. Qed.
Lemma KP_perm s X X' L n D D' R l : X ≡ₚ X' → D ≡ₚ D' → KP s X L n D R l → KP s X' L n D' R l.
Proof. intros EX ED [HK Hl]. split; [|done]. by eapply KF_perm. Qed.
Lemma KP_pfds s X L n D R l l' : KP s X L n D R l → KP (set_pfds l' s) X L n D R l'.
Proof. by intros [(HA & HF & HP) Hl]. Qed.
Lemma KP_eq s X L n D R l : KP s X L n D R l → pfds s = l.
Proof. by intros [_ ?]. Qed.

(** ** Descriptors *)

Section Me.
Context (u : uspace) (name0 : list Z) (me : nat) (killed : bool).

Definition alive (s : kfs) : Prop := ∃ p, pfds s !! me = Some p ∧ cwd p ≠ None.

Lemma argfd_spec n s : wlp (argfd u me n) s (λ r s', s' = s ∧ match r with None => True | Some (fd, j) =>
  ∃ p, pfds s !! me = Some p ∧ ofile p !! fd = Some (Some j) end).
Proof.
  unfold argfd, getp. wlp_steps. wlp_call argint_pure. intros [fd|] s' ->; [|by wlp_steps]. wlp_if; [done|]. split; [done|].
  destruct a0 as [j|]; [|done]. by exists a.
Qed.

Lemma free_fd_spec l : ∀ k, match free_fd l k with Some fd => (k ≤ fd)%nat ∧ l !! (fd - k)%nat = Some None | None => True end.
Proof.
  induction l as [|[j|] l IH]; intros k; cbn [free_fd]; [done| |by rewrite Nat.sub_diag].
  specialize (IH (S k)). destruct (free_fd l (S k)) as [fd|]; [|done]. destruct IH as [? ?]. split; [lia|].
  by replace (fd - k)%nat with (S (fd - S k)) by lia.
Qed.
Lemma fdalloc_spec j s : wlp (fdalloc me j) s (λ r s', match r with None => s' = s | Some fd =>
  ∃ p, pfds s !! me = Some p ∧ ofile p !! fd = Some None ∧ s' = set_pfds (<[me := set_ofile fd (Some j) p]> (pfds s)) s end).
Proof.
  unfold fdalloc, getp. wlp_steps. pose proof (free_fd_spec (ofile a) 0) as Hf. destruct (free_fd (ofile a) 0) as [fd|]; [|by wlp_steps].
  unfold setp, getp. wlp_steps. simplify_eq. destruct Hf as [_ Hf]. rewrite Nat.sub_0_r in Hf. by exists a.
Qed.

Lemma FdsOk_set l p fd o : Forall FdsOk l → l !! me = Some p → cwd p ≠ None → Forall FdsOk (<[me := set_ofile fd o p]> l).
Proof.
  intros Hl Hp Hc. apply Forall_insert; [done|]. destruct (Forall_lookup_1 _ _ _ _ Hl Hp) as [? ?].
  split; [cbn; by rewrite length_insert|done].
Qed.
(** Descriptors are given up freely. *)
Lemma FdsOk_clear l p fd : Forall FdsOk l → l !! me = Some p → Forall FdsOk (<[me := set_ofile fd None p]> l).
Proof.
  intros Hl Hp. apply Forall_insert; [done|]. destruct (Forall_lookup_1 _ _ _ _ Hl Hp) as [? Hd].
  split; [cbn; by rewrite length_insert|]. intros Hc. cbn. apply Forall_insert; [by apply Hd|done].
Qed.

Lemma sys_dup_inv s : BInv kend s → alive s → wlp (sys_dup u me) s (λ _ s', BInv kend s').
Proof.
  intros HB (p & Hp & Hc). pose proof (BInv_KP _ HB) as HK. unfold sys_dup. wlp_steps. wlp_call argfd_spec.
  intros [[fd j]|] s' [-> Hr]; [|by wlp_steps]. destruct Hr as (p' & Hp' & Ho). simplify_eq. wlp_steps.
  wlp_call fdalloc_spec. intros [fd'|] s' Hr; [|subst; by wlp_steps]. destruct Hr as (p' & Hp' & Hf & ->). simplify_eq. wlp_steps.
  wlp_call filedup_spec; [by eapply KP_pfds|by eapply elem_descs|set_solver|]. intros _ s1 HK1. wlp_steps.
  destruct (descs_set _ _ _ _ _ Hp Hf) as (r & E1 & E2).
  eapply BInv_intro; [exact HK1|by rewrite (cwds_same _ _ p)|rewrite E2, E1; done|]. apply FdsOk_set; [apply HB|done|done].
Qed.

Lemma rwargs_spec s : wlp (rwargs u me) s (λ r s', s' = s ∧ match r with None => True | Some (j, _, _) => j ∈ descs (pfds s) end).
Proof.
  unfold rwargs. wlp_steps. wlp_call argfd_spec. intros [[fd j]|] s' [-> Hr]; [|by wlp_steps]. destruct Hr as (p' & Hp' & Ho). wlp_steps.
  arg argint_pure. arg argptr_pure. split; [done|]. by eapply elem_descs.
Qed.

Lemma sys_read_inv s : BInv kend s → wlp (sys_read u me killed) s (λ _ s', BInv kend s').
Proof.
  intros HB. unfold sys_read. wlp_steps. wlp_call rwargs_spec. intros [[[j n] p]|] s' [-> Hj]; [|by wlp_steps]. wlp_steps.
  wlp_call fileread_spec; [by apply BInv_KP|done|]. intros r s1 HK1. wlp_steps. eapply BInv_intro; [done|done|done|apply HB].
Qed.
Lemma sys_write_inv i0 s : BInv kend s → wlp (sys_write u me killed i0) s (λ _ s', BInv kend s').
Proof.
  intros HB. unfold sys_write. wlp_steps. wlp_call rwargs_spec. intros [[[j n] p]|] s' [-> Hj]; [|by wlp_steps].
  wlp_call filewrite_spec; [by apply BInv_KP|done|]. intros r s1 HK1. eapply BInv_intro; [done|done|done|apply HB].
Qed.
Lemma sys_fstat_inv s : BInv kend s → wlp (sys_fstat u me) s (λ _ s', BInv kend s').
Proof.
  intros HB. unfold sys_fstat. wlp_steps. wlp_call argfd_spec. intros [[fd j]|] s' [-> Hr]; [|by wlp_steps].
  destruct Hr as (p' & Hp' & Ho). wlp_steps. arg argptr_pure.
  wlp_call filestat_spec; [by apply BInv_KP|by eapply elem_descs|]. intros r' s1 HK1. wlp_steps. eapply BInv_intro; [done|done|done|apply HB].
Qed.

Lemma sys_close_inv s : BInv kend s → wlp (sys_close kend u me) s (λ _ s', BInv kend s').
Proof.
  intros HB. pose proof (BInv_KP _ HB) as HK. unfold sys_close. wlp_steps. wlp_call argfd_spec.
  intros [[fd j]|] s' [-> Hr]; [|by wlp_steps]. destruct Hr as (p & Hp & Ho). unfold setp, getp. wlp_steps. simplify_eq.
  destruct (descs_set _ _ _ _ _ Hp Ho) as (r & E1 & E2). cbn [olist app] in *.
  wlp_call fileclose_spec; [eapply KP_pfds, KP_perm; [reflexivity|exact E1|exact HK]|set_solver|]. intros _ s1 HK1. wlp_steps.
  eapply BInv_intro; [exact HK1|by rewrite (cwds_same _ _ p)|by rewrite E2|]. apply FdsOk_clear; [apply HB|done].
Qed.

(** ** Paths *)

(** A call that changes only the file system. *)
Lemma path_inv (m : nat → M fsst Z) s :
  (∀ cw f G, cw ∈ G → Acc f G [] 0 → wlp (m cw) f (λ _ f', Acc f' G [] 0)) → BInv kend s →
  wlp (cw ← getcwd me; in_fs (m cw);; mret tt) s (λ _ s', BInv kend s').
Proof.
  intros Hm HB. pose proof (BInv_KP _ HB) as HK. unfold getcwd, in_fs. wlp_steps.
  match goal with E : _ = Some ?cw |- wlp (m ?cw) _ _ => apply bind_Some in E as (p & Hp & Hc) end.
  wlp_call Hm; [|by eapply KP_acc|]; [apply elem_of_app; left; by eapply elem_cwds|]. intros r f HA. wlp_steps.
  eapply BInv_intro; [exact (KP_fs _ _ _ _ _ _ _ _ f _ [] 0 HK HA)|done|done|apply HB].
Qed.

(** [sys_open]'s file takes over the reference to the inode. *)
Lemma KP_open s X L n D R l j f ip f' : KP s (ip :: X) L n D (j :: R) l → L ⊆ X ++ file_inodes (ftable s) → ftable s !! j = Some f →
  f_type f' = FD_INODE → f_ip f' = ip → f_ref f' = f_ref f →
  KP (set_ftable (<[j := f']> (ftable s)) s) X L n D R l.
Proof.
  intros [(HA & HF & HP) Hl] HL Hf Et Ei Er. split; [|done]. unfold KF. cbn [fs ftable pipes mem set_ftable].
  assert (f_type f = FD_NONE) as En.
  { destruct (decide (f_type f = FD_NONE)) as [|Hnn]; [done|]. apply (fl_type _ _ _ HF j f Hf) in Hnn as [_ []]. by constructor. }
  split; [|split].
  - destruct (file_inodes_insert _ _ _ f' Hf) as (r & E1 & E2). unfold inode_of in E1, E2. rewrite En in E1. rewrite Et, Ei in E2.
    rewrite decide_False in E1 by done. rewrite decide_True in E2 by done. cbn [app] in *. rewrite E2. rewrite E1 in HA.
    by rewrite <- Permutation_middle.
  - eapply FilesOk_typed; [exact HF|done|done|done|congruence].
  - rewrite (ends_same _ _ f); [done|done|]. unfold end_of. by rewrite En, Et.
Qed.

Lemma open_inode_spec path omode s X D l : KP s X [] 1 D [] l → cwds l ⊆ X →
  wlp (open_inode name0 me path omode) s (λ r s', match r with Some ip => KP s' (ip :: X) [ip] 1 D [] l | None => KP s' X [] 0 D [] l end).
Proof.
  intros HK HX. pose proof (KP_eq _ _ _ _ _ _ _ HK) as Hl. unfold open_inode, getcwd, in_fs. wlp_steps.
  match goal with E : _ = Some ?cw |- _ => apply bind_Some in E as (p & Hp & Hc) end. rewrite Hl in Hp.
  match goal with |- context [create _ ?cw _ _ _ _] => assert (cw ∈ X ++ file_inodes (ftable s)) as Hcw by
    (apply elem_of_app; left; apply HX; by eapply elem_cwds) end.
  assert (∀ f, Acc f (X ++ file_inodes (ftable s)) [] 1 →
    wlp (zoom fs set_fs end_op;; mret None) (set_fs f s)
      (λ r s', match r with Some ip => KP s' (ip :: X) [ip] 1 D [] l | None => KP s' X [] 0 D [] l end)) as Hend.
  { intros f HA. wlp_steps. cbn [fs set_fs]. wlp_call end_op_acc; [done|]. intros _ f' HA'. wlp_steps. exact (KP_fs _ _ _ _ _ _ _ _ f' X [] 0 HK HA'). }
  wlp_if.
  - wlp_call create_acc; [exact Hcw|by eapply KP_acc|]. intros [ip|] f HA; [|by apply Hend]. wlp_steps. exact (KP_fs _ _ _ _ _ _ _ _ f (ip :: X) [ip] 1 HK HA).
  - wlp_call namei_acc; [exact Hcw|by eapply KP_acc|]. intros [ip|] f HA; [|by apply Hend]. wlp_steps. cbn [fs set_fs].
    wlp_call ilock_acc; [by constructor|done|]. intros _ f1 [_ HA1]. unfold geti. wlp_steps. cbn [fs set_fs]. wlp_if.
    + wlp_call iunlockput_acc; [exact HA1|]. intros _ f2 HA2. apply (Hend f2 HA2).
    + exact (KP_fs _ _ _ _ _ _ _ _ f1 (ip :: X) [ip] 1 HK HA1).
Qed.

Lemma open_fd_spec s X L n D l : KP s X L n D [] l →
  wlp (open_fd kend me) s (λ r s', match r with
    | None => KP s' X L n D [] l
    | Some (j, fd) => ∃ p, l !! me = Some p ∧ ofile p !! fd = Some None ∧ KP s' X L n (j :: D) [j] (<[me := set_ofile fd (Some j) p]> l) end).
Proof.
  intros HK. unfold open_fd. wlp_steps. wlp_call filealloc_spec; [done|]. intros [j|] s1; [intros [Hj HK1]|intros HK1]; [|by wlp_steps].
  wlp_steps. wlp_call fdalloc_spec. pose proof (KP_eq _ _ _ _ _ _ _ HK1) as Hl. rewrite Hl. intros [fd|] s2 Hr; wlp_steps.
  - destruct Hr as (p & Hp & Hf & ->). exists p. split; [done|]. split; [done|]. by eapply KP_pfds.
  - subst s2. wlp_call fileclose_raw_spec; [done|]. intros _ s3 HK3. by wlp_steps.
Qed.

Lemma sys_open_inv s : BInv kend s → alive s → wlp (sys_open kend u name0 me) s (λ _ s', BInv kend s').
Proof.
  intros HB (p & Hp & Hc). pose proof (BInv_KP _ HB) as HK. unfold sys_open. wlp_steps. arg argstr_pure. arg argint_pure.
  unfold in_fs at 1. wlp_steps. wlp_call begin_op_acc; [by eapply KP_acc|]. intros _ f0 HA0. wlp_steps.
  assert (KP (set_fs f0 s) (cwds (pfds s)) [] 1 (descs (pfds s)) [] (pfds s)) as HK0 by exact (KP_fs _ _ _ _ _ _ _ _ f0 _ [] 1 HK HA0).
  wlp_call open_inode_spec; [exact HK0|done|]. intros [ip|] s1 HK1; wlp_steps; [|eapply BInv_intro; [done|done|done|apply HB]].
  wlp_call open_fd_spec; [done|]. intros [[j fd]|] s2; wlp_steps.
  - intros (p' & Hp' & Hf & HK2). simplify_eq. unfold in_fs. wlp_steps.
    wlp_call iunlock_acc; [by eapply KP_acc|]. intros _ f3 HA3. wlp_steps. cbn [fs set_fs].
    wlp_call end_op_acc; [done|]. intros _ f4 HA4. wlp_steps.
    pose proof (KP_fs _ _ _ _ _ _ _ _ f4 (ip :: cwds (pfds s)) [] 0 HK2 HA4) as HK4.
    assert (∃ f, ftable s2 !! j = Some f) as [f Hf'].
    { destruct (FilesOk_lookup _ _ _ j (proj1 (proj2 (proj1 HK2)))) as (f & Hf' & _); [by constructor|by exists f]. }
    apply (wlp_setf _ _ _ f); [done|]. wlp_steps. destruct (descs_set _ _ _ _ _ Hp Hf) as (r' & E1 & E2).
    eapply BInv_intro; [eapply KP_open; [exact HK4|set_solver|exact Hf'|done|done|done]|by rewrite (cwds_same _ _ p)|by rewrite E2, E1|].
    apply FdsOk_set; [apply HB|done|done].
  - intros HK2. unfold in_fs. wlp_steps. wlp_call iunlockput_acc; [exact (KP_acc _ _ _ _ _ _ _ _ HK2)|]. intros _ f3 HA3. wlp_steps. cbn [fs set_fs].
    wlp_call end_op_acc; [exact HA3|]. intros _ f4 HA4. wlp_steps.
    eapply BInv_intro; [exact (KP_fs _ _ _ _ _ _ _ _ f4 (cwds (pfds s)) [] 0 HK2 HA4)|done|done|apply HB].
Qed.

Lemma sys_chdir_inv s : BInv kend s → wlp (sys_chdir u me) s (λ _ s', BInv kend s').
Proof.
  intros HB. pose proof (BInv_KP _ HB) as HK. unfold sys_chdir, in_fs. wlp_steps.
  wlp_call begin_op_acc; [by eapply KP_acc|]. intros _ f0 HA0. wlp_steps.
  assert (∀ (r : Z) f, Acc f (cwds (pfds s) ++ file_inodes (ftable s)) [] 1 →
    wlp (zoom fs set_fs end_op;; mret r) (set_fs f s) (λ _ s', BInv kend s')) as Hend.
  { intros r f HA. wlp_steps. cbn [fs set_fs]. wlp_call end_op_acc; [exact HA|]. intros _ f1 HA1. wlp_steps.
    eapply BInv_intro; [exact (KP_fs _ _ _ _ _ _ _ _ f1 _ [] 0 HK HA1)|done|done|apply HB]. }
  arg argstr_pure; [|by apply Hend]. unfold getcwd. wlp_steps.
  match goal with E : _ = Some ?cw |- _ => apply bind_Some in E as (p & Hp & Hc); rename cw into cw0 end. cbn [pfds set_fs] in Hp.
  wlp_call namei_acc; [|exact HA0|]; [apply elem_of_app; left; by eapply elem_cwds|]. intros [ip|] f1 HA1; [|by apply (Hend (-1) f1)].
  wlp_steps. cbn [fs set_fs]. wlp_call ilock_acc; [by constructor|done|]. intros _ f2 [_ HA2]. unfold geti. wlp_steps. cbn [fs set_fs]. wlp_if.
  { wlp_call iunlockput_acc; [exact HA2|]. intros _ f3 HA3. apply (Hend (-1) f3 HA3). }
  wlp_call iunlock_acc; [done|]. intros _ f3 HA3. wlp_steps. cbn [fs set_fs].
  destruct (cwds_set _ _ _ Hp) as (r' & E1 & E2). rewrite Hc in E1. cbn [olist app] in E1.
  wlp_call (iput_acc cw0 f3 (ip :: r' ++ file_inodes (ftable s)) []); [set_solver| |].
  { rewrite E1 in HA3. cbn [app] in HA3. by rewrite Permutation_swap in HA3. }
  intros _ f4 HA4. wlp_steps. cbn [fs set_fs]. wlp_call end_op_acc; [done|]. intros _ f5 HA5. unfold setp, getp. wlp_steps. cbn [pfds set_fs] in *. simplify_eq.
  eapply BInv_intro; [eapply KP_pfds, (KP_fs _ _ _ _ _ _ _ _ f5 (ip :: r') [] 0 HK); exact HA5|by rewrite E2|by rewrite (descs_same _ _ p)|].
  destruct HB as [_ HF]. apply Forall_insert; [done|]. destruct (Forall_lookup_1 _ _ _ _ HF Hp) as [? ?]. by split.
Qed.

Lemma sys_pipe_inv s : 0 < kend → BInv kend s → alive s → wlp (sys_pipe kend u me) s (λ _ s', BInv kend s').
Proof.
  intros Hk HB (p & Hp & Hc). unfold sys_pipe. wlp_steps. arg argptr_pure.
  wlp_call pipealloc_spec; [done|by apply BInv_KP|]. intros [[rf wf]|] s1 HK1; wlp_steps; [|eapply BInv_intro; [done|done|done|apply HB]].
  assert (∀ s2, KP s2 (cwds (pfds s)) [] 0 (rf :: wf :: descs (pfds s)) [] (pfds s) →
    wlp (fileclose kend rf;; fileclose kend wf;; mret (-1, @None (Z * Z * Z))) s2 (λ _ s', BInv kend s')) as Hclose.
  { intros s2 HK2. wlp_steps. wlp_call fileclose_spec; [done|set_solver|]. intros _ s3 HK3. wlp_steps.
    wlp_call fileclose_spec; [done|set_solver|]. intros _ s4 HK4. wlp_steps. eapply BInv_intro; [done|done|done|apply HB]. }
  wlp_call fdalloc_spec. pose proof (KP_eq _ _ _ _ _ _ _ HK1) as Hl. rewrite Hl. intros [fd0|] s2; [|intros ->; by apply Hclose].
  intros (p' & Hp' & Hf0 & ->). simplify_eq. wlp_steps. wlp_call fdalloc_spec. cbn [pfds set_pfds].
  pose proof (lookup_lt_Some _ _ _ Hp) as Hlt. intros [fd1|] s3.
  - intros (p2 & Hp2 & Hf1 & ->). rewrite list_lookup_insert_eq in Hp2 by done. injection Hp2 as <-. wlp_steps.
    destruct (descs_set _ _ _ _ _ Hp Hf0) as (r1 & E1 & E2).
    destruct (descs_set (<[me := set_ofile fd0 (Some rf) p]> (pfds s)) me _ _ _ ltac:(by apply list_lookup_insert_eq) Hf1) as (r2 & E3 & E4).
    eapply BInv_intro; [eapply KP_pfds, KP_pfds, HK1| | |].
    + rewrite (cwds_same _ _ (set_ofile fd0 (Some rf) p)); [by rewrite (cwds_same _ _ p)|by apply list_lookup_insert_eq|done].
    + rewrite E4, <- E3, E2, E1. cbn [olist app]. apply Permutation_swap.
    + apply FdsOk_set; [apply FdsOk_set; [apply HB|done|done]|by apply list_lookup_insert_eq|done].
  - intros ->. unfold setp, getp. wlp_steps. cbn [pfds set_pfds] in *. rewrite list_lookup_insert_eq in * by done. simplify_eq.
    rewrite list_insert_insert_eq. replace (<[me := _]> (pfds s)) with (pfds s).
    { apply wlp_unbind, (Hclose (set_pfds (pfds s) s1)). by eapply KP_pfds. }
    symmetry. apply list_insert_id. rewrite Hp. unfold set_ofile. cbn [ofile cwd]. rewrite list_insert_insert_eq, list_insert_id by done. by destruct p.
Qed.

(** ** Processes *)

Definition KD (s : kfs) (X : list nat) : Prop := KP s X [] 0 (descs (pfds s)) [] (pfds s).

Lemma fork_ofile_spec c X : c ≠ me → ∀ ks s q, NoDup ks → KD s X → pfds s !! c = Some q → (∀ k, k ∈ ks → ofile q !! k = Some None) →
  wlp (fork_ofile me c ks) s (λ _ s', ∃ q', cwd q' = cwd q ∧ length (ofile q') = length (ofile q) ∧ pfds s' = <[c := q']> (pfds s) ∧ KD s' X).
Proof.
  intros Hne. induction ks as [|k ks IH]; intros s q HN HK Hq Hks; cbn [fork_ofile].
  { wlp_steps. exists q. split; [done|]. split; [done|]. by rewrite list_insert_id. }
  apply NoDup_cons in HN as [Hk HN]. unfold getp. wlp_steps. destruct a0 as [j|]; wlp_steps.
  2: { wlp_call IH; [done|done|done|intros; apply Hks; by constructor|]. done. }
  wlp_call filedup_spec; [done|by eapply elem_descs|set_solver|]. intros _ s1 HK1. pose proof (KP_eq _ _ _ _ _ _ _ HK1) as Hl. wlp_steps.
  rewrite Hl in *. simplify_eq. destruct (descs_set _ _ _ k _ Hq (Hks k ltac:(by constructor))) as (r & E1 & E2). cbn [olist app] in *.
  pose proof (lookup_lt_Some _ _ _ Hq) as Hlt. set (q1 := set_ofile k (Some j) q). set (l1 := <[c := q1]> (pfds s)).
  wlp_call (IH (set_pfds l1 s1) q1); [done| |by apply list_lookup_insert_eq| |].
  - apply (KP_perm _ X X _ _ (j :: descs (pfds s))); [done|unfold l1, q1; cbn [pfds set_pfds]; by rewrite E2, E1|]. by eapply KP_pfds.
  - intros k' Hk'. cbn. rewrite list_lookup_insert_ne by (intros ->; done). apply Hks. by constructor.
  - intros _ s2 (q' & Ec & El & Ep & HK2). exists q'. split; [done|]. split; [by rewrite El; cbn; rewrite length_insert|]. split; [|done].
    rewrite Ep. unfold l1. cbn [pfds set_pfds]. by rewrite list_insert_insert_eq.
Qed.

(** A slot no process has. *)
Definition vacant (c : nat) (s : kfs) : Prop := ∃ q, pfds s !! c = Some q ∧ cwd q = None.

Lemma fork_fds_inv c s : BInv kend s → c ≠ me → vacant c s → wlp (fork_fds me c) s (λ _ s', BInv kend s').
Proof.
  intros HB Hne (q & Hq & Hqc). destruct (HB) as [_ HF]. destruct (Forall_lookup_1 _ _ _ _ HF Hq) as [Hlen Hnone].
  unfold fork_fds. wlp_steps. wlp_call (fork_ofile_spec c (cwds (pfds s)) Hne); [apply NoDup_seq|by apply BInv_KP|done| |].
  { intros k Hk%elem_of_seq. destruct (lookup_lt_is_Some_2 (ofile q) k) as [o Ho]; [lia|]. rewrite Ho. f_equal. exact (Forall_lookup_1 _ _ _ _ (Hnone Hqc) Ho). }
  intros _ s1 (q1 & Ec & El & Ep & HK1). unfold getcwd, in_fs. wlp_steps.
  match goal with E : _ = Some ?cw |- _ => apply bind_Some in E as (p & Hp & Hc); rename cw into cw0 end.
  rewrite Ep, list_lookup_insert_ne in Hp by done.
  wlp_call idup_acc; [|by eapply KP_acc|]; [apply elem_of_app; left; by eapply elem_cwds|]. intros i f2 [-> HA2]. wlp_steps. cbn [pfds set_fs] in *.
  pose proof (lookup_lt_Some _ _ _ Hq) as Hlt. rewrite Ep in *. rewrite list_lookup_insert_eq in * by done. simplify_eq. rewrite list_insert_insert_eq.
  destruct (cwds_set _ _ _ Hq) as (r & E1 & E2). rewrite Hqc in E1. cbn [olist app] in E1.
  eapply BInv_intro; [eapply KP_pfds, (KP_fs _ _ _ _ _ _ _ _ f2 (cw0 :: cwds (pfds s)) [] 0 HK1); exact HA2|by rewrite E2, E1| |].
  - rewrite Ep. by apply (descs_ext _ _ q).
  - apply Forall_insert; [done|]. split; [cbn; congruence|done].
Qed.

Lemma exit_ofile_spec X : ∀ ks s p, KD s X → pfds s !! me = Some p →
  wlp (exit_ofile kend me ks) s (λ _ s', ∃ p', cwd p' = cwd p ∧ length (ofile p') = length (ofile p) ∧
    (∀ k, k ∈ ks ∨ ofile p !! k = Some None → (k < length (ofile p))%nat → ofile p' !! k = Some None) ∧ pfds s' = <[me := p']> (pfds s) ∧ KD s' X).
Proof.
  induction ks as [|k ks IH]; intros s p HK Hp; cbn [exit_ofile].
  { wlp_steps. exists p. do 2 (split; [done|]). split; [intros k [?|?]; [set_solver|done]|]. by rewrite list_insert_id. }
  unfold getp. wlp_steps. simplify_eq. destruct a0 as [j|]; wlp_steps.
  2: { wlp_call IH; [done|done|]. intros _ s1 (p' & E1 & E2 & E3 & E4). exists p'. split; [done|]. split; [done|]. split; [|done].
       intros k' Hk'. apply E3. destruct Hk' as [[->|?]%elem_of_cons|?]; [by right|by left|by right]. }
  match goal with E : ofile p !! k = Some (Some j) |- _ => rename E into Ho end.
  destruct (descs_set _ _ _ _ _ Hp Ho) as (r & E1 & E2). cbn [olist app] in *.
  wlp_call fileclose_spec; [eapply KP_perm; [reflexivity|exact E1|exact HK]|set_solver|]. intros _ s1 HK1. unfold setp, getp. wlp_steps.
  rewrite (KP_eq _ _ _ _ _ _ _ HK1) in *. simplify_eq. set (p1 := set_ofile k None p). set (l1 := <[me := p1]> (pfds s)).
  pose proof (lookup_lt_Some _ _ _ Hp) as Hlt. wlp_call (IH (set_pfds l1 s1) p1); [|by apply list_lookup_insert_eq|].
  { apply (KP_perm _ X X _ _ r); [done|unfold l1, p1; cbn [pfds set_pfds]; by rewrite E2|]. by eapply KP_pfds. }
  intros _ s2 (p' & F1 & F2 & F3 & F4 & F5). exists p'. cbn in F2. rewrite length_insert in F2. split; [done|]. split; [done|]. split; [|split; [|done]].
  - intros k' Hk' Hlt'. apply F3; [|cbn; by rewrite length_insert]. destruct (decide (k' = k)) as [->|Hne]; [right; by apply list_lookup_insert_eq|].
    destruct Hk' as [[?|?]%elem_of_cons|?]; [done|by left|right; cbn; by rewrite list_lookup_insert_ne].
  - rewrite F4. unfold l1. cbn [pfds set_pfds]. by rewrite list_insert_insert_eq.
Qed.

Lemma exit_fds_inv s : BInv kend s → alive s → wlp (exit_fds kend me) s (λ _ s', BInv kend s').
Proof.
  intros HB (p & Hp & Hc). destruct (HB) as [_ HF]. destruct (Forall_lookup_1 _ _ _ _ HF Hp) as [Hlen _].
  unfold exit_fds. wlp_steps. wlp_call (exit_ofile_spec (cwds (pfds s))); [by apply BInv_KP|done|]. intros _ s1 (p1 & E1 & E2 & E3 & E4 & HK1).
  unfold in_fs. wlp_steps. wlp_call begin_op_acc; [by eapply KP_acc|]. intros _ f1 HA1. unfold getcwd. wlp_steps. cbn [fs set_fs pfds] in *.
  pose proof (lookup_lt_Some _ _ _ Hp) as Hlt. rewrite E4 in *. rewrite list_lookup_insert_eq in * by done. cbn [mbind option_bind] in *. rename a into cw0.
  destruct (cwds_set _ _ _ Hp) as (r & F1 & F2). assert (cwd p = Some cw0) as Hcw by congruence. rewrite Hcw in F1. cbn [olist app] in F1.
  wlp_call (iput_acc cw0 f1 (r ++ file_inodes (ftable s1)) []); [set_solver|by rewrite F1 in HA1|]. intros _ f2 HA2. wlp_steps. cbn [fs set_fs].
  wlp_call end_op_acc; [done|]. intros _ f3 HA3. unfold setp, getp. wlp_steps. cbn [pfds set_fs] in *. rewrite E4 in *. rewrite list_lookup_insert_eq in * by done. simplify_eq.
  rewrite list_insert_insert_eq.
  eapply BInv_intro; [eapply KP_pfds, (KP_fs _ _ _ _ _ _ _ _ f3 r [] 0 HK1); exact HA3|by rewrite F2| |].
  - rewrite E4. by apply (descs_ext _ _ p).
  - apply Forall_insert; [done|]. split; [cbn; congruence|]. intros _. cbn. apply Forall_lookup. intros k o Hk.
    pose proof (lookup_lt_Some _ _ _ Hk). rewrite (E3 k) in Hk; [congruence|left; apply elem_of_seq; lia|lia].
Qed.

Lemma init_cwd_inv s : BInv kend s → vacant me s → wlp (init_cwd me) s (λ _ s', BInv kend s').
Proof.
  intros HB (q & Hq & Hqc). pose proof (BInv_KP _ HB) as HK. destruct (HB) as [_ HF]. destruct (Forall_lookup_1 _ _ _ _ HF Hq) as [Hlen Hnone].
  unfold init_cwd, in_fs. wlp_steps. wlp_call namei_root_acc; [by eapply KP_acc|]. intros r f1 HA1. unfold setp, getp. wlp_steps. cbn [pfds set_fs] in *. simplify_eq.
  destruct (cwds_set _ _ _ Hq) as (l & E1 & E2). rewrite Hqc in E1. cbn [olist app] in E1.
  eapply (BInv_intro _ (olist r ++ cwds (pfds s))); [eapply KP_pfds, (KP_fs _ _ _ _ _ _ _ _ f1 _ [] 0 HK); by destruct r| | |].
  - by rewrite E2, E1.
  - by rewrite (descs_same _ _ q).
  - apply Forall_insert; [done|]. split; [done|]. intros _. by apply Hnone.
Qed.
End Me.

(** ** Reachable states *)

Definition can_call (w : caller) (c : fcall) (s : kfs) : Prop :=
  match c with
  | Finit => vacant (c_me w) s
  | Ffork ch => alive (c_me w) s ∧ ch ≠ c_me w ∧ vacant ch s
  | _ => alive (c_me w) s
  end.

Lemma run_call_inv w c s : 0 < kend → BInv kend s → can_call w c s → wlp (run_call kend w c) s (λ _ s', BInv kend s').
Proof.
  intros Hk HB Hc. destruct w as [me u name0 killed]. unfold run_call.
  assert (∀ {A} (m : M kfs A), wlp m s (λ _ s', BInv kend s') → wlp (m;; mret tt) s (λ _ s', BInv kend s')) as Hend.
  { intros A m Hm. wlp_steps. wlp_call Hm. intros a s' HB'. by wlp_steps. }
  destruct c; cbn [can_call c_me] in Hc.
  - apply path_inv; [|done]. intros cw f G. by apply sys_link_acc.
  - apply path_inv; [|done]. intros cw f G. by apply sys_unlink_acc.
  - apply path_inv; [|done]. intros cw f G. by apply sys_mkdir_acc.
  - apply path_inv; [|done]. intros cw f G. by apply sys_mknod_acc.
  - apply path_inv; [|done]. intros cw f G. by apply change_acc.
  - apply path_inv; [|done]. intros cw f G. by apply change_acc.
  - apply path_inv; [|done]. intros cw f G. by apply change_acc.
  - by apply Hend, sys_open_inv.
  - by apply Hend, sys_chdir_inv.
  - by apply Hend, sys_dup_inv.
  - by apply Hend, sys_read_inv.
  - by apply Hend, sys_write_inv.
  - by apply Hend, sys_close_inv.
  - by apply Hend, sys_fstat_inv.
  - by apply Hend, sys_pipe_inv.
  - destruct Hc as (_ & ? & ?). by apply fork_fds_inv.
  - by apply exit_fds_inv.
  - by apply init_cwd_inv.
Qed.

Definition fstep (s s' : kfs) : Prop := ∃ w c, can_call w c s ∧ run_call kend w c s = Ret tt s'.

(** The kernel before the first process: nothing is in use. *)
Record Boot (s : kfs) : Prop := {
  bo_icache : length (icache (fs s)) = NINODE;
  bo_inodes : Forall (λ x, i_ref x = 0 ∧ i_busy x = false) (icache (fs s));
  bo_trans : outstanding (fs s) = 0;
  bo_ftable : length (ftable s) = NFILE;
  bo_files : Forall (λ f, f_ref f = 0 ∧ f_type f = FD_NONE) (ftable s);
  bo_mem : ∃ fl, Free kend (mem s) fl;
  bo_fds : Forall (λ p, ofile p = replicate NOFILE None ∧ cwd p = None) (pfds s)
}.

Lemma bind_nil {A B} (g : A → list B) l : Forall (λ x, g x = []) l → l ≫= g = [].
Proof. induction 1 as [|x l Hx _ IH]; [done|]. rewrite bind_cons, Hx. apply IH. Qed.

Lemma Boot_BInv s : Boot s → BInv kend s.
Proof.
  intros [H1 H2 H3 H4 H5 [fl H6] H7].
  assert (descs (pfds s) = []) as ED by (apply bind_nil; eapply Forall_impl; [exact H7|]; intros p [-> _]; apply bind_nil; by apply Forall_replicate).
  assert (cwds (pfds s) = []) as EC by (apply bind_nil; eapply Forall_impl; [exact H7|]; intros p [_ E]; by rewrite E).
  assert (file_inodes (ftable s) = []) as EF by (apply bind_nil; eapply Forall_impl; [exact H5|]; intros f [_ E]; unfold inode_of; by rewrite E).
  assert (ends (ftable s) = replicate NFILE None) as EE.
  { rewrite <- H4. unfold ends. clear -H5. induction H5 as [|f l [_ E] _ IH]; [done|]. cbn. rewrite IH. unfold end_of. by rewrite E. }
  split; [|eapply Forall_impl; [exact H7|]; intros p [Eo Ec]; split; [by rewrite Eo|intros _; rewrite Eo; by apply Forall_replicate]].
  unfold KF. rewrite ED, EC, EF, EE. cbn [app]. split; [|split].
  - split; [split; [unfold holding; by rewrite length_fmap|by constructor| |]| |constructor|done|done].
    + intros i p r Hi. apply holding_lookup in Hi as (x & Hx & _ & <-). by destruct (Forall_lookup_1 _ _ _ _ H2 Hx) as [-> _].
    + intros i j p r r' Hi _ Hpos. apply holding_lookup in Hi as (x & Hx & _ & <-). destruct (Forall_lookup_1 _ _ _ _ H2 Hx). lia.
    + intros i x Hx. destruct (Forall_lookup_1 _ _ _ _ H2 Hx) as [_ ->]. set_solver.
  - split; [done|constructor| | |set_solver|constructor].
    + intros j f Hf. by destruct (Forall_lookup_1 _ _ _ _ H5 Hf) as [-> _].
    + intros j f Hf. destruct (Forall_lookup_1 _ _ _ _ H5 Hf) as [_ ->]. set_solver.
  - exists [], fl. split; [done|constructor|set_solver|set_solver|set_solver|set_solver| |].
    + intros p w Hin. apply elem_of_replicate in Hin as [? _]. done.
    + intros i j pw Hi. apply lookup_replicate in Hi as [? _]. done.
Qed.

Lemma reachable_BInv s0 s : 0 < kend → Boot s0 → rtc fstep s0 s → BInv kend s.
Proof.
  intros Hk HB Hr. refine (rtc_ind_r (R := fstep) (BInv kend) s0 _ _ s Hr); [by apply Boot_BInv|].
  intros s1 s2 _ (w & c & Hc & E) IH. pose proof (run_call_inv w c s1 Hk IH Hc) as Hw. unfold wlp in Hw. by rewrite E in Hw.
Qed.

(** C12: After any sequence of calls by any processes, whatever their arguments
    and whatever is on the disk: the count of an open file is the number of
    descriptors that name it, a file that is named is in use, the count of an
    inode is the number of open files and working directories that name it, no
    inode is left locked and no transaction open; and no call panics because
    of an inode, a file or a page that was released, locked or given back once
    too often. *)
Theorem file_calls_balance (s0 s : kfs) : 0 < kend → Boot s0 → rtc fstep s0 s →
  (∀ j f, ftable s !! j = Some f → f_ref f = FsInode.count j (descs (pfds s))) ∧
  (∀ i p fd j, pfds s !! i = Some p → ofile p !! fd = Some (Some j) → ∃ f, ftable s !! j = Some f ∧ f_type f ≠ FD_NONE) ∧
  (∀ i x, icache (fs s) !! i = Some x → i_ref x = FsInode.count i (cwds (pfds s) ++ file_inodes (ftable s)) ∧ i_busy x = false) ∧
  outstanding (fs s) = 0 ∧
  (∀ w c msg, can_call w c s → run_call kend w c s = Panic msg → msg ∉ misuse).
Proof.
  intros Hk HB Hr. pose proof (reachable_BInv s0 s Hk HB Hr) as HI. destruct (HI) as [(HA & HF & _) _]. destruct (HA) as [HR Hb _ _ Hn].
  split; [by apply (fl_ref _ _ _ HF)|]. split.
  { intros i p fd j Hp Ho. assert (j ∈ descs (pfds s)) as Hj by by eapply elem_descs.
    destruct (FilesOk_lookup _ _ _ _ HF Hj) as (f & Hf & _). exists f. split; [done|]. apply (fl_type _ _ _ HF j f Hf). set_solver. }
  split. { intros i x Hx. split; [by eapply (r_ref _ _ HR), lookup_holding|]. destruct (i_busy x) eqn:E; [|done]. apply (Hb i x Hx) in E. set_solver. }
  split; [done|]. intros w c msg Hc E. pose proof (run_call_inv w c s Hk HI Hc) as Hw. unfold wlp in Hw. by rewrite E in Hw.
Qed.

(** C27: A pipe lives on its page as long as one of its ends is open: the
    page of a pipe that an open file names is not free, the pipe knows which
    of its ends are open, and each end is one file. *)
Theorem pipe_pages_live (s0 s : kfs) : 0 < kend → Boot s0 → rtc fstep s0 s →
  ∃ fl, Free kend (mem s) fl ∧ ∀ j f, ftable s !! j = Some f → f_type f = FD_PIPE →
    page kend (f_pipe f) ∧ f_pipe f ∉ fl ∧ Pipe.freed (pipes s (f_pipe f)) = false ∧
    is_open (f_writable f) (pp (pipes s (f_pipe f))) = true ∧
    (is_open (negb (f_writable f)) (pp (pipes s (f_pipe f))) = true ↔
      ∃ j' f', ftable s !! j' = Some f' ∧ end_of f' = Some (f_pipe f, negb (f_writable f))) ∧
    (∀ j' f', ftable s !! j' = Some f' → end_of f' = end_of f → j' = j).
Proof.
  intros Hk HB Hr. destruct (reachable_BInv s0 s Hk HB Hr) as [(_ & HF & ps & fl & [P1 P2 P3 P4 P5 P6 P7 P8]) _].
  exists fl. split; [done|]. intros j f Hf Et. assert (end_of f = Some (f_pipe f, f_writable f)) as Ee by (unfold end_of; by rewrite Et).
  pose proof (ends_lookup _ _ _ Hf) as Hj. rewrite Ee in Hj.
  assert (Some (f_pipe f, f_writable f) ∈ ends (ftable s)) as Hin by (apply list_elem_of_lookup; by exists j).
  pose proof (P7 _ _ Hin) as Hp. destruct (P3 _ Hp) as [Hpg Hfl]. split; [done|]. split; [done|]. split; [by apply P4|]. split; [by apply P5|]. split.
  - rewrite P5, list_elem_of_lookup by done. split.
    + intros [j' Hj']. unfold ends in Hj'. rewrite list_lookup_fmap in Hj'. destruct (ftable s !! j') as [f'|] eqn:Ef; [|done]. exists j', f'. by injection Hj' as ->.
    + intros (j' & f' & Hf' & E'). exists j'. rewrite (ends_lookup _ _ f') by done. by rewrite E'.
  - intros j' f' Hf' E'. apply (P8 j' j (f_pipe f, f_writable f)); [|done]. rewrite (ends_lookup _ _ f') by done. by rewrite E', Ee.
Qed.
End Props.

(** ** A run *)

(** A terminal that waits with its inode unlocked, as consoleread does. *)
#[local] Instance tty : Devices := {|
  dev_read m := if decide (m = 1) then Some (λ i n, iunlock i;; ilock i;; mret (0, [])) else None;
  dev_write m := if decide (m = 1) then Some (λ i src n, iunlock i;; ilock i;; mret n) else None
|}.
#[local] Instance tty_ok : DevicesOk.
Proof.
  assert (∀ {A} i (a : A) s H L k, i ∈ L → Acc s H L k → wlp (iunlock i;; ilock i;; mret a) s (λ _ s', Acc s' H L k)) as Hw.
  { intros A i a s H L k [L' E]%elem_of_Permutation HA. rewrite E in HA. wlp_steps. wlp_call iunlock_acc; [done|]. intros _ s1 HA1. wlp_steps.
    wlp_call ilock_acc; [|done|]; [apply (ac_held _ _ _ _ HA); by constructor|]. intros _ s2 [_ HA2]. wlp_steps. by rewrite E. }
  split.
  - intros m rd i n s H L k E Hi HA. unfold dev_read, tty in E. case_decide; [|done]. injection E as <-. by apply Hw.
  - intros m wr i src n s H L k E Hi HA. unfold dev_write, tty in E. case_decide; [|done]. injection E as <-. by apply Hw.
Qed.

Definition no_inode : inode := mkInode 0 0 0 false false 0 0 0 0 0 0 0 0 [].
Definition kfs0 : kfs :=
  mkKfs (mkFs (λ _ _, []) (replicate NINODE no_inode) (mkSb 0 0 0 0 0 0 0) [] 0)
    (replicate NFILE (mkFile FD_NONE 0 false false 0 0 0)) (λ _, pipe_init []) kmem0
    (replicate 2 (mkFds (replicate NOFILE None) None)).
Lemma kfs0_Boot : Boot 0x80108000 kfs0.
Proof.
  split; [done|by apply Forall_replicate|done|done|by apply Forall_replicate| |by apply Forall_replicate].
  exists [0x80400000; 0x80401000]. apply kmem0_Free.
Qed.

(** The first argument is [a]. *)
Definition umem (a : Z) : uspace := mkU 64 0 (replicate 4 0 ++ [a; 0; 0; 0] ++ replicate 56 0).
Definition by0 (a : Z) : caller := mkCaller 0 (umem a) (replicate 14 0) false.
Definition after (w : caller) (c : fcall) (s : kfs) : kfs := match run_call 0x80108000 w c s with Ret _ s' => s' | _ => s end.
Definition kfs1 : kfs := after (by0 0) Finit kfs0.
Definition kfs2 : kfs := after (by0 16) Fpipe kfs1.
Definition kfs3 : kfs := after (by0 0) (Ffork 1) kfs2.
Definition kfs4 : kfs := after (by0 0) Fclose kfs3.

Definition has_cwd (me : nat) (s : kfs) : option bool := p ← pfds s !! me; Some (bool_decide (is_Some (cwd p))).
Lemma has_cwd_alive me s : has_cwd me s = Some true → alive me s.
Proof.
  unfold has_cwd, alive. destruct (pfds s !! me) as [p|]; [|done]. cbn. intros E. injection E as E%bool_decide_eq_true.
  exists p. split; [done|]. intros E'. rewrite E' in E. by destruct E.
Qed.
Lemma has_cwd_vacant me s : has_cwd me s = Some false → vacant me s.
Proof.
  unfold has_cwd, vacant. destruct (pfds s !! me) as [p|]; [|done]. cbn. intros E. injection E as E%bool_decide_eq_false.
  exists p. split; [done|]. destruct (cwd p); [|done]. by destruct E.
Qed.

Lemma kfs4_reachable : rtc (fstep 0x80108000) kfs0 kfs4.
Proof.
  apply (rtc_l _ _ kfs1). { exists (by0 0), Finit. split; [apply has_cwd_vacant; by vm_compute|by vm_compute]. }
  apply (rtc_l _ _ kfs2). { exists (by0 16), Fpipe. split; [apply has_cwd_alive; by vm_compute|by vm_compute]. }
  apply (rtc_l _ _ kfs3).
  { exists (by0 0), (Ffork 1). split; [|by vm_compute]. split; [apply has_cwd_alive; by vm_compute|]. split; [done|]. apply has_cwd_vacant. by vm_compute. }
  apply (rtc_l _ _ kfs4). { exists (by0 0), Fclose. split; [apply has_cwd_alive; by vm_compute|by vm_compute]. }
  apply rtc_refl.
Qed.

(** A process opened a pipe, forked, and closed the reading end: the child is
    the only reader, both can write. *)
Lemma file_calls_balance_witness :
  (∀ j f, ftable kfs4 !! j = Some f → f_ref f = FsInode.count j (descs (pfds kfs4))) ∧
  FsInode.count 0 (descs (pfds kfs4)) = 1 ∧ FsInode.count 1 (descs (pfds kfs4)) = 2.
Proof.
  destruct (file_calls_balance 0x80108000 kfs0 kfs4 ltac:(lia) kfs0_Boot kfs4_reachable) as (H1 & _).
  split; [exact H1|]. split; vm_compute; reflexivity.
Defined.

Lemma pipe_pages_live_witness :
  ∃ fl, Free 0x80108000 (mem kfs4) fl ∧ ∀ f, ftable kfs4 !! 1%nat = Some f → f_type f = FD_PIPE → f_pipe f ∉ fl.
Proof.
  destruct (pipe_pages_live 0x80108000 kfs0 kfs4 ltac:(lia) kfs0_Boot kfs4_reachable) as (fl & HF & Hp).
  exists fl. split; [exact HF|]. intros f Hf Et. destruct (Hp 1%nat f Hf Et) as (_ & Hn & _). exact Hn.
Defined.

(** ** Two surprises *)

(** A disk with an empty root directory. *)
Definition root1 : inode := mkInode ROOTDEV ROOTINO 0 false false T_DIR 0 0 1 0 0 493 0 (replicate (S NDIRECT) 0).
Definition root_fs : fsst := updated 1 root1 fs0.

(** The defaults that [iget] stores into a fresh entry are gone when [ilock]
    loads the inode: a file that [create] makes has mode 0, not DEFMODE. *)
Lemma created_file_has_mode_0 :
  match create (replicate 14 0) 0 [47; 97; 0] T_FILE 0 0 root_fs with
  | Ret (Some ip) s' => ∃ x, icache s' !! ip = Some x ∧ i_type x = T_FILE ∧ i_mode x = 0 ∧ i_mode x ≠ DEFMODE
  | _ => False
  end.
Proof. vm_compute. eexists. repeat split. discriminate. Qed.

(** read(0, p, -1), [p] the last byte of the process: the two bytes of the file
    are stored at [p], the second one outside of the process. *)
Definition hi_kfs : kfs :=
  mkKfs (set_icache (<[0%nat := set_i_flags false true hi_inode]> (icache hi_fs)) hi_fs)
    [mkFile FD_INODE 1 true true 0 0 0] (λ _, pipe_init []) kmem0 [mkFds [Some 0%nat] (Some 0%nat)].
Definition last_byte : uspace := mkU 20 0 (replicate 8 0 ++ [19; 0; 0; 0] ++ replicate 4 255 ++ replicate 4 0).
Lemma read_negative_count_escapes :
  match sys_read last_byte 0 false hi_kfs with
  | Ret (PRet r, Some (p, bytes)) _ => r = 2 ∧ p < u_sz last_byte ∧ u_sz last_byte < p + Z.of_nat (length bytes)
  | _ => False
  end.
Proof. vm_compute. repeat split. Qed.
