(* ===== verification/ProcCtx.v ===== *)
(** * Who runs

    A routine that does not reach [sched] returns in the process that called
    it.  [leaves f P m] says that [m] leaves [f] of the state alone when it
    returns a result in [P]; its rules follow the shape of the code and are
    automated by the hint database [leaves]. *)

From S2P Require Import Prelude Spinlock CString ProcState ProcList Proc.

Local Open Scope Z_scope.

(** ** The rules *)

Definition leaves {S C A} (f : S → C) (P : A → Prop) (m : M S A) : Prop :=
  ∀ s, match m s with Ret a s' => P a → f s' = f s | _ => True end.
Notation leavesall f := (leaves f (λ _, True)).

Section Rules.
Context {S C : Type} (f : S → C).

Lemma leaves_ret {A} (P : A → Prop) a : leaves f P (mret a).
Proof. done. Qed.
Lemma leaves_bind {A B} (P : B → Prop) (m : M S A) (k : A → M S B) :
  leavesall f m → (∀ a, leaves f P (k a)) → leaves f P (m ≫= k).
Proof.
  intros Hm Hk s. specialize (Hm s). unfold mbind, M_bind. destruct (m s) as [a s1| | |]; [|done..].
  specialize (Hk a s1). destruct (k a s1) as [b s2| | |]; [|done..]. intros Hp. rewrite (Hk Hp). by apply Hm.
Qed.
(** A routine with an end that is not of interest. *)
Lemma leaves_away {A B} (P : B → Prop) (m : M S A) (b : B) : ¬ P b → leaves f P (m;; mret b).
Proof. intros Hp s. unfold mbind, M_bind. destruct (m s); [|done..]. intros Hb. by destruct Hp. Qed.
Lemma leaves_gets {A} P (g : S → A) : leaves f P (gets g).
Proof. done. Qed.
Lemma leaves_lookupM {A} P (g : S → option A) : leaves f P (lookupM g).
Proof. intros s. unfold lookupM. by destruct (g s). Qed.
Lemma leaves_modify P (g : S → S) : (∀ s, f (g s) = f s) → leaves f P (modify g).
Proof. intros Hg s _. apply Hg. Qed.
Lemma leaves_panic {A} P msg : leaves f P (panic (A := A) msg).
Proof. done. Qed.
Lemma leaves_diverge {A} P : leaves f P (diverge (A := A)).
Proof. done. Qed.
(** With a run that returns. *)
Lemma wp_leaves {A} (P : A → Prop) (m : M S A) s Q : leaves f P m → wp m s Q → wp m s (λ a s', Q a s' ∧ (P a → f s' = f s)).
Proof. intros Hm. specialize (Hm s). unfold wp. destruct (m s); [|done..]. by split. Qed.
End Rules.

Create HintDb leaves.
#[export] Hint Extern 1 (leaves _ _ (_ ≫= _)) => (apply leaves_away; intros []; reflexivity) : leaves.
#[export] Hint Resolve leaves_ret leaves_gets leaves_lookupM leaves_panic leaves_diverge : leaves.
#[export] Hint Extern 1 (leaves _ _ (modify _)) => (apply leaves_modify; intros ?; reflexivity) : leaves.
Ltac leaves := repeat first
  [ progress (eauto 3 with leaves)
  | match goal with |- leaves _ _ (_ ≫= _) => apply leaves_bind; [|intros ?] end
  | match goal with |- leaves _ _ (if ?b then _ else _) => destruct b end
  | match goal with |- leaves _ _ (match ?b with _ => _ end) => destruct b end ].

(** ** Locks *)

Definition hw_ctx (h : hw) : option nat := cpu_of h ≫= cpu_proc.

Lemma leaves_upd_cpu P g : (∀ c, cpu_proc (g c) = cpu_proc c) → leaves hw_ctx P (modify (upd_cpu g)).
Proof.
  intros Hg. apply leaves_modify. intros h. unfold hw_ctx, cpu_of, upd_cpu. simpl. rewrite list_lookup_alter, decide_True by done.
  destruct (cpus h !! mycpu h); [apply Hg|done].
Qed.
#[export] Hint Extern 0 (leaves _ _ (modify (upd_cpu _))) => (apply leaves_upd_cpu; intros ?; reflexivity) : leaves.

Lemma leaves_acquire lk : leavesall hw_ctx (acquire lk).
Proof. unfold acquire, pushcli, cli, this_cpu, holding. leaves. Qed.
Lemma leaves_release lk : leavesall hw_ctx (release lk).
Proof. unfold release, popcli, sti, this_cpu, holding. leaves. Qed.
#[export] Hint Resolve leaves_acquire leaves_release : leaves.

(** ** proc.c *)

Section ProcCtx.
Context `{KE : KernelEnv}.

Definition kctx (s : kst) : option nat * option nat := (proc_of s, initproc s).

Lemma leaves_env {A} P (m : M env A) : leaves kctx P (lift_env m).
Proof. intros s. unfold lift_env, zoom. by destruct (m _). Qed.
Lemma leaves_hw {A} P (m : M hw A) : leavesall hw_ctx m → leaves kctx P (lift_hw m).
Proof.
  intros Hm s. specialize (Hm (khw s)). unfold lift_hw, zoom. destruct (m _); [|done..]. intros _. unfold kctx. f_equal. by apply Hm.
Qed.
#[local] Hint Resolve leaves_env leaves_hw : leaves.

Lemma leaves_getp P p : leaves kctx P (getp p).
Proof. apply leaves_lookupM. Qed.
Lemma leaves_setp P p f : leaves kctx P (setp p f).
Proof. unfold setp. leaves. Qed.
#[local] Hint Resolve leaves_getp leaves_setp : leaves.
Lemma leaves_set_head P id h : leaves kctx P (set_head id h).
Proof. unfold set_head, get_head. leaves. apply leaves_modify. by intros s; destruct id. Qed.
#[local] Hint Resolve leaves_set_head : leaves.
Lemma leaves_addhead P id p : leaves kctx P (addhead id p).
Proof. unfold addhead, get_head. leaves. Qed.
Lemma leaves_addtail_loop fuel : ∀ P p, leaves kctx P (addtail_loop fuel p).
Proof. induction fuel; intros P p; cbn [addtail_loop]; leaves. Qed.
Lemma leaves_remove_loop fuel : ∀ P q c p, leaves kctx P (remove_loop fuel q c p).
Proof. induction fuel; intros P q c p; cbn [remove_loop]; leaves. Qed.
#[local] Hint Resolve leaves_addhead leaves_addtail_loop leaves_remove_loop : leaves.
Lemma leaves_addtail P id p : leaves kctx P (addtail id p).
Proof. unfold addtail, get_head, deref. leaves. Qed.
Lemma leaves_remove P id p : leaves kctx P (remove id p).
Proof. unfold remove, get_head, deref. leaves. Qed.
Lemma leaves_assert P p st : leaves kctx P (assert p st).
Proof. unfold assert. leaves. Qed.
#[local] Hint Resolve leaves_addtail leaves_remove leaves_assert : leaves.
Lemma leaves_remove_or_panic P id p msg : leaves kctx P (remove_or_panic id p msg).
Proof. unfold remove_or_panic. leaves. Qed.
Lemma leaves_walk_find fuel : ∀ P p test, leaves kctx P (walk_find fuel p test).
Proof. induction fuel; intros P p test; cbn [walk_find]; leaves. Qed.
#[local] Hint Resolve leaves_remove_or_panic leaves_walk_find : leaves.
Lemma leaves_lists_find ids : ∀ P test, leaves kctx P (lists_find ids test).
Proof. induction ids; intros P test; cbn [lists_find]; unfold get_head; leaves. Qed.
#[local] Hint Resolve leaves_lists_find : leaves.

Lemma leaves_release_embryo P p : leaves kctx P (release_embryo p).
Proof. unfold release_embryo. leaves. Qed.
#[local] Hint Resolve leaves_release_embryo : leaves.
Lemma leaves_allocproc P : leaves kctx P allocproc.
Proof. unfold allocproc, alloc_stack. leaves. Qed.
Lemma leaves_fork_files me np fds : ∀ P, leaves kctx P (fork_files me np fds).
Proof. induction fds; intros P; cbn [fork_files]; leaves. Qed.
#[local] Hint Resolve leaves_allocproc leaves_fork_files : leaves.
Lemma leaves_fork P : leaves kctx P fork.
Proof. unfold fork, fork_child, fork_copy, fork_publish, myproc. leaves. Qed.
Lemma leaves_growproc P n : leaves kctx P (growproc n).
Proof. unfold growproc, myproc. leaves. Qed.
Lemma leaves_kill P n : leaves kctx P (kill n).
Proof. unfold kill, wake_sleeper. leaves. Qed.
Lemma leaves_setpriority P n pr : leaves kctx P (setpriority n pr).
Proof. unfold setpriority. leaves. Qed.
Lemma leaves_wait : leaves kctx (λ r, r ≠ WaitSleep) wait.
Proof. unfold wait, wait_turn, reap, myproc. leaves. Qed.
End ProcCtx.
#[export] Hint Resolve leaves_env leaves_hw leaves_getp leaves_setp leaves_fork leaves_growproc leaves_kill leaves_setpriority : leaves.
