(* ===== verification/Sysproc.v ===== *)
(** * Process calls (sysproc.c)

    The handlers of sysproc.c over the process table of Proc.v, with the
    arguments fetched from the memory of the caller.  A call that gives up the
    CPU says so in its result. *)

From S2P Require Import Prelude Spinlock CString Layout ProcState ProcList Proc ProcInv ProcWake KInv ProcSafe ProcExit ProcWait ProcFork ProcSched ProcCtl ProcBoot Kernel ToyEnv Scenario ProcPrint ProcCtx Syscall.

Local Open Scope Z_scope.

(** How a call ends: with a result, asleep, or never. *)
Inductive sysres := SysRet (r : Z) | SysSleep | SysGone.

(** [struct uproc] in user memory. *)
Definition sizeof_uproc : nat := 96.
Definition decode_uproc (off : nat) (m : list Z) : uproc :=
  mkUproc (get_le off 4 m) (get_le (off + 4) 4 m) (get_le (off + 8) 4 m) (get_le (off + 12) 4 m) (get_le (off + 16) 4 m)
    (get_le (off + 20) 4 m) (slice (off + 24) 32 m) (get_le (off + 56) 4 m) (slice (off + 60) 32 m) (i32 (get_le (off + 92) 4 m)).
(** The entries from [p] up to the end of the process. *)
Definition uprocs_at (u : uspace) (p : Z) : list uproc :=
  (λ k, decode_uproc (Z.to_nat p + sizeof_uproc * k) (u_mem u)) <$> seq 0 (Z.to_nat ((u_sz u - p) / Z.of_nat sizeof_uproc)).

Section Sysproc.
Context `{KL : KernelLaws} (u : uspace).

Definition sys_fork : M kst sysres := r ← fork; mret (SysRet r).
Definition sys_exit : M kst sysres := exit;; mret SysGone.
Definition sys_wait : M kst sysres :=
  r ← wait; mret (match r with WaitReturn r => SysRet r | WaitSleep => SysSleep end).

Definition sys_kill : M kst sysres :=
  n ← argint u 0;
  match n with None => mret (SysRet (-1)) | Some n => r ← kill n; mret (SysRet r) end.

(** The current process's record. *)
Definition myrec : M kst proc := me ← myproc; getp me.

Definition sys_getpid : M kst sysres := x ← myrec; mret (SysRet (i32 (pid x))).

Definition sys_sbrk : M kst sysres :=
  n ← argint u 0;
  match n with
  | None => mret (SysRet (-1))
  | Some n =>
      x ← myrec;
      r ← growproc n;
      mret (SysRet (if decide (r < 0) then -1 else i32 (sz x)))
  end.

(** The [while] loop up to a sleep; the comparison is of unsigned ints. *)
Definition sys_sleep_turn (n ticks0 : Z) : M kst sysres :=
  t ← gets ticks;
  if decide (u32 (t - ticks0) < u32 n) then
    x ← myrec;
    if decide (killed x ≠ 0) then mret (SysRet (-1)) else
    sleep AddrTicks None;;
    mret SysSleep
  else mret (SysRet 0).
Definition sys_sleep : M kst sysres :=
  n ← argint u 0;
  match n with
  | None => mret (SysRet (-1))
  | Some n => ticks0 ← gets ticks; sys_sleep_turn n ticks0
  end.

Definition sys_uptime : M kst sysres := t ← gets ticks; mret (SysRet (i32 t)).
Definition sys_getuid : M kst sysres := x ← myrec; mret (SysRet (uid x)).
Definition sys_getgid : M kst sysres := x ← myrec; mret (SysRet (gid x)).

Definition sys_getppid : M kst sysres :=
  x ← myrec;
  if decide (pid x = 1) then mret (SysRet (pid x)) else
  if decide (pid x < 1) then mret (SysRet (u32 (-1))) else
  q ← deref (parent x);
  y ← getp q;
  mret (SysRet (pid y)).

(** sys_setuid and sys_setgid: the same code but for the field. *)
Definition set_id (store : Z → proc → proc) : M kst sysres :=
  v ← argint u 0;
  match v with
  | None => mret (SysRet (-1))
  | Some v =>
      if decide (v < 0 ∨ 32767 < v) then mret (SysRet (-1)) else
      me ← myproc;
      setp me (store v);;
      mret (SysRet 0)
  end.
Definition sys_setuid : M kst sysres := set_id set_uid.
Definition sys_setgid : M kst sysres := set_id set_gid.

(** The result and the entries of the table at its address. *)
Definition sys_getprocs : M kst (Z * option (Z * list uproc)) :=
  max ← argint u 0;
  match max with None => mret (-1, None) | Some max =>
  p ← argptr u 1 (Z.of_nat sizeof_uproc);
  match p with None => mret (-1, None) | Some p =>
  r ← getprocs max (uprocs_at u p);
  mret (r.1, Some (p, r.2))
  end
  end.

Definition sys_setpriority : M kst sysres :=
  n ← argint u 0;
  match n with None => mret (SysRet (-1)) | Some n =>
  priority ← argint u 1;
  match priority with None => mret (SysRet (-1)) | Some priority =>
  r ← setpriority n priority;
  mret (SysRet r)
  end
  end.

(** The handlers that syscall.c calls for processes. *)
Definition sysproc (c : sysno) : option (M kst sysres) :=
  match c with
  | SYS_fork => Some sys_fork
  | SYS_exit => Some sys_exit
  | SYS_wait => Some sys_wait
  | SYS_kill => Some sys_kill
  | SYS_getpid => Some sys_getpid
  | SYS_sbrk => Some sys_sbrk
  | SYS_sleep => Some sys_sleep
  | SYS_uptime => Some sys_uptime
  | SYS_getuid => Some sys_getuid
  | SYS_getgid => Some sys_getgid
  | SYS_getppid => Some sys_getppid
  | SYS_setuid => Some sys_setuid
  | SYS_setgid => Some sys_setgid
  | SYS_setpriority => Some sys_setpriority
  | _ => None
  end.

(** ** Where a call comes back *)

Definition comes_back (r : sysres) : Prop := match r with SysRet _ => True | _ => False end.

Lemma leaves_argint {C P} (f : kst → C) n : leaves f P (argint u n).
Proof. unfold argint, fetchint, user_int. leaves. Qed.
Lemma leaves_myrec {P} : leaves kctx P myrec.
Proof. unfold myrec, myproc. leaves. Qed.
#[local] Hint Resolve leaves_argint leaves_myrec : leaves.

Lemma sys_wait_comes_back : leaves kctx comes_back sys_wait.
Proof.
  intros s. pose proof (leaves_wait s) as Hw. unfold sys_wait, mbind, M_bind. destruct (wait s) as [[r|] s'| | |]; [|by intros []|done..].
  intros _. by apply Hw.
Qed.
#[local] Hint Resolve sys_wait_comes_back : leaves.

Lemma sysproc_comes_back c m : sysproc c = Some m → leaves kctx comes_back m.
Proof.
  intros Hc. destruct c; simplify_eq/=;
    unfold sys_fork, sys_exit, sys_kill, sys_getpid, sys_sbrk, sys_sleep, sys_sleep_turn, sys_uptime, sys_getuid,
      sys_getgid, sys_getppid, sys_setuid, sys_setgid, set_id, sys_setpriority, deref, myproc; leaves.
Qed.

(** ** Safety *)

Lemma wp_unbind {S A B} (m : M S A) (k : A → M S B) s Q : wp (m ≫= k) s Q → wp m s (λ a s', wp (k a) s' Q).
Proof. unfold wp, mbind, M_bind. by destruct (m s). Qed.

(** A routine of proc.c as an operation of Kernel.v. *)
Lemma wp_op {A} (m : M kst A) (op : kop) s : run_op op = (m;; mret tt) → kinv s → allowed op s → wp m s (λ _ s', kinv s').
Proof. intros E HK Ha. pose proof (op_safe op s HK Ha) as Hw. rewrite E in Hw. eapply wp_mono; [by apply wp_unbind in Hw|]. done. Qed.

Lemma kinv_store s p f : kinv s → inert f → (∀ x, kview (f x) = kview x) → kinv (upd p f s).
Proof.
  intros ((L & HG) & Hc & ip & Hip) Hf Hk. split; [exists L; by apply good_store|].
  rewrite kviews_upd_same by done. split; [done|by exists ip].
Qed.

Lemma wp_myrec s me x (Q : proc → kst → Prop) : proc_of s = Some me → procs s !! me = Some x → Q x s → wp myrec s Q.
Proof. intros Hme Hx HQ. unfold myrec. wp_steps. apply (wp_myproc _ me); [done|]. by apply (wp_getp _ _ x). Qed.

Section Safe.
Context (HU : UOk u).

(** The first argument, as [argint] fetches it. *)
Definition arg0 : option Z :=
  let a := u32 (u_esp u + 4 + 4 * 0) in if decide (a + 4 ≤ u_sz u) then Some (i32 (get_le (Z.to_nat a) 4 (u_mem u))) else None.

Lemma set_id_safe store s me x : kinv s → proc_of s = Some me → procs s !! me = Some x →
  (∀ v, inert (store v) ∧ ∀ y, kview (store v y) = kview y) → wp (set_id store) s (λ _ s', kinv s').
Proof.
  intros HK Hme Hx Hst. unfold set_id. wp_steps. wp_call argint_spec; [done|]. intros v s' [-> _]. destruct v as [v|]; wp_steps; [|done].
  destruct (decide _); wp_steps; [done|]. apply (wp_myproc _ me); [done|]. wp_steps. apply (wp_setp_upd _ _ _ x); [done|]. wp_steps.
  destruct (Hst v). by apply kinv_store.
Qed.

Lemma sysproc_safe (c : sysno) (m : M kst sysres) (s : kst) (me : nat) (x : proc) :
  sysproc c = Some m → kinv s → proc_of s = Some me → procs s !! me = Some x →
  (initproc s = Some me → pid x = 1 ∧ c ≠ SYS_exit) →
  (c = SYS_sbrk → ∀ n, arg0 = Some n → n < 0 → u32 (sz x + n) ≠ 0 ∧ sz x ≠ 0) →
  wp m s (λ _ s', kinv s').
Proof.
  intros Hc HK Hme Hx Hini Hsb. pose proof HK as ((L & HG) & _ & ip & Hip).
  assert (∀ v, inert (set_uid v) ∧ ∀ y, kview (set_uid v y) = kview y) as Hu by done.
  assert (∀ v, inert (set_gid v) ∧ ∀ y, kview (set_gid v y) = kview y) as Hg by done.
  destruct c; simplify_eq/=.
  - unfold sys_fork. wp_steps. wp_call (wp_op fork OpFork); [done|done|by exists me|]. intros r s' HK'. by wp_steps.
  - unfold sys_exit. wp_steps. eapply wp_mono; [apply (exit_safe s me); [done|done|]|].
    { intros E. destruct (Hini E). done. }
    intros r s' HK'. by wp_steps.
  - unfold sys_wait. wp_steps. wp_call (wp_op wait OpWait); [done|done|by exists me|]. intros r s' HK'. by wp_steps.
  - unfold sys_kill. wp_steps. wp_call argint_spec; [done|]. intros [n|] s' [-> _]; wp_steps; [|done].
    wp_call (wp_op (kill n) (OpKill n)); [done|done|done|]. intros r s' HK'. by wp_steps.
  - unfold sys_getpid. wp_steps. apply (wp_myrec _ me x); [done|done|]. by wp_steps.
  - unfold sys_sbrk. wp_steps. wp_call argint_spec; [done|]. intros n s' [-> En]. destruct n as [n|]; wp_steps; [|done].
    apply (wp_myrec _ me x); [done|done|]. wp_steps. wp_call (wp_op (growproc n) (OpGrowproc n)); [done|done| |].
    { exists me, x. split; [done|]. split; [done|]. apply Hsb; [done|]. by rewrite En. }
    intros r s' HK'. by wp_steps.
  - unfold sys_sleep, sys_sleep_turn. wp_steps. wp_call argint_spec; [done|]. intros [n|] s' [-> _]; wp_steps; [|done].
    destruct (decide _); wp_steps; [|done]. apply (wp_myrec _ me x); [done|done|]. destruct (decide _); wp_steps; [done|].
    pose proof (op_safe (OpSleep AddrTicks) s HK (ex_intro _ me Hme)) as Hw. eapply wp_mono; [exact Hw|]. intros a s' HK'. by wp_steps.
  - unfold sys_uptime. by wp_steps.
  - unfold sys_getuid. wp_steps. apply (wp_myrec _ me x); [done|done|]. by wp_steps.
  - unfold sys_getgid. wp_steps. apply (wp_myrec _ me x); [done|done|]. by wp_steps.
  - unfold sys_getppid. wp_steps. apply (wp_myrec _ me x); [done|done|]. destruct (decide (pid x = 1)) as [|Hp]; wp_steps; [done|].
    destruct (decide _); wp_steps; [done|]. destruct (good_current _ _ _ _ HG Hme) as (_ & x' & Hx' & Hst & _). simplify_eq.
    assert (kviews s !! me = Some (kview x)) as Hv by by rewrite kviews_lookup, Hx.
    destruct (vf_family _ _ _ (g_v HG) me _ Hv) as [Hi|(q & w & Hq & Hw & _)].
    { simpl. rewrite Hst. unfold kin, live. simpl. tauto. }
    { destruct (Hini Hi). done. }
    simpl in Hq. unfold deref. eapply wp_lookupM; [exact Hq|]. rewrite kviews_lookup in Hw. destruct (procs s !! q) as [y|] eqn:Hy; [|done].
    wp_steps. apply (wp_getp _ _ y); [done|]. by wp_steps.
  - by eapply set_id_safe.
  - by eapply set_id_safe.
  - unfold sys_setpriority. wp_steps. wp_call argint_spec; [done|]. intros [n|] s' [-> _]; wp_steps; [|done].
    wp_call argint_spec; [done|]. intros [pr|] s' [-> _]; wp_steps; [|done].
    wp_call (wp_op (setpriority n pr) (OpSetpriority n pr)); [done|done|done|]. intros r s' HK'. by wp_steps.
Qed.

End Safe.

End Sysproc.

(** ** Instances *)


(** getprocs(64, p) with room for one entry at [p]: [sys_getprocs] checks that
    much, and [getprocs] goes on to the second entry, outside of the process. *)
Definition is_fault {S A} (o : outcome S A) : bool := match o with Fault => true | _ => false end.
Definition short_table : uspace := mkU 112 0 (replicate 4 0 ++ [64; 0; 0; 0] ++ [16; 0; 0; 0] ++ replicate 100 0).
Lemma short_table_ok : UOk short_table.
Proof. split; [by vm_compute|reflexivity]. Qed.
Lemma getprocs_checks_one_entry : is_fault (sys_getprocs short_table child_runs) = true.
Proof. vm_compute. reflexivity. Qed.
