(* ===== verification/Trap.v ===== *)
(** * Traps (trap.c)

    The dispatch of interrupts, faults and system calls over the process table
    of Proc.v.  A trap that gives up the CPU says so in its result. *)

From S2P Require Import Prelude Spinlock CString Layout ProcState ProcList Proc ProcInv ProcWake KInv ProcSafe ProcExit ProcWait ProcFork ProcSched ProcCtl ProcBoot Kernel ToyEnv Scenario ProcPrint ProcCtx Syscall Sysproc.

Local Open Scope Z_scope.

Definition T_SYSCALL : Z := 64.
Definition T_IRQ0 : Z := 32.
Definition IRQ_TIMER : Z := 0.
Definition IRQ_KBD : Z := 1.
Definition IRQ_COM1 : Z := 4.
Definition IRQ_IDE : Z := 14.
Definition IRQ_SPURIOUS : Z := 31.
Definition SCHED_INTERVAL : Z := 1000 / 100.

Section Trap.
Context `{KL : KernelLaws}.

(** The interrupt handlers of the devices, whose state is not that of the
    process table; what the process table sees of them are their wakeups. *)
Context (ideintr kbdintr uartintr : M kst unit).
(** The memory of the process, and the calls that are not of sysproc.c. *)
Context (mem : list Z) (others : sysno → M kst sysres).

(** [proc && proc->killed && (tf->cs&3) == DPL_USER] *)
Definition doomed (t : trapframe) : M kst bool :=
  pr ← gets proc_of;
  match pr with
  | None => mret false
  | Some me => x ← getp me; mret (bool_decide (killed x ≠ 0 ∧ Z.land (tf_cs t) 3 = DPL_USER))
  end.

(** How a trap ends: back to where it came from, in [exit], asleep in a system
    call, or in [yield], after which [trap_yielded] runs when the process is
    scheduled. *)
Inductive tend := TReturn | TExit | TSleep | TYield.

Definition trap_yielded (t : trapframe) : M kst tend :=
  d ← doomed t;
  if (d : bool) then exit;; mret TExit else mret TReturn.

(** The [switch] of [trap]; lapiceoi and the messages have no effect here. *)
Definition trap_switch (t : trapframe) : M kst unit :=
  let n := tf_trapno t in
  if decide (n = T_IRQ0 + IRQ_TIMER) then
    h ← gets khw;
    if decide (mycpu h = 0%nat) then
      modify (λ s, set_ticks (u32 (ticks s + 1)) s);;
      wakeup AddrTicks
    else mret tt
  else if decide (n = T_IRQ0 + IRQ_IDE) then ideintr
  else if decide (n = T_IRQ0 + IRQ_IDE + 1) then mret tt
  else if decide (n = T_IRQ0 + IRQ_KBD) then kbdintr
  else if decide (n = T_IRQ0 + IRQ_COM1) then uartintr
  else if decide (n = T_IRQ0 + 7 ∨ n = T_IRQ0 + IRQ_SPURIOUS) then mret tt
  else
    pr ← gets proc_of;
    match pr with
    | None => panic "trap"
    | Some me => if decide (Z.land (tf_cs t) 3 = 0) then panic "trap" else setp me (set_killed 1)
    end.

(** [trap] for anything but a system call. *)
Definition trap_interrupt (t : trapframe) : M kst tend :=
  trap_switch t;;
  d ← doomed t;
  if (d : bool) then exit;; mret TExit else
  pr ← gets proc_of;
  match pr with
  | None => trap_yielded t
  | Some me =>
      x ← getp me;
      n ← gets ticks;
      if decide (state x = RUNNING ∧ tf_trapno t = T_IRQ0 + IRQ_TIMER ∧ n `mod` SCHED_INTERVAL = 0) then yield;; mret TYield
      else trap_yielded t
  end.

(** [syscall] on the frame that [trap] has left in the process: the caller's
    size and stack bound the arguments, and the result goes to its %eax. *)
Definition caller_space (x : proc) (t : trapframe) : uspace := mkU (sz x) (tf_esp t) mem.
Definition handler (u : uspace) (c : sysno) : M kst sysres :=
  match sysproc u c with Some m => m | None => others c end.
Definition set_result (v : Z) : M kst unit :=
  me ← myproc;
  setp me (λ y, set_tf (set_tf_eax (u32 v) (tf y)) y).
Definition syscall_proc : M kst sysres :=
  x ← myrec;
  match dispatch_no (tf_eax (tf x)) with
  | None => set_result (-1);; mret (SysRet (-1))
  | Some c =>
      r ← handler (caller_space x (tf x)) c;
      match r with SysRet v => set_result v;; mret r | _ => mret r end
  end.

(** [if(proc->killed) exit();], on both sides of a system call. *)
Definition trap_syscall_enter (k : M kst tend) : M kst tend :=
  x ← myrec;
  if decide (killed x ≠ 0) then exit;; mret TExit else k.
Definition trap_syscall_leave : M kst tend := trap_syscall_enter (mret TReturn).
(** The branch for T_SYSCALL, with the frame [t] at the address [a]; after a
    sleep the call goes on in the process when it is scheduled. *)
Definition trap_syscall (a : Z) (t : trapframe) : M kst tend :=
  trap_syscall_enter (
    me ← myproc;
    setp me (set_tf_addr a ∘ set_tf t);;
    r ← syscall_proc;
    match r with
    | SysRet _ => trap_syscall_leave
    | SysSleep => mret TSleep
    | SysGone => mret TExit
    end).

Definition trap (a : Z) (t : trapframe) : M kst tend :=
  if decide (tf_trapno t = T_SYSCALL) then trap_syscall a t else trap_interrupt t.

(** ** Safety *)

(** What an interrupt handler may do to the process table. *)
Definition quiet (h : M kst unit) : Prop :=
  ∀ s, kinv s → wp h s (λ _ s', kinv s' ∧ proc_of s' = proc_of s ∧ initproc s' = initproc s).

Lemma wakeup_quiet ch : quiet (wakeup ch).
Proof.
  intros s HK. pose proof HK as ((L & HG) & Hc & ip & Hip). eapply wp_mono; [by apply (wakeup_safe s L (kviews s) ch)|].
  intros _ s' (L' & HG' & Hs & E & Ek). assert (initproc s' = initproc s) as Ei by exact (f_equal initproc E).
  split; [|split; [|done]].
  - split; [exists L'; unfold Good; by rewrite Ek|]. rewrite Ek, Ei. split; [done|by exists ip].
  - apply option_eq. intros p. rewrite !proc_of_on. by destruct Hs as [-> ->].
Qed.

Definition irqs : list Z :=
  [T_IRQ0 + IRQ_TIMER; T_IRQ0 + IRQ_IDE; T_IRQ0 + IRQ_IDE + 1; T_IRQ0 + IRQ_KBD; T_IRQ0 + IRQ_COM1; T_IRQ0 + 7; T_IRQ0 + IRQ_SPURIOUS].

(** What another call may do to it: anything that keeps the invariant, but it
    comes back in the process that made it. *)
Definition polite (m : M kst sysres) : Prop :=
  leaves kctx comes_back m ∧ ∀ s me, kinv s → proc_of s = Some me → wp m s (λ _ s', kinv s').

(** A system call that [trap_safe] is about: a process in its memory; the
    other calls are polite; sbrk does not give back all memory. *)
Definition call_ok (t : trapframe) (x : proc) : Prop :=
  UOk (caller_space x t) ∧ ∀ c, dispatch_no (tf_eax t) = Some c →
    (sysproc (caller_space x t) c = None → polite (others c)) ∧
    (c = SYS_sbrk → ∀ n, arg0 (caller_space x t) = Some n → n < 0 → u32 (sz x + n) ≠ 0 ∧ sz x ≠ 0).

Context (Hide : quiet ideintr) (Hkbd : quiet kbdintr) (Huart : quiet uartintr).

Lemma trap_switch_quiet t s : kinv s → (tf_trapno t ∉ irqs → proc_of s ≠ None ∧ Z.land (tf_cs t) 3 ≠ 0) →
  wp (trap_switch t) s (λ _ s', kinv s' ∧ proc_of s' = proc_of s ∧ initproc s' = initproc s).
Proof.
  intros HK Hx. unfold trap_switch. destruct (decide _) as [|H1].
  { wp_steps. destruct (decide _); wp_steps; [|done].
    eapply wp_mono; [apply wakeup_quiet; by apply (kstep_kinv s), step_tick|]. done. }
  destruct (decide _) as [|H2]; [by apply Hide|]. destruct (decide _) as [|H3]; [by wp_steps|]. destruct (decide _) as [|H4]; [by apply Hkbd|].
  destruct (decide _) as [|H5]; [by apply Huart|]. destruct (decide _) as [|H6]; [by wp_steps|]. wp_steps.
  destruct Hx as [Hp Hcs]; [unfold irqs; rewrite !elem_of_cons, elem_of_nil; tauto|]. destruct (proc_of s) as [me|] eqn:Hme; [|done].
  rewrite decide_False by done. pose proof HK as ((L & HG) & _). destruct (good_current _ _ _ _ HG Hme) as (_ & x & Hxm & _).
  apply (wp_setp_upd _ _ _ x); [done|]. split; [by apply kinv_store|]. done.
Qed.

Definition user_mode (t : trapframe) : Prop := Z.land (tf_cs t) 3 = DPL_USER.
(** What a return from the kernel promises. *)
Definition not_killed (t : trapframe) (r : tend) (s : kst) : Prop :=
  r = TReturn → user_mode t → ∀ me x, proc_of s = Some me → procs s !! me = Some x → killed x = 0.

Lemma doomed_spec t s : kinv s →
  wp (doomed t) s (λ d s', s' = s ∧ if d then ∃ me, proc_of s = Some me else not_killed t TReturn s).
Proof.
  intros HK. unfold doomed. wp_steps. destruct (proc_of s) as [me|] eqn:Hme; wp_steps; [|split; [done|]; intros _ _ me x E; congruence].
  pose proof HK as ((L & HG) & _). destruct (good_current _ _ _ _ HG Hme) as (_ & x & Hx & _). apply (wp_getp _ _ x); [done|]. wp_steps.
  split; [done|]. case_bool_decide as Hd; [by exists me|]. intros _ Hu me' x' E Hx'. rewrite Hme in E. simplify_eq.
  destruct (decide (killed x = 0)); [done|]. by destruct Hd.
Qed.

Lemma trap_yielded_safe t s : kinv s → (∀ me, proc_of s = Some me → initproc s ≠ Some me) →
  wp (trap_yielded t) s (λ r s', kinv s' ∧ not_killed t r s').
Proof.
  intros HK Hi. unfold trap_yielded. wp_steps. wp_call doomed_spec; [done|]. intros d s' [-> Hd]. destruct d; wp_steps; [|done].
  destruct Hd as [me Hme]. eapply wp_mono; [by apply (exit_safe s me); [..|apply Hi]|]. intros a s' HK'. by wp_steps.
Qed.

Lemma trap_syscall_enter_safe t s me k : kinv s → proc_of s = Some me → initproc s ≠ Some me →
  (not_killed t TReturn s → wp k s (λ r s', kinv s' ∧ not_killed t r s')) →
  wp (trap_syscall_enter k) s (λ r s', kinv s' ∧ not_killed t r s').
Proof.
  intros HK Hme Hi Hk. pose proof HK as ((L & HG) & _). destruct (good_current _ _ _ _ HG Hme) as (_ & x & Hx & _).
  unfold trap_syscall_enter. wp_steps. apply (wp_myrec _ me x); [done|done|]. destruct (decide _) as [|Hz]; wp_steps.
  - eapply wp_mono; [by apply (exit_safe s me)|]. intros a s' HK'. by wp_steps.
  - apply Hk. intros _ _ me' x' E Hx'. rewrite Hme in E. simplify_eq. destruct (decide (killed x = 0)); [done|]. by destruct Hz.
Qed.

Lemma handler_safe t s me x c : kinv s → proc_of s = Some me → initproc s ≠ Some me → procs s !! me = Some x →
  call_ok t x → dispatch_no (tf_eax t) = Some c →
  wp (handler (caller_space x t) c) s (λ r s', kinv s' ∧ (comes_back r → kctx s' = kctx s)).
Proof.
  intros HK Hme Hi Hx [HU Hc] Ed. destruct (Hc c Ed) as [Ho Hs]. unfold handler.
  destruct (sysproc _ c) as [m|] eqn:Em.
  - apply wp_leaves; [by eapply sysproc_comes_back|]. by apply (sysproc_safe _ HU c m s me x).
  - destruct (Ho eq_refl) as [Hk Hw]. apply wp_leaves; [done|]. by apply (Hw s me).
Qed.

Lemma set_result_safe v s me : kinv s → proc_of s = Some me → wp (set_result v) s (λ _ s', kinv s' ∧ kctx s' = kctx s).
Proof.
  intros HK Hme. pose proof HK as ((L & HG) & _). destruct (good_current _ _ _ _ HG Hme) as (_ & x & Hx & _).
  unfold set_result. wp_steps. apply (wp_myproc _ me); [done|]. wp_steps. apply (wp_setp_upd _ _ _ x); [done|]. split; [|done].
  by apply kinv_store.
Qed.

Lemma syscall_proc_safe t s me x : kinv s → proc_of s = Some me → initproc s ≠ Some me → procs s !! me = Some x →
  tf x = t → call_ok t x → wp syscall_proc s (λ r s', kinv s' ∧ (comes_back r → kctx s' = kctx s)).
Proof.
  intros HK Hme Hi Hx <- Hc. unfold syscall_proc. wp_steps. apply (wp_myrec _ me x); [done|done|].
  destruct (dispatch_no _) as [c|] eqn:Ed; wp_steps.
  - wp_call handler_safe; [done..|]. intros r s' [HK' Hk]. destruct r as [v| |]; wp_steps; [|done|done].
    assert (proc_of s' = Some me) as Hme' by (rewrite <- Hme; exact (f_equal fst (Hk I))).
    wp_call set_result_safe; [done|done|]. intros _ s2 [HK2 E2]. wp_steps. split; [done|]. intros _. by rewrite E2, (Hk I).
  - wp_call set_result_safe; [done|done|]. intros _ s2 [HK2 E2]. by wp_steps.
Qed.

Lemma trap_syscall_safe a t s me x : kinv s → proc_of s = Some me → initproc s ≠ Some me → procs s !! me = Some x →
  call_ok t x → wp (trap_syscall a t) s (λ r s', kinv s' ∧ not_killed t r s').
Proof.
  intros HK Hme Hi Hx Hc. apply (trap_syscall_enter_safe t s me); [done..|]. intros _. wp_steps.
  apply (wp_myproc _ me); [done|]. wp_steps. apply (wp_setp_upd _ _ _ x); [done|]. wp_steps.
  eapply wp_mono; [apply (syscall_proc_safe t _ me ((set_tf_addr a ∘ set_tf t) x));
    [by apply kinv_store|done|done|by apply upd_lookup_eq|done|exact Hc]|].
  intros [v| |] s' [HK' Hv]; wp_steps; [|done|done]. specialize (Hv I). unfold kctx in Hv. injection Hv as E1 E2.
  apply (trap_syscall_enter_safe t s' me); [done|by rewrite E1|by rewrite E2|]. intros Hn. by wp_steps.
Qed.

Lemma trap_interrupt_safe t s : kinv s → (tf_trapno t ∉ irqs → proc_of s ≠ None ∧ Z.land (tf_cs t) 3 ≠ 0) →
  (∀ me, proc_of s = Some me → initproc s ≠ Some me) →
  wp (trap_interrupt t) s (λ r s', kinv s' ∧ not_killed t r s').
Proof.
  intros HK Hx Hi. unfold trap_interrupt. wp_steps. wp_call trap_switch_quiet; [done|done|]. intros _ s1 (HK1 & Ep & Ei). wp_steps.
  assert (∀ me, proc_of s1 = Some me → initproc s1 ≠ Some me) as Hi1 by (rewrite Ep, Ei; exact Hi).
  wp_call doomed_spec; [done|]. intros d s' [-> Hd]. destruct d; wp_steps.
  { destruct Hd as [me Hme]. eapply wp_mono; [by apply (exit_safe s1 me); [..|apply Hi1]|]. intros a s' HK'. by wp_steps. }
  destruct (proc_of s1) as [me|] eqn:Hme; [|apply trap_yielded_safe; [done|by rewrite Hme]].
  pose proof HK1 as ((L & HG) & _). destruct (good_current _ _ _ _ HG Hme) as (_ & x & Hxm & _). wp_steps. apply (wp_getp _ _ x); [done|]. wp_steps.
  destruct (decide _); [|apply trap_yielded_safe; [done|by rewrite Hme]]. wp_steps. eapply wp_mono; [by apply (yield_safe s1 me)|]. intros b s' HK'. by wp_steps.
Qed.

End Trap.

(** The child of Scenario.v calls getpid, in a memory of its size. *)
Definition zero_page : list Z := replicate (Z.to_nat PGSIZE) 0.
Lemma zero_page_ok : UOk (mkU PGSIZE 0 zero_page).
Proof. split; cbn [u_sz u_mem]; [unfold PGSIZE, KERNBASE; lia|]. unfold zero_page. by rewrite length_replicate. Qed.
Definition getpid_frame : trapframe := mkTrapframe 11 27 0 0 0 0 0 0 T_SYSCALL 0.
