(* ===== verification/Grep.v ===== *)
(** * Searching text (grep.c)

    The pattern matcher of Kernighan and Pike against the language its patterns
    denote, and the loop of [grep] that cuts a stream of reads into lines.  A
    [char *] is the list of bytes from it on (CString.v); [None] is an access
    past the end of the memory. *)

From S2P Require Import Prelude CString.

Local Open Scope Z_scope.

(** ** The matcher *)

(** [here] is [matchhere] with the rest of the pattern. *)
Fixpoint matchstar (here : list Z → option bool) (c : Z) (text : list Z) : option bool :=
  b ← here text;
  if (b : bool) then Some true else
  match text with
  | [] => None
  | t :: text' => if decide (t ≠ 0 ∧ (t = c ∨ c = 46)) then matchstar here c text' else Some false
  end.

Fixpoint matchhere (re text : list Z) {struct re} : option bool :=
  match re with
  | [] => None
  | c :: re1 =>
      if decide (c = 0) then Some true else
      match re1 with
      | [] => None
      | d :: re2 =>
          if decide (d = 42) then matchstar (matchhere re2) c text else
          if decide (c = 36 ∧ d = 0) then t ← head text; Some (bool_decide (t = 0)) else
          match text with
          | [] => None
          | t :: text' => if decide (t ≠ 0 ∧ (c = 46 ∨ c = t)) then matchhere re1 text' else Some false
          end
      end
  end.

(** The [do ... while] of [match]. *)
Fixpoint match_loop (re text : list Z) : option bool :=
  b ← matchhere re text;
  if (b : bool) then Some true else
  match text with
  | [] => None
  | t :: text' => if decide (t ≠ 0) then match_loop re text' else Some false
  end.

(** [match] of grep.c. *)
Definition match_ (re text : list Z) : option bool :=
  c ← head re;
  if decide (c = 94) then matchhere (tail re) text else match_loop re text.

(** ** The loop over a stream *)

Definition BUFSZ : nat := 1024.

(** [while((q = strchr(p, '\n')) != 0)]: the buffer, [p], and what was written
    to file descriptor 1. *)
Fixpoint lines_loop (fuel : nat) (pattern : list Z) (buf : mem) (p : nat) (out : list Z) : option (mem * nat * list Z) :=
  r ← strchr (drop p buf) 10;
  match r with
  | None => Some (buf, p, out)
  | Some at_q =>
      match fuel with
      | O => None
      | S f =>
          let q := (length buf - length at_q)%nat in
          buf1 ← store buf q 0;
          b ← match_ pattern (drop p buf1);
          if (b : bool) then
            buf2 ← store buf1 q 10;
            lines_loop f pattern buf2 (S q) (out ++ take (S q - p) (drop p buf2))
          else lines_loop f pattern buf1 (S q) out
      end
  end.

Section Grep.
(** [read(fd, p, n)]: the bytes it delivers, none at the end or on an error. *)
Context {R : Type} (read : R → nat → list Z * R).

(** The body of the loop, once [bs] has been read behind the [m] bytes that
    are left from the round before. *)
Definition grep_round (pattern : list Z) (m : nat) (buf : mem) (bs out : list Z) : option (nat * mem * list Z) :=
  buf1 ← store_all buf m bs;
  let m1 := (m + length bs)%nat in
  buf2 ← store buf1 m1 0;
  r ← lines_loop BUFSZ pattern buf2 0 out;
  let '(buf3, p, out') := r in
  let m2 := if decide (p = 0%nat) then 0%nat else m1 in
  if decide (0 < m2)%nat then
    let m3 := (m2 - p)%nat in
    buf4 ← ulib_memmove buf3 0 p m3;
    Some (m3, buf4, out')
  else Some (m2, buf3, out').

Fixpoint grep_loop (fuel : nat) (pattern : list Z) (m : nat) (buf : mem) (fd : R) (out : list Z) : option (list Z) :=
  let (bs, fd') := read fd (BUFSZ - m - 1) in
  if decide (bs = []) then Some out else
  match fuel with
  | O => None
  | S f =>
      r ← grep_round pattern m buf bs out;
      let '(m', buf', out') := r in
      grep_loop f pattern m' buf' fd' out'
  end.

Definition grep (fuel : nat) (pattern : list Z) (buf : mem) (fd : R) : option (list Z) := grep_loop fuel pattern 0 buf fd [].
End Grep.

(** ** What a pattern denotes *)

Inductive atom := Lit (c : Z) | Any.
Inductive elem := One (a : atom) | Star (a : atom) | End_.

Definition atom_of (c : Z) : atom := if decide (c = 46) then Any else Lit c.
Definition sat (a : atom) (x : Z) : Prop := match a with Lit c => x = c | Any => True end.

Fixpoint parse (re : list Z) : list elem :=
  match re with
  | [] => []
  | c :: re1 =>
      match re1 with
      | [] => [if decide (c = 36) then End_ else One (atom_of c)]
      | d :: re2 => if decide (d = 42) then Star (atom_of c) :: parse re2 else One (atom_of c) :: parse re1
      end
  end.

(** The elements match [s] where [rest] follows it. *)
Inductive accepts : list elem → list Z → list Z → Prop :=
  | acc_nil rest : accepts [] [] rest
  | acc_one a es x s rest : sat a x → accepts es s rest → accepts (One a :: es) (x :: s) rest
  | acc_none a es s rest : accepts es s rest → accepts (Star a :: es) s rest
  | acc_more a es x s rest : sat a x → accepts (Star a :: es) s rest → accepts (Star a :: es) (x :: s) rest
  | acc_end es : accepts es [] [] → accepts (End_ :: es) [] [].

(** A prefix of [t] matches; a part of it does. *)
Definition starts (es : list elem) (t : list Z) : Prop := ∃ s rest, t = s ++ rest ∧ accepts es s rest.
Definition occurs (es : list elem) (t : list Z) : Prop := ∃ pre t', t = pre ++ t' ∧ starts es t'.
Definition finds (re t : list Z) : Prop :=
  if decide (head re = Some 94) then starts (parse (tail re)) t else occurs (parse re) t.

Lemma starts_nil t : starts [] t.
Proof. exists [], t. split; [done|constructor]. Qed.
Lemma starts_one a es t : starts (One a :: es) t ↔ ∃ x t', t = x :: t' ∧ sat a x ∧ starts es t'.
Proof.
  split.
  - intros (s & rest & -> & Ha). inversion Ha; subst. eexists _, _. split; [done|]. split; [done|]. by eexists _, _.
  - intros (x & t' & -> & Hx & s & rest & -> & Ha). exists (x :: s), rest. split; [done|]. by constructor.
Qed.
Lemma starts_star a es t : starts (Star a :: es) t ↔ starts es t ∨ ∃ x t', t = x :: t' ∧ sat a x ∧ starts (Star a :: es) t'.
Proof.
  split.
  - intros (s & rest & -> & Ha). inversion Ha; subst; [left; by eexists _, _|right].
    eexists _, _. split; [done|]. split; [done|]. by eexists _, _.
  - intros [(s & rest & -> & Ha)|(x & t' & -> & Hx & s & rest & -> & Ha)].
    + exists s, rest. split; [done|]. by constructor.
    + exists (x :: s), rest. split; [done|]. by constructor.
Qed.
Lemma starts_end t : starts [End_] t ↔ t = [].
Proof.
  split; [|intros ->; exists [], []; split; [done|]; do 2 constructor].
  intros (s & rest & -> & Ha). by inversion Ha; subst.
Qed.
Lemma occurs_cons es x t : occurs es (x :: t) ↔ starts es (x :: t) ∨ occurs es t.
Proof.
  split.
  - intros ([|y pre] & t' & E & Hs); simplify_eq/=; [by left|right]. by exists pre, t'.
  - intros [Hs|(pre & t' & -> & Hs)]; [by exists [], (x :: t)|by exists (x :: pre), t'].
Qed.
Lemma occurs_nil es : occurs es [] ↔ starts es [].
Proof.
  split; [|by exists [], []]. intros (pre & t' & E & Hs). by destruct pre, t'.
Qed.
Lemma sat_atom_of c x : sat (atom_of c) x ↔ c = 46 ∨ c = x.
Proof. unfold atom_of. case_decide; simpl; naive_solver. Qed.

(** ** The matcher decides the language *)

Definition decides (o : option bool) (P : Prop) : Prop := ∃ b, o = Some b ∧ (b = true ↔ P).

Lemma decides_iff o P Q : decides o P → (P ↔ Q) → decides o Q.
Proof. intros (b & E & Hb) HPQ. exists b. split; [done|]. by rewrite Hb. Qed.
Lemma decides_true P : P → decides (Some true) P.
Proof. intros HP. by exists true. Qed.
Lemma decides_false P : ¬ P → decides (Some false) P.
Proof. intros HP. by exists false. Qed.
(** [if(o) return 1; k] *)
Lemma decides_or (o k : option bool) P Q : decides o P → decides k Q → decides (b ← o; if (b : bool) then Some true else k) (P ∨ Q).
Proof.
  intros (b & -> & Hb) (b' & -> & Hb'). destruct b; simpl; [exists true|exists b']; (split; [done|]); naive_solver.
Qed.

Lemma terminated_cons c s : terminated (c :: s) → c ≠ 0 → terminated s.
Proof. unfold terminated. rewrite elem_of_cons. naive_solver. Qed.
Lemma cstr_cons c s : c ≠ 0 → cstr (c :: s) = c :: cstr s.
Proof. intros Hc. simpl. by rewrite decide_False. Qed.

Lemma matchstar_decides here c es : (∀ t, terminated t → decides (here t) (starts es (cstr t))) →
  ∀ text, terminated text → decides (matchstar here c text) (starts (Star (atom_of c) :: es) (cstr text)).
Proof.
  intros Hh. induction text as [|t text IH]; intros Ht; [by apply elem_of_nil in Ht|]. cbn [matchstar].
  eapply decides_iff; [apply decides_or; [by apply Hh|]|symmetry; apply starts_star].
  destruct (decide _) as [[H0 Hc]|Hn].
  - rewrite cstr_cons by done. eapply decides_iff; [by eapply IH, terminated_cons|]. split.
    + intros Hs. exists t, (cstr text). rewrite sat_atom_of. naive_solver.
    + intros (x & t' & E & _ & Hs). by simplify_eq.
  - apply decides_false. intros (x & t' & E & Hx & _). rewrite sat_atom_of in Hx. simpl in E. case_decide; simplify_eq. naive_solver.
Qed.

Lemma matchhere_decides re : ∀ text, terminated re → terminated text →
  decides (matchhere re text) (starts (parse (cstr re)) (cstr text)).
Proof.
  induction re as [re IH] using (induction_ltof1 _ length). intros text Hre Ht.
  destruct re as [|c re1]; [by apply elem_of_nil in Hre|]. cbn [matchhere].
  destruct (decide (c = 0)) as [->|Hc]; [apply decides_true, starts_nil|]. pose proof (terminated_cons _ _ Hre Hc) as Hre1.
  rewrite cstr_cons by done. destruct re1 as [|d re2]; [by apply elem_of_nil in Hre1|].
  destruct (decide (d = 42)) as [->|Hd].
  { rewrite cstr_cons by done. cbn [parse]. rewrite decide_True by done. apply matchstar_decides; [|done].
    intros t Ht'. apply IH; [unfold ltof; simpl; lia|by eapply terminated_cons|done]. }
  destruct (decide _) as [[-> ->]|Hend].
  { simpl. destruct text as [|t text]; [by apply elem_of_nil in Ht|]. simpl. eapply decides_iff; [|symmetry; apply starts_end].
    exists (bool_decide (t = 0)). split; [done|]. rewrite bool_decide_eq_true. case_decide; naive_solver. }
  assert (parse (c :: cstr (d :: re2)) = One (atom_of c) :: parse (cstr (d :: re2))) as ->.
  { simpl. case_decide; [rewrite decide_False by naive_solver; done|]. by rewrite decide_False. }
  destruct text as [|t text]; [by apply elem_of_nil in Ht|]. destruct (decide _) as [[H0 Hct]|Hn].
  - rewrite (cstr_cons t) by done. eapply decides_iff; [apply IH; [unfold ltof; simpl; lia|done|by eapply terminated_cons]|].
    rewrite starts_one. split; [intros Hs; exists t, (cstr text); rewrite sat_atom_of; naive_solver|].
    intros (x & t' & E & _ & Hs). by simplify_eq.
  - apply decides_false. rewrite starts_one. intros (x & t' & E & Hx & _). rewrite sat_atom_of in Hx. simpl in E.
    case_decide; simplify_eq. naive_solver.
Qed.

Lemma match_loop_decides re : terminated re → ∀ text, terminated text →
  decides (match_loop re text) (occurs (parse (cstr re)) (cstr text)).
Proof.
  intros Hre. induction text as [|t text IH]; intros Ht; [by apply elem_of_nil in Ht|]. cbn [match_loop].
  destruct (decide (t ≠ 0)) as [H0|H0].
  - rewrite cstr_cons by done.
    eapply decides_iff; [apply decides_or; [|by eapply IH, terminated_cons]|symmetry; apply occurs_cons].
    rewrite <- cstr_cons by done. by apply matchhere_decides.
  - eapply decides_iff; [apply decides_or; [by apply matchhere_decides|apply (decides_false False); tauto]|].
    simpl. rewrite decide_True by (destruct (decide (t = 0)); naive_solver). rewrite occurs_nil. naive_solver.
Qed.

Lemma match_spec re text : terminated re → terminated text → decides (match_ re text) (finds (cstr re) (cstr text)).
Proof.
  intros Hre Ht. destruct re as [|c re]; [by apply elem_of_nil in Hre|].
  unfold match_, finds. simpl. destruct (decide (c = 94)) as [->|Hc].
  - rewrite decide_True by done. apply matchhere_decides; [by eapply terminated_cons|done].
  - pose proof (match_loop_decides _ Hre _ Ht) as Hl. rewrite decide_False; [done|].
    simpl. destruct (decide (c = 0)); simpl; congruence.
Qed.

(** C39: The matcher terminates on every pattern and text, stays inside the two
    strings, and its answer is whether the text has a part (a prefix for a
    pattern that starts with a caret) in the language of the pattern: literal
    characters, a dot for any character, a star for repetition, a final dollar
    sign for the end of the text. *)
Theorem match_decides (re text : list Z) :
  terminated re → terminated text → ∃ b, match_ re text = Some b ∧ (b = true ↔ finds (cstr re) (cstr text)).
Proof. apply match_spec. Qed.

(** ** Lines *)

(** The lines of [t] that have ended, and the rest. *)
Fixpoint lines (t : list Z) : list (list Z) * list Z :=
  match t with
  | [] => ([], [])
  | x :: t' =>
      let (ls, tl) := lines t' in
      if decide (x = 10) then ([] :: ls, tl) else
      match ls with [] => ([], x :: tl) | l :: ls' => ((x :: l) :: ls', tl) end
  end.

(** The lines that satisfy [P], with their newlines. *)
Inductive selected (P : list Z → Prop) : list (list Z) → list Z → Prop :=
  | sel_nil : selected P [] []
  | sel_yes l ls o : P l → selected P ls o → selected P (l :: ls) (l ++ 10 :: o)
  | sel_no l ls o : ¬ P l → selected P ls o → selected P (l :: ls) o.

Lemma selected_app P ls o ls' o' : selected P ls o → selected P ls' o' → selected P (ls ++ ls') (o ++ o').
Proof.
  intros H1 H2. induction H1; simpl; [done| |by constructor]. rewrite <- app_assoc. simpl. by constructor.
Qed.

Lemma lines_none t : 10 ∉ t → lines t = ([], t).
Proof.
  induction t as [|x t IH]; [done|]. rewrite not_elem_of_cons. intros [Hx Ht]. simpl. rewrite (IH Ht), decide_False; done.
Qed.
Lemma lines_first l t : 10 ∉ l → lines (l ++ 10 :: t) = (l :: (lines t).1, (lines t).2).
Proof.
  induction l as [|x l IH]; simpl; [intros _; by destruct (lines t)|]. rewrite not_elem_of_cons. intros [Hx Hl].
  rewrite (IH Hl), decide_False; done.
Qed.
Lemma split_newline t : 10 ∉ t ∨ ∃ l t', t = l ++ 10 :: t' ∧ 10 ∉ l.
Proof.
  destruct (decide (10 ∈ t)) as [Hin|]; [right|by left]. apply list_elem_of_split_l in Hin as (l & t' & -> & Hl). by exists l, t'.
Qed.
Lemma lines_ind (Q : list Z → Prop) :
  (∀ t, 10 ∉ t → Q t) → (∀ l t, 10 ∉ l → Q t → Q (l ++ 10 :: t)) → ∀ t, Q t.
Proof.
  intros H1 H2 t. induction t as [t IH] using (induction_ltof1 _ length).
  destruct (split_newline t) as [?|(l & t' & -> & Hl)]; [by apply H1|]. apply H2; [done|]. apply IH. unfold ltof. rewrite length_app. simpl. lia.
Qed.

Lemma lines_app t t' : lines (t ++ t') = ((lines t).1 ++ (lines ((lines t).2 ++ t')).1, (lines ((lines t).2 ++ t')).2).
Proof.
  revert t. apply lines_ind; [intros t Ht|intros l t Hl IH].
  - rewrite (lines_none t Ht). cbn [fst snd app]. by destruct (lines (t ++ t')).
  - rewrite <- app_assoc. cbn [app]. rewrite !lines_first by done. cbn [fst snd]. by rewrite IH.
Qed.
Lemma lines_rest t : 10 ∉ (lines t).2.
Proof. revert t. apply lines_ind; [intros t Ht; by rewrite lines_none|]. intros l t Hl IH. by rewrite lines_first. Qed.
Lemma lines_suffix t : ∃ pre, t = pre ++ (lines t).2 ∧ (pre = [] ↔ (lines t).1 = []).
Proof.
  revert t. apply lines_ind; [intros t Ht; exists []; by rewrite lines_none|]. intros l t Hl (pre & E & _).
  rewrite lines_first by done. exists (l ++ 10 :: pre). simpl. split; [by rewrite <- app_assoc; simpl; rewrite <- E|].
  split; [by destruct l|done].
Qed.

Lemma lines_rest_le t : (length (lines t).2 ≤ length t)%nat.
Proof. destruct (lines_suffix t) as (pre & E & _). apply (f_equal length) in E. rewrite length_app in E. lia. Qed.

(** ** The buffer *)

Lemma strchr_none t junk : 0 ∉ t → 10 ∉ t → strchr (t ++ 0 :: junk) 10 = Some None.
Proof.
  induction t as [|x t IH]; simpl; [done|]. rewrite !not_elem_of_cons. intros [H0 Hz] [H1 Hn].
  rewrite !decide_False by congruence. by apply IH.
Qed.
Lemma strchr_some l t : 0 ∉ l → 10 ∉ l → strchr (l ++ 10 :: t) 10 = Some (Some (10 :: t)).
Proof.
  induction l as [|x l IH]; simpl; [done|]. rewrite !not_elem_of_cons. intros [H0 Hz] [H1 Hn].
  rewrite !decide_False by congruence. by apply IH.
Qed.
Lemma cstr_app l t : 0 ∉ l → cstr (l ++ 0 :: t) = l.
Proof.
  induction l as [|x l IH]; simpl; [done|]. rewrite not_elem_of_cons. intros [H0 Hz]. rewrite decide_False by congruence. by rewrite IH.
Qed.

(** A store [n] bytes after [p]. *)
Lemma store_at p buf l x t v : drop p buf = l ++ x :: t → store buf (p + length l) v = Some (take p buf ++ l ++ v :: t).
Proof.
  intros E. assert (buf = take p buf ++ l ++ x :: t) as Eb by (rewrite <- E; by rewrite take_drop).
  assert (length (take p buf) = p) as Hp.
  { apply length_take_le. pose proof (f_equal length E) as El. rewrite length_drop, length_app in El. simpl in El. lia. }
  unfold store. rewrite decide_True; last first.
  { rewrite Eb at 1. rewrite !length_app. simpl. lia. }
  f_equal. rewrite Eb at 1. rewrite insert_app_r_alt by (rewrite Hp; lia). f_equal.
  rewrite insert_app_r_alt by (rewrite Hp; lia). f_equal. rewrite Hp. by replace (p + length l - p - length l)%nat with 0%nat by lia.
Qed.

Section Stream.
Context (pattern : list Z) (Hp : terminated pattern).
Notation hit := (finds (cstr pattern)).

(** The buffer from [p] on holds [t] and a NUL: the lines of [t] that match are
    written, and [p] ends at the rest of [t]. *)
Lemma lines_loop_spec junk t : ∀ fuel p buf out, drop p buf = t ++ 0 :: junk → 0 ∉ t → (length t ≤ fuel)%nat →
  ∃ buf' o, lines_loop fuel pattern buf p out = Some (buf', (p + (length t - length (lines t).2))%nat, out ++ o) ∧
    selected hit (lines t).1 o ∧ length buf' = length buf ∧
    drop (p + (length t - length (lines t).2)) buf' = (lines t).2 ++ 0 :: junk.
Proof.
  induction t as [t Ht|l t Hl IH] using lines_ind; intros fuel p buf out E Hz Hf.
  { exists buf, []. rewrite lines_none by done. cbn [fst snd]. rewrite Nat.sub_diag, Nat.add_0_r, app_nil_r.
    destruct fuel; cbn [lines_loop]; rewrite E, strchr_none by done; (split; [done|]); (split; [constructor|done]). }
  rewrite <- app_assoc in E. cbn [app] in E. apply not_elem_of_app in Hz as [Hz1 [_ Hz2]%not_elem_of_cons].
  rewrite length_app in Hf. simpl in Hf. destruct fuel as [|f]; [lia|]. cbn [lines_loop]. rewrite E, strchr_some by done.
  cbn [mbind option_bind]. pose proof (f_equal length E) as El. rewrite length_drop, length_app in El. cbn [length] in El.
  replace (length buf - length (10%Z :: t ++ 0%Z :: junk))%nat with (p + length l)%nat by (cbn [length]; lia).
  rewrite (store_at p buf l _ _ 0 E). cbn [mbind option_bind].
  assert (length (take p buf) = p) as Hlp by (apply length_take_le; lia).
  rewrite lines_first by done. cbn [fst snd]. rewrite drop_app_length' by done.
  destruct (match_spec pattern (l ++ 0 :: t ++ 0 :: junk)) as (b & -> & Hb);
    [done|unfold terminated; set_solver|]. rewrite cstr_app in Hb by done. cbn [mbind option_bind].
  replace (p + (length (l ++ 10%Z :: t) - length (lines t).2))%nat with (S (p + length l) + (length t - length (lines t).2))%nat
    by (pose proof (lines_rest_le t); rewrite length_app; cbn [length]; lia).
  assert (∀ v, drop (S (p + length l)) (take p buf ++ l ++ v :: t ++ 0 :: junk) = t ++ 0 :: junk) as Hd.
  { intros v. rewrite drop_app_ge by lia. rewrite Hlp. replace (S (p + length l) - p)%nat with (length l + 1)%nat by lia.
    by rewrite <- drop_drop, drop_app_length. }
  assert (∀ v, length (take p buf ++ l ++ v :: t ++ 0 :: junk) = length buf) as Hn.
  { intros v. rewrite !length_app. cbn [length]. rewrite length_app. cbn [length]. rewrite length_app in El. cbn [length] in El. lia. }
  destruct b; cbn [mbind option_bind].
  - rewrite (store_at p _ l 0 (t ++ 0 :: junk) 10) by (by rewrite drop_app_length' by done). cbn [mbind option_bind].
    rewrite take_app_length' by done. rewrite drop_app_length' by done.
    destruct (IH f (S (p + length l)) (take p buf ++ l ++ 10 :: t ++ 0 :: junk) (out ++ take (S (p + length l) - p) (l ++ 10 :: t ++ 0 :: junk)))
      as (buf' & o & -> & Ho & Hlen & Hdrop); [apply Hd|done|lia|]. exists buf', (l ++ 10 :: o).
    replace (S (p + length l) - p)%nat with (length (l ++ [10])) by (rewrite length_app; simpl; lia).
    rewrite (app_assoc l [10] (_ ++ _) : l ++ 10 :: t ++ 0 :: junk = _), take_app_length.
    split; [by rewrite <- !app_assoc|]. split; [constructor; [by apply Hb|done]|]. by rewrite Hlen, Hn.
  - destruct (IH f (S (p + length l)) (take p buf ++ l ++ 0 :: t ++ 0 :: junk) out) as (buf' & o & -> & Ho & Hlen & Hdrop); [apply Hd|done|lia|].
    exists buf', o. split; [done|]. split; [constructor; [by rewrite <- Hb|done]|]. by rewrite Hlen, Hn.
Qed.

Lemma bufsz_pos : (0 < BUFSZ - 1)%nat.
Proof. apply Nat.ltb_lt. by vm_compute. Qed.

Lemma obind_Some {A B} (a : A) (f : A → option B) : Some a ≫= f = f a.
Proof. done. Qed.

(** One round: the bytes [bs] come after the rest [tl] of the last one. *)
Lemma fill_buffer buf tl bs : length buf = BUFSZ → take (length tl) buf = tl → (length tl + length bs < BUFSZ)%nat →
  ∃ buf1 buf2 junk, store_all buf (length tl) bs = Some buf1 ∧ store buf1 (length tl + length bs) 0 = Some buf2 ∧
    buf2 = (tl ++ bs) ++ 0 :: junk ∧ length buf2 = BUFSZ.
Proof.
  intros Hb Ht Hl. rewrite store_all_spec by (rewrite Hb; lia). rewrite Ht.
  destruct (drop (length tl + length bs) buf) as [|x junk] eqn:Ed.
  { apply (f_equal length) in Ed. rewrite length_drop, Hb in Ed. simpl in Ed. lia. }
  exists (tl ++ bs ++ x :: junk), ((tl ++ bs) ++ 0 :: junk), junk. split; [done|].
  pose proof (store_at 0 (tl ++ bs ++ x :: junk) (tl ++ bs) x junk 0) as Hs. rewrite length_app in Hs. cbn [Nat.add take app drop] in Hs. rewrite Hs; [|by rewrite app_assoc].
  split; [done|]. split; [done|]. apply (f_equal length) in Ed. rewrite length_drop, Hb in Ed. rewrite !length_app. simpl in *. lia.
Qed.

(** What a round keeps: the text after the last newline, if there is one; a
    buffer without a newline is thrown away. *)
Definition kept (t : list Z) : list Z := match (lines t).1 with [] => [] | _ => (lines t).2 end.

Lemma grep_round_spec tl buf bs out : length buf = BUFSZ → take (length tl) buf = tl → (length tl + length bs < BUFSZ)%nat → 0 ∉ tl ++ bs →
  ∃ buf' o, grep_round pattern (length tl) buf bs out = Some (length (kept (tl ++ bs)), buf', out ++ o) ∧
    selected hit (lines (tl ++ bs)).1 o ∧ length buf' = BUFSZ ∧ take (length (kept (tl ++ bs))) buf' = kept (tl ++ bs).
Proof.
  intros Hb Ht Hl Hz. unfold grep_round. destruct (fill_buffer buf tl bs Hb Ht Hl) as (buf1 & buf2 & junk & -> & E1 & E2 & Hb2).
  rewrite obind_Some. rewrite E1. rewrite obind_Some. rewrite <- length_app in *. revert E2 Hl Hz. generalize (tl ++ bs). clear Ht E1. intros t E2 Hl Hz.
  destruct (lines_loop_spec junk t BUFSZ 0 buf2 out) as (buf3 & o & -> & Ho & Hb3 & Hd); [by rewrite E2|done|lia|].
  rewrite obind_Some. rewrite Nat.add_0_l in *. pose proof (lines_rest_le t) as Hle. destruct (lines_suffix t) as (pre & Ep & Hpre).
  apply (f_equal length) in Ep. rewrite (length_app pre) in Ep. rewrite Hb2 in Hb3. destruct (decide (pre = [])) as [->|Hne].
  - assert (kept t = []) as -> by (unfold kept; by rewrite (proj1 Hpre eq_refl)). simpl in Ep.
    rewrite (decide_True (P := (_ = _)%nat)) by lia. rewrite decide_False by lia. by exists buf3, o.
  - assert (kept t = (lines t).2) as -> by (unfold kept; destruct (lines t).1; [by destruct Hne; apply Hpre|done]).
    assert (0 < length pre)%nat by (destruct pre; [done|simpl; lia]). rewrite (decide_False (P := (_ = _)%nat)) by lia. rewrite decide_True by lia.
    replace (length t - (length t - length (lines t).2))%nat with (length (lines t).2) by lia.
    rewrite ulib_memmove_correct; [|rewrite Hb3; lia..|left; lia]. rewrite obind_Some. eexists _, o. split; [done|]. split; [done|].
    unfold moved. rewrite Hd, take_0, app_nil_l, take_app_length. split; [|by rewrite take_app_length].
    rewrite !length_app, length_drop, Hb3. lia.
Qed.

Lemma kept_ok t n : (length t ≤ n)%nat → 10 ∉ kept t ∧ (0 < n → length (kept t) < n)%nat.
Proof.
  intros Hn. unfold kept. destruct (lines_suffix t) as (pre & Ep & Hpre). destruct (lines t).1 eqn:El; [split; [apply not_elem_of_nil|done]|].
  split; [apply lines_rest|]. apply (f_equal length) in Ep. rewrite length_app in Ep. destruct pre; [by discriminate (proj1 Hpre eq_refl)|simpl in Ep; lia].
Qed.

Lemma kept_incl t x : x ∈ kept t → x ∈ t.
Proof.
  unfold kept. destruct (lines_suffix t) as (pre & Ep & _). destruct (lines t).1; [by intros ?%elem_of_nil|].
  intros Hin. rewrite Ep. apply elem_of_app. by right.
Qed.

(** A line that does not fit is the only way to lose one. *)
Lemma lines_kept t r n : r = [] ∨ length t = n → Forall (λ l, (length l < n)%nat) (lines (t ++ r)).1 →
  (lines (t ++ r)).1 = (lines t).1 ++ (lines (kept t ++ r)).1.
Proof.
  intros Hn Hf. rewrite lines_app in *. cbn [fst] in *. f_equal. unfold kept. destruct (lines t).1 eqn:El; [|done].
  destruct (lines_suffix t) as (pre & Ep & Hpre). rewrite (proj2 Hpre El), app_nil_l in Ep. rewrite <- Ep in Hf |- *.
  pose proof (lines_rest t) as Ht. rewrite <- Ep in Ht. rewrite app_nil_l in *. destruct Hn as [->|Hn]; [by rewrite app_nil_r|].
  destruct (split_newline r) as [Hr|(l & r' & -> & Hl)].
  - rewrite !lines_none; [done|done|]. by apply not_elem_of_app.
  - exfalso. rewrite app_assoc, lines_first in Hf by (by apply not_elem_of_app). inversion Hf as [|? ? Hlt]; subst.
    rewrite length_app in Hlt. lia.
Qed.

(** Reading a file: what is left of it. *)
Definition file_read (c : list Z) (n : nat) : list Z * list Z := (take n c, drop n c).

Lemma grep_loop_spec : ∀ fuel r tl buf out, length buf = BUFSZ → take (length tl) buf = tl → (length tl < BUFSZ - 1)%nat →
  10 ∉ tl → 0 ∉ tl ++ r → (length r ≤ fuel)%nat → Forall (λ l, (length l < BUFSZ - 1)%nat) (lines (tl ++ r)).1 →
  ∃ o, grep_loop file_read fuel pattern (length tl) buf r out = Some (out ++ o) ∧ selected hit (lines (tl ++ r)).1 o.
Proof.
  induction fuel as [|f IH]; intros r tl buf out Hb Ht Hm Hn Hz Hf Hl; cbn [grep_loop]; unfold file_read at 1; destruct (decide _) as [E|E].
  1, 3: exists []; assert (r = []) as -> by (destruct r as [|x r]; [done|]; destruct (BUFSZ - length tl - 1)%nat eqn:Ek; [lia|done]);
    rewrite !app_nil_r, lines_none by done; split; [done|constructor].
  { destruct r; [by rewrite take_nil in E|simpl in Hf; lia]. }
  remember (BUFSZ - length tl - 1)%nat as k eqn:Ek. pose proof (length_take r k) as Hlt. pose proof (length_drop r k) as Hld.
  assert (tl ++ r = (tl ++ take k r) ++ drop k r) as Er by (by rewrite <- app_assoc, take_drop).
  rewrite Er in *. clear Er. apply not_elem_of_app in Hz as [Hz Hzr].
  assert (length (tl ++ take k r) ≤ BUFSZ - 1)%nat as Hfit by (rewrite length_app; lia).
  destruct (grep_round_spec tl buf (take k r) out) as (buf' & o & -> & Ho & Hb' & Ht'); [done..|lia|done|]. rewrite obind_Some.
  destruct (kept_ok _ _ Hfit) as [Hk1 Hk2]. assert (drop k r = [] ∨ length (tl ++ take k r) = BUFSZ - 1)%nat as Hrest.
  { destruct (decide (k < length r)%nat); [right; rewrite length_app; lia|left; apply drop_ge; lia]. }
  rewrite (lines_kept _ _ _ Hrest Hl) in Hl |- *. apply Forall_app in Hl as [_ Hl].
  assert (0 ∉ kept (tl ++ take k r)) as Hzk by (intros Hin; by apply Hz, kept_incl).
  destruct (IH (drop k r) (kept (tl ++ take k r)) buf' (out ++ o)) as (o' & -> & Ho'); [done|done|apply Hk2; lia|done|by apply not_elem_of_app| |done|].
  { destruct r; [by rewrite take_nil in E|]. cbn [length] in *. lia. }
  exists (o ++ o'). split; [by rewrite app_assoc|]. by apply selected_app.
Qed.

(** C40: Searching a text of at most [fuel] bytes, read in pieces of whatever
    fits the buffer of 1024 bytes, ends and writes exactly the lines that the
    pattern finds a match in, in order and each with its newline, as long as no
    line is longer than the buffer: lines are put together across reads and
    none is lost or written twice. *)
Theorem grep_selects_lines (fuel : nat) (buf text : list Z) :
  length buf = BUFSZ → 0 ∉ text → (length text ≤ fuel)%nat → Forall (λ l, (length l < BUFSZ - 1)%nat) (lines text).1 →
  ∃ o, grep file_read fuel pattern buf text = Some o ∧ selected hit (lines text).1 o.
Proof.
  intros Hb Hz Hf Hl. apply (grep_loop_spec fuel text [] buf []); [done|apply take_0|exact bufsz_pos|apply not_elem_of_nil|exact Hz|done|exact Hl].
Qed.
End Stream.

(** ** Instances *)

(** The pattern [a.*c$] and the text [xabbc]; the lines [ab], [b], [cab]. *)
Definition re_abc : list Z := [97; 46; 42; 99; 36; 0].
Lemma match_decides_witness :
  terminated re_abc ∧ ∃ b, match_ re_abc [120; 97; 98; 98; 99; 0] = Some b ∧ (b = true ↔ finds (cstr re_abc) (cstr [120; 97; 98; 98; 99; 0])).
Proof.
  split; [unfold terminated, re_abc; set_solver|]. apply (match_decides re_abc [120; 97; 98; 98; 99; 0]); unfold terminated, re_abc; set_solver.
Defined.

Definition three_lines : list Z := [97; 98; 10; 98; 10; 99; 97; 98; 10].
Lemma grep_selects_lines_witness :
  let buf := replicate BUFSZ 0 in
  ∃ o, grep file_read 9 [97; 98; 0] buf three_lines = Some o ∧ selected (finds [97; 98]) (lines three_lines).1 o.
Proof.
  cbv zeta. apply (grep_selects_lines [97; 98; 0] ltac:(unfold terminated; set_solver) 9 (replicate BUFSZ 0) three_lines).
  - apply length_replicate.
  - unfold three_lines. set_solver.
  - vm_compute. lia.
  - repeat constructor; apply Nat.ltb_lt; vm_compute; reflexivity.
Defined.
Example grep_three_lines : grep file_read 9 [97; 98; 0] (replicate BUFSZ 0) three_lines = Some [97; 98; 10; 99; 97; 98; 10].
Proof. by vm_compute. Qed.

(** From a pipe a line may come in pieces, and [grep] throws away a buffer
    without a newline: a line [ab] read as [a] and [b] is not found. *)
Definition byte_read (c : list Z) (n : nat) : list Z * list Z := (take (n `min` 1) c, drop (n `min` 1) c).
Example grep_drops_split_line : grep byte_read 9 [97; 98; 0] (replicate BUFSZ 0) [97; 98; 10] = Some [].
Proof. by vm_compute. Qed.
