(* ===== verification/Sh.v ===== *)
(** * The shell's command line (sh.c)

    The recursive-descent parser of the shell, on a line in memory: positions
    are indices into the buffer, a command holds the positions of its words,
    and [nulterminate] then ends the words with NULs in place.  The state of a
    parsing routine is [*ps].  The commands that the constructors allocate are
    values of [cmd]; malloc is taken to succeed, as the code does. *)

From S2P Require Import Prelude Sysfile CString.

Local Open Scope Z_scope.

Definition MAXARGS : nat := 10.

(** [struct cmd] and its kinds, for words of type [W]: [argv] with [eargv], a
    file with its end. *)
Inductive cmd (W : Type) :=
  | EXEC (argv : list W)
  | REDIR (c : cmd W) (file : W) (mode fd : Z)
  | PIPE (left right : cmd W)
  | LIST (left right : cmd W)
  | BACK (c : cmd W).
Arguments EXEC {W}.
Arguments REDIR {W}.
Arguments PIPE {W}.
Arguments LIST {W}.
Arguments BACK {W}.

(** A word of the line: its start and its end. *)
Notation word := (nat * nat)%type.

Definition whitespace : list Z := [32; 9; 13; 10; 11].
Definition symbols : list Z := [60; 124; 62; 38; 59; 40; 41].

(** [strchr(set, c)] as a condition. *)
Definition strchr_in (set : list Z) (c : Z) : bool :=
  match strchr (set ++ [0]) c with Some (Some _) => true | _ => false end.

Section Parser.
Context (buf : mem) (es : nat).

Definition at_ (s : nat) : M nat Z := lookupM (λ _, buf !! s).

(** [while(s < es && test) s++] *)
Fixpoint skip_while (fuel : nat) (test : Z → bool) (s : nat) : M nat nat :=
  if decide (s < es)%nat then
    c ← at_ s;
    if test c then match fuel with O => diverge | S f => skip_while f test (S s) end
    else mret s
  else mret s.
Definition skip (test : Z → bool) (s : nat) : M nat nat := skip_while (es - s) test s.

Definition is_space (c : Z) : bool := strchr_in whitespace c.
Definition in_word (c : Z) : bool := negb (strchr_in whitespace c) && negb (strchr_in symbols c).

(** The token, and [*q] and [*eq]. *)
Definition gettoken : M nat (Z * word) :=
  s ← gets (λ s, s);
  q ← skip is_space s;
  c ← at_ q;
  r ← (if decide (c = 0) then mret (c, q)
       else if decide (c = 124 ∨ c = 40 ∨ c = 41 ∨ c = 59 ∨ c = 38 ∨ c = 60) then mret (c, S q)
       else if decide (c = 62) then
         d ← at_ (S q);
         if decide (d = 62) then mret (43, S (S q)) else mret (c, S q)
       else e ← skip in_word q; mret (97, e));
  s' ← skip is_space r.2;
  modify (λ _, s');;
  mret (r.1, (q, r.2)).

Definition peek (toks : list Z) : M nat bool :=
  s ← gets (λ s, s);
  s' ← skip is_space s;
  modify (λ _, s');;
  c ← at_ s';
  mret (bool_decide (c ≠ 0) && strchr_in toks c).

(** [cmd = redircmd(cmd, ...)] for each redirection, the first innermost. *)
Definition redir {W} : Type := (W * Z * Z)%type.
Definition wrap {W} (c : cmd W) (rs : list (@redir W)) : cmd W :=
  foldl (λ c r, REDIR c r.1.1 r.1.2 r.2) c rs.

Fixpoint parseredirs (fuel : nat) : M nat (list (@redir word)) :=
  b ← peek [60; 62];
  if (b : bool) then
    match fuel with
    | O => diverge
    | S f =>
        t ← gettoken;
        w ← gettoken;
        if decide (w.1 ≠ 97) then panic "missing file for redirection" else
        rs ← parseredirs f;
        if decide (t.1 = 60) then mret ((w.2, O_RDONLY, 0) :: rs)
        else if decide (t.1 = 62 ∨ t.1 = 43) then mret ((w.2, Z.lor O_WRONLY O_CREATE, 1) :: rs)
        else mret rs
    end
  else mret [].

(** The loop over the arguments; [args] are stored, [rs] are around [cmd]. *)
Fixpoint parseargs (fuel : nat) (args : list word) (rs : list (@redir word)) : M nat (cmd word) :=
  b ← peek [124; 41; 38; 59];
  if (b : bool) then mret (wrap (EXEC args) rs) else
  t ← gettoken;
  if decide (t.1 = 0) then mret (wrap (EXEC args) rs) else
  if decide (t.1 ≠ 97) then panic "syntax" else
  if decide (MAXARGS ≤ length args)%nat then fault else
  let args := args ++ [t.2] in
  if decide (MAXARGS ≤ length args)%nat then panic "too many args" else
  match fuel with
  | O => diverge
  | S f => rs' ← parseredirs es; parseargs f args (rs ++ rs')
  end.

(** [while(peek(ps, es, "&")) ... cmd = backcmd(cmd)] *)
Fixpoint parsebacks (fuel : nat) (c : cmd word) : M nat (cmd word) :=
  b ← peek [38];
  if (b : bool) then
    match fuel with O => diverge | S f => gettoken;; parsebacks f (BACK c) end
  else mret c.

Definition parseblock (line : M nat (cmd word)) : M nat (cmd word) :=
  b ← peek [40];
  if negb b then panic "parseblock" else
  gettoken;;
  c ← line;
  b ← peek [41];
  if negb b then panic "syntax - missing )" else
  gettoken;;
  rs ← parseredirs es;
  mret (wrap c rs).

Definition parseexec (line : M nat (cmd word)) : M nat (cmd word) :=
  b ← peek [40];
  if (b : bool) then parseblock line else
  rs ← parseredirs es;
  parseargs es [] rs.

Fixpoint parsepipe (fuel : nat) (line : M nat (cmd word)) : M nat (cmd word) :=
  c ← parseexec line;
  b ← peek [124];
  if (b : bool) then
    match fuel with
    | O => diverge
    | S f => gettoken;; r ← parsepipe f line; mret (PIPE c r)
    end
  else mret c.

(** [fuel] bounds the nesting of lists and blocks. *)
Fixpoint parseline (fuel : nat) : M nat (cmd word) :=
  match fuel with
  | O => diverge
  | S f =>
      c ← parsepipe es (parseline f);
      c ← parsebacks es c;
      b ← peek [59];
      if (b : bool) then gettoken;; r ← parseline f; mret (LIST c r)
      else mret c
  end.
End Parser.

Fixpoint nulterminate (m : mem) (c : cmd word) : option mem :=
  match c with
  | EXEC argv => foldl (λ o w, m ← o; store m w.2 0) (Some m) argv
  | REDIR c w _ _ => m' ← nulterminate m c; store m' w.2 0
  | PIPE l r | LIST l r => m' ← nulterminate m l; nulterminate m' r
  | BACK c => nulterminate m c
  end.

(** The command and the buffer it points into. *)
Definition parsecmd (buf : mem) : M nat (cmd word * mem) :=
  es ← lookupM (λ _, strlen buf);
  modify (λ _, 0%nat);;
  c ← parseline buf es (S es);
  peek buf es [];;
  s ← gets (λ s, s);
  if decide (s ≠ es) then panic "syntax" else
  m ← lookupM (λ _, nulterminate buf c);
  mret (c, m).
