(* ===== verification/ShProps.v ===== *)
(** * The shell's parser against its grammar (sh.c)

    A line is a sequence of tokens; the grammar says which commands a sequence
    stands for.  The parser accepts exactly the lines of the grammar, and the
    words of the command it builds are C strings in its buffer. *)

From S2P Require Import Prelude Sysfile CString Sh.

Local Open Scope Z_scope.

(** ** Tokens *)

Inductive tok := Word (w : list Z) | Sym (c : Z) | Append.

(** The tokens of a text. *)
Fixpoint lex (t : list Z) : list tok :=
  match t with
  | [] => []
  | c :: t' =>
      let ts := lex t' in
      if is_space c then ts
      else if in_word c then
        match t', ts with
        | d :: _, Word w :: ts' => if in_word d then Word (c :: w) :: ts' else Word [c] :: ts
        | _, _ => Word [c] :: ts
        end
      else if decide (c = 62) then
        match t' with
        | d :: t'' => if decide (d = 62) then Append :: lex t'' else Sym c :: ts
        | [] => Sym c :: ts
        end
      else Sym c :: ts
  end.

(** ** The grammar *)

Inductive redirs : list tok → list (@redir (list Z)) → Prop :=
  | redirs_nil : redirs [] []
  | redirs_in w ts rs : redirs ts rs → redirs (Sym 60 :: Word w :: ts) ((w, O_RDONLY, 0) :: rs)
  | redirs_out w ts rs : redirs ts rs → redirs (Sym 62 :: Word w :: ts) ((w, Z.lor O_WRONLY O_CREATE, 1) :: rs)
  | redirs_app w ts rs : redirs ts rs → redirs (Append :: Word w :: ts) ((w, Z.lor O_WRONLY O_CREATE, 1) :: rs).

(** Arguments, each followed by redirections. *)
Inductive args : list tok → list (list Z) → list (@redir (list Z)) → Prop :=
  | args_nil : args [] [] []
  | args_cons w rts rs ts ws rs' : redirs rts rs → args ts ws rs' → args (Word w :: rts ++ ts) (w :: ws) (rs ++ rs').

Inductive nonterm := Line | Pipeline | Simple.

(** Which commands a sequence of tokens may stand for. *)
Inductive derives : nonterm → list tok → cmd (list Z) → Prop :=
  | d_words rts rs ts ws rs' : redirs rts rs → args ts ws rs' → (length ws < MAXARGS)%nat →
      derives Simple (rts ++ ts) (wrap (EXEC ws) (rs ++ rs'))
  | d_block ts c rts rs : derives Line ts c → redirs rts rs → derives Simple (Sym 40 :: ts ++ Sym 41 :: rts) (wrap c rs)
  | d_simple ts c : derives Simple ts c → derives Pipeline ts c
  | d_pipe ts c ts' c' : derives Simple ts c → derives Pipeline ts' c' → derives Pipeline (ts ++ Sym 124 :: ts') (PIPE c c')
  | d_line n ts c : derives Pipeline ts c → derives Line (ts ++ replicate n (Sym 38)) (Nat.iter n BACK c)
  | d_list n ts c ts' c' : derives Pipeline ts c → derives Line ts' c' →
      derives Line (ts ++ replicate n (Sym 38) ++ Sym 59 :: ts') (LIST (Nat.iter n BACK c) c').

(** ** Characters *)

Lemma strchr_in_spec set c : 0 ∉ set → strchr_in set c = true ↔ c ∈ set.
Proof.
  unfold strchr_in. induction set as [|x set IH]; simpl; [intros _; split; [done|by intros ?%elem_of_nil]|].
  rewrite not_elem_of_cons. intros [H0 Hs]. rewrite decide_False by congruence. rewrite elem_of_cons.
  destruct (decide (x = c)); [naive_solver|]. rewrite IH by done. naive_solver.
Qed.
Lemma is_space_spec c : is_space c = true ↔ c ∈ whitespace.
Proof. apply strchr_in_spec. unfold whitespace. set_solver. Qed.
Lemma in_word_spec c : in_word c = true ↔ c ∉ whitespace ∧ c ∉ symbols.
Proof.
  unfold in_word. rewrite andb_true_iff, !negb_true_iff, <- !not_true_iff_false.
  rewrite !strchr_in_spec by (unfold whitespace, symbols; set_solver). done.
Qed.

(** What a character is for [gettoken]. *)
Lemma chr_cases c : is_space c = true ∨ (is_space c = false ∧ in_word c = true ∧ c ∉ symbols) ∨
  (is_space c = false ∧ in_word c = false ∧ c ∈ symbols).
Proof.
  destruct (is_space c) eqn:Es; [by left|right].
  assert (c ∉ whitespace) as Hw by (rewrite <- is_space_spec; congruence). destruct (decide (c ∈ symbols)) as [Hs|Hs].
  - right. split; [done|]. split; [|done]. apply not_true_iff_false. rewrite in_word_spec. tauto.
  - left. split; [done|]. split; [by rewrite in_word_spec|done].
Qed.

Definition stops (test : Z → bool) (t : list Z) : Prop := match t with [] => True | c :: _ => test c = false end.

Lemma lex_spaces u t : Forall (λ c, is_space c = true) u → lex (u ++ t) = lex t.
Proof. induction 1 as [|c u Hc Hu IH]; [done|]. simpl. by rewrite Hc. Qed.
Lemma in_word_not_space c : in_word c = true → is_space c = false.
Proof. rewrite in_word_spec, <- not_true_iff_false, is_space_spec. tauto. Qed.
Lemma lex_word w t : w ≠ [] → Forall (λ c, in_word c = true) w → stops in_word t → lex (w ++ t) = Word w :: lex t.
Proof.
  intros Hne Hw Ht. induction Hw as [|c w Hc Hw IH]; [done|]. simpl. rewrite (in_word_not_space c Hc), Hc.
  destruct w as [|d w].
  - simpl. destruct t as [|d t]; [done|]. simpl in Ht. rewrite Ht. by destruct (lex (d :: t)) as [|[]].
  - rewrite IH by done. simpl. inversion Hw as [|? ? Hd]; subst. by rewrite Hd.
Qed.
Lemma lex_in_word d t : in_word d = true → ∃ w ts, lex (d :: t) = Word w :: ts.
Proof.
  intros Hd. cbn [lex]. rewrite (in_word_not_space d Hd), Hd. generalize (lex t). intros ts.
  destruct t as [|e t], ts as [|[] ts]; try (by eexists _, _). destruct (in_word e); by eexists _, _.
Qed.
Lemma lex_sym c t : c ∈ symbols → (c = 62 → stops (λ d, bool_decide (d = 62)) t) → lex (c :: t) = Sym c :: lex t.
Proof.
  intros Hc Ht. destruct (chr_cases c) as [Hs|[(_ & _ & ?)|(Hs & Hw & _)]]; [|done|].
  { exfalso. apply is_space_spec in Hs. unfold symbols, whitespace in *. set_solver. }
  simpl. rewrite Hs, Hw. destruct (decide (c = 62)) as [->|]; [|done]. destruct t as [|d t]; [done|].
  specialize (Ht eq_refl). simpl in Ht. apply bool_decide_eq_false in Ht. by rewrite decide_False.
Qed.
Lemma lex_append t : lex (62 :: 62 :: t) = Append :: lex t.
Proof. done. Qed.

(** ** The line in memory *)

Section Line.
Context (text junk : list Z) (Hz : 0 ∉ text).
Notation buf := (text ++ 0 :: junk).
Notation es := (length text).
Notation txt p := (drop p text).

(** The character at [p]. *)
Lemma at_char p s : (p ≤ es)%nat → wp (at_ buf p) s (λ c s', s' = s ∧ match txt p with [] => c = 0 ∧ p = es | d :: _ => c = d ∧ d ≠ 0 ∧ (p < es)%nat end).
Proof.
  intros Hp. unfold at_. destruct (txt p) as [|d t] eqn:E.
  - assert (p = es) as -> by (apply (f_equal length) in E; rewrite length_drop in E; simpl in E; lia).
    eapply wp_lookupM; [|done]. rewrite lookup_app_r by lia. by rewrite Nat.sub_diag.
  - assert (text !! p = Some d) as Hd by (rewrite <- (Nat.add_0_r p), <- lookup_drop, E; done).
    eapply wp_lookupM; [rewrite lookup_app_l_Some with (x := d); done|]. split; [done|]. split; [done|].
    split; [intros ->; destruct Hz; by eapply list_elem_of_lookup_2|by apply lookup_lt_Some in Hd].
Qed.

Lemma txt_S p c t : txt p = c :: t → txt (S p) = t.
Proof. intros E. by rewrite <- Nat.add_1_r, <- drop_drop, E. Qed.
Lemma txt_app p u t : txt p = u ++ t → txt (p + length u) = t.
Proof. intros E. by rewrite <- drop_drop, E, drop_app_length. Qed.

Lemma skip_spec test p s : (p ≤ es)%nat →
  wp (skip buf es test p) s (λ p' s', s' = s ∧ (p' ≤ es)%nat ∧
    ∃ u, p' = (p + length u)%nat ∧ txt p = u ++ txt p' ∧ Forall (λ c, test c = true) u ∧ stops test (txt p')).
Proof.
  unfold skip. intros Hp. remember (es - p)%nat as n eqn:En. assert (es - p ≤ n)%nat as Hn by lia. clear En.
  revert p Hp Hn. induction n as [|n IH]; intros p Hp Hn; cbn [skip_while]; (destruct (decide _) as [Hlt|Hge];
    [|assert (p = es) as -> by lia; wp_steps; split; [done|]; split; [lia|]; exists []; rewrite drop_all; simpl; auto]); [lia|].
  wp_steps. wp_call at_char; [done|]. intros c s' [-> Hc]. destruct (txt p) as [|d t] eqn:E; [lia|]. destruct Hc as (-> & H0 & _).
  destruct (test d) eqn:Ed.
  - eapply wp_mono; [apply IH; lia|]. intros p' s' (-> & Hle & u & -> & Eu & Hu & Hst). split; [done|]. split; [done|].
    exists (d :: u). simpl. split; [lia|]. rewrite (txt_S _ _ _ E) in Eu. split; [|by split; [constructor|]].
    f_equal. exact Eu.
  - wp_steps. split; [done|]. split; [done|]. exists []. rewrite Nat.add_0_r, E. simpl. auto.
Qed.

(** The bytes from [q] to [e] are the word [w], which ends there. *)
Definition word_at (x : word) (w : list Z) : Prop :=
  w ≠ [] ∧ Forall (λ c, in_word c = true) w ∧ x.2 = (x.1 + length w)%nat ∧ (x.2 ≤ es)%nat ∧
  take (length w) (txt x.1) = w ∧ stops in_word (txt x.2).

Definition code (k : tok) : Z := match k with Word _ => 97 | Sym c => c | Append => 43 end.
(** What [gettoken] finds in front of the tokens [ts]. *)
Definition token (ts : list tok) (r : Z * word) (ts' : list tok) : Prop :=
  match ts with
  | [] => r.1 = 0 ∧ ts' = []
  | k :: ts1 => r.1 = code k ∧ ts' = ts1 ∧ match k with Word w => word_at r.2 w | Sym c => c ∈ symbols | Append => True end
  end.

Lemma skip_spaces_lex p s : (p ≤ es)%nat →
  wp (skip buf es is_space p) s (λ p' s', s' = s ∧ (p ≤ p' ≤ es)%nat ∧ lex (txt p') = lex (txt p) ∧ stops is_space (txt p')).
Proof.
  intros Hp. eapply wp_mono; [by apply skip_spec|]. intros p' s' (-> & Hle & u & -> & Eu & Hu & Hst). split; [done|].
  split; [lia|]. split; [|done]. by rewrite Eu, lex_spaces.
Qed.

Lemma gettoken_spec p : (p ≤ es)%nat →
  wp (gettoken buf es) p (λ r p', (p ≤ p' ≤ es)%nat ∧ token (lex (txt p)) r (lex (txt p'))).
Proof.
  intros Hp. unfold gettoken. wp_steps. wp_call skip_spaces_lex; [done|]. intros q s' (-> & Hq & <- & Hst). wp_steps.
  wp_call at_char; [lia|]. intros c s' [-> Hc]. apply wp_bind.
  apply (wp_mono _ _ (λ r s', s' = p ∧ (q ≤ r.2 ≤ es)%nat ∧ token (lex (txt q)) (r.1, (q, r.2)) (lex (txt r.2)))); last first.
  { intros [k e] s' (-> & He & Ht). simpl in *. wp_steps. wp_call skip_spaces_lex; [lia|]. intros p' s' (-> & Hp' & E & _). wp_steps.
    split; [lia|]. by rewrite E. }
  destruct (txt q) as [|d t] eqn:E.
  { destruct Hc as [-> ->]. rewrite decide_True by done. wp_steps. split; [done|]. simpl. split; [lia|]. by rewrite drop_all. }
  destruct Hc as (-> & H0 & Hlt). rewrite decide_False by done. destruct (chr_cases d) as [Hs|[(_ & Hw & Hns)|(_ & _ & Hs)]].
  { simpl in Hst. congruence. }
  - rewrite !decide_False by (unfold symbols in Hns; set_solver). wp_steps. wp_call skip_spec; [lia|].
    intros e s' (-> & He & u & -> & Eu & Hu & Hstop). wp_steps. rewrite E in Eu. assert (u ≠ []) as Hne.
    { intros ->. rewrite Nat.add_0_r, E in Hstop. simpl in Hstop. congruence. }
    split; [done|]. cbn [fst snd]. split; [lia|]. rewrite Eu, lex_word by done. simpl. split; [done|]. split; [done|].
    unfold word_at. simpl. split; [done|]. split; [done|]. split; [done|]. split; [done|]. by rewrite E, Eu, take_app_length.
  - pose proof (txt_S _ _ _ E) as E'. destruct (decide (d = 62)) as [->|Hd].
    + rewrite decide_False by lia. wp_steps. wp_call at_char; [lia|]. intros c s' [-> Hc]. rewrite E' in Hc. destruct (decide (c = 62)) as [->|Hc'].
      * destruct t as [|d t]; [lia|]. destruct Hc as (<- & _ & Hlt'). wp_steps. split; [done|]. simpl. split; [lia|].
        rewrite (txt_S _ _ _ E'). done.
      * wp_steps. split; [done|]. cbn [fst snd]. split; [lia|]. rewrite E', lex_sym; [by split|done|].
        intros _. destruct t; [done|]. simpl. apply bool_decide_eq_false. destruct Hc as [<- _]. done.
    + rewrite decide_True by (unfold symbols in Hs; set_solver). wp_steps. split; [done|]. cbn [fst snd]. split; [lia|].
      rewrite E', lex_sym; [by split|done|done].
Qed.

(** The next token is one of the symbols in [set]. *)
Definition next_in (set : list Z) (ts : list tok) : bool :=
  match ts with Sym c :: _ => bool_decide (c ∈ set) | Append :: _ => bool_decide (62 ∈ set) | _ => false end.

Lemma peek_spec set p : (p ≤ es)%nat → set ⊆ symbols →
  wp (peek buf es set) p (λ b p', (p ≤ p' ≤ es)%nat ∧ lex (txt p') = lex (txt p) ∧ b = next_in set (lex (txt p)) ∧ (lex (txt p) = [] → p' = es)).
Proof.
  intros Hp Hset. assert (0 ∉ set) as H0 by (intros Hin%Hset; unfold symbols in Hin; set_solver).
  unfold peek. wp_steps. wp_call skip_spaces_lex; [done|]. intros q s' (-> & Hq & <- & Hst). wp_steps.
  wp_call at_char; [lia|]. intros c s' [-> Hc]. wp_steps. split; [done|]. split; [done|].
  assert (strchr_in set c = bool_decide (c ∈ set)) as -> by (apply eq_true_iff_eq; by rewrite strchr_in_spec, bool_decide_eq_true).
  destruct (txt q) as [|d t]; [destruct Hc as [-> ->]; by split|]. destruct Hc as (-> & Hd & _). rewrite bool_decide_eq_true_2 by done.
  cbn [andb]. destruct (chr_cases d) as [Hs|[(Hs & Hw & Hns)|(Hs & Hw & Hin)]].
  { simpl in Hst. congruence. }
  - rewrite bool_decide_eq_false_2 by (intros ?%Hset; done). destruct (lex_in_word d t Hw) as (w & ts & ->). done.
  - simpl. rewrite Hs, Hw. destruct (decide (d = 62)) as [->|]; [|done]. destruct t; [done|]. by destruct (decide _).
Qed.

(** ** Tokens at a position *)

Definition St (p : nat) (ts : list tok) : Prop := (p ≤ es)%nat ∧ lex (txt p) = ts.

Lemma length_lex t : (length (lex t) ≤ length t)%nat.
Proof.
  induction t as [t IH] using (induction_ltof1 _ length). destruct t as [|c t]; [done|]. assert (length (lex t) ≤ length t)%nat as H1 by (apply IH; unfold ltof; simpl; lia).
  cbn [lex]. destruct (is_space c); [simpl; lia|]. destruct (in_word c).
  - destruct t as [|d t], (lex _) as [|[] ?]; simpl in *; try lia. destruct (in_word d); simpl; lia.
  - destruct (decide _); [|simpl in *; lia]. destruct t as [|d t]; [simpl in *; lia|]. destruct (decide _); [|simpl in *; lia].
    assert (length (lex t) ≤ length t)%nat by (apply IH; unfold ltof; simpl; lia). simpl. lia.
Qed.
Lemma St_length p ts : St p ts → (length ts ≤ es)%nat.
Proof. intros [Hp <-]. etrans; [apply length_lex|]. rewrite length_drop. lia. Qed.

Lemma st_gettoken p ts : St p ts → wp (gettoken buf es) p (λ r p', ∃ ts', St p' ts' ∧ token ts r ts').
Proof. intros [Hp <-]. eapply wp_mono; [by apply gettoken_spec|]. intros r p' [Hle Ht]. eexists. split; [split; [lia|done]|done]. Qed.
Lemma st_peek set p ts : St p ts → set ⊆ symbols →
  wp (peek buf es set) p (λ b p', b = next_in set ts ∧ St p' ts ∧ (ts = [] → p' = es)).
Proof.
  intros [Hp <-] Hs. eapply wp_mono; [by apply peek_spec|]. intros b p' (Hle & E & -> & He). split; [done|]. split; [split; [lia|done]|done].
Qed.

(** ** Commands and their words *)

Inductive rel_cmd (R : word → list Z → Prop) : cmd word → cmd (list Z) → Prop :=
  | rel_exec xs ws : Forall2 R xs ws → rel_cmd R (EXEC xs) (EXEC ws)
  | rel_redir c c' x w m fd : rel_cmd R c c' → R x w → rel_cmd R (REDIR c x m fd) (REDIR c' w m fd)
  | rel_pipe l l' r r' : rel_cmd R l l' → rel_cmd R r r' → rel_cmd R (PIPE l r) (PIPE l' r')
  | rel_list l l' r r' : rel_cmd R l l' → rel_cmd R r r' → rel_cmd R (LIST l r) (LIST l' r')
  | rel_back c c' : rel_cmd R c c' → rel_cmd R (BACK c) (BACK c').
Notation reads := (rel_cmd word_at).

Definition rreads (r : @redir word) (r' : @redir (list Z)) : Prop := word_at r.1.1 r'.1.1 ∧ r.1.2 = r'.1.2 ∧ r.2 = r'.2.

Lemma reads_wrap rs : ∀ rs' c c', reads c c' → Forall2 rreads rs rs' → reads (wrap c rs) (wrap c' rs').
Proof.
  induction rs as [|r rs IH]; intros rs' c c' Hc Hr; inversion Hr as [|? [[w m] fd] ? ? (Hw & Em & Ef)]; subst; [done|].
  simpl in *. apply IH; [|done]. subst. by constructor.
Qed.
Lemma reads_backs n c c' : reads c c' → reads (Nat.iter n BACK c) (Nat.iter n BACK c').
Proof. intros Hc. induction n; simpl; [done|by constructor]. Qed.

Lemma token_word ts r ts' : token ts r ts' → r.1 = 97 → ∃ w, ts = Word w :: ts' ∧ word_at r.2 w.
Proof.
  intros Ht E. destruct ts as [|[w|c|] ts]; simpl in Ht; [lia| | |lia].
  - destruct Ht as (_ & -> & Hw). by exists w.
  - destruct Ht as (<- & _ & Hc). rewrite E in Hc. unfold symbols in Hc. set_solver.
Qed.
Lemma token_end ts r ts' : token ts r ts' → r.1 = 0 → ts = [] ∧ ts' = [].
Proof.
  intros Ht E. destruct ts as [|[w|c|] ts]; simpl in Ht; [tauto|lia| |lia].
  destruct Ht as (<- & _ & Hc). rewrite E in Hc. unfold symbols in Hc. set_solver.
Qed.

(** ** What the parser accepts *)

Definition syntax_error (msg : string) : Prop :=
  msg ∈ ["missing file for redirection"; "syntax"; "too many args"; "syntax - missing )"]%string.

(** Run [gettoken] or [peek] in front of known tokens. *)
Ltac symset := unfold symbols; intros ? ?; set_solver.
Ltac run_gettoken r ts HS HT :=
  wp_steps; first [eapply wp_mono; [eapply st_gettoken; eassumption|]|eapply wpp_mono; [eapply wpp_wp, st_gettoken; eassumption|]];
  intros r ? (ts & HS & HT); cbn beta.
Ltac run_peek HS HE :=
  wp_steps; first [eapply wp_mono; [eapply st_peek; [eassumption|symset]|]|eapply wpp_mono; [eapply wpp_wp, st_peek; [eassumption|symset]|]];
  intros ? ? (-> & HS & HE); cbn beta.
(** The next token is known. *)
Ltac known := simpl next_in; cbn [negb]; cbn iota.
Ltac err := apply wpp_panic; unfold syntax_error; set_solver.

Lemma parseredirs_sound fuel : ∀ p ts, St p ts → (length ts ≤ fuel)%nat →
  wpp syntax_error (parseredirs buf es fuel) p (λ rs p', ∃ us ts' rs', ts = us ++ ts' ∧ St p' ts' ∧ redirs us rs' ∧ Forall2 rreads rs rs').
Proof.
  induction fuel as [|f IH]; intros p ts HS Hf; cbn [parseredirs]; run_peek HS1 HE1.
  { destruct ts; [|simpl in Hf; lia]. cbn [next_in]. wp_steps. exists [], [], []. split_and!; [done|done|constructor|constructor]. }
  destruct (next_in _ ts) eqn:En; [|wp_steps; exists [], ts, []; split_and!; [done|done|constructor|constructor]].
  run_gettoken t ts1 HS2 HT. destruct ts as [|k ts]; [done|]. destruct HT as (Et & -> & _).
  run_gettoken w ts2 HS3 HW. destruct (decide (w.1 ≠ 97)) as [Hw|Hw]; [err|].
  assert (w.1 = 97) as Ew by lia. destruct (token_word _ _ _ HW Ew) as (v & -> & Hat). rename ts2 into ts. wp_steps. eapply wpp_mono; [apply (IH _ ts HS3); simpl in Hf; lia|].
  intros rs p' (us & ts' & rs' & -> & HS' & Hr & Hf2). destruct k as [|c|]; [done| |].
  - simpl in En, Et. apply bool_decide_eq_true in En. assert (c = 60 ∨ c = 62) as [-> | ->] by set_solver; rewrite Et; simpl; wp_steps;
      eexists (Sym _ :: Word v :: us), ts', (_ :: rs'); (split; [done|]); (split; [done|]); (split; [by constructor|by constructor]).
  - simpl in Et. rewrite Et. simpl. wp_steps. eexists (Append :: Word v :: us), ts', (_ :: rs'). split; [done|]. split; [done|]. split; by constructor.
Qed.

Lemma parseredirs_complete us rs' ts' : redirs us rs' → next_in [60; 62] ts' = false → ∀ fuel p, St p (us ++ ts') → (length us ≤ fuel)%nat →
  wp (parseredirs buf es fuel) p (λ rs p', St p' ts' ∧ Forall2 rreads rs rs').
Proof.
  intros Hr Hn. induction Hr as [|w ts rs Hr IH|w ts rs Hr IH|w ts rs Hr IH]; intros fuel p HS Hf; destruct fuel as [|f]; try (simpl in Hf; lia);
    cbn [parseredirs]; run_peek HS1 HE1; simpl in HS1; try (cbn [app]; rewrite Hn; wp_steps; by split).
  all: simpl next_in; cbn [app]; run_gettoken t ts1 HS2 HT; destruct HT as (Et & -> & _); run_gettoken x ts2 HS3 HW; destruct HW as (Ex & -> & Hat);
    simpl in Et, Ex; rewrite Et, Ex; simpl; wp_steps; (eapply wp_mono; [apply (IH f _ HS3); simpl in Hf; lia|]); intros rs0 p' [HS' HF]; wp_steps;
    (split; [done|]); by constructor.
Qed.

(** [parseargs] with the arguments [xs] and redirections [rs] so far. *)
Definition args_post (ts : list tok) (xs : list word) (rs : list (@redir word)) (c : cmd word) (p' : nat) : Prop :=
  ∃ us ts' ys ws rs1 rs', ts = us ++ ts' ∧ St p' ts' ∧ args us ws rs' ∧ (length xs + length ws < MAXARGS)%nat ∧
    c = wrap (EXEC (xs ++ ys)) (rs ++ rs1) ∧ Forall2 word_at ys ws ∧ Forall2 rreads rs1 rs'.

Lemma args_post_end p ts xs rs : St p ts → (length xs < MAXARGS)%nat → args_post ts xs rs (wrap (EXEC xs) rs) p.
Proof.
  intros HS Hx. exists [], ts, [], [], [], []. rewrite !app_nil_r. simpl. split_and!; try done; [constructor|lia].
Qed.
Lemma args_post_step w rts rs' ts xs x rs rs1 c p : redirs rts rs' → Forall2 rreads rs1 rs' → word_at x w →
  args_post ts (xs ++ [x]) (rs ++ rs1) c p → args_post (Word w :: rts ++ ts) xs rs c p.
Proof.
  intros Hr Hf Hw (us & ts' & ys & ws & rs2 & rs2' & -> & HS & Ha & Hl & -> & Hy & Hr2).
  exists (Word w :: rts ++ us), ts', (x :: ys), (w :: ws), (rs1 ++ rs2), (rs' ++ rs2'). rewrite length_app in Hl. simpl in *.
  split; [by rewrite <- app_assoc|]. split; [done|]. split; [by constructor|]. split; [lia|]. rewrite <- !app_assoc. split; [done|].
  split; [by constructor|by apply Forall2_app].
Qed.

Lemma parseargs_sound fuel : ∀ p ts xs rs, St p ts → (length ts ≤ fuel)%nat → (length xs < MAXARGS)%nat →
  wpp syntax_error (parseargs buf es fuel xs rs) p (args_post ts xs rs).
Proof.
  induction fuel as [|f IH]; intros p ts xs rs HS Hf Hx; cbn [parseargs]; run_peek HS1 HE1;
    (destruct (next_in _ ts) eqn:En; [wp_steps; by apply args_post_end|]); run_gettoken t ts1 HS2 HT;
    (destruct (decide (t.1 = 0)) as [E0|E0]; [wp_steps; destruct (token_end _ _ _ HT E0) as [-> ->]; by apply args_post_end|]).
  { destruct ts; [by destruct HT|simpl in Hf; lia]. }
  destruct (decide (t.1 ≠ 97)) as [?|E]; [err|]. assert (t.1 = 97) as Ew by lia. destruct (token_word _ _ _ HT Ew) as (w & -> & Hw).
  rewrite decide_False by lia. destruct (decide _) as [|Hl]; [err|]. wp_steps.
  eapply wpp_mono; [apply (parseredirs_sound es _ ts1 HS2); by eapply St_length|].
  intros rs1 p' (us & ts' & rs' & -> & HS' & Hr & Hf2). eapply wpp_mono; [apply (IH p' ts'); [done|simpl in Hf; rewrite length_app in Hf; lia|lia]|].
  intros c p2 Hp. by eapply args_post_step.
Qed.

(** The tokens after a simple command, a pipeline and a line. *)
Definition follow (set : list Z) (ts : list tok) : Prop := ts = [] ∨ next_in set ts = true.
Lemma follow_weaken set set' ts : set ⊆ set' → follow set ts → follow set' ts.
Proof.
  intros Hs [->|Hn]; [by left|right]. destruct ts as [|[|c|] ts]; simpl in *; try done; apply bool_decide_eq_true in Hn; apply bool_decide_eq_true; auto.
Qed.
Lemma follow_not set set' ts : follow set ts → (∀ c, c ∈ set → c ∉ set') → next_in set' ts = false.
Proof.
  intros [->|Hn] Hd; [done|]. destruct ts as [|[|c|] ts]; simpl in *; try done; apply bool_decide_eq_true in Hn; apply bool_decide_eq_false; auto.
Qed.

Lemma parseargs_complete us ws rs' ts' : args us ws rs' → follow [124; 41; 38; 59] ts' → ∀ fuel p xs rs, St p (us ++ ts') →
  (length us ≤ fuel)%nat → (length xs + length ws < MAXARGS)%nat →
  wp (parseargs buf es fuel xs rs) p (λ c p', St p' ts' ∧ ∃ ys rs1, c = wrap (EXEC (xs ++ ys)) (rs ++ rs1) ∧ Forall2 word_at ys ws ∧ Forall2 rreads rs1 rs').
Proof.
  intros Ha Hn. induction Ha as [|w rts rs ts ws rs' Hr Ha IH]; intros fuel p xs rs0 HS Hf Hl.
  - assert (∀ q, St q ts' → wp (mret (wrap (EXEC xs) rs0)) q (λ c p', St p' ts' ∧ ∃ ys rs1, c = wrap (EXEC (xs ++ ys)) (rs0 ++ rs1) ∧ Forall2 word_at ys [] ∧ Forall2 rreads rs1 [])) as Hend.
    { intros q Hq. wp_steps. split; [done|]. exists [], []. by rewrite !app_nil_r. }
    simpl in HS. destruct fuel; cbn [parseargs]; run_peek HS1 HE1; (destruct Hn as [->| ->]; [|by apply Hend]); cbn [next_in];
      run_gettoken t ts1 HS2 HT; destruct HT as [Et ->]; rewrite Et; by apply Hend.
  - simpl in HS, Hf, Hl. destruct fuel as [|f]; [lia|]. cbn [parseargs]. run_peek HS1 HE1. cbn [next_in]. run_gettoken t ts1 HS2 HT.
    destruct HT as (Et & -> & Hw). simpl in Et. rewrite Et. cbn [decide]. simpl. rewrite decide_False by lia. rewrite decide_False by (rewrite length_app; simpl; lia).
    wp_steps. rewrite <- app_assoc in HS2. rewrite length_app in Hf. eapply wp_mono; [apply (parseredirs_complete rts rs (ts ++ ts')); [done| |done|]|].
    { destruct Ha; [|done]. by eapply follow_not; [done|]; intros ? ?; set_solver. }
    { pose proof (St_length _ _ HS2) as Hlen. rewrite length_app in Hlen. lia. }
    intros rs1 p' [HS' HF]. eapply wp_mono; [apply (IH f p' (xs ++ [t.2])); [done|lia|rewrite length_app; simpl; lia]|].
    intros c p2 (HS3 & ys & rs2 & -> & Hy & Hr2). split; [done|]. exists (t.2 :: ys), (rs1 ++ rs2). rewrite <- !app_assoc. split; [done|].
    split; [by constructor|by apply Forall2_app].
Qed.

Lemma parsebacks_spec fuel : ∀ p ts c, St p ts → (length ts ≤ fuel)%nat →
  wp (parsebacks buf es fuel c) p (λ c' p', ∃ n ts', ts = replicate n (Sym 38) ++ ts' ∧ St p' ts' ∧ next_in [38] ts' = false ∧ c' = Nat.iter n BACK c).
Proof.
  induction fuel as [|f IH]; intros p ts c HS Hf; cbn [parsebacks]; run_peek HS1 HE1;
    (destruct (next_in _ ts) eqn:En; [|wp_steps; by exists 0%nat, ts]); destruct ts as [|[|k|] ts]; simpl in Hf; try done; try lia.
  simpl in En. apply bool_decide_eq_true in En. apply list_elem_of_singleton in En as ->. run_gettoken t ts1 HS2 HT. destruct HT as (_ & -> & _).
  wp_steps. eapply wp_mono; [apply (IH _ ts); [done|lia]|]. intros c' p' (n & ts' & -> & HS' & Hn & ->). exists (S n), ts'. split; [done|].
  split; [done|]. split; [done|]. by rewrite <- Nat.iter_succ_r.
Qed.

(** What a routine for [nt] does in front of less than [n] tokens. *)
Definition parses (nt : nonterm) (n : nat) (m : M nat (cmd word)) : Prop := ∀ p ts, St p ts → (length ts < n)%nat →
  wpp syntax_error m p (λ c p', ∃ us ts' c', ts = us ++ ts' ∧ St p' ts' ∧ derives nt us c' ∧ reads c c').

Lemma next_in_one c ts : next_in [c] ts = true → c ≠ 62 → ∃ ts', ts = Sym c :: ts'.
Proof.
  intros Hn Hc. destruct ts as [|[|d|] ts]; simpl in Hn; try done; apply bool_decide_eq_true, list_elem_of_singleton in Hn; [subst; by exists ts|congruence].
Qed.

Lemma parseexec_sound n line : parses Line n line → parses Simple (S n) (parseexec buf es line).
Proof.
  intros Hline p ts HS Hn. unfold parseexec. run_peek HS1 HE1. destruct (next_in _ ts) eqn:En.
  - destruct (next_in_one _ _ En) as [ts1 ->]; [lia|]. unfold parseblock. run_peek HS2 HE2. simpl next_in. cbn [negb].
    run_gettoken t ts2 HS3 HT. destruct HT as (_ & -> & _). wp_steps. simpl in Hn. eapply wpp_mono; [apply (Hline _ ts1 HS3); lia|].
    intros c p' (us & ts' & c' & -> & HS' & Hd & Hc). run_peek HS4 HE4. destruct (next_in _ ts') eqn:En'; cbn [negb]; [|err].
    destruct (next_in_one _ _ En') as [ts2 ->]; [lia|]. run_gettoken t' ts3 HS5 HT'. destruct HT' as (_ & -> & _). wp_steps.
    eapply wpp_mono; [apply (parseredirs_sound es _ ts2 HS5); by eapply St_length|]. intros rs p2 (rts & ts3 & rs' & -> & HS6 & Hr & Hf). wp_steps.
    exists (Sym 40 :: us ++ Sym 41 :: rts), ts3, (wrap c' rs'). split; [simpl; by rewrite <- app_assoc|]. split; [done|].
    split; [by constructor|by apply reads_wrap].
  - wp_steps. eapply wpp_mono; [apply (parseredirs_sound es _ ts HS1); by eapply St_length|]. intros rs p2 (rts & ts1 & rs' & -> & HS2 & Hr & Hf).
    eapply wpp_mono; [apply (parseargs_sound es _ ts1 [] rs HS2); [by eapply St_length|unfold MAXARGS; simpl; lia]|].
    intros c p' (us & ts' & ys & ws & rs1 & rs1' & -> & HS' & Ha & Hl & -> & Hy & Hr1). simpl.
    exists (rts ++ us), ts', (wrap (EXEC ws) (rs' ++ rs1')). split; [by rewrite app_assoc|]. split; [done|]. split; [by constructor|].
    apply reads_wrap; [by constructor|by apply Forall2_app].
Qed.

Lemma parsepipe_sound n line : parses Line n line → ∀ fuel, parses Pipeline (Nat.min (S fuel) (S n)) (parsepipe buf es fuel line).
Proof.
  intros Hline. induction fuel as [|f IH]; intros p ts HS Hn; cbn [parsepipe]; wp_steps;
    (eapply wpp_mono; [apply (parseexec_sound n line Hline _ _ HS); lia|]); intros c p' (us & ts' & c' & -> & HS' & Hd & Hc); run_peek HS1 HE1;
    (destruct (next_in _ ts') eqn:En; [|wp_steps; exists us, ts', c'; split_and!; [done|done|by constructor|done]]).
  { rewrite length_app in Hn. destruct ts'; [done|cbn [length] in Hn; lia]. }
  destruct (next_in_one _ _ En) as [ts1 ->]; [lia|]. run_gettoken t ts2 HS2 HT. destruct HT as (_ & -> & _). wp_steps.
  rewrite length_app in Hn. cbn [length] in Hn. eapply wpp_mono; [apply (IH _ ts1 HS2); lia|]. intros r p2 (us2 & ts2 & r' & -> & HS3 & Hd2 & Hr). wp_steps.
  exists (us ++ Sym 124 :: us2), ts2, (PIPE c' r'). split; [by rewrite <- app_assoc|]. split; [done|]. split; by constructor.
Qed.

Lemma parseline_sound fuel : parses Line fuel (parseline buf es fuel).
Proof.
  induction fuel as [|f IH]; intros p ts HS Hn; [lia|]. cbn [parseline]. wp_steps. pose proof (St_length _ _ HS) as Hes.
  eapply wpp_mono; [apply (parsepipe_sound f _ IH es _ _ HS); lia|]. intros c p1 (us & ts1 & c' & -> & HS1 & Hd & Hc). wp_steps.
  eapply wpp_mono; [apply wpp_wp, (parsebacks_spec es _ ts1 c HS1); by eapply St_length|]. intros c2 p2 (k & ts2 & -> & HS2 & Hnb & ->).
  run_peek HS3 HE3. destruct (next_in [59] ts2) eqn:En.
  - destruct (next_in_one _ _ En) as [ts3 ->]; [lia|]. run_gettoken t ts4 HS4 HT. destruct HT as (_ & -> & _). wp_steps.
    rewrite !length_app in Hn. simpl in Hn. eapply wpp_mono; [apply (IH _ _ HS4); lia|].
    intros r p3 (us2 & ts4 & r' & -> & HS5 & Hd2 & Hr). wp_steps. exists (us ++ replicate k (Sym 38) ++ Sym 59 :: us2), ts4, (LIST (Nat.iter k BACK c') r').
    split; [by rewrite <- !app_assoc|]. split; [done|]. split; [by constructor|]. constructor; [by apply reads_backs|done].
  - wp_steps. exists (us ++ replicate k (Sym 38)), ts2, (Nat.iter k BACK c'). split; [by rewrite <- app_assoc|]. split; [done|].
    split; [by constructor|by apply reads_backs].
Qed.

Lemma parseblock_complete ts c' rts rs' ts' line p :
  (∀ q, St q (ts ++ Sym 41 :: rts ++ ts') → wp line q (λ c q', St q' (Sym 41 :: rts ++ ts') ∧ reads c c')) →
  redirs rts rs' → next_in [60; 62] ts' = false → St p (Sym 40 :: ts ++ Sym 41 :: rts ++ ts') →
  wp (parseblock buf es line) p (λ c p', St p' ts' ∧ reads c (wrap c' rs')).
Proof.
  intros Hline Hr Hn HS. unfold parseblock. run_peek HS1 HE1. known. run_gettoken t ts1 HS2 HT. destruct HT as (_ & -> & _). wp_steps.
  eapply wp_mono; [by apply Hline|]. intros c q' [HS3 Hc]. run_peek HS4 HE4. known. run_gettoken t' ts2 HS5 HT'.
  destruct HT' as (_ & -> & _). wp_steps. pose proof (St_length _ _ HS5) as Hl. rewrite length_app in Hl.
  eapply wp_mono; [apply (parseredirs_complete rts rs' ts' Hr Hn es _ HS5); lia|]. intros rs p' [HS6 Hf]. wp_steps. split; [done|by apply reads_wrap].
Qed.

(** Each nonterminal's routine, with enough fuel for the tokens [us], in front
    of them and a token that may follow. *)
Definition accepted (nt : nonterm) (us : list tok) (c' : cmd (list Z)) : Prop :=
  match nt with
  | Line => ∀ f p ts', (length us < f)%nat → St p (us ++ ts') → follow [41] ts' →
      wp (parseline buf es f) p (λ c p', St p' ts' ∧ reads c c')
  | Pipeline => ∀ f g p ts', (length us ≤ f)%nat → (length us ≤ g)%nat → St p (us ++ ts') → follow [41; 38; 59] ts' →
      wp (parsepipe buf es g (parseline buf es f)) p (λ c p', St p' ts' ∧ reads c c')
  | Simple => ∀ f p ts', (length us ≤ f)%nat → St p (us ++ ts') → follow [124; 41; 38; 59] ts' →
      wp (parseexec buf es (parseline buf es f)) p (λ c p', St p' ts' ∧ reads c c')
  end.

Lemma redirs_next rts rs ts' : redirs rts rs → next_in [40] (rts ++ ts') = false ∨ rts = [].
Proof. intros []; [by right|by left..]. Qed.

Lemma words_accepted rts rs ts ws rs' : redirs rts rs → args ts ws rs' → (length ws < MAXARGS)%nat →
  accepted Simple (rts ++ ts) (wrap (EXEC ws) (rs ++ rs')).
Proof.
  intros Hr Ha Hl f p ts' _ HS Hfol. rewrite <- app_assoc in HS. pose proof (St_length _ _ HS) as Hes. rewrite !length_app in Hes.
  assert (next_in [40] (ts ++ ts') = false ∧ next_in [60; 62] (ts ++ ts') = false) as [Hn1 Hn2].
  { destruct Ha; [|done]. split; (eapply follow_not; [exact Hfol|intros ? ?; set_solver]). }
  unfold parseexec. run_peek HS1 HE1. assert (next_in [40] (rts ++ ts ++ ts') = false) as -> by (by destruct (redirs_next _ _ (ts ++ ts') Hr) as [| ->]).
  wp_steps. eapply wp_mono; [apply (parseredirs_complete rts rs (ts ++ ts') Hr Hn2 es _ HS1); lia|]. intros rs1 p1 [HS2 Hf1].
  eapply wp_mono; [apply (parseargs_complete ts ws rs' ts' Ha Hfol es p1 [] rs1 HS2); [lia|done]|].
  intros c p2 (HS3 & ys & rs2 & -> & Hy & Hr2). split; [done|]. apply reads_wrap; [by constructor|by apply Forall2_app].
Qed.

(** After the pipeline of a line. *)
Lemma line_tail n ts c f p ts' Q : accepted Pipeline ts c → (length ts ≤ f)%nat → St p (ts ++ replicate n (Sym 38) ++ ts') →
  follow [41; 59] ts' → (∀ q x, St q ts' → reads x (Nat.iter n BACK c) →
    wp (b ← peek buf es [59]; if (b : bool) then gettoken buf es;; r ← parseline buf es f; mret (LIST x r) else mret x) q Q) →
  wp (parseline buf es (S f)) p Q.
Proof.
  intros Hacc Hf HS Hfol Hk. cbn [parseline]. wp_steps. pose proof (St_length _ _ HS) as Hes. rewrite !length_app in Hes.
  eapply wp_mono; [apply (Hacc f es p (replicate n (Sym 38) ++ ts')); [lia|lia|done|]|].
  { destruct n; [simpl; eapply follow_weaken; [|exact Hfol]; intros ? ?; set_solver|by right]. }
  intros x q [HS1 Hx]. wp_steps. eapply wp_mono; [apply (parsebacks_spec es _ _ x HS1); rewrite length_app; lia|].
  intros y q' (m & ts2 & E & HS2 & Hn & ->). assert (m = n ∧ ts2 = ts') as [-> ->]; [|apply Hk; [done|by apply reads_backs]].
  assert (next_in [38] ts' = false) as Hn' by (eapply follow_not; [exact Hfol|intros ? ?; set_solver]). clear -E Hn Hn'.
  revert m E. induction n as [|n IH]; intros [|m] E; simplify_eq/=; try done. by destruct (IH m E) as [-> ->].
Qed.

Lemma derives_accepted nt us c : derives nt us c → accepted nt us c.
Proof.
  induction 1 as [rts rs ts ws rs' Hr Ha Hl|ts c rts rs Hd IH Hr|ts c Hd IH|ts c ts' c' Hd IH Hd' IH'|n ts c Hd IH|n ts c ts' c' Hd IH Hd' IH'].
  - by apply words_accepted.
  - intros f p ts' Hf HS Hfol. simpl in Hf, HS. rewrite length_app in Hf. simpl in Hf. rewrite <- app_assoc in HS. simpl in HS.
    unfold parseexec. run_peek HS1 HE1. known. apply (parseblock_complete ts c rts rs ts'); [|done| |exact HS1].
    + intros q HSq. apply (IH f q (Sym 41 :: rts ++ ts')); [lia|done|by right].
    + eapply follow_not; [exact Hfol|intros ? ?; set_solver].
  - intros f g p ts' Hf Hg HS Hfol. destruct g; cbn [parsepipe]; wp_steps; (eapply wp_mono; [apply (IH f p ts'); [lia|done|eapply follow_weaken; [|exact Hfol]; intros ? ?; set_solver]|]);
      intros x q [HS1 Hx]; run_peek HS2 HE2; (assert (next_in [124] ts' = false) as -> by (eapply follow_not; [exact Hfol|intros ? ?; set_solver])); by wp_steps.
  - intros f g p ts2 Hf Hg HS Hfol. rewrite length_app in Hf, Hg. simpl in Hf, Hg. rewrite <- app_assoc in HS. simpl in HS. destruct g as [|g]; [lia|].
    cbn [parsepipe]. wp_steps. eapply wp_mono; [apply (IH f p _ ltac:(lia) HS); by right|]. intros x q [HS1 Hx]. run_peek HS2 HE2. known.
    run_gettoken t ts3 HS3 HT. destruct HT as (_ & -> & _). wp_steps. eapply wp_mono; [apply (IH' f g _ ts2); [lia|lia|done|done]|].
    intros y q' [HS4 Hy]. wp_steps. split; [done|by constructor].
  - intros f p ts' Hf HS Hfol. rewrite length_app in Hf. destruct f as [|f]; [lia|]. rewrite <- app_assoc in HS.
    apply (line_tail n ts c f p ts' _ IH); [lia|done|eapply follow_weaken; [|exact Hfol]; intros ? ?; set_solver|]. intros q x HSq Hx. run_peek HS2 HE2.
    assert (next_in [59] ts' = false) as -> by (eapply follow_not; [exact Hfol|intros ? ?; set_solver]). by wp_steps.
  - intros f p ts2 Hf HS Hfol. rewrite !length_app in Hf. simpl in Hf. destruct f as [|f]; [lia|]. rewrite <- !app_assoc in HS. simpl in HS.
    apply (line_tail n ts c f p (Sym 59 :: ts' ++ ts2) _ IH); [lia|done|by right|]. intros q x HSq Hx. run_peek HS2 HE2. known.
    run_gettoken t ts3 HS3 HT. destruct HT as (_ & -> & _). wp_steps. eapply wp_mono; [apply (IH' f _ ts2); [lia|done|done]|].
    intros y q' [HS4 Hy]. wp_steps. split; [done|by constructor].
Qed.

(** ** The words in memory *)

(** [m] is the line with some of its words ended by a NUL. *)
Definition cut (m : mem) : Prop :=
  length m = length buf ∧ ∀ i, m !! i = buf !! i ∨ m !! i = Some 0 ∧ stops in_word (txt i).
Definition zeros (m m' : mem) : Prop := ∀ i, m !! i = Some 0 → m' !! i = Some 0.
Definition ended (m : mem) (x : word) (w : list Z) : Prop := word_at x w ∧ m !! x.2 = Some 0.

Lemma store_end m x w : cut m → word_at x w → ∃ m', store m x.2 0 = Some m' ∧ cut m' ∧ zeros m m' ∧ ended m' x w.
Proof.
  intros [Hl Hm] Hw. pose proof Hw as (_ & _ & _ & He & _ & Hst). assert (x.2 < length m)%nat as Hlt by (rewrite Hl, length_app; simpl; lia).
  exists (<[x.2 := 0]> m). split; [by apply store_Some|]. split; [split; [by rewrite length_insert|]|split; [|split; [done|by apply list_lookup_insert_eq]]].
  - intros i. destruct (decide (i = x.2)) as [->|]; [right; split; [by apply list_lookup_insert_eq|done]|]. rewrite list_lookup_insert_ne by done. apply Hm.
  - intros i Hi. destruct (decide (i = x.2)) as [->|]; [by apply list_lookup_insert_eq|]. by rewrite list_lookup_insert_ne.
Qed.

Lemma rel_cmd_mono (R R' : word → list Z → Prop) c c' : (∀ x w, R x w → R' x w) → rel_cmd R c c' → rel_cmd R' c c'.
Proof. intros HR Hc. induction Hc; constructor; try done; [by eapply Forall2_impl|by apply HR]. Qed.
Lemma ended_zeros m m' x w : zeros m m' → ended m x w → ended m' x w.
Proof. intros Hz' [Hw Hx]. split; [done|by apply Hz']. Qed.

Lemma store_ends xs ws : ∀ m, cut m → Forall2 word_at xs ws →
  ∃ m', foldl (λ o w, m ← o; store m w.2 0) (Some m) xs = Some m' ∧ cut m' ∧ zeros m m' ∧ Forall2 (ended m') xs ws.
Proof.
  intros m Hm Hw. revert m Hm. induction Hw as [|x w xs ws Hw Hws IH]; intros m Hm; [exists m; split; [done|]; split; [done|]; split; [by intros i|constructor]|].
  destruct (store_end m x w Hm Hw) as (m1 & E & Hm1 & Hz1 & He). destruct (IH m1 Hm1) as (m' & E' & Hm' & Hz' & Hf). exists m'.
  cbn [foldl]. cbn [mbind option_bind]. rewrite E. split; [done|]. split; [done|]. split; [intros i Hi; by apply Hz', Hz1|].
  constructor; [by eapply ended_zeros|done].
Qed.

Lemma nulterminate_spec c c' : reads c c' → ∀ m, cut m → ∃ m', nulterminate m c = Some m' ∧ cut m' ∧ zeros m m' ∧ rel_cmd (ended m') c c'.
Proof.
  induction 1 as [xs ws Hw|c c' x w md fd Hc IH Hx|l l' r r' Hl IHl Hr IHr|l l' r r' Hl IHl Hr IHr|c c' Hc IH]; intros m Hm; cbn [nulterminate].
  - destruct (store_ends xs ws m Hm Hw) as (m' & E & Hm' & Hz' & Hf). exists m'. split_and!; try done. by constructor.
  - destruct (IH m Hm) as (m1 & -> & Hm1 & Hz1 & He). cbn [mbind option_bind]. destruct (store_end m1 x w Hm1 Hx) as (m' & E & Hm' & Hz' & Hx').
    exists m'. split; [done|]. split; [done|]. split; [intros i Hi; by apply Hz', Hz1|]. constructor; [|done].
    eapply rel_cmd_mono; [|exact He]. intros; by eapply ended_zeros.
  - destruct (IHl m Hm) as (m1 & -> & Hm1 & Hz1 & He). cbn [mbind option_bind]. destruct (IHr m1 Hm1) as (m' & E & Hm' & Hz' & Hx').
    exists m'. split; [done|]. split; [done|]. split; [intros i Hi; by apply Hz', Hz1|]. constructor; [|done].
    eapply rel_cmd_mono; [|exact He]. intros; by eapply ended_zeros.
  - destruct (IHl m Hm) as (m1 & -> & Hm1 & Hz1 & He). cbn [mbind option_bind]. destruct (IHr m1 Hm1) as (m' & E & Hm' & Hz' & Hx').
    exists m'. split; [done|]. split; [done|]. split; [intros i Hi; by apply Hz', Hz1|]. constructor; [|done].
    eapply rel_cmd_mono; [|exact He]. intros; by eapply ended_zeros.
  - destruct (IH m Hm) as (m' & E & Hm' & Hz' & He). exists m'. split_and!; try done. by constructor.
Qed.

(** The string at [x] in [m] is [w]. *)
Definition string_at (m : mem) (x : word) (w : list Z) : Prop := cstr (drop x.1 m) = w.

Lemma cstr_prefix w t : 0 ∉ w → cstr (w ++ 0 :: t) = w.
Proof. induction w as [|c w IH]; [done|]. rewrite not_elem_of_cons. intros [H0 Hw]. simpl. rewrite decide_False by congruence. by rewrite IH. Qed.

Lemma ended_string m x w : cut m → ended m x w → string_at m x w.
Proof.
  intros [Hl Hm] [(Hne & Hw & Ex & He & Ht & Hst) H0]. unfold string_at.
  assert (∀ j, (j < length w)%nat → m !! (x.1 + j)%nat = w !! j) as Hj.
  { intros j Hj. assert (txt x.1 !! j = w !! j) as E by (rewrite <- Ht; by rewrite lookup_take_lt).
    rewrite lookup_drop in E. destruct (lookup_lt_is_Some_2 w j Hj) as [c Hc]. rewrite Hc in E |- *.
    destruct (Hm (x.1 + j)%nat) as [->|[_ Hs]]; [by rewrite lookup_app_l_Some with (x := c)|].
    rewrite Forall_lookup in Hw. specialize (Hw j c Hc). rewrite (drop_S _ _ _ E) in Hs. simpl in Hs. congruence. }
  assert (drop x.1 m = w ++ 0 :: drop (S x.2) m) as ->.
  { apply list_eq. intros j. rewrite lookup_drop. destruct (decide (j < length w)%nat) as [Hlt|Hge]; [by rewrite Hj, lookup_app_l|].
    rewrite lookup_app_r by lia. rewrite <- (drop_S _ _ _ H0), lookup_drop. f_equal. lia. }
  apply cstr_prefix. intros Hin. apply list_elem_of_lookup in Hin as [j Hin]. pose proof (lookup_lt_Some _ _ _ Hin) as Hlt.
  assert (txt x.1 !! j = Some 0) as E by (rewrite <- Hin, <- Ht; by rewrite lookup_take_lt). rewrite lookup_drop in E.
  apply Hz. by eapply list_elem_of_lookup_2.
Qed.

Lemma strlen_line : strlen buf = Some es.
Proof. rewrite strlen_spec; [by rewrite cstr_prefix|]. unfold terminated. set_solver. Qed.

Lemma cut_line : cut buf.
Proof. split; [done|]. by left. Qed.

(** [parsecmd] after the parser has come back. *)
Definition finish (c : cmd word) : M nat (cmd word * mem) :=
  peek buf es [];;
  s ← gets (λ s, s);
  if decide (s ≠ es) then panic "syntax" else
  m ← lookupM (λ _, nulterminate buf c);
  mret (c, m).

Lemma finish_spec p c c' : St p [] → reads c c' → wp (finish c) p (λ r _, rel_cmd (string_at r.2) r.1 c').
Proof.
  intros HS Hc. unfold finish. run_peek HS1 HE1. wp_steps. rewrite (HE1 eq_refl), decide_False by tauto.
  destruct (nulterminate_spec c c' Hc buf cut_line) as (m & E & Hm & _ & Hr). wp_steps. eapply wp_lookupM; [exact E|]. wp_steps.
  simpl. eapply rel_cmd_mono; [|exact Hr]. intros x w. by apply ended_string.
Qed.

Lemma st_start : St 0 (lex text).
Proof. split; [lia|done]. Qed.

Lemma parsecmd_complete c' p : derives Line (lex text) c' → wp (parsecmd buf) p (λ r _, rel_cmd (string_at r.2) r.1 c').
Proof.
  intros Hd. unfold parsecmd. wp_steps. eapply wp_lookupM; [exact strlen_line|]. wp_steps.
  eapply wp_mono; [apply (derives_accepted Line _ _ Hd (S es) 0%nat []); [pose proof (St_length _ _ st_start); lia|rewrite app_nil_r; apply st_start|by left]|].
  intros c q [HS Hc]. by apply (finish_spec q c c').
Qed.

Lemma parsecmd_sound p :
  wpp syntax_error (parsecmd buf) p (λ r _, ∃ c', derives Line (lex text) c' ∧ rel_cmd (string_at r.2) r.1 c').
Proof.
  unfold parsecmd. wp_steps. eapply wpp_lookupM; [exact strlen_line|]. wp_steps.
  eapply wpp_mono; [apply (parseline_sound (S es) _ _ st_start); pose proof (St_length _ _ st_start); lia|].
  intros c q (us & ts' & c' & E & HS & Hd & Hc). destruct ts' as [|k ts'].
  - rewrite app_nil_r in E. apply wpp_wp. eapply wp_mono; [by apply (finish_spec q c c')|]. intros r ? Hr. exists c'. by rewrite E.
  - run_peek HS1 HE1. wp_steps. destruct (decide _) as [Hne|He]; [err|]. exfalso. destruct HS1 as [_ HS1].
    assert (s' = es) as -> by lia. by rewrite drop_all in HS1.
Qed.
End Line.

(** C37: The shell's parser ends on every line and decides its grammar.  On a
    line of the grammar it returns the command the grammar gives the line, with
    every word of it a C string in the buffer; on any other line it stops with
    one of its four syntax errors.  It never touches memory outside of the
    line. *)
Theorem parsecmd_decides_grammar (text junk : list Z) (p : nat) :
  0 ∉ text →
  wpp syntax_error (parsecmd (text ++ 0 :: junk)) p (λ r _, ∃ c', derives Line (lex text) c' ∧ rel_cmd (string_at r.2) r.1 c') ∧
  ∀ c', derives Line (lex text) c' → wp (parsecmd (text ++ 0 :: junk)) p (λ r _, rel_cmd (string_at r.2) r.1 c').
Proof. intros Hz. split; [by apply parsecmd_sound|]. intros c' Hd. by apply parsecmd_complete. Qed.

(** ** Printing *)

Definition paren (b : bool) (ts : list tok) : list tok := if b then Sym 40 :: ts ++ [Sym 41] else ts.

(** The tokens of a command where a list (level 0), a background command (1), a
    pipeline (2) or a simple command (3) is expected. *)
Fixpoint tokens (level : nat) (c : cmd (list Z)) : list tok :=
  match c with
  | EXEC ws => Word <$> ws
  | REDIR c w mode fd => tokens 3 c ++ [if decide (fd = 0) then Sym 60 else Sym 62; Word w]
  | PIPE l r => paren (2 <? level)%nat (tokens 3 l ++ Sym 124 :: tokens 2 r)
  | BACK c => paren (1 <? level)%nat (tokens 1 c ++ [Sym 38])
  | LIST l r => paren (0 <? level)%nat (tokens 1 l ++ Sym 59 :: tokens 0 r)
  end.

Definition spell (k : tok) : list Z := match k with Word w => w | Sym c => [c] | Append => [62; 62] end ++ [32].
Definition print (c : cmd (list Z)) : list Z := concat (spell <$> tokens 0 c).

Definition good_word (w : list Z) : Prop := w ≠ [] ∧ Forall (λ c, in_word c = true ∧ c ≠ 0) w.
(** Commands that have a line. *)
Inductive printable : cmd (list Z) → Prop :=
  | pr_exec ws : Forall good_word ws → (length ws < MAXARGS)%nat → printable (EXEC ws)
  | pr_in c w : printable c → good_word w → printable (REDIR c w O_RDONLY 0)
  | pr_out c w : printable c → good_word w → printable (REDIR c w (Z.lor O_WRONLY O_CREATE) 1)
  | pr_pipe l r : printable l → printable r → printable (PIPE l r)
  | pr_list l r : printable l → printable r → printable (LIST l r)
  | pr_back c : printable c → printable (BACK c).

Definition good_tok (k : tok) : Prop := match k with Word w => good_word w | Sym c => c ∈ symbols | Append => True end.

Lemma lex_spell k t : good_tok k → lex (spell k ++ t) = k :: lex t.
Proof.
  assert (lex (32 :: t) = lex t) as Hsp by done. destruct k as [w|c|]; intros Hk; unfold spell.
  - destruct Hk as [Hne Hw]. rewrite <- app_assoc. simpl app. rewrite lex_word; [by rewrite Hsp|done| |done].
    eapply Forall_impl; [exact Hw|]. by intros ? [? _].
  - simpl app. rewrite lex_sym; [by rewrite Hsp|done|done].
  - done.
Qed.
Lemma lex_spells ts : Forall good_tok ts → lex (concat (spell <$> ts)) = ts.
Proof. induction 1 as [|k ts Hk Hts IH]; [done|]. cbn [fmap list_fmap concat]. rewrite lex_spell by done. by f_equal. Qed.
Lemma spell_no_zero ts : Forall good_tok ts → 0 ∉ concat (spell <$> ts).
Proof.
  induction 1 as [|k ts Hk Hts IH]; [apply not_elem_of_nil|]. cbn [fmap list_fmap concat]. apply not_elem_of_app. split; [|done].
  destruct k as [w|c|]; simpl in *; unfold spell; [|unfold symbols in Hk; set_solver|set_solver].
  destruct Hk as [_ Hw]. rewrite Forall_forall in Hw. intros [Hin|Hin]%elem_of_app; [by destruct (Hw 0 Hin)|set_solver].
Qed.

Lemma good_sym c ts : bool_decide (c ∈ symbols) = true → Forall good_tok ts → Forall good_tok (Sym c :: ts).
Proof. intros ?%bool_decide_eq_true. by constructor. Qed.
Lemma good_paren b ts : Forall good_tok ts → Forall good_tok (paren b ts).
Proof. intros Ht. destruct b; [|done]. apply good_sym; [done|]. apply Forall_app. split; [done|]. by apply good_sym. Qed.
Lemma good_tokens c : printable c → ∀ level, Forall good_tok (tokens level c).
Proof.
  induction 1 as [ws Hw Hl|c w Hc IH Hw|c w Hc IH Hw|l r Hl IHl Hr IHr|l r Hl IHl Hr IHr|c Hc IH]; intros level; cbn [tokens].
  - by apply Forall_fmap.
  - apply Forall_app. split; [done|]. apply good_sym; [done|]. by repeat constructor; destruct Hw.
  - apply Forall_app. split; [done|]. apply good_sym; [done|]. by repeat constructor; destruct Hw.
  - apply good_paren, Forall_app. split; [done|]. by apply good_sym.
  - apply good_paren, Forall_app. split; [done|]. by apply good_sym.
  - apply good_paren, Forall_app. split; [done|]. by apply good_sym.
Qed.

Lemma args_words ws : args (Word <$> ws) ws [].
Proof. induction ws as [|w ws IH]; [constructor|]. exact (args_cons w [] [] _ ws [] redirs_nil IH). Qed.
Lemma redirs_app_ rts rs rts' rs' : redirs rts rs → redirs rts' rs' → redirs (rts ++ rts') (rs ++ rs').
Proof. induction 1; intros; simpl; [done|constructor; auto..]. Qed.
Lemma args_redirs ts ws rs rts rs' : args ts ws rs → redirs rts rs' → ts = [] ∧ ws = [] ∧ rs = [] ∨ args (ts ++ rts) ws (rs ++ rs').
Proof.
  intros Ha Hr. induction Ha as [|w rts1 rs1 ts ws rs Hr1 Ha IH]; [by left|right]. simpl. rewrite <- !app_assoc.
  destruct IH as [(-> & -> & ->)|IH]; [|by constructor]. cbn [app]. pose proof (args_cons w (rts1 ++ rts) (rs1 ++ rs') [] [] []) as Hc.
  rewrite !app_nil_r in Hc. apply Hc; [by apply redirs_app_|constructor].
Qed.
Lemma wrap_app {W} (c : cmd W) rs rs' : wrap (wrap c rs) rs' = wrap c (rs ++ rs').
Proof. unfold wrap. by rewrite foldl_app. Qed.

Lemma derives_redirs ts c rts rs : derives Simple ts c → redirs rts rs → derives Simple (ts ++ rts) (wrap c rs).
Proof.
  intros Hd Hr. inversion Hd as [rts1 rs1 ts1 ws rs1' Hr1 Ha Hl|ts1 c1 rts1 rs1 Hd1 Hr1| | | |]; subst.
  - rewrite wrap_app, <- !app_assoc. destruct (args_redirs _ _ _ _ _ Ha Hr) as [(-> & -> & ->)|Ha'].
    + pose proof (d_words (rts1 ++ rts) (rs1 ++ rs) [] [] []) as Hw. rewrite !app_nil_r in Hw. simpl. apply Hw; [by apply redirs_app_|constructor|done].
    + by constructor.
  - rewrite wrap_app. simpl. rewrite <- app_assoc. simpl. constructor; [done|by apply redirs_app_].
Qed.

(** A background command is a pipeline and a number of ampersands. *)
Definition derives_back (ts : list tok) (c : cmd (list Z)) : Prop :=
  ∃ n ts' c', ts = ts' ++ replicate n (Sym 38) ∧ c = Nat.iter n BACK c' ∧ derives Pipeline ts' c'.
Definition derives_at (level : nat) (ts : list tok) (c : cmd (list Z)) : Prop :=
  match level with 0 => derives Line ts c | 1 => derives_back ts c | 2 => derives Pipeline ts c | _ => derives Simple ts c end%nat.

Lemma derives_back_line ts c : derives_back ts c → derives Line ts c.
Proof. intros (n & ts' & c' & -> & -> & Hd). by constructor. Qed.
Lemma derives_pipe_back ts c : derives Pipeline ts c → derives_back ts c.
Proof. intros Hd. exists 0%nat, ts, c. by rewrite app_nil_r. Qed.
Lemma derives_block ts c : derives Line ts c → derives Simple (Sym 40 :: ts ++ [Sym 41]) c.
Proof. intros Hd. apply (d_block ts c [] []); [done|constructor]. Qed.
(** Without parentheses up to its own level, with them above. *)
Lemma derives_paren own ts c : (own ≤ 3)%nat → derives_at own ts c → ∀ level, derives_at level (paren (own <? level)%nat ts) c.
Proof.
  intros Ho Hd. assert (derives Line ts c) as Hl.
  { destruct own as [|[|[|[]]]]; simpl in Hd; [done|by apply derives_back_line|by apply derives_back_line, derives_pipe_back
      |by apply derives_back_line, derives_pipe_back, d_simple|lia]. }
  pose proof (derives_block ts c Hl) as Hb. intros level. destruct (Nat.ltb_spec own level) as [Hlt|Hge]; simpl.
  - destruct level as [|[|[|]]]; simpl; [lia|by apply derives_pipe_back, d_simple|by apply d_simple|done].
  - destruct level as [|[|[|]]], own as [|[|[|[]]]]; simpl in *; try lia; try done; try (by apply d_simple); try (by apply derives_pipe_back);
      by apply derives_pipe_back, d_simple.
Qed.

Lemma derives_any ts c : derives Simple ts c → ∀ level, derives_at level ts c.
Proof.
  intros Hd [|[|[|]]]; simpl; [by apply derives_back_line, derives_pipe_back, d_simple|by apply derives_pipe_back, d_simple|by apply d_simple|done].
Qed.

Lemma tokens_derive c : printable c → ∀ level, derives_at level (tokens level c) c.
Proof.
  induction 1 as [ws Hw Hl|c w Hc IH Hw|c w Hc IH Hw|l r Hl IHl Hr IHr|l r Hl IHl Hr IHr|c Hc IH]; intros level; cbn [tokens].
  - apply derives_any. exact (d_words [] [] _ ws [] redirs_nil (args_words ws) Hl).
  - apply derives_any. apply (derives_redirs _ c _ [(w, O_RDONLY, 0)]); [apply (IH 3%nat)|]. repeat constructor.
  - apply derives_any. apply (derives_redirs _ c _ [(w, Z.lor O_WRONLY O_CREATE, 1)]); [apply (IH 3%nat)|]. repeat constructor.
  - apply derives_paren; [lia|]. simpl. constructor; [apply (IHl 3%nat)|apply (IHr 2%nat)].
  - apply derives_paren; [lia|]. simpl. destruct (IHl 1%nat) as (n & ts & c' & -> & -> & Hd). rewrite <- app_assoc.
    constructor; [done|apply (IHr 0%nat)].
  - apply derives_paren; [lia|]. destruct (IH 1%nat) as (n & ts & c' & -> & -> & Hd). exists (S n), ts, c'.
    rewrite <- app_assoc, replicate_S_end. done.
Qed.

(** C38: Every command with at most nine arguments in each of its programs, words
    of ordinary characters and the shell's two modes of redirection has a line,
    and parsing the line gives the command back, word for word: precedence,
    nesting and redirections are all kept. *)
Theorem parsecmd_print (c : cmd (list Z)) (junk : list Z) (p : nat) :
  printable c → wp (parsecmd (print c ++ 0 :: junk)) p (λ r _, rel_cmd (string_at r.2) r.1 c).
Proof.
  intros Hc. pose proof (good_tokens c Hc 0) as Hg. apply parsecmd_complete; [by apply spell_no_zero|].
  unfold print. rewrite lex_spells by done. apply (tokens_derive c Hc 0).
Qed.

(** ** Instances *)

(** The line [a <f|(b;c&)], with a newline as from the console. *)
Definition sample_line : list Z := [97; 32; 60; 102; 124; 40; 98; 59; 99; 38; 41; 10].
Definition sample_cmd : cmd (list Z) :=
  PIPE (REDIR (EXEC [[97]]) [102] O_RDONLY 0) (LIST (EXEC [[98]]) (BACK (EXEC [[99]]))).

Lemma parsecmd_decides_grammar_witness :
  wpp syntax_error (parsecmd (sample_line ++ [0])) 0%nat (λ r _, ∃ c', derives Line (lex sample_line) c' ∧ rel_cmd (string_at r.2) r.1 c') ∧
  ∀ c', derives Line (lex sample_line) c' → wp (parsecmd (sample_line ++ [0])) 0%nat (λ r _, rel_cmd (string_at r.2) r.1 c').
Proof. apply (parsecmd_decides_grammar sample_line [] 0). unfold sample_line. set_solver. Defined.
Example parse_sample_line : parsecmd (sample_line ++ [0]) 0%nat =
  Ret (PIPE (REDIR (EXEC [(0, 1)%nat]) (3, 4)%nat O_RDONLY 0) (LIST (EXEC [(6, 7)%nat]) (BACK (EXEC [(8, 9)%nat]))),
       [97; 0; 60; 102; 0; 40; 98; 0; 99; 0; 41; 10; 0]) 12%nat.
Proof. by vm_compute. Qed.
Example parse_unclosed : parsecmd [40; 97; 10; 0] 0%nat = Panic "syntax - missing )".
Proof. by vm_compute. Qed.

Lemma parsecmd_print_witness : wp (parsecmd (print sample_cmd ++ [0])) 0%nat (λ r _, rel_cmd (string_at r.2) r.1 sample_cmd).
Proof.
  apply (parsecmd_print sample_cmd [] 0). unfold sample_cmd.
  repeat first [apply pr_pipe|apply pr_in|apply pr_list|apply pr_back|apply pr_exec]; repeat constructor; unfold MAXARGS; simpl; try lia; done.
Defined.
