(* ===== verification/Umalloc.v ===== *)
(** * The user library's allocator (umalloc.c)

    Kernighan and Ritchie's malloc.  Free blocks form a ring in address order
    that starts at the static [base]; each block starts with a header of two
    words, the next block of the ring and the size in units of a header.
    Memory is a map from the address of a 32-bit word to its value; [brk] is the
    end of the process's memory, past which an access faults. *)

From S2P Require Import Prelude.

Local Open Scope Z_scope.

Record heap := mkHeap { word : Z → Z; brk : Z; freep : Z }.
Definition set_word (f : Z → Z) (h : heap) : heap := mkHeap f (brk h) (freep h).
Definition set_brk (v : Z) (h : heap) : heap := mkHeap (word h) v (freep h).
Definition set_freep (v : Z) (h : heap) : heap := mkHeap (word h) (brk h) v.
Definition put (a v : Z) (h : heap) : heap := set_word (<[a := v]> (word h)) h.

Definition sizeof_Header : Z := 8.

Definition load (a : Z) : M heap Z := lookupM (λ h, if decide (0 ≤ a ∧ a + 4 ≤ brk h) then Some (word h a) else None).
Definition store (a v : Z) : M heap unit := load a;; modify (put a v).

(** [p->s.ptr] and [p->s.size]. *)
Definition s_ptr (p : Z) : M heap Z := load p.
Definition s_size (p : Z) : M heap Z := load (p + 4).
Definition set_ptr (p v : Z) : M heap unit := store p v.
Definition set_size (p v : Z) : M heap unit := store (p + 4) v.
(** [p + n] for a [Header *]. *)
Definition plus (p n : Z) : Z := u32 (p + n * sizeof_Header).

(** The [for] loop of [free]. *)
Fixpoint free_loop (fuel : nat) (bp p : Z) : M heap Z :=
  n ← s_ptr p;
  if decide (p < bp ∧ bp < n) then mret p else
  if decide (n ≤ p ∧ (p < bp ∨ bp < n)) then mret p else
  match fuel with O => diverge | S f => free_loop f bp n end.

(** More than the number of headers that fit below [brk]. *)
Definition headers (h : heap) : nat := Z.to_nat (brk h / sizeof_Header).

(** [if(bp + bp->s.size == p->s.ptr) ... else ...] *)
Definition join_next (bp p : Z) : M heap unit :=
  n ← s_ptr p;
  bs ← s_size bp;
  if decide (plus bp bs = n) then
    ns ← s_size n;
    set_size bp (u32 (bs + ns));;
    nn ← s_ptr n;
    set_ptr bp nn
  else set_ptr bp n.

(** [if(p + p->s.size == bp) ... else ...] *)
Definition join_prev (bp p : Z) : M heap unit :=
  ps ← s_size p;
  if decide (plus p ps = bp) then
    bs ← s_size bp;
    set_size p (u32 (ps + bs));;
    bn ← s_ptr bp;
    set_ptr p bn
  else set_ptr p bp.

Definition free (ap : Z) : M heap unit :=
  let bp := plus ap (-1) in
  fp ← gets freep;
  fuel ← gets headers;
  p ← free_loop fuel bp fp;
  join_next bp p;;
  join_prev bp p;;
  modify (set_freep p).

Section Malloc.
Context (base : Z) (sbrk : Z → M heap Z).

Definition morecore (nu : Z) : M heap Z :=
  let nu := if decide (nu < 4096) then 4096 else nu in
  p ← sbrk (i32 (nu * sizeof_Header));
  if decide (p = u32 (-1)) then mret 0 else
  set_size p nu;;
  free (plus p 1);;
  gets freep.

(** The block at [p] is large enough: the part that is handed out. *)
Definition carve (nunits prevp p size : Z) : M heap Z :=
  if decide (size = nunits) then n ← s_ptr p; set_ptr prevp n;; mret p
  else
    set_size p (size - nunits);;
    let p := plus p (size - nunits) in
    set_size p nunits;;
    mret p.

Fixpoint malloc_loop (fuel : nat) (nunits prevp p : Z) : M heap Z :=
  size ← s_size p;
  if decide (nunits ≤ size) then
    p ← carve nunits prevp p size;
    modify (set_freep prevp);;
    mret (plus p 1)
  else
    fp ← gets freep;
    r ← (if decide (p = fp) then
           p ← morecore nunits; if decide (p = 0) then mret None else mret (Some p)
         else mret (Some p));
    match r with
    | None => mret 0
    | Some p => match fuel with O => diverge | S f => n ← s_ptr p; malloc_loop f nunits p n end
    end.

Definition malloc (nbytes : Z) : M heap Z :=
  let nunits := u32 (u32 (nbytes + sizeof_Header - 1) / sizeof_Header + 1) in
  fp ← gets freep;
  (if decide (fp = 0) then
     modify (set_freep base);;
     set_ptr base base;;
     set_size base 0
   else mret tt);;
  prevp ← gets freep;
  p ← s_ptr prevp;
  n ← gets headers;
  malloc_loop (2 * n + 4) nunits prevp p.
End Malloc.
