(* ===== verification/UmallocProps.v ===== *)
(** * What malloc and free do (umalloc.c)

    The blocks of the heap, free and handed out: they never overlap, none is
    lost, the free ones are kept in address order with neighbours joined, and a
    block that has been handed out is left alone. *)

From S2P Require Import Prelude Umalloc.

Local Open Scope Z_scope.

(** ** Blocks *)

(** The address of a block's header and its size in units. *)
Notation block := (Z * Z)%type.
Definition bend (b : block) : Z := b.1 + 8 * b.2.
Definition apart (b c : block) : Prop := bend b ≤ c.1 ∨ bend c ≤ b.1.
Fixpoint disjoint (l : list block) : Prop := match l with [] => True | b :: l' => Forall (apart b) l' ∧ disjoint l' end.
(** In address order from [lo], with a gap after each. *)
Fixpoint ascending (lo : Z) (l : list block) : Prop :=
  match l with [] => True | b :: l' => lo ≤ b.1 ∧ 0 < b.2 ∧ ascending (bend b + 1) l' end.

(** The ring: from [a] through the blocks [l] to [z]. *)
Fixpoint chain (h : heap) (a : Z) (l : list block) (z : Z) : Prop :=
  match l with [] => word h a = z | b :: l' => word h a = b.1 ∧ word h (b.1 + 4) = b.2 ∧ chain h b.1 l' z end.
Definition endof (a : Z) (l : list block) : Z := default a (last l.*1).
Definition headof (l : list block) (z : Z) : Z := match l with [] => z | b :: _ => b.1 end.

Lemma endof_snoc a l b : endof a (l ++ [b]) = b.1.
Proof. unfold endof. rewrite fmap_app, last_app. done. Qed.
Lemma endof_cons a b l : endof a (b :: l) = endof b.1 l.
Proof. unfold endof. rewrite fmap_cons, last_cons. by destruct (last l.*1). Qed.

Lemma chain_app h l : ∀ a l' z, chain h a (l ++ l') z ↔ chain h a l (headof l' z) ∧ chain h (endof a l) l' z.
Proof.
  induction l as [|b l IH]; intros a l' z; simpl.
  - change (endof a []) with a. destruct l'; simpl; [split; [by split|tauto]|tauto].
  - rewrite IH, endof_cons. tauto.
Qed.

Lemma ascending_ge lo l b : ascending lo l → b ∈ l → lo ≤ b.1 ∧ 0 < b.2.
Proof.
  revert lo. induction l as [|c l IH]; intros lo Ha Hb; [by apply elem_of_nil in Hb|]. destruct Ha as (H1 & H2 & H3).
  apply elem_of_cons in Hb as [->|Hb]; [done|]. destruct (IH _ H3 Hb). unfold bend in *. lia.
Qed.
Lemma ascending_app lo l l' : ascending lo (l ++ l') ↔ ascending lo l ∧ ascending (match last l with Some b => bend b + 1 | None => lo end) l'.
Proof.
  revert lo. induction l as [|b l IH]; intros lo; simpl; [tauto|]. rewrite IH, last_cons. destruct (last l); tauto.
Qed.
Lemma ascending_weaken lo lo' l : lo' ≤ lo → ascending lo l → ascending lo' l.
Proof. destruct l; [done|]. simpl. intros ? (? & ? & ?). split; [lia|done]. Qed.

#[global] Instance apart_dec b c : Decision (apart b c).
Proof. unfold apart. apply _. Defined.
Lemma blocks_apart_sym b c : apart b c → apart c b.
Proof. unfold apart. tauto. Qed.
#[global] Instance disjoint_perm : Proper ((≡ₚ) ==> iff) disjoint.
Proof.
  assert (∀ l l', l ≡ₚ l' → disjoint l → disjoint l') as H; [|intros l l' E; split; apply H; [done|by symmetry]].
  induction 1 as [|b l l' E IH|b c l|l l' l'' _ IH1 _ IH2]; simpl; [done| | |by auto].
  - intros [Hf Hd]. split; [by rewrite <- E|auto].
  - intros (Hb & Hc & Hd). inversion Hb as [|? ? Hbc Hb']; subst. split; [|done]. constructor; [by apply blocks_apart_sym|done].
Qed.
Lemma disjoint_app l l' : disjoint (l ++ l') ↔ disjoint l ∧ disjoint l' ∧ Forall (λ b, Forall (apart b) l') l.
Proof.
  induction l as [|b l IH]; simpl; [split; [intros ?; split_and!; [done|done|constructor]|tauto]|]. rewrite IH, Forall_app, Forall_cons. tauto.
Qed.

(** ** The heap *)

Section Heap.
Context (base : Z).

(** [F] are the free blocks in address order, [A] the blocks handed out. *)
Record Inv (h : heap) (F A : list block) : Prop := {
  inv_chain : chain h base F base;
  inv_base : word h (base + 4) = 0;
  inv_freep : freep h ∈ base :: F.*1;
  inv_asc : ascending (base + 8) F;
  inv_disjoint : disjoint (F ++ A);
  inv_range : Forall (λ b, base + 8 ≤ b.1 ∧ 0 < b.2 ∧ bend b ≤ brk h) (F ++ A);
  inv_size : Forall (λ b, word h (b.1 + 4) = b.2) A;
  inv_brk : 0 < base ∧ base + 8 ≤ brk h ≤ KERNBASE
}.

(** ** Memory accesses *)

Definition inside (h : heap) (a : Z) : Prop := 0 ≤ a ∧ a + 4 ≤ brk h.
Lemma wp_load a h (Q : Z → heap → Prop) : inside h a → Q (word h a) h → wp (load a) h Q.
Proof. intros Hi HQ. unfold load. eapply wp_lookupM; [by rewrite decide_True|done]. Qed.
Lemma wp_store a v h (Q : unit → heap → Prop) : inside h a → Q tt (put a v h) → wp (store a v) h Q.
Proof. intros Hi HQ. unfold store. wp_steps. apply wp_load; [done|]. wp_steps. done. Qed.
Lemma word_put_eq a v h : word (put a v h) a = v.
Proof. unfold put. simpl. by rewrite fn_lookup_insert. Qed.
Lemma word_put_ne a b v h : a ≠ b → word (put a v h) b = word h b.
Proof. intros Hne. unfold put. simpl. by rewrite fn_lookup_insert_ne. Qed.

Lemma plus_small p n : 0 ≤ p + 8 * n < 2 ^ 32 → plus p n = p + 8 * n.
Proof. intros H. unfold plus, sizeof_Header. rewrite Z.mul_comm. by apply u32_small. Qed.

(** The words at which two heaps differ. *)
Definition differ_in (h h' : heap) (P : Z → Prop) : Prop := ∀ x, P x ∨ word h' x = word h x.

Lemma chain_same h h' a l z : chain h a l z → word h' a = word h a →
  (∀ b, b ∈ l → word h' b.1 = word h b.1 ∧ word h' (b.1 + 4) = word h (b.1 + 4)) → chain h' a l z.
Proof.
  revert a. induction l as [|b l IH]; intros a Hc Ha Hl; simpl in *; [congruence|]. destruct Hc as (H1 & H2 & H3).
  destruct (Hl b) as [Hb1 Hb2]; [apply list_elem_of_here|]. split; [congruence|]. split; [congruence|].
  apply IH; [done|done|]. intros c Hc. apply Hl. by right.
Qed.

Lemma split_at lo F b : ascending lo F → Forall (apart b) F → 0 < b.2 →
  ∃ F1 F2, F = F1 ++ F2 ∧ Forall (λ c, bend c ≤ b.1) F1 ∧ Forall (λ c, bend b ≤ c.1) F2.
Proof.
  intros Ha Hb H0. revert lo Ha. induction Hb as [|c F Hc HF IH]; intros lo Ha; [by exists [], []|]. destruct Ha as (H1 & H2 & H3).
  destruct Hc as [Hc|Hc].
  - exists [], (c :: F). split; [done|]. split; [constructor|]. constructor; [done|]. apply Forall_forall. intros d Hd.
    destruct (ascending_ge _ _ _ H3 Hd). unfold bend in *. lia.
  - destruct (IH _ H3) as (F1 & F2 & -> & Hf1 & Hf2). exists (c :: F1), F2. split; [done|]. by split; [constructor|].
Qed.

(** A header of the ring is below [brk]. *)
Lemma endof_in a l : endof a l = a ∨ ∃ b, b ∈ l ∧ endof a l = b.1.
Proof.
  destruct l as [|b l] using rev_ind; [by left|right]. exists b. rewrite endof_snoc. split; [|done]. apply elem_of_app. right. apply list_elem_of_here.
Qed.

Section Scan.
Context (h : heap) (F1 F2 : list block) (bp : Z).
Context (Hc : chain h base (F1 ++ F2) base) (Ha : ascending (base + 8) (F1 ++ F2)) (Hb : base < bp).
Context (H1 : Forall (λ c, bend c ≤ bp) F1) (H2 : Forall (λ c, bp < c.1) F2).
Context (Hi : Forall (λ b, inside h b.1) (F1 ++ F2)) (Hib : inside h base).

Lemma endof_inside l l' : F1 ++ F2 = l ++ l' → inside h (endof base l).
Proof.
  intros E. destruct (endof_in base l) as [->|(b & Hin & ->)]; [done|]. rewrite Forall_forall in Hi. apply Hi. rewrite E. apply elem_of_app. by left.
Qed.
(** One node and the next. *)
Lemma node_next l l' : F1 ++ F2 = l ++ l' → word h (endof base l) = headof l' base.
Proof. intros E. rewrite E in Hc. apply chain_app in Hc as [_ Hc']. destruct l'; simpl in *; tauto. Qed.
Lemma node_lt l b l' : F1 ++ F2 = l ++ b :: l' → endof base l < b.1.
Proof.
  intros E. rewrite E in Ha. apply ascending_app in Ha as [Ha1 (Hlo & _)]. destruct l as [|c l] using rev_ind; [unfold endof in *; simpl in *; lia|].
  rewrite last_snoc in Hlo. rewrite endof_snoc. apply ascending_app in Ha1 as [_ (_ & Hc2 & _)]. unfold bend in *. lia.
Qed.

Lemma scan_below l2 : ∀ l1 fuel, F1 = l1 ++ l2 → (length l2 ≤ fuel)%nat →
  wp (free_loop fuel bp (endof base l1)) h (λ p h', h' = h ∧ p = endof base F1).
Proof.
  induction l2 as [|b l2 IH]; intros l1 fuel E Hf.
  - assert (F1 ++ F2 = l1 ++ F2) as E' by (by rewrite E, app_nil_r). assert (endof base l1 < bp) as Hlt.
    { destruct (endof_in base l1) as [->|(c & Hin & ->)]; [done|]. rewrite E, app_nil_r, Forall_forall in H1. pose proof (H1 c Hin).
      destruct (ascending_ge _ _ c Ha) as [_ ?]; [rewrite E'; apply elem_of_app; by left|]. unfold bend in *. lia. }
    assert (wp (mret (endof base l1)) h (λ p h', h' = h ∧ p = endof base F1)) as Hend by (wp_steps; by rewrite E, app_nil_r).
    destruct fuel; cbn [free_loop]; wp_steps; (apply wp_load; [by eapply endof_inside|]); rewrite (node_next _ _ E');
      (destruct F2 as [|c F2']; simpl; [rewrite decide_False by lia; rewrite decide_True; [done|split; [|by left]]|
        rewrite decide_True; [done|by inversion H2]]).
    all: destruct (endof_in base l1) as [->|(c & Hin & ->)]; [done|]; destruct (ascending_ge _ _ c Ha); [rewrite E'; apply elem_of_app; by left|lia].
  - assert (F1 ++ F2 = l1 ++ b :: (l2 ++ F2)) as E' by (rewrite E, <- app_assoc; done). destruct fuel as [|f]; [simpl in Hf; lia|].
    cbn [free_loop]. wp_steps. apply wp_load; [by eapply endof_inside|]. rewrite (node_next _ _ E'). simpl. pose proof (node_lt _ _ _ E') as Hlt.
    assert (bend b ≤ bp) as Hb1 by (rewrite E, Forall_app, Forall_cons in H1; tauto).
    destruct (ascending_ge _ _ b Ha) as [_ Hb2]; [rewrite E'; apply elem_of_app; right; apply list_elem_of_here|]. unfold bend in Hb1.
    rewrite !decide_False by lia. rewrite <- (endof_snoc base l1 b). apply IH; [by rewrite <- app_assoc|simpl in Hf; lia].
Qed.

Lemma scan_above l2 : ∀ l1 fuel, F2 = l1 ++ l2 → l1 ≠ [] → (length l2 + 1 + length F1 ≤ fuel)%nat →
  wp (free_loop fuel bp (endof base (F1 ++ l1))) h (λ p h', h' = h ∧ p = endof base F1).
Proof.
  induction l2 as [|b l2 IH]; intros l1 fuel E Hne Hf; (destruct fuel as [|f]; [lia|]).
  all: assert (bp < endof base (F1 ++ l1) ∧ base ≤ endof base (F1 ++ l1)) as [Hgt Hge] by (destruct l1 as [|c l1 _] using rev_ind; [done|];
    rewrite app_assoc, endof_snoc; rewrite E, Forall_forall in H2; assert (bp < c.1) by (apply H2; rewrite !elem_of_app, list_elem_of_singleton; tauto); lia).
  - assert (F1 ++ F2 = (F1 ++ l1) ++ []) as E' by (by rewrite E, !app_nil_r). cbn [free_loop]. wp_steps. apply wp_load; [by eapply endof_inside|].
    rewrite (node_next _ _ E'). simpl. rewrite !decide_False by lia. apply (scan_below F1 [] f); [done|simpl in Hf; lia].
  - assert (F1 ++ F2 = (F1 ++ l1) ++ b :: l2) as E' by (by rewrite E, <- app_assoc). cbn [free_loop]. wp_steps. apply wp_load; [by eapply endof_inside|].
    rewrite (node_next _ _ E'). simpl. pose proof (node_lt _ _ _ E') as Hlt. rewrite !decide_False by lia. rewrite <- (endof_snoc base (F1 ++ l1) b), <- app_assoc.
    apply IH; [by rewrite <- app_assoc|by destruct l1|simpl in Hf; lia].
Qed.

(** From any header of the ring the loop of [free] finds the place of [bp]. *)
Lemma scan_spec fuel fp : fp ∈ base :: (F1 ++ F2).*1 → (length (F1 ++ F2) + 1 ≤ fuel)%nat →
  wp (free_loop fuel bp fp) h (λ p h', h' = h ∧ p = endof base F1).
Proof.
  rewrite elem_of_cons, fmap_app, elem_of_app, !list_elem_of_fmap, length_app. intros [->|[(b & -> & Hin)|(b & -> & Hin)]] Hf.
  - apply (scan_below F1 [] fuel); [done|lia].
  - apply list_elem_of_split in Hin as (l1 & l2 & E). rewrite <- (endof_snoc base l1 b). apply (scan_below l2); [by rewrite E, <- app_assoc|].
    rewrite E, length_app in Hf. simpl in Hf. lia.
  - apply list_elem_of_split in Hin as (l1 & l2 & E). rewrite <- (endof_snoc base (F1 ++ l1) b), <- app_assoc.
    apply (scan_above l2); [by rewrite E, <- app_assoc|by destruct l1|]. rewrite E, length_app in Hf. simpl in Hf. lia.
Qed.
End Scan.

(** ** Joining *)

Definition units (l : list block) : Z := foldr (λ b n, b.2 + n) 0 l.
Lemma units_app l l' : units (l ++ l') = units l + units l'.
Proof. induction l; simpl; lia. Qed.

Lemma apart_join b c d : bend b = c.1 → apart b d → apart c d → 0 < b.2 → 0 < c.2 → 0 < d.2 → apart (b.1, b.2 + c.2) d.
Proof. unfold apart, bend. simpl. lia. Qed.
Lemma disjoint_join b c l : bend b = c.1 → disjoint (b :: c :: l) → Forall (λ d, 0 < d.2) (b :: c :: l) → disjoint ((b.1, b.2 + c.2) :: l).
Proof.
  intros E (Hb & Hc & Hl) Hp. inversion Hp as [|? ? Hb0 Hp1]; subst. inversion Hp1 as [|? ? Hc0 Hp2]; subst. inversion Hb as [|? ? _ Hb']; subst.
  split; [|done]. rewrite Forall_forall in Hb', Hc, Hp2 |- *. intros d Hd. apply apart_join; auto.
Qed.

Lemma ascending_delete lo l c l' : ascending lo (l ++ c :: l') → ascending lo (l ++ l').
Proof.
  rewrite !ascending_app. intros [Hl (H1 & H2 & H3)]. split; [done|]. eapply ascending_weaken; [|exact H3].
  destruct (last l); unfold bend in *; lia.
Qed.
Lemma ascending_insert lo l b l' : ascending lo (l ++ l') → lo ≤ b.1 → 0 < b.2 →
  (∀ c, last l = Some c → bend c < b.1) → (∀ c, head l' = Some c → bend b < c.1) → ascending lo (l ++ b :: l').
Proof.
  rewrite !ascending_app. intros [Hl Hl'] Hlo H0 Hlast Hhead. split; [done|]. cbn [ascending]. split; [|split; [done|]].
  - destruct (last l) as [c|]; [specialize (Hlast c eq_refl); lia|done].
  - destruct l' as [|c l']; [done|]. specialize (Hhead c eq_refl). cbn [ascending] in *. destruct Hl' as (_ & ? & ?). split; [lia|done].
Qed.

(** The block [b] is linked to what follows it, [F2], but not yet from the
    header before it, the last of [F1]. *)
Record Mid (h : heap) (F1 : list block) (b : block) (F2 A : list block) : Prop := {
  mid_before : ∃ z, chain h base F1 z;
  mid_after : chain h b.1 F2 base;
  mid_bsize : word h (b.1 + 4) = b.2;
  mid_base : word h (base + 4) = 0;
  mid_asc : ascending (base + 8) (F1 ++ F2);
  mid_below : Forall (λ c, bend c ≤ b.1) F1;
  mid_above : Forall (λ c, bend b < c.1) F2;
  mid_disjoint : disjoint (b :: F1 ++ F2 ++ A);
  mid_range : Forall (λ c, base + 8 ≤ c.1 ∧ 0 < c.2 ∧ bend c ≤ brk h) (b :: F1 ++ F2 ++ A);
  mid_size : Forall (λ c, word h (c.1 + 4) = c.2) A;
  mid_brk : 0 < base ∧ base + 8 ≤ brk h ≤ KERNBASE
}.

(** The words of a block's header. *)
Definition header (a x : Z) : Prop := x = a ∨ x = a + 4.
#[local] Instance header_dec a x : Decision (header a x).
Proof. unfold header. apply _. Defined.
Lemma header_apart b c x : header b.1 x → 0 < b.2 → apart b c → ¬ c.1 ≤ x < bend c.
Proof. unfold header, apart, bend. lia. Qed.

Lemma sizes_same h h' P A : Forall (λ c, word h (c.1 + 4) = c.2) A → differ_in h h' P →
  Forall (λ c, ¬ P (c.1 + 4)) A → Forall (λ c, word h' (c.1 + 4) = c.2) A.
Proof.
  intros Hs Hd Hp. rewrite Forall_forall in *. intros c Hc. destruct (Hd (c.1 + 4)) as [H|H]; [by destruct (Hp c Hc)|]. rewrite H. by apply Hs.
Qed.

Ltac inrange := unfold inside, bend in *; simpl in *; lia.

Lemma perm_mid (b : block) F1 F2 A : F1 ++ F2 ++ b :: A ≡ₚ b :: F1 ++ F2 ++ A.
Proof. rewrite !app_assoc. symmetry. apply Permutation_middle. Qed.

(** What follows a block, joined with it or not. *)
Inductive joins (b : block) : list block → block → list block → Prop :=
  | joins_not F : (∀ c, head F = Some c → bend b < c.1) → joins b F b F
  | joins_next c F : bend b = c.1 → joins b (c :: F) (b.1, b.2 + c.2) F.

Lemma chain_tail h a l z c : chain h a (c :: l) z → word h c.1 = headof l z ∧ word h (c.1 + 4) = c.2.
Proof. intros (_ & H1 & H2). split; [by destruct l; simpl in *; tauto|done]. Qed.

(** A chain seen from another header. *)
Lemma chain_from h h' a a' l z : chain h a l z → word h' a' = headof l z →
  (∀ b, b ∈ l → word h' b.1 = word h b.1 ∧ word h' (b.1 + 4) = word h (b.1 + 4)) → chain h' a' l z.
Proof.
  destruct l as [|b l]; intros Hc Ha Hl; [done|]. destruct Hc as (_ & H2 & H3). destruct (Hl b) as [E1 E2]; [apply list_elem_of_here|].
  simpl in *. split; [done|]. split; [congruence|]. eapply chain_same; [exact H3|done|]. intros c Hc. apply Hl. by right.
Qed.

Section Free.
Context (h : heap) (F1 F2 : list block) (b : block) (A : list block).
Context (HI : Inv h (F1 ++ F2) (b :: A)) (H1 : Forall (λ c, bend c ≤ b.1) F1) (H2 : Forall (λ c, bend b ≤ c.1) F2).

Lemma block_range c : c ∈ b :: F1 ++ F2 ++ A → base + 8 ≤ c.1 ∧ 0 < c.2 ∧ bend c ≤ brk h.
Proof.
  pose proof (inv_range _ _ _ HI) as Hr. rewrite <- app_assoc, perm_mid, Forall_forall in Hr. apply Hr.
Qed.
Lemma block_apart c : c ∈ F1 ++ F2 ++ A → apart b c.
Proof. pose proof (inv_disjoint _ _ _ HI) as Hd. rewrite <- app_assoc, perm_mid in Hd. destruct Hd as [Hd _]. rewrite Forall_forall in Hd. apply Hd. Qed.
Lemma header_other c x : c ∈ F1 ++ F2 ++ A → header c.1 x → ¬ header b.1 x.
Proof.
  intros Hc Hx. destruct (block_range b) as (_ & Hb & _); [apply list_elem_of_here|]. destruct (block_range c) as (_ & Hc0 & _); [by right|].
  pose proof (block_apart c Hc). unfold header, apart, bend in *. lia.
Qed.

Lemma mid_intro h' b' F2' : brk h' = brk h → differ_in h h' (header b.1) → word h' b.1 = headof F2' base → word h' (b.1 + 4) = b'.2 →
  joins b F2 b' F2' → Mid h' F1 b' F2' A.
Proof.
  intros Ek Hd Ep Es Hj. destruct (block_range b) as (Hb1 & Hb2 & Hb3); [apply list_elem_of_here|].
  pose proof block_range as Hrange. pose proof HI as [Hc H0 _ Ha Hdis Hr Hs Hk]. apply chain_app in Hc as [Hc1 Hc2]. rewrite <- app_assoc, perm_mid in Hdis, Hr.
  assert (∀ c, c ∈ F1 ++ F2 ++ A → word h' c.1 = word h c.1 ∧ word h' (c.1 + 4) = word h (c.1 + 4)) as Hsame.
  { intros c Hin. split; (destruct (Hd (c.1)) as [Hx|Hx]; [by destruct (header_other c c.1 Hin (or_introl eq_refl))|];
      destruct (Hd (c.1 + 4)) as [Hy|Hy]; [by destruct (header_other c (c.1 + 4) Hin (or_intror eq_refl))|]; done). }
  assert (∀ x, x < base + 8 → word h' x = word h x) as Hlow by (intros x Hx; destruct (Hd x) as [Hh|]; [unfold header in Hh; lia|done]).
  assert (chain h' base F1 (headof F2 base)) as Hc1'.
  { eapply chain_same; [exact Hc1|apply Hlow; lia|]. intros c Hin. apply Hsame. rewrite !elem_of_app. tauto. }
  assert (Forall (λ c, word h' (c.1 + 4) = c.2) A) as HsA.
  { inversion Hs as [|? ? _ HsA]; subst. rewrite Forall_forall in HsA |- *. intros c Hin. rewrite <- (HsA c Hin). apply Hsame. rewrite !elem_of_app. tauto. }
  destruct Hj as [F Hh|c F Hbc].
  - split; try done; [by eexists| |by rewrite Hlow by lia| |by rewrite Ek|by rewrite Ek].
    + eapply chain_from; [exact Hc2|done|]. intros c Hin. apply Hsame. rewrite !elem_of_app. tauto.
    + destruct F as [|c F]; [constructor|]. specialize (Hh c eq_refl). constructor; [done|]. apply ascending_app in Ha as [_ (_ & Hc0 & Ha)].
      apply Forall_forall. intros d Hin. destruct (ascending_ge _ _ _ Ha Hin). unfold bend in *. lia.
  - assert (c :: F = [c] ++ F) as EF by done. destruct (Hrange c) as (Hc0 & Hc3 & Hc4); [rewrite EF, elem_of_cons, !elem_of_app, list_elem_of_singleton; tauto|].
    assert (b :: F1 ++ (c :: F) ++ A ≡ₚ b :: c :: F1 ++ F ++ A) as Hp by (constructor; symmetry; apply Permutation_middle). rewrite Hp in Hdis, Hr.
    inversion Hr as [|? ? _ Hr1]; subst. inversion Hr1 as [|? ? _ Hr2]; subst.
    split; try done; [by eexists| |by rewrite Hlow by lia|by eapply ascending_delete| | | |by rewrite Ek].
    + cbn [chain] in Hc2. destruct Hc2 as (_ & _ & Hc2). simpl. eapply chain_from; [exact Hc2|done|]. intros d Hin. apply Hsame. rewrite EF, !elem_of_app. tauto.
    + apply ascending_app in Ha as [_ (_ & _ & Ha)]. apply Forall_forall. intros d Hin. destruct (ascending_ge _ _ _ Ha Hin). unfold bend in *. simpl. lia.
    + apply disjoint_join; [done|done|]. eapply Forall_impl; [exact Hr|]. simpl. tauto.
    + rewrite Ek. constructor; [|done]. unfold bend in *. simpl. lia.
Qed.

Lemma pred_inside : inside h (endof base F1) ∧ inside h (endof base F1 + 4).
Proof.
  pose proof (inv_brk _ _ _ HI). destruct (endof_in base F1) as [->|(c & Hin & ->)]; [unfold inside; lia|].
  destruct (block_range c) as (? & ? & ?); [rewrite elem_of_cons, !elem_of_app; tauto|]. unfold inside, bend in *. lia.
Qed.

Lemma join_next_spec :
  wp (join_next b.1 (endof base F1)) h (λ _ h', ∃ b' F2', Mid h' F1 b' F2' A ∧ b'.1 = b.1 ∧ b.2 ≤ b'.2 ∧ (length F2' ≤ length F2)%nat ∧ units (b' :: F2') = units (b :: F2) ∧
    brk h' = brk h ∧ freep h' = freep h ∧ differ_in h h' (header b.1)).
Proof.
  destruct (block_range b) as (Hb1 & Hb2 & Hb3); [apply list_elem_of_here|]. pose proof (inv_brk _ _ _ HI) as Hk. unfold KERNBASE in Hk.
  pose proof (inv_chain _ _ _ HI) as Hc. apply chain_app in Hc as [_ Hc2]. pose proof (Forall_inv (inv_size _ _ _ HI)) as Hsb. simpl in Hsb.
  unfold join_next, s_ptr, s_size, set_size, set_ptr. wp_steps. apply wp_load; [apply pred_inside|]. wp_steps. apply wp_load; [inrange|]. rewrite Hsb.
  rewrite plus_small by inrange. assert (word h (endof base F1) = headof F2 base) as -> by (destruct F2; simpl in *; tauto).
  destruct (decide (b.1 + 8 * b.2 = headof F2 base)) as [E|E].
  - assert (∃ c F, F2 = c :: F) as (c & F & EF) by (destruct F2; [simpl in E; lia|by eexists _, _]). rewrite EF in E, Hc2 |- *. cbn [headof] in *.
    destruct (chain_tail _ _ _ _ _ Hc2) as [Ec1 Ec2]. destruct (block_range c) as (Hc0 & Hc3 & Hc4); [rewrite EF, elem_of_cons, !elem_of_app, elem_of_cons; tauto|].
    wp_steps. apply wp_load; [inrange|]. rewrite Ec2, u32_small by (unfold is_u32; inrange). wp_steps. apply wp_store; [inrange|]. wp_steps.
    apply wp_load; [inrange|]. rewrite word_put_ne, Ec1 by lia. apply wp_store; [inrange|]. exists (b.1, b.2 + c.2), F.
    assert (differ_in h (put b.1 (headof F base) (put (b.1 + 4) (b.2 + c.2) h)) (header b.1)) as Hd.
    { intros x. destruct (decide (header b.1 x)) as [|Hn]; [by left|right]. unfold header in Hn. by rewrite !word_put_ne by lia. }
    split; [|by split_and!; try done; simpl; lia]. apply mid_intro; [done|done|by rewrite word_put_eq|by rewrite word_put_ne, word_put_eq by lia|].
    rewrite EF. constructor. unfold bend. lia.
  - wp_steps. apply wp_store; [inrange|]. exists b, F2. assert (differ_in h (put b.1 (headof F2 base) h) (header b.1)) as Hd.
    { intros x. destruct (decide (header b.1 x)) as [|Hn]; [by left|right]. unfold header in Hn. by rewrite !word_put_ne by lia. }
    split; [|by split_and!]. apply mid_intro; [done|done|by rewrite word_put_eq|by rewrite word_put_ne by lia|]. constructor.
    intros c Hc. destruct F2 as [|c' F]; [done|]. simpl in *. simplify_eq. inversion H2; subst. unfold bend in *. lia.
Qed.
End Free.

Lemma ascending_lt lo G c l d : ascending lo (G ++ c :: l) → d ∈ G → bend d < c.1.
Proof.
  revert lo. induction G as [|e G IH]; intros lo Ha Hd; [by apply elem_of_nil in Hd|]. destruct Ha as (_ & _ & Ha).
  apply elem_of_cons in Hd as [->|Hd]; [|by eapply IH]. destruct (ascending_ge _ _ c Ha); [apply elem_of_app; right; apply list_elem_of_here|lia].
Qed.
Lemma chain_before h h' a G c l z : ascending (a + 8) (G ++ c :: l) → chain h a (G ++ [c]) z → differ_in h h' (header c.1) →
  chain h' a G c.1 ∧ word h' (endof a G) = c.1.
Proof.
  intros Ha Hc Hd. apply chain_app in Hc as [HG (He & _)]. destruct (ascending_ge _ _ c Ha) as [Hc1 _]; [apply elem_of_app; right; apply list_elem_of_here|].
  assert (∀ x, x = a ∨ (∃ d, d ∈ G ∧ header d.1 x) → word h' x = word h x) as Hsame.
  { intros x Hx. destruct (Hd x) as [Hh|]; [|done]. exfalso. unfold header in *. destruct Hx as [->|(d & Hin & Hx)]; [lia|].
    pose proof (ascending_lt _ _ _ _ _ Ha Hin). destruct (ascending_ge _ _ d Ha); [apply elem_of_app; by left|]. unfold bend in *. lia. }
  split.
  - eapply chain_same; [exact HG|apply Hsame; by left|]. intros d Hin. split; apply Hsame; right; exists d; unfold header; auto.
  - rewrite Hsame; [done|]. destruct (endof_in a G) as [->|(d & Hin & ->)]; [by left|right]. exists d. unfold header. auto.
Qed.

Lemma chain_relink h h' a l rest z v : ascending (a + 8) (l ++ rest) → chain h a l z →
  (∀ x, x ≠ endof a l → word h' x = word h x) → word h' (endof a l) = v → chain h' a l v.
Proof.
  intros Ha Hc Hw Hv. destruct l as [|c G _] using rev_ind; [done|]. rewrite endof_snoc in *. rewrite <- app_assoc in Ha.
  destruct (chain_before h h' a G c rest z Ha Hc) as [HG HE].
  { intros x. destruct (decide (x = c.1)); [left; by left|right; by apply Hw]. }
  apply chain_app. split; [done|]. cbn [chain]. split; [done|]. split; [|done]. apply chain_app in Hc as [_ (_ & Hcs & _)]. rewrite <- Hcs. apply Hw. lia.
Qed.

Section Prev.
Context (h : heap) (F1 F2 : list block) (b : block) (A : list block) (HM : Mid h F1 b F2 A).
Notation p := (endof base F1).

Lemma mid_block c : c ∈ b :: F1 ++ F2 ++ A → base + 8 ≤ c.1 ∧ 0 < c.2 ∧ bend c ≤ brk h.
Proof. pose proof (mid_range _ _ _ _ _ HM) as Hr. rewrite Forall_forall in Hr. apply Hr. Qed.
Lemma mid_apart_A c d : c ∈ F2 ++ A → d ∈ F1 → apart d c.
Proof.
  intros Hc Hd. pose proof (mid_disjoint _ _ _ _ _ HM) as [_ Hdis]. apply disjoint_app in Hdis as (_ & _ & Hdis).
  rewrite Forall_forall in Hdis. specialize (Hdis d Hd). rewrite Forall_forall in Hdis. by apply Hdis.
Qed.
(** Its words are not in the header before [b]. *)
Lemma pred_other c x : c ∈ b :: F2 ++ A → header c.1 x → ¬ header p x.
Proof.
  intros Hc Hx Hp. assert (c ∈ b :: F1 ++ F2 ++ A) as Hin by (rewrite elem_of_cons in *; rewrite !elem_of_app in *; tauto).
  destruct (mid_block c Hin) as (Hc1 & Hc2 & _). destruct (endof_in base F1) as [E|(d & Hd & E)]; rewrite E in Hp; unfold header in *; [lia|].
  destruct (mid_block d) as (_ & Hd2 & _); [rewrite elem_of_cons, !elem_of_app; tauto|]. assert (apart d c) as Hap.
  { apply elem_of_cons in Hc as [->|Hc]; [|by apply mid_apart_A]. left. pose proof (mid_below _ _ _ _ _ HM) as Hb. rewrite Forall_forall in Hb. by apply Hb. }
  unfold apart, bend in *. lia.
Qed.

(** What [join_prev] has to establish. *)
Lemma inv_intro h' F' : brk h' = brk h → freep h' = p → differ_in h h' (header p) →
  chain h' base F' base → ascending (base + 8) F' → p ∈ base :: F'.*1 → word h' (base + 4) = 0 →
  disjoint (F' ++ A) → Forall (λ c, base + 8 ≤ c.1 ∧ 0 < c.2 ∧ bend c ≤ brk h) F' → Inv h' F' A.
Proof.
  intros Ek Ef Hd Hc Ha Hp H0 Hdis Hr. pose proof (mid_range _ _ _ _ _ HM) as HrA. rewrite Forall_cons, !Forall_app in HrA.
  split; try done; [by rewrite Ef|rewrite Forall_app, Ek; tauto| |rewrite Ek; apply (mid_brk _ _ _ _ _ HM)].
  eapply sizes_same; [apply (mid_size _ _ _ _ _ HM)|exact Hd|]. apply Forall_forall. intros c Hin.
  apply (pred_other c); [rewrite elem_of_cons, elem_of_app; tauto|by right].
Qed.

Lemma mid_same h' c : differ_in h h' (header p) → c ∈ b :: F2 ++ A → word h' c.1 = word h c.1 ∧ word h' (c.1 + 4) = word h (c.1 + 4).
Proof.
  intros Hd Hc. split; [destruct (Hd c.1) as [Hx|]|destruct (Hd (c.1 + 4)) as [Hx|]]; try done; exfalso; (eapply (pred_other c); [exact Hc| |exact Hx]); unfold header; auto.
Qed.

Lemma pred_cases : F1 = [] ∧ p = base ∧ word h (p + 4) = 0 ∨ ∃ G c, F1 = G ++ [c] ∧ p = c.1 ∧ word h (p + 4) = c.2.
Proof.
  destruct HM as [[z Hz] _ _ H0 _ _ _ _ _ _ _]. destruct F1 as [|c G _] using rev_ind; [by left|right]. exists G, c. rewrite endof_snoc.
  apply chain_app in Hz as [_ (_ & Hs & _)]. done.
Qed.

Lemma differ_pred v w : differ_in h (set_freep p (put p v (put (p + 4) w h))) (header p) ∧ differ_in h (set_freep p (put p v h)) (header p).
Proof.
  split; intros x; destruct (decide (header p x)) as [|Hn]; try (by left); right; unfold header in Hn; simpl; rewrite !fn_insert_dec, !decide_False by lia; done.
Qed.

(** The header before [b] ends where [b] starts. *)
Lemma prev_joined G c : F1 = G ++ [c] → bend c = b.1 →
  let h' := set_freep p (put p (headof F2 base) (put (p + 4) (c.2 + b.2) h)) in Inv h' (G ++ (c.1, c.2 + b.2) :: F2) A.
Proof.
  intros EF Ec h'. destruct (differ_pred (headof F2 base) (c.2 + b.2)) as [Hd _]. fold h' in Hd. assert (p = c.1) as Ep by (rewrite EF; apply endof_snoc).
  pose proof HM as [[z Hz] Hc2 Hbs H0 Ha Hbl Hab Hdis Hr Hs Hk]. rewrite EF, <- app_assoc in Ha. cbn [app] in Ha. rewrite EF in Hz.
  destruct (mid_block c) as (Hc1 & Hc3 & _); [rewrite EF, elem_of_cons, !elem_of_app, list_elem_of_singleton; tauto|].
  destruct (mid_block b) as (Hb1 & Hb2 & Hb3); [apply list_elem_of_here|].
  pose proof Hd as Hd'. rewrite Ep in Hd'. destruct (chain_before _ h' _ _ _ _ _ Ha Hz Hd') as [HG HE].
  apply inv_intro; [done|done|done| | | | | |].
  - apply chain_app. split; [done|]. cbn [chain]. split; [done|]. split.
    + unfold h'. simpl. rewrite !fn_insert_dec, Ep, decide_False, decide_True by lia. done.
    + eapply chain_from; [exact Hc2| |]; [unfold h'; simpl; by rewrite fn_insert_dec, Ep, decide_True by done|].
      intros d Hin. apply mid_same; [done|]. rewrite elem_of_cons, elem_of_app. tauto.
  - apply ascending_delete in Ha as Ha'. apply ascending_app in Ha as [HaG (Hlo & _ & _)]. rewrite ascending_app. split; [done|]. cbn [ascending].
    split; [done|]. simpl. split; [lia|]. apply ascending_app in Ha' as [_ Ha']. destruct F2 as [|d F]; [done|]. destruct Ha' as (_ & Hd2 & Ha2).
    split; [|done]. inversion Hab as [|? ? Hdb]; subst. unfold bend in *. simpl in *. lia.
  - rewrite Ep. right. rewrite fmap_app, elem_of_app. right. apply list_elem_of_here.
  - destruct (Hd (base + 4)) as [Hx| ->]; [|done]. rewrite Ep in Hx. unfold header in Hx. lia.
  - rewrite <- app_assoc. cbn [app]. rewrite <- Permutation_middle. apply (disjoint_join c b); [done| |].
    + assert (c :: b :: G ++ F2 ++ A ≡ₚ b :: (G ++ [c]) ++ F2 ++ A) as ->; [|by rewrite <- EF].
      rewrite Permutation_swap. constructor. rewrite <- app_assoc. apply Permutation_middle.
    + rewrite Forall_forall. intros d Hin. apply mid_block. rewrite EF. rewrite !elem_of_cons, !elem_of_app, list_elem_of_singleton in *. tauto.
  - rewrite Forall_app, Forall_cons. rewrite EF, Forall_cons, !Forall_app in Hr. destruct Hr as (_ & (HrG & _) & Hr2 & _).
    split; [done|]. split; [|done]. unfold bend in *. simpl. lia.
Qed.

(** It does not. *)
Lemma prev_linked : plus p (word h (p + 4)) ≠ b.1 → let h' := set_freep p (put p b.1 h) in Inv h' (F1 ++ b :: F2) A.
Proof.
  intros Hne h'. destruct (differ_pred b.1 0) as [_ Hd]. fold h' in Hd. pose proof HM as [[z Hz] Hc2 Hbs H0 Ha Hbl Hab Hdis Hr Hs Hk].
  destruct (mid_block b) as (Hb1 & Hb2 & Hb3); [apply list_elem_of_here|]. assert (word h' p = b.1) as Ew by (unfold h'; simpl; by rewrite fn_insert_dec, decide_True).
  assert (∀ c, c ∈ b :: F2 ++ A → word h' c.1 = word h c.1 ∧ word h' (c.1 + 4) = word h (c.1 + 4)) as Hsame by (intros; by apply mid_same).
  apply inv_intro; [done|done|done| | | | | |].
  - apply chain_app. split.
    + eapply chain_relink; [exact Ha|exact Hz| |done]. intros x Hx. unfold h'. simpl. by rewrite fn_insert_dec, decide_False by congruence.
    + cbn [chain]. split; [done|]. destruct (Hsame b) as [Hs1 Hs2]; [apply list_elem_of_here|]. split; [congruence|].
      eapply chain_same; [exact Hc2|done|]. intros d Hin. apply Hsame. rewrite elem_of_cons, elem_of_app. tauto.
  - apply ascending_insert; [done|lia|done| |].
    + intros c Hl. destruct pred_cases as [(-> & _)|(G & c' & EF & Ep & Es)]; [done|]. rewrite EF, last_snoc in Hl. injection Hl as ->.
      rewrite Es, Ep in Hne. rewrite EF in Hbl. rewrite Forall_app, Forall_cons in Hbl. destruct Hbl as (_ & Hbc & _).
      destruct (mid_block c) as (? & ? & ?); [rewrite EF, elem_of_cons, !elem_of_app, list_elem_of_singleton; tauto|].
      unfold KERNBASE in Hk. rewrite plus_small in Hne by (unfold bend in *; lia). unfold bend in *. lia.
    + intros c Hc. destruct F2; [done|]. simpl in Hc. simplify_eq. by inversion Hab.
  - destruct (endof_in base F1) as [->|(c & Hin & ->)]; [by left|right]. rewrite fmap_app, elem_of_app. left. by apply list_elem_of_fmap_2.
  - destruct (Hd (base + 4)) as [Hx| ->]; [|done]. destruct (endof_in base F1) as [E|(c & Hin & E)]; rewrite E in Hx; unfold header in Hx.
    + unfold h'. simpl. rewrite fn_insert_dec, E, decide_False by lia. done.
    + destruct (mid_block c) as (? & _); [rewrite elem_of_cons, !elem_of_app; tauto|lia].
  - rewrite <- app_assoc. cbn [app]. by rewrite <- Permutation_middle.
  - rewrite Forall_app, Forall_cons. rewrite Forall_cons, !Forall_app in Hr. tauto.
Qed.

Lemma join_prev_spec :
  wp (join_prev b.1 p;; modify (set_freep p)) h (λ _ h', ∃ F', Inv h' F' A ∧ (∃ c, c ∈ F' ∧ b.2 ≤ c.2) ∧
    (length F' ≤ S (length F1 + length F2))%nat ∧ units F' = units F1 + units (b :: F2) ∧
    brk h' = brk h ∧ freep h' = p ∧ differ_in h h' (header p)).
Proof.
  destruct (mid_block b) as (Hb1 & Hb2 & Hb3); [apply list_elem_of_here|]. pose proof (mid_brk _ _ _ _ _ HM) as Hk.
  assert (inside h p ∧ inside h (p + 4) ∧ 0 ≤ p + 8 * word h (p + 4) < 2 ^ 32) as (Hi1 & Hi2 & Hw).
  { unfold KERNBASE in Hk. destruct pred_cases as [(_ & -> & ->)|(G & c & EF & -> & ->)]; [unfold inside; lia|].
    destruct (mid_block c) as (? & ? & ?); [rewrite EF, elem_of_cons, !elem_of_app, list_elem_of_singleton; tauto|]. unfold inside, bend in *. lia. }
  unfold join_prev, s_ptr, s_size, set_size, set_ptr. wp_steps. apply wp_load; [done|]. destruct (decide _) as [E|E].
  - rewrite plus_small in E by done. destruct pred_cases as [(_ & Ep & Es)|(G & c & EF & Ep & Es)]; [rewrite Es, Ep in E; lia|].
    destruct (mid_block c) as (? & ? & ?); [rewrite EF, elem_of_cons, !elem_of_app, list_elem_of_singleton; tauto|].
    wp_steps. apply wp_load; [inrange|]. rewrite (mid_bsize _ _ _ _ _ HM), Es, u32_small by (unfold is_u32, KERNBASE in *; inrange). wp_steps.
    apply wp_store; [done|]. wp_steps. apply wp_load; [inrange|]. rewrite word_put_ne by (rewrite Ep in *; unfold bend in *; lia).
    assert (word h b.1 = headof F2 base) as -> by (pose proof (mid_after _ _ _ _ _ HM); destruct F2; simpl in *; tauto).
    wp_steps. apply wp_store; [done|]. wp_steps. exists (G ++ (c.1, c.2 + b.2) :: F2). split; [apply prev_joined; [done|unfold bend; lia]|].
    split; [exists (c.1, c.2 + b.2); split; [apply elem_of_app; right; apply list_elem_of_here|simpl; lia]|].
    split; [rewrite EF, !length_app; simpl; lia|]. split; [rewrite EF, !units_app; simpl; lia|]. split; [done|]. split; [done|]. apply differ_pred.
  - wp_steps. apply wp_store; [done|]. wp_steps. exists (F1 ++ b :: F2). split; [by apply prev_linked|].
    split; [exists b; split; [apply elem_of_app; right; apply list_elem_of_here|done]|].
    split; [rewrite length_app; simpl; lia|]. split; [by rewrite units_app|].
    split; [done|]. split; [done|]. by apply differ_pred.
Qed.
End Prev.

(** ** free *)

(** The blocks [A] are as they were. *)
Definition kept (h h' : heap) (A : list block) : Prop := ∀ c x, c ∈ A → c.1 ≤ x < bend c → word h' x = word h x.

Lemma ascending_length lo hi F : ascending lo F → Forall (λ b, bend b ≤ hi) F → lo ≤ hi → lo + 8 * Z.of_nat (length F) ≤ hi + 1.
Proof.
  intros Ha Hf. revert lo Ha. induction Hf as [|b F Hb Hf IH]; intros lo Ha Hlo; [simpl; lia|]. destruct Ha as (H1 & H2 & H3). simpl length.
  destruct F as [|c F]; [unfold bend in *; simpl; lia|]. specialize (IH _ H3). assert (bend b + 1 ≤ hi).
  { inversion Hf; subst. destruct H3 as (? & ? & _). unfold bend in *. lia. }
  unfold bend in *. lia.
Qed.
Lemma headers_enough h F A : Inv h F A → (length F + 1 ≤ headers h)%nat.
Proof.
  intros HI. pose proof (inv_brk _ _ _ HI). pose proof (inv_range _ _ _ HI) as Hr. rewrite Forall_app in Hr. destruct Hr as [Hr _].
  assert (base + 8 + 8 * Z.of_nat (length F) ≤ brk h + 1) as Hl.
  { apply (ascending_length (base + 8) (brk h) F); [apply (inv_asc _ _ _ HI)| |lia]. eapply Forall_impl; [exact Hr|]. simpl. tauto. }
  unfold headers, sizeof_Header. zlia.
Qed.

Lemma free_spec h F b A : Inv h F (b :: A) →
  wp (free (b.1 + 8)) h (λ _ h', ∃ F', Inv h' F' A ∧ (∃ c, c ∈ F' ∧ b.2 ≤ c.2) ∧ (length F' ≤ S (length F))%nat ∧
    units F' = units F + b.2 ∧ brk h' = brk h ∧ kept h h' A).
Proof.
  intros HI. pose proof HI as [Hc H0 Hfp Ha Hd Hr Hs Hk]. assert (base + 8 ≤ b.1 ∧ 0 < b.2 ∧ bend b ≤ brk h) as (Hb1 & Hb2 & Hb3).
  { rewrite Forall_app, Forall_cons in Hr. tauto. }
  assert (Forall (apart b) F) as Hap.
  { rewrite <- (Permutation_middle F A b) in Hd. destruct Hd as [Hd _]. by apply Forall_app in Hd as [? _]. }
  destruct (split_at _ _ _ Ha Hap Hb2) as (F1 & F2 & -> & H1 & H2). unfold KERNBASE in Hk.
  unfold free. assert (plus (b.1 + 8) (-1) = b.1) as -> by (rewrite plus_small; [lia|unfold bend in *; lia]). wp_steps.
  eapply wp_mono; [apply (scan_spec h F1 F2 b.1); [done|done|lia|done| | |unfold inside; lia|done|by eapply headers_enough]|].
  { eapply Forall_impl; [exact H2|]. simpl. unfold bend. lia. }
  { rewrite Forall_app in Hr. eapply Forall_impl; [exact (proj1 Hr)|]. simpl. unfold inside, bend. lia. }
  intros p h' [-> ->]. wp_steps. eapply wp_mono; [by apply (join_next_spec h F1 F2 b A)|].
  intros _ h1 (b' & F2' & HM & Eb & Hbb & Hll & Hu & Ek & Ef & Hd1). rewrite <- Eb. eapply wp_mono; [apply (join_prev_spec h1 F1 F2' b' A HM)|].
  intros _ h2 (F' & HI' & (c & Hin & Hcb) & Hlen & Hu' & Ek' & Ef' & Hd2). exists F'. split; [done|]. split; [exists c; split; [done|lia]|].
  split; [rewrite length_app; lia|].
  split; [rewrite Hu', units_app; simpl in *; lia|]. split; [congruence|]. intros d x Hdx Hx.
  assert (apart b d) as Hbd by (rewrite <- (Permutation_middle (F1 ++ F2) A b) in Hd; destruct Hd as [Hd _]; rewrite Forall_forall in Hd; apply Hd; rewrite elem_of_app; tauto).
  destruct (Hd2 x) as [Hh|E2]; [exfalso|rewrite E2; destruct (Hd1 x) as [Hh|]; [exfalso; by eapply header_apart|done]].
  destruct (endof_in base F1) as [E|(e & He & E)]; rewrite E in Hh.
  - rewrite Forall_app, Forall_cons, (Forall_forall _ A) in Hr. destruct Hr as (_ & _ & Hr). destruct (Hr d Hdx). unfold header in Hh. lia.
  - eapply (header_apart e d x); [done| |apply disjoint_app in Hd as (_ & _ & Hd)|done].
    + destruct (ascending_ge _ _ e Ha); [rewrite elem_of_app; by left|done].
    + rewrite Forall_forall in Hd. specialize (Hd e). rewrite elem_of_app in Hd. specialize (Hd (or_introl He)). rewrite Forall_forall in Hd. apply Hd. by right.
Qed.

(** ** Taking a block from the ring *)

Section Carve.
Context (h : heap) (l1 l2 A : list block) (c : block) (n : Z) (HI : Inv h (l1 ++ c :: l2) A) (Hn : 0 < n).

Lemma carve_block d : d ∈ c :: l1 ++ l2 ++ A → base + 8 ≤ d.1 ∧ 0 < d.2 ∧ bend d ≤ brk h.
Proof.
  pose proof (inv_range _ _ _ HI) as Hr. rewrite Forall_forall in Hr. intros Hd. apply Hr. rewrite !elem_of_app, !elem_of_cons in *. rewrite !elem_of_app in Hd. tauto.
Qed.
Lemma carve_disjoint : disjoint (c :: l1 ++ l2 ++ A).
Proof. pose proof (inv_disjoint _ _ _ HI) as Hd. rewrite <- app_assoc in Hd. cbn [app] in Hd. by rewrite <- Permutation_middle in Hd. Qed.
Lemma carve_apart d : d ∈ l1 ++ l2 ++ A → apart c d.
Proof. destruct carve_disjoint as [Hd _]. rewrite Forall_forall in Hd. apply Hd. Qed.
Lemma carve_chain : chain h base l1 c.1 ∧ word h (endof base l1) = c.1 ∧ word h (c.1 + 4) = c.2 ∧ word h c.1 = headof l2 base ∧ chain h c.1 l2 base.
Proof.
  pose proof (inv_chain _ _ _ HI) as Hc. apply chain_app in Hc as [H1 (H2 & H3 & H4)]. split_and!; try done. by destruct l2; simpl in *; tauto.
Qed.
Lemma prev_in : endof base l1 ∈ base :: l1.*1.
Proof. destruct (endof_in base l1) as [->|(d & Hd & ->)]; [left|right]. by apply list_elem_of_fmap_2. Qed.

(** The whole block. *)
Lemma unlink_inv : let h' := set_freep (endof base l1) (put (endof base l1) (headof l2 base) h) in
  Inv h' (l1 ++ l2) (c :: A) ∧ kept h h' A.
Proof.
  intros h'. destruct carve_chain as (H1 & H2 & H3 & H4 & H5). pose proof HI as [_ H0 _ Ha _ Hr Hs Hk].
  destruct (carve_block c) as (Hc1 & Hc2 & Hc3); [apply list_elem_of_here|].
  assert (endof base l1 = base ∨ ∃ d, d ∈ l1 ∧ endof base l1 = d.1) as Hp by apply endof_in.
  assert (∀ x, x ≠ endof base l1 → word h' x = word h x) as Hw by (intros x Hx; unfold h'; simpl; by rewrite fn_insert_dec, decide_False by congruence).
  (* no word of another block is the link that changes *)
  assert (∀ d x, d ∈ c :: l2 ++ A → d.1 ≤ x < bend d → word h' x = word h x) as Hoth.
  { intros d x Hd Hx. apply Hw. intros ->. assert (d ∈ c :: l1 ++ l2 ++ A) as Hd' by (rewrite !elem_of_cons, !elem_of_app in *; tauto).
    destruct (carve_block d Hd') as (? & ? & ?). destruct Hp as [Ee|(e & He & Ee)]; rewrite Ee in Hx; [lia|].
    destruct (carve_block e) as (? & He2 & ?); [rewrite elem_of_cons, !elem_of_app; tauto|]. assert (apart e d) as Hap; [|unfold apart, bend in *; lia].
    apply elem_of_cons in Hd as [->|Hd]; [apply blocks_apart_sym, carve_apart; rewrite elem_of_app; tauto|].
    destruct carve_disjoint as [_ Hd2]. apply disjoint_app in Hd2 as (_ & _ & Hd2). rewrite Forall_forall in Hd2. specialize (Hd2 e He). rewrite Forall_forall in Hd2. by apply Hd2. }
  assert (∀ d, d ∈ c :: l2 ++ A → word h' d.1 = word h d.1 ∧ word h' (d.1 + 4) = word h (d.1 + 4)) as Hhd.
  { intros d Hd. assert (0 < d.2) by (destruct (carve_block d) as (? & ? & ?); [rewrite !elem_of_cons, !elem_of_app in *; tauto|done]).
    split; apply (Hoth d); unfold bend; try done; lia. }
  split; [|intros d x Hd Hx; apply (Hoth d); [rewrite elem_of_cons, elem_of_app; tauto|done]].
  assert (word h' (endof base l1) = headof l2 base) as Hp' by (unfold h'; simpl; by rewrite fn_insert_dec, decide_True).
  split; [| | |by eapply ascending_delete| | | |done].
  - apply chain_app. split; [by eapply chain_relink|]. eapply chain_from; [exact H5|done|]. intros d Hd. apply Hhd. rewrite elem_of_cons, elem_of_app. tauto.
  - rewrite Hw; [done|]. destruct Hp as [->|(d & Hd & ->)]; [lia|]. destruct (carve_block d) as (? & _); [rewrite elem_of_cons, !elem_of_app; tauto|lia].
  - simpl. pose proof prev_in as Hin. rewrite fmap_app, elem_of_cons, elem_of_app in *. tauto.
  - rewrite <- app_assoc, perm_mid. apply carve_disjoint.
  - apply Forall_forall. intros d Hd. apply carve_block. rewrite <- app_assoc in Hd. by rewrite perm_mid in Hd.
  - constructor; [destruct (Hhd c) as [_ ->]; [apply list_elem_of_here|done]|]. rewrite Forall_forall in Hs |- *. intros d Hd.
    destruct (Hhd d) as [_ ->]; [rewrite elem_of_cons, elem_of_app; tauto|]. by apply Hs.
Qed.

(** The end of the block, for [n] units. *)
Lemma split_inv : n < c.2 → let q := c.1 + 8 * (c.2 - n) in
  let h' := set_freep (endof base l1) (put (q + 4) n (put (c.1 + 4) (c.2 - n) h)) in
  Inv h' (l1 ++ (c.1, c.2 - n) :: l2) ((q, n) :: A) ∧ kept h h' A.
Proof.
  intros Hlt q h'. destruct carve_chain as (H1 & H2 & H3 & H4 & H5). pose proof HI as [_ H0 _ Ha _ Hr Hs Hk].
  destruct (carve_block c) as (Hc1 & Hc2 & Hc3); [apply list_elem_of_here|].
  assert (∀ x, x ≠ q + 4 → x ≠ c.1 + 4 → word h' x = word h x) as Hw by (intros x Hx Hx'; unfold h'; simpl; by rewrite !fn_insert_dec, !decide_False by congruence).
  assert (∀ d x, d ∈ l1 ++ l2 ++ A → d.1 ≤ x < bend d → word h' x = word h x) as Hoth.
  { intros d x Hd Hx. pose proof (carve_apart d Hd). destruct (carve_block d) as (? & ? & ?); [by right|]. unfold q, apart, bend in *. apply Hw; unfold q; lia. }
  assert (∀ d, d ∈ l1 ++ l2 ++ A → word h' d.1 = word h d.1 ∧ word h' (d.1 + 4) = word h (d.1 + 4)) as Hhd.
  { intros d Hd. assert (0 < d.2) by (destruct (carve_block d) as (? & ? & ?); [by right|done]). split; apply (Hoth d); unfold bend; try done; lia. }
  assert (word h' (c.1 + 4) = c.2 - n) as Ec by (unfold h'; simpl; rewrite !fn_insert_dec, decide_False, decide_True by (unfold q; lia); done).
  assert (word h' (q + 4) = n) as Eq by (unfold h'; simpl; by rewrite fn_insert_dec, decide_True).
  split; [|intros d x Hd Hx; apply (Hoth d); [rewrite !elem_of_app; tauto|done]].
  split; [| | | | | | |done].
  - apply chain_app. split; [eapply chain_same; [exact H1|apply Hw; unfold q; lia|]; intros d Hd; apply Hhd; rewrite !elem_of_app; tauto|].
    cbn [chain fst snd]. split; [|split; [done|]].
    + rewrite <- H2. destruct (endof_in base l1) as [->|(d & Hd & ->)]; [apply Hw; unfold q; lia|apply Hhd; rewrite !elem_of_app; tauto].
    + eapply chain_same; [exact H5|apply Hw; unfold q; lia|]. intros d Hd. apply Hhd. rewrite !elem_of_app. tauto.
  - rewrite Hw; [done|unfold q; lia|lia].
  - simpl. pose proof prev_in as Hin. rewrite fmap_app, elem_of_cons, elem_of_app in *. tauto.
  - rewrite ascending_app in Ha |- *. destruct Ha as [Hal (Hlo & _ & Har)]. split; [done|]. cbn [ascending fst snd]. split; [done|]. split; [lia|].
    eapply ascending_weaken; [|exact Har]. unfold bend. simpl. lia.
  - rewrite <- app_assoc. cbn [app]. rewrite <- Permutation_middle. rewrite perm_mid. pose proof carve_disjoint as [Hd1 Hd2]. rewrite Forall_forall in Hd1.
    split; [constructor; [left; unfold bend, q; simpl; lia|]|split; [|done]]; apply Forall_forall; intros d Hd; specialize (Hd1 d Hd); unfold apart, bend, q in *; simpl; lia.
  - apply Forall_forall. intros d Hd. simpl. assert (d = (q, n) ∨ d = (c.1, c.2 - n) ∨ d ∈ l1 ++ l2 ++ A) as [->|[-> |Hd']].
    { rewrite !elem_of_app, !elem_of_cons in *. tauto. }
    + unfold q, bend in *. simpl. lia.
    + unfold bend in *. simpl. lia.
    + apply carve_block. by right.
  - constructor; [done|]. rewrite Forall_forall in Hs |- *. intros d Hd. destruct (Hhd d) as [_ ->]; [rewrite !elem_of_app; tauto|]. by apply Hs.
Qed.

Lemma carve_spec : n ≤ c.2 →
  wp (q ← carve n (endof base l1) c.1 c.2; modify (set_freep (endof base l1));; mret (plus q 1)) h (λ r h', ∃ F' q, r = q + 8 ∧
    Inv h' F' ((q, n) :: A) ∧ units F' + n = units (l1 ++ c :: l2) ∧ brk h' = brk h ∧ kept h h' A).
Proof.
  intros Hle. destruct carve_chain as (H1 & H2 & H3 & H4 & H5). destruct (carve_block c) as (Hc1 & Hc2 & Hc3); [apply list_elem_of_here|].
  pose proof (inv_brk _ _ _ HI) as Hk. unfold KERNBASE in Hk. unfold carve, s_ptr, set_ptr, set_size. wp_steps. destruct (decide _) as [E|E].
  - wp_steps. apply wp_load; [inrange|]. rewrite H4. wp_steps. apply wp_store.
    { destruct (endof_in base l1) as [->|(d & Hd & ->)]; [unfold inside; lia|]. destruct (carve_block d) as (? & ? & ?); [rewrite elem_of_cons, !elem_of_app; tauto|inrange]. }
    wp_steps. destruct unlink_inv as [HI' Hk']. exists (l1 ++ l2), c.1. split; [rewrite plus_small; inrange|].
    rewrite <- E. rewrite <- surjective_pairing. split; [done|]. split; [rewrite !units_app; simpl; lia|]. done.
  - wp_steps. apply wp_store; [inrange|]. wp_steps. rewrite (plus_small c.1) by inrange. apply wp_store; [inrange|]. wp_steps.
    destruct split_inv as [HI' Hk']; [lia|]. exists (l1 ++ (c.1, c.2 - n) :: l2), (c.1 + 8 * (c.2 - n)). split; [rewrite plus_small; inrange|].
    split; [done|]. split; [rewrite !units_app; simpl; lia|]. done.
Qed.
End Carve.

(** ** malloc *)

(** The kernel's sbrk: it fails and changes nothing, or the process grows. *)
Class SbrkOk (sbrk : Z → M heap Z) : Prop := sbrk_spec : ∀ n h, 0 < n →
  wp (sbrk n) h (λ r h', r = u32 (-1) ∧ h' = h ∨
    r = brk h ∧ brk h' = brk h + n ∧ brk h' ≤ KERNBASE ∧ freep h' = freep h ∧ ∀ x, x < brk h → word h' x = word h x).

Section Malloc.
Context (sbrk : Z → M heap Z) `{Hsbrk : SbrkOk sbrk}.

(** New memory at the end of the process is a block that has been handed out. *)
Lemma inv_grow h h' F A n : Inv h F A → 0 < n → brk h' = brk h + 8 * n → brk h' ≤ KERNBASE → freep h' = freep h →
  (∀ x, x < brk h → word h' x = word h x) → Inv (put (brk h + 4) n h') F ((brk h, n) :: A) ∧ kept h (put (brk h + 4) n h') A.
Proof.
  intros [Hc H0 Hf Ha Hd Hr Hs Hk] Hn Ek Hle Ef Hw. assert (∀ x, x < brk h → word (put (brk h + 4) n h') x = word h x) as Hw'.
  { intros x Hx. rewrite word_put_ne by lia. by apply Hw. }
  assert (∀ d, d ∈ F ++ A → base + 8 ≤ d.1 ∧ 0 < d.2 ∧ bend d ≤ brk h) as Hb by (intros d; rewrite Forall_forall in Hr; apply Hr).
  assert (∀ d, d ∈ F ++ A → word (put (brk h + 4) n h') d.1 = word h d.1 ∧ word (put (brk h + 4) n h') (d.1 + 4) = word h (d.1 + 4)) as Hsame.
  { intros d Hd'. destruct (Hb d Hd') as (? & ? & ?). split; apply Hw'; unfold bend in *; lia. }
  split; [|intros d x Hin Hx; apply Hw'; destruct (Hb d) as (? & ? & ?); [rewrite elem_of_app; by right|lia]].
  split; simpl; [| | |done| | | |lia].
  - eapply chain_same; [exact Hc|apply Hw'; lia|]. intros d Hin. apply Hsame. rewrite elem_of_app. by left.
  - pose proof (Hw' (base + 4) ltac:(lia)) as E. simpl in E. by rewrite E.
  - by rewrite Ef.
  - rewrite <- Permutation_middle. split; [|done]. apply Forall_forall. intros d Hin. right. by apply Hb.
  - rewrite <- Permutation_middle. constructor; [unfold bend; simpl; lia|]. eapply Forall_impl; [exact Hr|]. simpl. lia.
  - constructor; [simpl; by rewrite fn_insert_dec, decide_True|]. rewrite Forall_forall in Hs |- *. intros d Hin. rewrite <- (Hs d Hin). apply Hsame. rewrite elem_of_app. by right.
Qed.

Lemma morecore_spec h F A nu : Inv h F A → 0 < nu < 2 ^ 28 →
  wp (morecore sbrk nu) h (λ r h', r = 0 ∧ h' = h ∨ r ≠ 0 ∧ r = freep h' ∧ ∃ F', Inv h' F' A ∧ (∃ c, c ∈ F' ∧ nu ≤ c.2) ∧
    (length F' ≤ S (length F))%nat ∧ brk h' + 8 * units F = brk h + 8 * units F' ∧ kept h h' A).
Proof.
  intros HI Hnu. pose proof (inv_brk _ _ _ HI) as Hk. unfold morecore, set_size. set (n := if decide (nu < 4096) then 4096 else nu).
  assert (nu ≤ n < 2 ^ 28 ∧ 0 < n) as [Hn Hn0] by (unfold n; case_decide; lia). unfold sizeof_Header. rewrite i32_small by (unfold is_i32; lia).
  wp_steps. eapply wp_mono; [apply Hsbrk; lia|]. intros r h1 [[-> ->]|(-> & Ek & Hle & Ef & Hw)]; [wp_steps; left; done|].
  unfold KERNBASE in *. rewrite decide_False by (change (u32 (-1)) with 4294967295; lia). wp_steps. apply wp_store; [unfold inside; lia|]. wp_steps.
  destruct (inv_grow h h1 F A n HI Hn0) as [HI1 Hk1]; [lia|unfold KERNBASE; lia|done|done|]. rewrite plus_small by lia.
  eapply wp_mono; [apply (free_spec _ F (brk h, n) A HI1)|]. intros _ h2 (F' & HI' & (c & Hin & Hc) & Hl & Hu & Ek' & Hk'). wp_steps. right.
  pose proof (inv_freep _ _ _ HI') as Hf. pose proof (inv_brk _ _ _ HI'). pose proof (inv_range _ _ _ HI') as Hr. split; [|split; [done|]].
  - rewrite elem_of_cons, list_elem_of_fmap in Hf. destruct Hf as [->|(d & -> & Hd)]; [lia|]. rewrite Forall_app, Forall_forall in Hr. destruct Hr as [Hr _].
    destruct (Hr d Hd). lia.
  - exists F'. split; [done|]. split; [exists c; split; [done|simpl in Hc; lia]|]. split; [done|]. simpl in *. split; [lia|].
    intros d x Hd Hx. rewrite (Hk' d x Hd Hx). by apply (Hk1 d x).
Qed.

(** The search of the ring, from the header after [freep] once around. *)
Section Ring.
Context (h : heap) (F A : list block) (HI : Inv h F A).

Lemma ring_inside l l' : F = l ++ l' → inside h (endof base l) ∧ inside h (headof l' base + 4).
Proof.
  intros E. pose proof (inv_brk _ _ _ HI). pose proof (inv_range _ _ _ HI) as Hr. rewrite Forall_app in Hr. destruct Hr as [Hr _]. rewrite E, Forall_app in Hr. destruct Hr as [Hr1 Hr2].
  split.
  - destruct (endof_in base l) as [->|(d & Hd & ->)]; [unfold inside; lia|]. rewrite Forall_forall in Hr1. destruct (Hr1 d Hd) as (? & ? & ?). inrange.
  - destruct l' as [|d l']; [unfold inside; simpl; lia|]. inversion Hr2 as [|? ? (? & ? & ?)]; subst. inrange.
Qed.
Lemma ring_size l l' : F = l ++ l' → word h (headof l' base + 4) = match l' with [] => 0 | c :: _ => c.2 end.
Proof.
  intros E. destruct l' as [|c l']; [apply (inv_base _ _ _ HI)|]. pose proof (inv_chain _ _ _ HI) as Hc. rewrite E in Hc. apply chain_app in Hc as [_ (_ & Hc & _)]. done.
Qed.
Lemma ring_next l l' : F = l ++ l' → word h (endof base l) = headof l' base.
Proof. intros E. pose proof (inv_chain _ _ _ HI) as Hc. rewrite E in Hc. apply chain_app in Hc as [_ Hc]. destruct l'; simpl in *; tauto. Qed.

Lemma freep_header : freep h ≠ 0 ∧ inside h (freep h) ∧ inside h (freep h + 4).
Proof.
  pose proof (inv_freep _ _ _ HI) as Hf. pose proof (inv_brk _ _ _ HI). pose proof (inv_range _ _ _ HI) as Hr. rewrite Forall_app, Forall_forall in Hr. destruct Hr as [Hr _].
  rewrite elem_of_cons, list_elem_of_fmap in Hf. destruct Hf as [->|(d & -> & Hd)]; [unfold inside; lia|]. destruct (Hr d Hd) as (? & ? & ?). unfold inside, bend in *. lia.
Qed.

Context (n : Z) (Hn : 0 < n) (k : nat) (Q : Z → heap → Prop).
Definition unfit (l : list block) : Prop := Forall (λ c, c.2 < n) l.
(** A block fits, or none of them does. *)
Context (Hfound : ∀ l1 c l2, F = l1 ++ c :: l2 → n ≤ c.2 →
  wp (q ← carve n (endof base l1) c.1 c.2; modify (set_freep (endof base l1));; mret (plus q 1)) h Q).
Context (Hnone : unfit F → ∀ fuel prevp, (k ≤ fuel)%nat → wp (malloc_loop sbrk fuel n prevp (freep h)) h Q).

(** A header that does not fit and is not [freep] is passed. *)
Lemma ring_pass fuel l c l' : F = l ++ c :: l' → c.2 < n → c.1 ≠ freep h →
  wp (malloc_loop sbrk fuel n c.1 (headof l' base)) h Q → wp (malloc_loop sbrk (S fuel) n (endof base l) c.1) h Q.
Proof.
  intros E Hc Hf Hk. cbn [malloc_loop]. unfold s_size at 1. wp_steps. apply wp_load; [apply (ring_inside l (c :: l') E)|].
  rewrite (ring_size l (c :: l') E : word h (c.1 + 4) = c.2). rewrite decide_False by lia. wp_steps. rewrite decide_False by done. wp_steps.
  unfold s_ptr. assert (F = (l ++ [c]) ++ l') as E' by (by rewrite <- app_assoc). destruct (ring_inside (l ++ [c]) l' E') as [Hi _]. rewrite endof_snoc in Hi.
  apply wp_load; [done|]. pose proof (ring_next _ _ E') as En. rewrite endof_snoc in En. by rewrite En.
Qed.
(** At a block that fits. *)
Lemma ring_fit fuel l c l' : F = l ++ c :: l' → n ≤ c.2 → wp (malloc_loop sbrk fuel n (endof base l) c.1) h Q.
Proof.
  intros E Hc. destruct fuel; cbn [malloc_loop]; unfold s_size at 1; wp_steps; (apply wp_load; [apply (ring_inside l (c :: l') E)|]);
    rewrite (ring_size l (c :: l') E : word h (c.1 + 4) = c.2), decide_True by lia; pose proof (Hfound l c l' E Hc) as Hw; exact Hw.
Qed.

Lemma ring_lt l c l' d : F = l ++ c :: l' → (d = base ∨ ∃ e, e ∈ l ∧ d = e.1) → d < c.1.
Proof.
  intros E Hd. pose proof (inv_asc _ _ _ HI) as Ha. rewrite E in Ha. destruct (ascending_ge _ _ c Ha) as [Hc _]; [apply elem_of_app; right; apply list_elem_of_here|].
  destruct Hd as [->|(e & He & ->)]; [lia|]. pose proof (ascending_lt _ _ _ _ _ Ha He). destruct (ascending_ge _ _ e Ha); [apply elem_of_app; by left|].
  unfold bend in *. lia.
Qed.

Section Around.
Context (g1 g2 : list block) (EF : F = g1 ++ g2) (Hfp : freep h = endof base g1).

Lemma ring_before y : ∀ l fuel, g1 = l ++ y → y ≠ [] → unfit l → unfit g2 → (length y + k ≤ fuel)%nat →
  wp (malloc_loop sbrk fuel n (endof base l) (headof (y ++ g2) base)) h Q.
Proof.
  induction y as [|c y IH]; intros l fuel E Hne Hl Hg Hf; [done|]. simpl. assert (F = l ++ c :: (y ++ g2)) as E' by (rewrite EF, E, <- app_assoc; done).
  destruct (decide (n ≤ c.2)) as [Hc|Hc]; [by eapply ring_fit|]. destruct (decide (y = [])) as [->|Hy].
  - assert (freep h = c.1) as Ec by (rewrite Hfp, E; apply endof_snoc). rewrite <- Ec. apply Hnone; [|simpl in Hf; lia].
    unfold unfit in *. rewrite E', Forall_app, Forall_cons. simpl. split; [done|]. split; [lia|done].
  - simpl in Hf. destruct fuel as [|fuel]; [lia|]. eapply ring_pass; [exact E'|lia| |].
    + intros Ec. destruct y as [|d y _] using rev_ind; [done|]. rewrite Hfp, E in Ec. change (c :: y ++ [d]) with ((c :: y) ++ [d]) in Ec. rewrite app_assoc, endof_snoc in Ec.
      assert (c.1 < d.1); [|lia]. apply (ring_lt (l ++ c :: y) d g2); [rewrite E', <- !app_assoc; done|right]. exists c. split; [|done].
      rewrite elem_of_app, elem_of_cons. tauto.
    + rewrite <- (endof_snoc base l c). apply IH; [by rewrite <- app_assoc|done| |done|lia]. unfold unfit in *. rewrite Forall_app. split; [done|]. constructor; [lia|done].
Qed.

Lemma ring_after y : ∀ x fuel, g2 = x ++ y → unfit x → (length y + 1 + length g1 + k ≤ fuel)%nat →
  wp (malloc_loop sbrk fuel n (endof base (g1 ++ x)) (headof y base)) h Q.
Proof.
  induction y as [|c y IH]; intros x fuel E Hx Hf; (destruct fuel as [|fuel]; [lia|]).
  - rewrite app_nil_r in E. subst x. simpl headof. destruct (decide (g1 = [])) as [Eg|Hg].
    + assert (freep h = base) as <- by (by rewrite Hfp, Eg). apply Hnone; [by rewrite EF, Eg|lia].
    + cbn [malloc_loop]. unfold s_size at 1. wp_steps. assert (F = F ++ []) as E0 by (by rewrite app_nil_r).
      apply wp_load; [apply (ring_inside F [] E0)|]. rewrite (ring_size F [] E0 : word h (base + 4) = 0), decide_False by lia. wp_steps.
      rewrite decide_False; last first.
      { rewrite Hfp. destruct g1 as [|d g _] using rev_ind; [done|]. rewrite endof_snoc. intros Hb. assert (base < d.1); [|lia].
        apply (ring_lt g d g2); [by rewrite EF, <- app_assoc|by left]. }
      wp_steps. unfold s_ptr. apply wp_load; [apply (ring_inside [] F eq_refl)|]. rewrite (ring_next [] F eq_refl : word h base = _), EF.
      apply (ring_before g1 [] fuel); [done|done|constructor|done|simpl in Hf; lia].
  - cbn [headof length] in *. assert (F = (g1 ++ x) ++ c :: y) as E' by (by rewrite EF, E, <- app_assoc).
    destruct (decide (n ≤ c.2)) as [Hc|Hc]; [by eapply ring_fit|]. eapply ring_pass; [exact E'|lia| |].
    + rewrite Hfp. assert (endof base g1 < c.1); [|lia]. apply (ring_lt (g1 ++ x) c y _ E'). destruct (endof_in base g1) as [->|(e & He & ->)]; [by left|right].
      exists e. rewrite elem_of_app. tauto.
    + rewrite <- (endof_snoc base (g1 ++ x) c), <- app_assoc. apply IH; [by rewrite <- app_assoc| |lia]. unfold unfit in *. rewrite Forall_app. split; [done|].
      constructor; [lia|done].
Qed.
End Around.

Lemma ring_scan fuel : (length F + 1 + k ≤ fuel)%nat → wp (malloc_loop sbrk fuel n (freep h) (word h (freep h))) h Q.
Proof.
  intros Hf. pose proof (inv_freep _ _ _ HI) as Hfp. assert (∃ g1 g2, F = g1 ++ g2 ∧ freep h = endof base g1) as (g1 & g2 & EF & E).
  { rewrite elem_of_cons, list_elem_of_fmap in Hfp. destruct Hfp as [E|(d & E & Hd)]; [by exists [], F|].
    apply list_elem_of_split in Hd as (l & l' & EF). exists (l ++ [d]), l'. rewrite endof_snoc, <- app_assoc. done. }
  rewrite E at 1 2. rewrite (ring_next g1 g2 EF). rewrite EF, length_app in Hf. pose proof (ring_after g1 g2 EF E g2 [] fuel eq_refl) as Hw. rewrite app_nil_r in Hw.
  apply Hw; [constructor|lia].
Qed.
End Ring.

(** What [malloc] does for [n] units, from the ring. *)
Definition malloc_post (h : heap) (F A : list block) (n : Z) (r : Z) (h' : heap) : Prop :=
  kept h h' A ∧ (r = 0 ∧ h' = h ∧ unfit n F ∨
    ∃ F' q, r = q + 8 ∧ Inv h' F' ((q, n) :: A) ∧ brk h' + 8 * units F = brk h + 8 * (units F' + n)).

Lemma ring_found h F A n k fuel : Inv h F A → 0 < n → (∃ c, c ∈ F ∧ n ≤ c.2) → (length F + 1 + k ≤ fuel)%nat →
  wp (malloc_loop sbrk fuel n (freep h) (word h (freep h))) h (λ r h', ∃ F' q, r = q + 8 ∧ Inv h' F' ((q, n) :: A) ∧
    units F' + n = units F ∧ brk h' = brk h ∧ kept h h' A).
Proof.
  intros HI Hn (c & Hc & Hle) Hf. apply (ring_scan h F A HI n Hn k); [| |lia].
  - intros l1 d l2 -> Hd. by apply carve_spec.
  - intros Hu. unfold unfit in Hu. rewrite Forall_forall in Hu. specialize (Hu c Hc). lia.
Qed.

Lemma ring_grown h F A n fuel prevp : Inv h F A → 0 < n < 2 ^ 28 → unfit n F → (length F + 3 ≤ fuel)%nat →
  wp (malloc_loop sbrk fuel n prevp (freep h)) h (malloc_post h F A n).
Proof.
  intros HI Hn Hu Hf. destruct fuel as [|f]; [lia|]. cbn [malloc_loop]. unfold s_size at 1. wp_steps.
  assert (word h (freep h + 4) < n) as Hw.
  { pose proof (inv_freep _ _ _ HI) as Hfp. rewrite elem_of_cons, list_elem_of_fmap in Hfp. destruct Hfp as [->|(d & -> & Hd)]; [rewrite (inv_base _ _ _ HI); lia|].
    unfold unfit in Hu. rewrite Forall_forall in Hu. specialize (Hu d Hd). apply list_elem_of_split in Hd as (l & l' & E).
    by rewrite (ring_size h F A HI l (d :: l') E : word h (d.1 + 4) = d.2). }
  apply wp_load; [apply (freep_header h F A HI)|]. rewrite decide_False by lia. wp_steps. rewrite decide_True by done. wp_steps.
  eapply wp_mono; [by apply (morecore_spec h F A n)|]. intros r h1 [[-> ->]|(Hr & -> & F1 & HI1 & Hfit & Hl & Hb & Hk1)].
  { rewrite decide_True by done. wp_steps. split; [by intros c x _ _|by left]. }
  rewrite decide_False by done. wp_steps. unfold s_ptr. apply wp_load; [apply (freep_header h1 F1 A HI1)|].
  eapply wp_mono; [apply (ring_found h1 F1 A n 0 f HI1); [lia|done|lia]|]. intros r h2 (F' & q & -> & HI2 & Hu2 & Ek & Hk2).
  split; [intros c x Hc Hx; rewrite (Hk2 c x Hc Hx); by apply (Hk1 c x)|]. right. exists F', q. split; [done|]. split; [done|lia].
Qed.

(** Before the first call, and after. *)
Definition Heap (h : heap) (F A : list block) : Prop :=
  freep h = 0 ∧ F = [] ∧ A = [] ∧ 0 < base ∧ base + 8 ≤ brk h ≤ KERNBASE ∨ Inv h F A.

Lemma malloc_spec h F A nbytes : Heap h F A → 0 ≤ nbytes ≤ 2 ^ 31 - 32 →
  wp (malloc base sbrk nbytes) h (λ r h', kept h h' A ∧
    (r = 0 ∧ Heap h' F A ∧ brk h' = brk h ∧ Forall (λ c, 8 * (c.2 - 1) < nbytes) F ∨
     ∃ F' b, r = b.1 + 8 ∧ Heap h' F' (b :: A) ∧ nbytes ≤ 8 * (b.2 - 1) ∧ brk h' + 8 * units F = brk h + 8 * (units F' + b.2))).
Proof.
  intros HH Hb. unfold malloc, sizeof_Header. rewrite (u32_small (nbytes + 8 - 1)) by (unfold is_u32; lia).
  set (n := (nbytes + 8 - 1) `div` 8 + 1). assert (0 < n < 2 ^ 28 ∧ nbytes ≤ 8 * (n - 1) < nbytes + 8) as [Hn Hnb] by (unfold n; zlia).
  rewrite u32_small by (unfold is_u32; lia). wp_steps.
  apply (wp_mono _ _ (λ _ h1, Inv h1 F A ∧ brk h1 = brk h ∧ kept h h1 A)).
  { destruct HH as [(Hf & -> & -> & H0 & Hk)|HI].
    - rewrite decide_True by done. unfold set_ptr, set_size. wp_steps. apply wp_store; [unfold inside; simpl; lia|]. apply wp_store; [unfold inside; simpl; lia|].
      assert (Inv (put (base + 4) 0 (put base base (set_freep base h))) [] []) as HI.
      { split; simpl; [rewrite !fn_insert_dec, decide_False, decide_True by lia; done|by rewrite fn_insert_dec, decide_True|left|done|done|constructor|constructor|lia]. }
      split; [exact HI|]. split; [done|]. intros c x Hc. by apply elem_of_nil in Hc.
    - rewrite decide_False by (apply (freep_header h F A HI)). wp_steps. split; [done|]. split; [done|]. by intros c x _ _. }
  intros _ h1 (HI & Ek & Hk1). wp_steps. unfold s_ptr. apply wp_load; [apply (freep_header h1 F A HI)|]. wp_steps. pose proof (headers_enough _ _ _ HI).
  eapply wp_mono; [apply (ring_scan h1 F A HI n ltac:(lia) (length F + 3)%nat (malloc_post h1 F A n)); [| |lia]|].
  - intros l1 c l2 -> Hc. eapply wp_mono; [apply (carve_spec h1 l1 l2 A c n HI); [lia|done]|]. intros r h2 (F' & q & -> & HI2 & Hu & Ek2 & Hk2).
    split; [done|]. right. exists F', q. split; [done|]. split; [done|lia].
  - intros Hu fuel prevp Hf. by apply ring_grown.
  - intros r h2 [Hk2 [(-> & -> & Hu)|(F' & q & -> & HI2 & Hbal)]]; (split; [intros c x Hc Hx; etrans; [by apply (Hk2 c x)|by apply (Hk1 c x)]|]).
    + left. split; [done|]. split; [by right|]. split; [done|]. eapply Forall_impl; [exact Hu|]. simpl. lia.
    + right. exists F', (q, n). split; [done|]. split; [by right|]. simpl. lia.
Qed.


(** ** Programs *)

(** What a program that uses the allocator does, with the blocks it has got. *)
Inductive ustep : heap * list block → heap * list block → Prop :=
  | u_malloc h A nbytes r h' : 0 ≤ nbytes ≤ 2 ^ 31 - 32 → malloc base sbrk nbytes h = Ret r h' → r ≠ 0 →
      ustep (h, A) (h', (r - 8, word h' (r - 4)) :: A)
  | u_null h A nbytes h' : 0 ≤ nbytes ≤ 2 ^ 31 - 32 → malloc base sbrk nbytes h = Ret 0 h' → ustep (h, A) (h', A)
  | u_free h A b A' h' : A ≡ₚ b :: A' → free (b.1 + 8) h = Ret tt h' → ustep (h, A) (h', A')
  | u_write h A b x v : b ∈ A → b.1 + 8 ≤ x → x + 4 ≤ bend b → ustep (h, A) (put x v h, A).

(** No memory has been asked for yet. *)
Definition fresh (h : heap) : Prop := freep h = 0 ∧ 0 < base ∧ base + 8 ≤ brk h ≤ KERNBASE.

Lemma Inv_perm h F A A' : A ≡ₚ A' → Inv h F A → Inv h F A'.
Proof. intros E [Hc H0 Hf Ha Hd Hr Hs Hk]. split; try done; [by rewrite <- E..]. Qed.

Lemma Inv_write h F A b x v : Inv h F A → b ∈ A → b.1 + 8 ≤ x → x + 4 ≤ bend b → Inv (put x v h) F A.
Proof.
  intros [Hc H0 Hf Ha Hd Hr Hs Hk] Hb Hx1 Hx2. rewrite Forall_forall in Hr. destruct (Hr b) as (Hb1 & Hb2 & _); [rewrite elem_of_app; by right|].
  assert (∀ d, d ∈ F ++ A → word (put x v h) d.1 = word h d.1 ∧ word (put x v h) (d.1 + 4) = word h (d.1 + 4)) as Hw.
  { intros d Hd'. destruct (decide (d = b)) as [->|Hne]; [rewrite !word_put_ne by lia; done|]. destruct (Hr d Hd') as (_ & Hd2 & _).
    assert (apart b d) as Hap; [|unfold apart, bend in *; rewrite !word_put_ne by lia; done].
    apply elem_of_Permutation in Hb as [A' EA]. assert (F ++ A ≡ₚ b :: F ++ A') as EA' by (rewrite EA; symmetry; apply Permutation_middle).
    rewrite EA' in Hd, Hd'. destruct Hd as [Hd _]. rewrite Forall_forall in Hd. apply Hd. by apply elem_of_cons in Hd' as [|]. }
  split; try done.
  - eapply chain_same; [exact Hc|by rewrite word_put_ne by lia|]. intros d Hd'. apply Hw. rewrite elem_of_app. by left.
  - by rewrite word_put_ne by lia.
  - by apply Forall_forall.
  - rewrite Forall_forall in Hs |- *. intros d Hd'. destruct (Hw d) as [_ ->]; [rewrite elem_of_app; by right|]. by apply Hs.
Qed.

(** The heap is well formed, and all the memory that came from the kernel since
    the break was [b0] is in a block. *)
Definition Whole (b0 : Z) (h : heap) (F A : list block) : Prop := Heap h F A ∧ brk h = b0 + 8 * (units F + units A).

Lemma units_perm l l' : l ≡ₚ l' → units l = units l'.
Proof. induction 1; simpl; lia. Qed.

Lemma ustep_Whole b0 s s' : ustep s s' → ∀ F, Whole b0 s.1 F s.2 → ∃ F', Whole b0 s'.1 F' s'.2.
Proof.
  intros [h A nb r h' Hnb E Hr|h A nb h' Hnb E|h A b A' h' EA E|h A b x v Hb Hx1 Hx2] F [HH Hu]; cbn [fst snd] in *.
  - pose proof (malloc_spec h F A nb HH Hnb) as Hw. unfold wp in Hw. rewrite E in Hw. destruct Hw as [_ [[-> _]|(F' & b & -> & HH' & _ & Hu')]]; [done|]. exists F'.
    replace (b.1 + 8 - 8) with b.1 by lia. replace (b.1 + 8 - 4) with (b.1 + 4) by lia. destruct HH' as [(_ & _ & [=] & _)|HI]. pose proof (Forall_inv (inv_size _ _ _ HI)) as Es.
    simpl in Es. rewrite Es, <- surjective_pairing. split; [by right|]. simpl. lia.
  - pose proof (malloc_spec h F A nb HH Hnb) as Hw. unfold wp in Hw. rewrite E in Hw. destruct Hw as [_ [(_ & HH' & Eb & _)|(F' & b & Eb & HH' & _)]].
    { exists F. split; [done|]. by rewrite Eb. }
    exfalso. destruct HH' as [(_ & _ & [=] & _)|HI]. pose proof (inv_range _ _ _ HI) as Hr. rewrite Forall_app, Forall_cons in Hr. pose proof (inv_brk _ _ _ HI). lia.
  - destruct HH as [(_ & _ & -> & _)|HI]; [by apply Permutation_nil_cons in EA|]. pose proof (free_spec h F b A' (Inv_perm _ _ _ _ EA HI)) as Hw.
    unfold wp in Hw. rewrite E in Hw. destruct Hw as (F' & HI' & _ & _ & Eu & Eb & _). exists F'. split; [by right|].
    rewrite (units_perm _ _ EA) in Hu. simpl in Hu. lia.
  - destruct HH as [(_ & _ & -> & _)|HI]; [by apply elem_of_nil in Hb|]. exists F. split; [right; by eapply Inv_write|done].
Qed.

Lemma ustep_rtc b0 s s' : rtc ustep s s' → (∃ F, Whole b0 s.1 F s.2) → ∃ F, Whole b0 s'.1 F s'.2.
Proof. induction 1 as [|s1 s2 s3 Hs _ IH]; [done|]. intros [F HH]. apply IH. by eapply ustep_Whole. Qed.

(** The free list of a heap: empty before the first call, then the ring of
    headers from [base] back to it. *)
Definition free_list (h : heap) (F : list block) : Prop := freep h = 0 ∧ F = [] ∨ chain h base F base.

End Malloc.
End Heap.

(** ** Instances *)

(** A kernel that gives memory up to KERNBASE. *)
Definition toy_sbrk (n : Z) : M heap Z :=
  b ← gets brk;
  if decide (0 < n ∧ b + n ≤ KERNBASE) then modify (set_brk (b + n));; mret b else mret (u32 (-1)).
#[export] Instance toy_sbrk_ok : SbrkOk toy_sbrk.
Proof.
  intros n h Hn. unfold toy_sbrk. wp_steps. case_decide as Hd; wp_steps; [right|left; done]. simpl. split_and!; try done; lia.
Qed.

Definition start_heap : heap := mkHeap (λ _, 0) 0x3000 0.
Lemma start_fresh : fresh 0x1000 start_heap.
Proof. unfold fresh, KERNBASE. simpl. lia. Qed.

(** The heap after a call, and its result. *)
Definition done_ {A} (m : M heap A) (h : heap) : heap := match m h with Ret _ h' => h' | _ => h end.
Definition result {A} (m : M heap A) (h : heap) : option A := match m h with Ret a _ => Some a | _ => None end.
Lemma result_done {A} (m : M heap A) h a : result m h = Some a → m h = Ret a (done_ m h).
Proof. unfold result, done_. destruct (m h); by intros [= ->]. Qed.


(** Two blocks are allocated and the first is given back. *)
Definition heap1 : heap := done_ (malloc 0x1000 toy_sbrk 100) start_heap.
Definition heap2 : heap := done_ (malloc 0x1000 toy_sbrk 16) heap1.
Definition heap3 : heap := done_ (free 0xAF98) heap2.

(** The size in units is computed modulo 2^32: a request for almost all of the
    address space is met with a block that has no room at all. *)
Example malloc_size_wraps : result (malloc 0x1000 toy_sbrk (2 ^ 32 - 1)) start_heap = Some 0xB000 ∧
  word (done_ (malloc 0x1000 toy_sbrk (2 ^ 32 - 1)) start_heap) (0xB000 - 4) = 1.
Proof. split; vm_compute; reflexivity. Qed.
