(* ===== verification/Exec.v ===== *)
(** * Running a program (exec.c, sys_exec of sysfile.c)

    [exec] replaces the memory of the calling process by a program from a file:
    it checks the permission to execute, loads the segments that the ELF
    headers describe, builds a stack with the arguments, and switches the
    process over.  Page tables are managed by vm.c, which is not among the
    sources: its routines are the class [Vm], and [VmOk] of ExecProps.v says what
    exec relies on. *)

From S2P Require Import Prelude CString Layout Fs File Syscall Sysfile.

Local Open Scope Z_scope.

(** ** elf.h *)

Definition ELF_MAGIC : Z := 0x464C457F.
Definition ELF_PROG_LOAD : Z := 1.

(** The fields of [struct elfhdr] and [struct proghdr] that exec reads. *)
Definition sizeof_elfhdr : Z := 52.
Record elfhdr := mkElf { elf_magic : Z; elf_entry : Z; elf_phoff : Z; elf_phnum : Z }.
Definition decode_elf (d : list Z) : elfhdr := mkElf (get_le 0 4 d) (get_le 24 4 d) (get_le 28 4 d) (get_le 44 2 d).
Definition sizeof_proghdr : Z := 32.
Record proghdr := mkPh { ph_type : Z; ph_off : Z; ph_vaddr : Z; ph_filesz : Z; ph_memsz : Z }.
Definition decode_ph (d : list Z) : proghdr :=
  mkPh (get_le 0 4 d) (get_le 4 4 d) (get_le 8 4 d) (get_le 16 4 d) (get_le 20 4 d).

(** ** The routines of vm.c *)

(** A page table is known by its address; [vm] is the state of the memory that
    page tables and user pages are in. *)
Class Vm := {
  vm : Type;
  setupkvm : M vm (option Z);
  allocuvm : Z → Z → Z → M vm Z;                        (* pgdir, oldsz, newsz *)
  loaduvm : Z → Z → nat → Z → Z → M (fsst * vm) Z;      (* pgdir, addr, ip, offset, sz *)
  clearpteu : Z → Z → M vm unit;
  copyout : Z → Z → list Z → M vm Z;                    (* pgdir, va, the bytes *)
  switchuvm : Z → M vm unit;                            (* p->pgdir *)
  freevm : Z → M vm unit
}.

(** What exec uses of [struct proc]. *)
Record eproc := mkEproc {
  e_name : list Z; e_pgdir : Z; e_sz : Z; e_eip : Z; e_esp : Z; e_uid : Z; e_gid : Z; e_cwd : nat
}.

(** ** exec *)

Section Exec.
Context `{Devices} `{Vm}.

Record est := mkEst { e_fs : fsst; e_vm : vm; e_proc : eproc }.
Definition set_e_fs (v : fsst) (s : est) : est := mkEst v (e_vm s) (e_proc s).
Definition set_e_vm (v : vm) (s : est) : est := mkEst (e_fs s) v (e_proc s).
Definition set_e_proc (v : eproc) (s : est) : est := mkEst (e_fs s) (e_vm s) v.
Definition set_e_both (v : fsst * vm) (s : est) : est := mkEst v.1 v.2 (e_proc s).
Definition onfs {A} : M fsst A → M est A := zoom e_fs set_e_fs.
Definition onvm {A} : M vm A → M est A := zoom e_vm set_e_vm.
Definition onboth {A} : M (fsst * vm) A → M est A := zoom (λ s, (e_fs s, e_vm s)) set_e_both.

(** The mode bits [o_x], [g_x], [u_x] and [setuid] *)
Definition o_x (mode : Z) : bool := Z.testbit mode 0.
Definition g_x (mode : Z) : bool := Z.testbit mode 3.
Definition u_x (mode : Z) : bool := Z.testbit mode 6.
Definition setuid (mode : Z) : bool := Z.testbit mode 9.

(** [check]: may a process with these ids execute the file? *)
Definition exec_check (uid gid : Z) (st : stat) : bool :=
  let check := bool_decide (st_uid st = uid) && u_x (st_mode st) in
  let check := check || bool_decide (st_gid st = gid) && g_x (st_mode st) in
  check || bool_decide (uid ≠ st_uid st) && bool_decide (gid ≠ st_gid st) && o_x (st_mode st).

(** A local variable that held [old] after [new] was read into it. *)
Definition read_into (old new : list Z) : list Z := new ++ drop (length new) old.

(** [bad:] *)
Definition exec_bad (pgdir : option Z) (ip : option nat) : M est Z :=
  match pgdir with Some pg => onvm (freevm pg) | None => mret tt end;;
  match ip with Some ip => onfs (iunlockput ip);; onfs end_op | None => mret tt end;;
  mret (-1).

(** The loop over the program headers, with [n] of them to come: the size of
    the program, or [None] for [goto bad]. *)
Fixpoint exec_load (n : nat) (ip : nat) (pg off sz : Z) (ph0 : list Z) : M est (option Z) :=
  match n with
  | O => mret (Some sz)
  | S n' =>
      r ← onfs (readi ip (u32 off) sizeof_proghdr);
      if decide (u32 r.1 ≠ sizeof_proghdr) then mret None else
      let b := read_into ph0 r.2 in
      let ph := decode_ph b in
      if decide (ph_type ph ≠ ELF_PROG_LOAD) then exec_load n' ip pg (i32 (off + sizeof_proghdr)) sz b else
      if decide (ph_memsz ph < ph_filesz ph) then mret None else
      sz ← onvm (allocuvm pg sz (u32 (ph_vaddr ph + ph_memsz ph)));
      if decide (sz = 0) then mret None else
      r ← onboth (loaduvm pg (ph_vaddr ph) ip (ph_off ph) (ph_filesz ph));
      if decide (r < 0) then mret None else
      exec_load n' ip pg (i32 (off + sizeof_proghdr)) sz b
  end.

(** The loop over [argv]: the stack pointer and the entries of [ustack] from
    [ustack[3]] on, or [None] for [goto bad]. *)
Fixpoint exec_push (pg sp : Z) (argc : nat) (ustack : list Z) (argv : list (list Z)) : M vm (option (Z * list Z)) :=
  match argv with
  | [] => mret (Some (sp, ustack))
  | a :: argv' =>
      if decide (MAXARG ≤ argc)%nat then mret None else
      n ← lookupM (λ _, strlen a);
      let sp := Z.land (u32 (sp - (Z.of_nat n + 1))) (u32 (Z.lnot 3)) in
      r ← copyout pg sp (take (S n) a);
      if decide (r < 0) then mret None else
      exec_push pg sp (S argc) (ustack ++ [sp]) argv'
  end.

(** From [sp = sz] to the copy of [ustack]: the stack pointer of the program. *)
Definition exec_stack (pg sz : Z) (argv : list (list Z)) : M vm (option Z) :=
  r ← exec_push pg sz 0 [] argv;
  match r with
  | None => mret None
  | Some (sp, ptrs) =>
      let argc := Z.of_nat (length ptrs) in
      let ustack := [0xffffffff; argc; u32 (sp - (argc + 1) * 4)] ++ ptrs ++ [0] in
      let sp := u32 (sp - (3 + argc + 1) * 4) in
      r ← copyout pg sp (ustack ≫= le_enc 4);
      mret (if decide (r < 0) then None else Some sp)
  end.

(** [for(last=s=path; *s; s++) if( *s == '/') last = s+1;] *)
Fixpoint last_elem (last s : list Z) : option (list Z) :=
  match s with
  | [] => None
  | c :: s' => if decide (c = 0) then Some last else last_elem (if decide (c = 47) then s' else last) s'
  end.

(** "Commit to the user image." *)
Definition exec_commit (pg sz entry sp uid : Z) (path : list Z) : M est Z :=
  p ← gets e_proc;
  last ← lookupM (λ _, last_elem path path);
  name ← lookupM (λ _, safestrcpy (e_name p) last 16);
  modify (set_e_proc (mkEproc name pg sz entry sp (e_uid p) (e_gid p) (e_cwd p)));;
  onvm (switchuvm pg);;
  onvm (freevm (e_pgdir p));;
  (if decide (uid ≠ -1) then
     p ← gets e_proc;
     modify (set_e_proc (mkEproc (e_name p) (e_pgdir p) (e_sz p) (e_eip p) (e_esp p) (u32 uid) (e_gid p) (e_cwd p)))
   else mret tt);;
  mret 0.

(** The part after the file has been closed. *)
Definition exec_finish (pg sz entry uid : Z) (path : list Z) (argv : list (list Z)) : M est Z :=
  let sz := PGROUNDUP sz in
  sz ← onvm (allocuvm pg sz (u32 (sz + 2 * PGSIZE)));
  if decide (sz = 0) then exec_bad (Some pg) None else
  onvm (clearpteu pg (u32 (sz - 2 * PGSIZE)));;
  sp ← onvm (exec_stack pg sz argv);
  match sp with
  | None => exec_bad (Some pg) None
  | Some sp => exec_commit pg sz entry sp uid path
  end.

(** From setupkvm on, with the file [ip] still open. *)
Definition exec_program (ph0 : list Z) (ip : nat) (elf : elfhdr) (uid : Z) (path : list Z) (argv : list (list Z)) : M est Z :=
  pg ← onvm setupkvm;
  match pg with
  | None => exec_bad None (Some ip)
  | Some pg =>
      sz ← exec_load (Z.to_nat (elf_phnum elf)) ip pg (i32 (elf_phoff elf)) 0 ph0;
      match sz with
      | None => exec_bad (Some pg) (Some ip)
      | Some sz =>
          onfs (iunlockput ip);;
          onfs end_op;;
          exec_finish pg sz (elf_entry elf) uid path argv
      end
  end.

(** The checks of the open file [ip], and the rest.  [elf0] and [ph0] are what the
    variables [elf] and [ph] happen to hold.  The result of the first readi is
    compared as an unsigned number. *)
Definition exec_image (elf0 ph0 : list Z) (ip : nat) (path : list Z) (argv : list (list Z)) : M est Z :=
  p ← gets e_proc;
  st ← onfs (stati ip);
  if negb (exec_check (e_uid p) (e_gid p) st) then exec_bad None (Some ip) else
  x ← onfs (geti ip);
  let uid := if setuid (st_mode st) then i_uid x else -1 in
  r ← onfs (readi ip 0 sizeof_elfhdr);
  if decide (u32 r.1 < sizeof_elfhdr) then exec_bad None (Some ip) else
  let elf := decode_elf (read_into elf0 r.2) in
  if decide (elf_magic elf ≠ ELF_MAGIC) then exec_bad None (Some ip) else
  exec_program ph0 ip elf uid path argv.

Definition exec (elf0 ph0 : list Z) (path : list Z) (argv : list (list Z)) : M est Z :=
  onfs begin_op;;
  cwd ← gets (λ s, e_cwd (e_proc s));
  ip ← onfs (namei cwd path);
  match ip with
  | None => onfs end_op;; mret (-1)
  | Some ip => onfs (ilock ip);; exec_image elf0 ph0 ip path argv
  end.

Definition sys_exec (elf0 ph0 : list Z) (u : uspace) : M est Z :=
  a ← sys_exec_args u;
  match a with
  | None => mret (-1)
  | Some (path, l) => exec elf0 ph0 (user_str u path) (user_str u <$> l)
  end.
End Exec.
