(* ===== verification/ExecProps.v ===== *)
(** * Properties of exec

    An exec either fails and leaves the process and its memory as they were, or
    the process runs the program of the file, with its arguments on a new
    stack.  What vm.c does is stated over the address space that a page table
    stands for. *)

From S2P Require Import Prelude CString Layout Fs FsBlocks FsInode FsFile FsAcct File Syscall Sysfile Exec.

Local Open Scope Z_scope.

(** ** Address spaces *)

(** The pages below [im_top] are mapped; [im_user] are the addresses that a
    process may use. *)
Record image := mkImage { im_top : Z; im_user : Z → bool; im_byte : Z → Z }.

(** [f] with the bytes [d] stored from [va] on. *)
Definition poke (va : Z) (d : list Z) (f : Z → Z) (a : Z) : Z :=
  if decide (va ≤ a) then default (f a) (d !! Z.to_nat (a - va)) else f a.

(** The address space after it has been grown to [top], by pages of zeros. *)
Record grown (top : Z) (im im' : image) : Prop := {
  gr_top : im_top im' = top;
  gr_user a : im_user im' a = if decide (im_top im ≤ a < top) then true else im_user im a;
  gr_byte a : a < top → im_byte im' a = if decide (im_top im ≤ a) then 0 else im_byte im a
}.

(** The same addresses with other contents. *)
Record refilled (im im' : image) (f : Z → Z) : Prop := {
  rf_top : im_top im' = im_top im;
  rf_user a : im_user im' a = im_user im a;
  rf_byte a : im_byte im' a = f a
}.

(** Pages that it takes to grow from [old] to [new]: each page may need a page
    table too. *)
Definition need (old new : Z) : Z := 2 * ((PGROUNDUP new - PGROUNDUP old) / PGSIZE).

(** ** What vm.c promises

    [space] is the address space of a page table, [None] if there is no such
    page table; [loaded] the page table the CPU uses; [room] the number of free
    pages, of which setupkvm takes [kvm_pages]. *)
Class VmView `{Vm} := {
  space : vm → Z → option image;
  loaded : vm → Z;
  room : vm → Z;
  kvm_pages : Z
}.

(** Nothing changes but the address space of [pg]. *)
Record only `{VmView} (pg : Z) (v v' : vm) : Prop := {
  on_space q : q ≠ pg → space v' q = space v q;
  on_loaded : loaded v' = loaded v
}.

Class VmOk `{Devices} `{VmView} : Prop := {
  setupkvm_ok v : wp setupkvm v (λ r v',
    match r with
    | None => (∀ q, space v' q = space v q) ∧ loaded v' = loaded v ∧ room v < kvm_pages
    | Some pg => space v pg = None ∧ only pg v v' ∧ room v - kvm_pages ≤ room v' ∧ ∃ im, space v' pg = Some im ∧ im_top im = 0
    end);
  allocuvm_ok v pg im old new :
    space v pg = Some im → im_top im = PGROUNDUP old → 0 ≤ old ≤ KERNBASE → is_u32 new →
    wp (allocuvm pg old new) v (λ r v', only pg v v' ∧
      if decide (KERNBASE ≤ new) then r = 0 ∧ space v' pg = Some im
      else if decide (new < old) then r = old ∧ space v' pg = Some im ∧ room v' = room v
      else r = 0 ∧ room v < need old new ∧ (∃ im', space v' pg = Some im') ∨
           r = new ∧ room v - need old new ≤ room v' ∧ ∃ im', space v' pg = Some im' ∧ grown (PGROUNDUP new) im im');
  clearpteu_ok v pg im a :
    space v pg = Some im → a `mod` PGSIZE = 0 → 0 ≤ a < im_top im →
    wp (clearpteu pg a) v (λ _ v', only pg v v' ∧ room v' = room v ∧ ∃ im', space v' pg = Some im' ∧
      im_top im' = im_top im ∧ (∀ b, im_user im' b = if decide (a ≤ b < a + PGSIZE) then false else im_user im b) ∧
      ∀ b, im_byte im' b = im_byte im b);
  copyout_ok v pg im va d :
    space v pg = Some im → 0 ≤ va → va + Z.of_nat (length d) ≤ KERNBASE →
    (∀ a, va ≤ a < va + Z.of_nat (length d) → im_user im a = true) →
    wp (copyout pg va d) v (λ r v', r = 0 ∧ only pg v v' ∧ room v' = room v ∧
      ∃ im', space v' pg = Some im' ∧ refilled im im' (poke va d (im_byte im)));
  copyout_bad v pg im va d k :
    space v pg = Some im → is_u32 va → Z.of_nat (length d) < 2 ^ 32 →
    0 ≤ k < Z.of_nat (length d) → im_user im (u32 (va + k)) = false →
    wp (copyout pg va d) v (λ r v', r = -1 ∧ only pg v v' ∧ room v' = room v ∧ ∃ im' f, space v' pg = Some im' ∧ refilled im im' f);
  switchuvm_ok v pg im :
    space v pg = Some im → wp (switchuvm pg) v (λ _ v', loaded v' = pg ∧ ∀ q, space v' q = space v q);
  freevm_ok v pg im :
    space v pg = Some im → loaded v ≠ pg → wp (freevm pg) v (λ _ v', only pg v v' ∧ space v' pg = None);
  loaduvm_acc v pg im s G L k va i off n :
    space v pg = Some im → i ∈ L → Acc s G L k →
    wlp (loaduvm pg va i off n) (s, v) (λ r sv, Acc sv.1 G L k ∧ only pg v sv.2 ∧
      ∃ im' f, space sv.2 pg = Some im' ∧ refilled im im' f);
  loaduvm_ok v pg im d s x va i off n :
    space v pg = Some im → FInv d s → FileOk d s x → no_holes d s x → icache s !! i = Some x → i_type x ≠ T_DEV →
    va `mod` PGSIZE = 0 → 0 ≤ va → va + n ≤ im_top im → 0 ≤ off → 0 ≤ n → off + n ≤ i_size x →
    wp (loaduvm pg va i off n) (s, v) (λ r sv, r = 0 ∧ sv.1 = s ∧ only pg v sv.2 ∧ room sv.2 = room v ∧
      ∃ im', space sv.2 pg = Some im' ∧
        refilled im im' (poke va (byte d s x <$> seq (Z.to_nat off) (Z.to_nat n)) (im_byte im)))
}.

Lemma poke_out va d f a : a < va ∨ va + Z.of_nat (length d) ≤ a → poke va d f a = f a.
Proof.
  intros Ha. unfold poke. case_decide; [|done]. rewrite lookup_ge_None_2; [done|lia].
Qed.
Lemma poke_in va d f k c : d !! k = Some c → poke va d f (va + Z.of_nat k) = c.
Proof.
  intros E. unfold poke. rewrite decide_True by lia. replace (Z.to_nat (va + Z.of_nat k - va)) with k by lia. by rewrite E.
Qed.

Section Props.
Context `{HD : Devices} `{Hvm : Vm} `{HV : !VmView} `{HO : !VmOk} `{HDO : !DevicesOk}.
Implicit Types (v : vm) (im : image) (argv : list (list Z)).

Lemma only_refl pg v : only pg v v.
Proof. done. Qed.
Lemma only_trans pg v1 v2 v3 : only pg v1 v2 → only pg v2 v3 → only pg v1 v3.
Proof. intros [S1 L1] [S2 L2]. split; [intros q Hq; rewrite S2; auto|congruence]. Qed.

(** ** The stack *)

(** [T] is the page of the stack, the one below is the guard. *)
Record StackPage (T : Z) (im : image) : Prop := {
  sp_align : T `mod` PGSIZE = 0;
  sp_range : PGSIZE ≤ T ∧ T + PGSIZE ≤ KERNBASE;
  sp_user a : T ≤ a < T + PGSIZE → im_user im a = true;
  sp_guard a : T - PGSIZE ≤ a < T → im_user im a = false
}.
Lemma StackPage_refilled T im im' f : refilled im im' f → StackPage T im → StackPage T im'.
Proof. intros [_ Hu _] [Ha Hr Hs Hg]. split; [done|done|..]; intros b Hb; rewrite Hu; auto. Qed.

Definition round4 (n : Z) : Z := (n + 3) / 4 * 4.

(** Bytes that are copied below [sp] fit into the page of the stack, or run
    into the guard. *)
Lemma stack_copy T v pg im sp d :
  space v pg = Some im → StackPage T im → T ≤ sp ≤ T + PGSIZE → (0 < length d)%nat → Z.of_nat (length d) < 2 ^ 32 →
  wp (copyout pg (u32 (sp - round4 (Z.of_nat (length d)))) d) v (λ r v', only pg v v' ∧ room v' = room v ∧
    ∃ im', space v' pg = Some im' ∧
    if decide (T ≤ sp - round4 (Z.of_nat (length d)))
    then r = 0 ∧ refilled im im' (poke (sp - round4 (Z.of_nat (length d))) d (im_byte im))
    else r = -1 ∧ ∃ f, refilled im im' f).
Proof.
  intros Hs [Ha [Hr1 Hr2] Hu Hg] Hsp Hd0 Hd. set (q := sp - round4 _). assert (sp - 4 < q + Z.of_nat (length d) ≤ sp) as Hq by (unfold q, round4; zlia).
  unfold PGSIZE, KERNBASE in *. destruct (decide (T ≤ q)) as [HT|HT].
  - rewrite u32_small by (unfold is_u32; lia).
    eapply wp_mono; [apply (copyout_ok v pg im); [done|lia|unfold KERNBASE; lia|intros b Hb; apply Hu; lia]|]. naive_solver.
  - eapply wp_mono; [apply (copyout_bad v pg im _ d (Z.max 0 (T - 4096 - q))); [done|apply u32_range|lia|lia|]|].
    + rewrite u32_add_idemp_l, u32_small by (unfold is_u32; lia). apply Hg. lia.
    + intros r v' (-> & Ho & Hm & im' & f & ? & ?). split; [done|]. split; [done|]. exists im'. eauto.
Qed.

(** The string [a], and what it takes of the stack. *)
Definition arg_ok (a : list Z) : Prop := terminated a ∧ Z.of_nat (length (cstr a)) < 2 ^ 32 - 1.
Definition arg_room (a : list Z) : Z := round4 (Z.of_nat (length (cstr a)) + 1).
Definition args_room (argv : list (list Z)) : Z := foldr (λ a n, arg_room a + n) 0 argv.
Definition string_at (im : image) (p : Z) (a : list Z) : Prop :=
  ∀ k c, (cstr a ++ [0]) !! k = Some c → im_byte im (p + Z.of_nat k) = c ∧ im_user im (p + Z.of_nat k) = true.

(** Where the strings go. *)
Fixpoint arg_ptrs (sp : Z) (argv : list (list Z)) : list Z :=
  match argv with [] => [] | a :: argv' => sp - arg_room a :: arg_ptrs (sp - arg_room a) argv' end.
Lemma length_arg_ptrs argv : ∀ sp, length (arg_ptrs sp argv) = length argv.
Proof. induction argv; intros sp; simpl; auto. Qed.

Lemma cstr_take a : terminated a → take (S (length (cstr a))) a = cstr a ++ [0].
Proof.
  induction a as [|c a IH]; [by intros ?%elem_of_nil|]. intros Ht. simpl. destruct (decide (c = 0)) as [->|Hc]; [done|].
  simpl. f_equal. apply IH. by apply elem_of_cons in Ht as [<-|].
Qed.
Lemma arg_room_pos a : 0 < arg_room a ∧ arg_room a `mod` 4 = 0 ∧ Z.of_nat (length (cstr a)) < arg_room a.
Proof. unfold arg_room, round4. zlia. Qed.
Lemma args_room_nonneg argv : 0 ≤ args_room argv.
Proof. induction argv as [|a argv IH]; simpl; [done|]. pose proof (arg_room_pos a). lia. Qed.

(** [(sp - n) & ~3] *)
Lemma align_sp sp n : sp `mod` 4 = 0 → Z.land (u32 (sp - n)) (u32 (Z.lnot 3)) = u32 (sp - round4 n).
Proof.
  intros H4. rewrite (mask_low 2) by (lia || apply u32_range). unfold u32, round4. zlia.
Qed.

(** The image [im'] is [im] but for what lies in the stack between [lo] and [hi]. *)
Record stacked (lo hi : Z) (im im' : image) : Prop := {
  st_top : im_top im' = im_top im;
  st_user a : im_user im' a = im_user im a;
  st_byte a : a < lo ∨ hi ≤ a → im_byte im' a = im_byte im a
}.
Lemma stacked_trans lo mid hi im1 im2 im3 : lo ≤ mid ≤ hi → stacked mid hi im1 im2 → stacked lo mid im2 im3 → stacked lo hi im1 im3.
Proof.
  intros Hm [T1 U1 B1] [T2 U2 B2]. split; [congruence|intros b; by rewrite U2|]. intros b Hb. rewrite B2, B1; [done|lia|lia].
Qed.
Lemma stacked_poke q hi d im im' : q + Z.of_nat (length d) ≤ hi → refilled im im' (poke q d (im_byte im)) → stacked q hi im im'.
Proof. intros Hh [T1 U1 B1]. split; [done|done|]. intros b Hb. rewrite B1, poke_out; [done|lia]. Qed.
Lemma stacked_refl lo im : stacked lo lo im im.
Proof. done. Qed.
Lemma StackPage_stacked T lo hi im im' : stacked lo hi im im' → StackPage T im → StackPage T im'.
Proof. intros [_ Hu _] [Ha Hr Hs Hg]. split; [done|done|..]; intros b Hb; rewrite Hu; auto. Qed.

Lemma string_at_poke T q im im' a :
  StackPage T im → T ≤ q → q + Z.of_nat (length (cstr a ++ [0])) ≤ T + PGSIZE →
  refilled im im' (poke q (cstr a ++ [0]) (im_byte im)) → string_at im' q a.
Proof.
  intros [_ _ Hu _] H1 H2 [_ U1 B1] k c E. split; [by rewrite B1; apply poke_in|]. rewrite U1. apply Hu. apply lookup_lt_Some in E. lia.
Qed.
Lemma string_at_stacked lo hi im im' p a : stacked lo hi im im' → hi ≤ p → string_at im p a → string_at im' p a.
Proof. intros [_ U B] Hp Hs k c E. destruct (Hs k c E) as [<- <-]. split; [apply B; lia|apply U]. Qed.

Definition pushed (sp pg : Z) (us : list Z) argv v' im (r : option (Z * list Z)) : Prop :=
  match r with
  | None => ∃ im', space v' pg = Some im' ∧ im_top im' = im_top im
  | Some (sp', us') => sp' = sp - args_room argv ∧ us' = us ++ arg_ptrs sp argv ∧ ∃ im', space v' pg = Some im' ∧
      stacked sp' sp im im' ∧ Forall2 (string_at im') (arg_ptrs sp argv) argv
  end.

Lemma exec_push_spec T pg argv : Forall arg_ok argv → ∀ v im sp argc us,
  space v pg = Some im → StackPage T im → T ≤ sp ≤ T + PGSIZE → sp `mod` 4 = 0 →
  wp (exec_push pg sp argc us argv) v (λ r v', only pg v v' ∧ room v' = room v ∧
    (is_Some r ↔ (argv = [] ∨ (argc + length argv ≤ MAXARG)%nat) ∧ T ≤ sp - args_room argv) ∧ pushed sp pg us argv v' im r).
Proof.
  induction 1 as [|a argv [Ht Hl] Hargs IH]; intros v im sp argc us Hs HT Hsp H4; cbn [exec_push].
  { wp_steps. simpl. split; [done|]. split; [done|]. split; [split; [|by eauto]; intros _; split; [by left|lia]|].
    rewrite Z.sub_0_r, app_nil_r. split; [done|]. split; [done|]. exists im. split; [done|]. split; [apply stacked_refl|constructor]. }
  destruct (decide _) as [Hm|Hm]; wp_steps.
  { split; [done|]. split; [done|]. simpl. split; [|by exists im]. rewrite is_Some_alt. split; [done|]. intros [[?|?] _]; [done|lia]. }
  apply (wp_lookupM _ _ (length (cstr a))); [by apply strlen_spec|]. wp_steps. rewrite cstr_take by done.
  rewrite align_sp by done. pose proof (stack_copy T v pg im sp (cstr a ++ [0]) Hs HT Hsp) as Hc.
  rewrite length_app, Nat2Z.inj_add in Hc. change (Z.of_nat (length [0])) with 1 in Hc. fold (arg_room a) in Hc |- *.
  eapply wp_mono; [apply Hc; simpl; lia|]. clear Hc. intros r v1 (Ho1 & Hm1 & im1 & Hs1 & Hr). pose proof (arg_room_pos a) as (Hp1 & Hp2 & Hp3).
  pose proof (args_room_nonneg argv) as Hnn. destruct (decide (T ≤ _)) as [HTq|HTq].
  2: { destruct Hr as [-> (f & [Ht1 _ _])]. rewrite decide_True by lia. wp_steps. split; [done|]. split; [done|]. simpl. split; [|by exists im1].
       rewrite is_Some_alt. split; [done|]. intros [_ ?]. lia. }
  destruct Hr as [-> Hrf]. rewrite decide_False by lia. rewrite (u32_small (sp - arg_room a)) by (destruct HT as [_ [? ?] _ _]; unfold is_u32, PGSIZE, KERNBASE in *; lia).
  assert (stacked (sp - arg_room a) sp im im1) as Hst by (eapply stacked_poke; [|done]; rewrite length_app; simpl; lia).
  eapply wp_mono; [apply (IH v1 im1 (sp - arg_room a)); [done|by eapply StackPage_stacked|lia|zlia]|].
  intros r v2 (Ho2 & Hm2 & Hiff & Hpu). split; [by eapply only_trans|]. split; [congruence|]. split.
  { rewrite Hiff. cbn [args_room foldr length]. fold (args_room argv). split; intros [Hx ?]; (split; [|lia]); right.
    - destruct Hx as [-> |Hx]; simpl; lia.
    - destruct Hx as [Hx|Hx]; [done|lia]. }
  destruct r as [[sp' us']|]; simpl in Hpu |- *; [|destruct Hpu as (im' & ? & ?); exists im'; split; [done|]; by rewrite <- (st_top _ _ _ _ Hst)].
  destruct Hpu as (-> & -> & im2 & Hs2 & Hst2 & HF). split; [lia|]. split; [by rewrite <- app_assoc|]. exists im2. split; [done|].
  split; [replace (sp - (arg_room a + args_room argv)) with (sp - arg_room a - args_room argv) by lia; eapply stacked_trans; [|done|done]; lia|].
  constructor; [|done]. eapply string_at_stacked; [done|done|]. eapply string_at_poke; [done|done| |done]. rewrite length_app. simpl. lia.
Qed.

(** The four bytes at [a] as a number. *)
Definition word_at (im : image) (a : Z) : Z := le_dec ((λ k, im_byte im (a + Z.of_nat k)) <$> seq 0 4).

(** The words [ws] as bytes. *)
Lemma words_lookup ws : ∀ k w j, ws !! k = Some w → (j < 4)%nat → (ws ≫= le_enc 4) !! (4 * k + j)%nat = le_enc 4 w !! j.
Proof.
  induction ws as [|w0 ws IH]; intros k w j E Hj; [done|]. rewrite bind_cons. destruct k as [|k].
  - injection E as ->. rewrite lookup_app_l by (rewrite length_le_enc; lia). by f_equal.
  - rewrite lookup_app_r by (rewrite length_le_enc; lia). rewrite length_le_enc, <- (IH k w j E Hj). f_equal. lia.
Qed.
Lemma length_words ws : length (ws ≫= le_enc 4) = (4 * length ws)%nat.
Proof. induction ws as [|w ws IH]; [done|]. rewrite bind_cons, length_app, length_le_enc, IH. simpl. lia. Qed.

Lemma word_at_poke im im' q ws k w :
  refilled im im' (poke q (ws ≫= le_enc 4) (im_byte im)) → ws !! k = Some w → is_u32 w → word_at im' (q + 4 * Z.of_nat k) = w.
Proof.
  intros [_ _ B] E Hw. unfold word_at. trans (le_dec (le_enc 4 w)).
  - f_equal. apply list_eq. intros j. rewrite list_lookup_fmap. destruct (decide (j < 4)%nat) as [Hj|Hj].
    + rewrite lookup_seq_lt by done. destruct (lookup_lt_is_Some_2 (le_enc 4 w) j) as [c Ec]; [by rewrite length_le_enc|].
      rewrite Ec. simpl. rewrite B. f_equal. replace (q + 4 * Z.of_nat k + Z.of_nat j) with (q + Z.of_nat (4 * k + j)) by lia.
      apply poke_in. by rewrite (words_lookup ws k w).
    + rewrite lookup_seq_ge by lia. rewrite lookup_ge_None_2 by (rewrite length_le_enc; lia). done.
  - rewrite le_dec_enc. by apply Z.mod_small.
Qed.

(** What [main(argc, argv)] finds when it starts with the stack pointer [sp]. *)
Record args_at (im : image) (sp : Z) (argv : list (list Z)) : Prop := {
  aa_pc : word_at im sp = 0xffffffff;
  aa_argc : word_at im (sp + 4) = Z.of_nat (length argv);
  aa_argv : word_at im (sp + 8) = sp + 12;
  aa_arg k a : argv !! k = Some a → string_at im (word_at im (sp + 12 + 4 * Z.of_nat k)) a;
  aa_null : word_at im (sp + 12 + 4 * Z.of_nat (length argv)) = 0
}.

(** The arguments and the vector fit into the page of the stack. *)
Definition fits (argv : list (list Z)) : Prop :=
  (length argv ≤ MAXARG)%nat ∧ args_room argv + 4 * (4 + Z.of_nat (length argv)) ≤ PGSIZE.

Lemma arg_ptrs_range argv : ∀ sp k p, arg_ptrs sp argv !! k = Some p → sp - args_room argv ≤ p ≤ sp.
Proof.
  induction argv as [|a argv IH]; intros sp k p E; [done|]. pose proof (arg_room_pos a). pose proof (args_room_nonneg argv).
  destruct k as [|k]; simpl in E |- *; [injection E as <-; lia|]. apply IH in E. lia.
Qed.

(** The words that go below the strings. *)
Definition vector (sp : Z) (argv : list (list Z)) : list Z :=
  [0xffffffff; Z.of_nat (length argv); u32 (sp - args_room argv - (Z.of_nat (length argv) + 1) * 4)] ++ arg_ptrs sp argv ++ [0].
Lemma length_vector sp argv : length (vector sp argv) = (4 + length argv)%nat.
Proof. unfold vector. rewrite !length_app, length_arg_ptrs. simpl. lia. Qed.

Lemma vector_args T sp argv im im' :
  let q := sp - args_room argv - 4 * (4 + Z.of_nat (length argv)) in
  StackPage T im → T ≤ q → sp ≤ T + PGSIZE → Forall2 (string_at im) (arg_ptrs sp argv) argv →
  refilled im im' (poke q (vector sp argv ≫= le_enc 4) (im_byte im)) → args_at im' q argv.
Proof.
  intros q [_ [R1 R2] _ _] HT Hsp HF Hrf. unfold PGSIZE, KERNBASE in *. pose proof (args_room_nonneg argv) as Hnn.
  assert (∀ k w, vector sp argv !! k = Some w → is_u32 w → word_at im' (q + 4 * Z.of_nat k) = w) as Hw by (intros; by eapply word_at_poke).
  assert (stacked q (sp - args_room argv) im im') as Hst by (eapply stacked_poke; [|done]; rewrite length_words, length_vector; unfold q; lia).
  split.
  - rewrite <- (Hw O 0xffffffff); [f_equal; lia|done|unfold is_u32; lia].
  - rewrite <- (Hw 1%nat (Z.of_nat (length argv))); [f_equal; lia|done|unfold is_u32; lia].
  - pose proof (Hw 2%nat _ eq_refl) as E. change (4 * Z.of_nat 2) with 8 in E. rewrite E by apply u32_range. rewrite u32_small; unfold is_u32; lia.
  - intros k a Ea. destruct (Forall2_lookup_r _ _ _ _ _ HF Ea) as (p & Ep & Hp). pose proof (arg_ptrs_range _ _ _ _ Ep).
    pose proof (Hw (3 + k)%nat p) as E. replace (q + 12 + 4 * Z.of_nat k) with (q + 4 * Z.of_nat (3 + k)) by lia.
    rewrite E; [eapply string_at_stacked; [done|lia|done]| |unfold is_u32; lia].
    unfold vector. simpl. by apply lookup_app_l_Some.
  - pose proof (Hw (3 + length argv)%nat 0) as E. replace (q + 12 + 4 * Z.of_nat (length argv)) with (q + 4 * Z.of_nat (3 + length argv)) by lia.
    apply E; [|unfold is_u32; lia]. unfold vector. simpl. rewrite lookup_app_r by (rewrite length_arg_ptrs; lia). by rewrite length_arg_ptrs, Nat.sub_diag.
Qed.

(** Building the stack succeeds exactly when the arguments fit. *)
Lemma exec_stack_spec T pg argv v im : Forall arg_ok argv → space v pg = Some im → StackPage T im →
  wp (exec_stack pg (T + PGSIZE) argv) v (λ r v', only pg v v' ∧ room v' = room v ∧ ∃ im', space v' pg = Some im' ∧
    match r with
    | None => ¬ fits argv
    | Some sp => fits argv ∧ T ≤ sp ∧ stacked T (T + PGSIZE) im im' ∧ args_at im' sp argv
    end).
Proof.
  intros Hargs Hs HT. pose proof (sp_align _ _ HT) as HA. pose proof (sp_range _ _ HT) as [R1 R2]. pose proof (args_room_nonneg argv) as Hnn.
  unfold exec_stack, fits. wp_steps. eapply wp_mono; [apply (exec_push_spec T pg argv Hargs v im); [done|done|unfold PGSIZE; lia|unfold PGSIZE in *; zlia]|].
  intros r v1 (Ho1 & Hm1 & Hiff & Hpu). destruct r as [[sp us]|]; simpl in Hpu.
  2: { destruct Hpu as (im1 & ? & ?). wp_steps. split; [done|]. split; [done|]. exists im1. split; [done|]. intros [? ?].
       assert (is_Some (None (A := Z * list Z))) as []%is_Some_None. apply Hiff. split; [right; lia|unfold PGSIZE in *; lia]. }
  destruct Hpu as (-> & -> & im1 & Hs1 & Hst1 & HF). destruct (proj1 Hiff) as [Hlen HTs]; [done|]. rewrite Nat.add_0_l in Hlen. wp_steps.
  rewrite length_arg_ptrs. fold (vector (T + PGSIZE) argv).
  assert (Z.of_nat (length (vector (T + PGSIZE) argv ≫= le_enc 4)) = 4 * (4 + Z.of_nat (length argv))) as El by (rewrite length_words, length_vector; lia).
  assert ((length argv ≤ MAXARG)%nat) as Hlen' by (destruct Hlen as [-> |?]; [simpl; lia|done]).
  set (q := T + PGSIZE - args_room argv - 4 * (4 + Z.of_nat (length argv))).
  pose proof (stack_copy T v1 pg im1 (T + PGSIZE - args_room argv) (vector (T + PGSIZE) argv ≫= le_enc 4) Hs1) as Hc.
  rewrite El in Hc. replace (round4 (4 * (4 + Z.of_nat (length argv)))) with (4 * (4 + Z.of_nat (length argv))) in Hc by (unfold round4; zlia).
  fold q in Hc. replace (T + PGSIZE - args_room argv - (3 + Z.of_nat (length argv) + 1) * 4) with q by (unfold q; lia).
  eapply wp_mono; [apply Hc; [by eapply StackPage_stacked|unfold PGSIZE in *; lia|lia|unfold MAXARG in *; lia]|].
  intros r v2 (Ho2 & Hm2 & im2 & Hs2 & Hr). wp_steps. split; [by eapply only_trans|]. split; [congruence|]. exists im2. split; [done|].
  destruct (decide (T ≤ q)) as [HTq|HTq].
  - destruct Hr as [-> Hrf]. rewrite decide_False by lia. rewrite u32_small by (unfold is_u32, q, PGSIZE, KERNBASE in *; lia).
    split; [split; [done|unfold q in *; lia]|]. split; [done|]. split.
    + eapply stacked_trans; [|done|]; [unfold q in *; lia|]. eapply (stacked_poke q) in Hrf; [|rewrite El; unfold q; reflexivity || lia].
      destruct Hrf as [? ? B]. split; [done|done|]. intros b Hb. apply B. lia.
    + eapply vector_args; [by eapply StackPage_stacked|done|done| |done]. done.
  - destruct Hr as [-> _]. rewrite decide_True by lia. intros [_ ?]. unfold q in HTq. lia.
Qed.

(** ** Loading the program *)

(** Pages that [z] bytes take. *)
Definition pages_of (z : Z) : Z := (z + PGSIZE - 1) / PGSIZE.
Lemma PGROUNDUP_pages z : 0 ≤ z ≤ KERNBASE → PGROUNDUP z = pages_of z * PGSIZE.
Proof. unfold KERNBASE. intros Hz. apply PGROUNDUP_div; unfold PGSIZE; lia. Qed.
Lemma need_pages old new : 0 ≤ old ≤ KERNBASE → 0 ≤ new ≤ KERNBASE → need old new = 2 * (pages_of new - pages_of old).
Proof. intros H1 H2. unfold need. rewrite !PGROUNDUP_pages by done. unfold PGSIZE. rewrite <- Z.mul_sub_distr_r, Z.div_mul by lia. done. Qed.
Lemma pages_of_le z z' : z ≤ z' → pages_of z ≤ pages_of z'.
Proof. intros. unfold pages_of, PGSIZE. zlia. Qed.
Lemma pages_of_mul n : pages_of (n * PGSIZE) = n.
Proof. unfold pages_of, PGSIZE. zlia. Qed.
Lemma pages_of_range z : z ≤ pages_of z * PGSIZE < z + PGSIZE.
Proof. unfold pages_of, PGSIZE. zlia. Qed.

(** Programs end here at the latest, so that the stack fits below the kernel. *)
Definition MAXPROG : Z := KERNBASE - 3 * PGSIZE.

(** The memory of a program of [sz] bytes, with the contents [f]. *)
Record Loaded (sz : Z) (f : Z → Z) (im : image) : Prop := {
  ld_top : im_top im = pages_of sz * PGSIZE;
  ld_user a : 0 ≤ a < pages_of sz * PGSIZE → im_user im a = true;
  ld_byte a : 0 ≤ a < pages_of sz * PGSIZE → im_byte im a = f a;
  ld_zero a : sz ≤ a → f a = 0
}.

Lemma Loaded_grown sz new f im im' : sz ≤ new → Loaded sz f im → grown (pages_of new * PGSIZE) im im' → Loaded new f im'.
Proof.
  intros Hn [T1 U1 B1 Z1] [T2 U2 B2]. pose proof (pages_of_range sz). split; [done|..].
  - intros b Hb. rewrite U2. case_decide; [done|]. apply U1. lia.
  - intros b Hb. rewrite B2 by lia. case_decide as Hd; [symmetry; apply Z1; lia|]. apply B1. lia.
  - intros b Hb. apply Z1. lia.
Qed.
Lemma Loaded_poke sz f im im' va d : va + Z.of_nat (length d) ≤ sz → Loaded sz f im →
  refilled im im' (poke va d (im_byte im)) → Loaded sz (poke va d f) im'.
Proof.
  intros Hd [T1 U1 B1 Z1] [T2 U2 B2]. split; [congruence|intros b Hb; rewrite U2; auto|..].
  - intros b Hb. rewrite B2. unfold poke. by rewrite B1.
  - intros b Hb. rewrite poke_out by lia. auto.
Qed.

Section Load.
Context (d : Z) (s : fsst) (i : nat) (x : inode).
Context (HF : FInv d s) (HFO : FileOk d s x) (Hh : no_holes d s x) (Hx : icache s !! i = Some x) (Htype : i_type x ≠ T_DEV).

(** The [n] bytes of the file from [off] on. *)
Definition file_bytes (off n : Z) : list Z := byte d s x <$> seq (Z.to_nat off) (Z.to_nat n).
Lemma length_file_bytes off n : 0 ≤ n → Z.of_nat (length (file_bytes off n)) = n.
Proof. intros Hn. unfold file_bytes. rewrite length_fmap, length_seq. lia. Qed.

(** [n] program headers from [off] on. *)
Fixpoint headers (n : nat) (off : Z) : list proghdr :=
  match n with O => [] | S n' => decode_ph (file_bytes off sizeof_proghdr) :: headers n' (off + sizeof_proghdr) end.

(** A segment that can be loaded. *)
Definition seg_ok (ph : proghdr) : Prop :=
  ph_type ph = ELF_PROG_LOAD →
  0 ≤ ph_filesz ph ≤ ph_memsz ph ∧ 0 ≤ ph_vaddr ph ∧ ph_vaddr ph `mod` PGSIZE = 0 ∧ 0 < ph_vaddr ph + ph_memsz ph ≤ MAXPROG ∧
  0 ≤ ph_off ph ∧ ph_off ph + ph_filesz ph ≤ i_size x.

(** The size and the contents of a program, by its segments. *)
Definition seg_size (sz : Z) (ph : proghdr) : Z :=
  if decide (ph_type ph = ELF_PROG_LOAD) then Z.max sz (ph_vaddr ph + ph_memsz ph) else sz.
Definition seg_bytes (f : Z → Z) (ph : proghdr) : Z → Z :=
  if decide (ph_type ph = ELF_PROG_LOAD) then poke (ph_vaddr ph) (file_bytes (ph_off ph) (ph_filesz ph)) f else f.

Lemma file_read off n : 0 ≤ off → 0 ≤ n → off + n ≤ i_size x → readi i off n s = Ret (n, file_bytes off n) s.
Proof.
  intros Ho Hn Hs. pose proof (fo_size _ _ _ HFO) as Hsz. rewrite maxfile_bytes in Hsz.
  rewrite (readi_spec d i s x) by (done || unfold is_u32; lia). rewrite decide_False by lia. by replace (read_len _ _ _) with n by (unfold read_len; lia).
Qed.

Lemma get_le_app off n l l' : (off + n ≤ length l)%nat → get_le off n (l ++ l') = get_le off n l.
Proof. intros Hl. unfold get_le, slice. rewrite drop_app_le by lia. rewrite take_app_le; [done|]. rewrite length_drop. lia. Qed.
Lemma decode_ph_read old l : length l = 32%nat → decode_ph (read_into old l) = decode_ph l.
Proof. intros Hl. unfold decode_ph, read_into. rewrite !get_le_app by lia. done. Qed.
Lemma decode_elf_read old l : length l = 52%nat → decode_elf (read_into old l) = decode_elf l.
Proof. intros Hl. unfold decode_elf, read_into. rewrite !get_le_app by lia. done. Qed.

Lemma seg_size_range phs : Forall seg_ok phs → ∀ sz, 0 ≤ sz ≤ MAXPROG → sz ≤ foldl seg_size sz phs ≤ MAXPROG.
Proof.
  induction 1 as [|ph phs Hph _ IH]; intros sz Hsz; simpl; [lia|]. assert (0 ≤ seg_size sz ph ≤ MAXPROG ∧ sz ≤ seg_size sz ph) as [H1 H2].
  { unfold seg_size. case_decide as E; [apply Hph in E; lia|lia]. }
  pose proof (IH _ H1). lia.
Qed.

(** One segment. *)
Lemma load_segment pg v im sz f ph R :
  space v pg = Some im → Loaded sz f im → 0 ≤ sz ≤ MAXPROG → ph_type ph = ELF_PROG_LOAD → seg_ok ph → R + need sz (seg_size sz ph) ≤ room v → 0 ≤ R →
  wp (allocuvm pg sz (u32 (ph_vaddr ph + ph_memsz ph))) v (λ r v1, r = seg_size sz ph ∧ r ≠ 0 ∧ only pg v v1 ∧ R ≤ room v1 ∧
    wp (loaduvm pg (ph_vaddr ph) i (ph_off ph) (ph_filesz ph)) (s, v1) (λ r sv, r = 0 ∧ sv.1 = s ∧ only pg v1 sv.2 ∧ R ≤ room sv.2 ∧
      ∃ im', space sv.2 pg = Some im' ∧ Loaded (seg_size sz ph) (seg_bytes f ph) im')).
Proof.
  intros Hs HL Hsz Et Hok HR HR0. destruct (Hok Et) as (H1 & H2 & H3 & H4 & H5 & H6). unfold seg_size, seg_bytes in *. rewrite !(decide_True _ _ Et) in *.
  set (new := ph_vaddr ph + ph_memsz ph) in *. unfold MAXPROG, KERNBASE, PGSIZE in Hsz, H4. rewrite u32_small by (unfold is_u32; lia).
  eapply wp_mono; [apply (allocuvm_ok v pg im); [done|by rewrite (ld_top _ _ _ HL), PGROUNDUP_pages by (unfold KERNBASE; lia)|unfold KERNBASE; lia|unfold is_u32; lia]|].
  intros r v1 [Ho Hr]. unfold KERNBASE in Hr. rewrite decide_False in Hr by lia.
  assert (∃ im1, r = Z.max sz new ∧ R ≤ room v1 ∧ space v1 pg = Some im1 ∧ Loaded (Z.max sz new) f im1) as (im1 & -> & Hm1 & Hs1 & HL1).
  { destruct (decide (new < sz)) as [Hlt|Hge].
    - destruct Hr as (-> & Hs1 & Em). exists im. rewrite Z.max_l by lia. rewrite Z.max_l in HR by lia. rewrite need_pages in HR by (unfold KERNBASE; lia). split_and!; try done. lia.
    - rewrite Z.max_r in HR |- * by lia. destruct Hr as [(_ & ? & _)|(-> & Hm1 & im1 & Hs1 & Hg)]; [lia|]. exists im1.
      rewrite PGROUNDUP_pages in Hg by (unfold KERNBASE; lia). split_and!; [done|lia|done|eapply Loaded_grown; [|done|done]; lia]. }
  split; [done|]. split; [lia|]. split; [done|]. split; [done|]. pose proof (pages_of_range (Z.max sz new)).
  eapply wp_mono; [apply (loaduvm_ok v1 pg im1 d s x); try done; [rewrite (ld_top _ _ _ HL1); lia|lia]|].
  intros r sv (-> & Es & Ho2 & Em & im2 & Hs2 & Hrf). split_and!; try done; [lia|]. exists im2. split; [done|].
  eapply Loaded_poke; [|done|exact Hrf]. fold (file_bytes (ph_off ph) (ph_filesz ph)). rewrite length_file_bytes by lia. lia.
Qed.

(** All the segments, when there is memory for them. *)
Lemma exec_load_spec pg R : 0 ≤ R → ∀ n off st sz f im ph0,
  e_fs st = s → space (e_vm st) pg = Some im → Loaded sz f im → 0 ≤ sz ≤ MAXPROG →
  0 ≤ off → off + sizeof_proghdr * Z.of_nat n ≤ i_size x → Forall seg_ok (headers n off) →
  R + need sz (foldl seg_size sz (headers n off)) ≤ room (e_vm st) →
  wp (exec_load n i pg off sz ph0) st (λ r st', r = Some (foldl seg_size sz (headers n off)) ∧
    e_fs st' = s ∧ e_proc st' = e_proc st ∧ only pg (e_vm st) (e_vm st') ∧ R ≤ room (e_vm st') ∧
    ∃ im', space (e_vm st') pg = Some im' ∧ Loaded (foldl seg_size sz (headers n off)) (foldl seg_bytes f (headers n off)) im').
Proof.
  intros HR0. pose proof (fo_size _ _ _ HFO) as Hfsz. rewrite maxfile_bytes in Hfsz. unfold sizeof_proghdr in *.
  induction n as [|n IH]; intros off st sz f im ph0 Es Hs HL Hsz Ho Hn Hok HR; cbn [exec_load].
  { wp_steps. split_and!; try done; [|by exists im]. rewrite need_pages, Z.sub_diag in HR by (cbn; unfold MAXPROG, KERNBASE, PGSIZE in *; lia). lia. }
  change (headers (S n) off) with (decode_ph (file_bytes off 32) :: headers n (off + 32)) in *.
  apply Forall_cons in Hok as [Hph Hok]. cbn [foldl] in HR |- *. set (ph := decode_ph (file_bytes off 32)) in *.
  pose proof (seg_size_range [ph] ltac:(by constructor) sz Hsz) as Hsz1. pose proof (seg_size_range _ Hok (seg_size sz ph) ltac:(cbn [foldl] in Hsz1; lia)) as Hsz2. cbn [foldl] in Hsz1.
  assert (need sz (seg_size sz ph) + need (seg_size sz ph) (foldl seg_size (seg_size sz ph) (headers n (off + 32))) = need sz (foldl seg_size (seg_size sz ph) (headers n (off + 32)))) as Hadd
    by (unfold MAXPROG, KERNBASE, PGSIZE in *; rewrite !need_pages by (unfold KERNBASE; lia); lia).
  pose proof (pages_of_le _ _ (proj1 Hsz2)) as Hpl. rewrite (need_pages (seg_size sz ph)) in Hadd by (unfold MAXPROG, KERNBASE, PGSIZE in *; lia).
  unfold onfs at 1. unfold sizeof_proghdr. wp_steps. rewrite u32_small, Es by (unfold is_u32; lia). eapply wp_Ret; [apply file_read; lia|]. simpl fst. simpl snd.
  rewrite (u32_small 32) by (unfold is_u32; lia). rewrite decide_False by (intros []; done). rewrite decode_ph_read by done. fold ph.
  rewrite i32_small by (unfold is_i32; lia). assert (e_fs (set_e_fs s st) = s ∧ e_vm (set_e_fs s st) = e_vm st ∧ e_proc (set_e_fs s st) = e_proc st) as (E1 & E2 & E3) by done.
  revert E1 E2 E3. generalize (set_e_fs s st). intros st1 E1 E2 E3. rewrite <- E2 in *. rewrite <- E3.
  destruct (decide _) as [Ht|Ht].
  - assert (seg_size sz ph = sz) as Esz by (unfold seg_size; by rewrite decide_False). assert (seg_bytes f ph = f) as -> by (unfold seg_bytes; by rewrite decide_False).
    rewrite Esz in *. eapply IH; [done|done|done|done|lia|lia|done|lia].
  - apply dec_stable in Ht. destruct (Hph Ht) as ((_ & Hms) & _). rewrite decide_False by lia. unfold onvm. wp_steps.
    eapply wp_mono; [apply (load_segment pg (e_vm st1) im sz f ph (R + 2 * (pages_of (foldl seg_size (seg_size sz ph) (headers n (off + 32))) - pages_of (seg_size sz ph)))); try done; lia|].
    intros r v1 (-> & Hr0 & Ho1 & Hm1 & Hld). rewrite decide_False by done. unfold onboth. wp_steps.
    change (e_fs (set_e_vm v1 st1), e_vm (set_e_vm v1 st1)) with (e_fs st1, v1). rewrite E1.
    eapply wp_mono; [exact Hld|]. intros r sv (-> & Es2 & Ho2 & Hm2 & im2 & Hs2 & HL2). rewrite decide_False by lia.
    eapply wp_mono; [eapply (IH (off + 32) _ _ _ im2); [done|done|done|lia|lia|lia|done|]|].
    + rewrite need_pages by (unfold MAXPROG, KERNBASE, PGSIZE in *; lia). simpl. lia.
    + intros r st' (-> & E4 & E5 & Ho3 & Hm3 & Him). split_and!; try done. eapply only_trans; [done|]. by eapply only_trans.
Qed.
End Load.

(** ** Switching over *)

(** [nm] is the last element of the path [l]. *)
Definition basename (l nm : list Z) : Prop := ∃ pre, l = pre ++ nm ∧ 47 ∉ nm ∧ (pre = [] ∨ last pre = Some 47).

Lemma last_elem_spec s : terminated s → ∀ l pre mid, terminated l → cstr l = mid ++ cstr s → 47 ∉ mid → pre = [] ∨ last pre = Some 47 →
  ∃ l', last_elem l s = Some l' ∧ terminated l' ∧ basename (pre ++ cstr l) (cstr l').
Proof.
  induction s as [|c s IH]; intros Hs l pre mid Hl E Hm Hp; [by apply elem_of_nil in Hs|]. cbn [last_elem cstr] in *.
  destruct (decide (c = 0)) as [->|Hc].
  { exists l. split; [done|]. split; [done|]. exists pre. rewrite E, app_nil_r. done. }
  assert (terminated s) as Hs' by by apply elem_of_cons in Hs as [<-|]. destruct (decide (c = 47)) as [->|Hne].
  - destruct (IH Hs' s (pre ++ mid ++ [47]) []) as (l' & E' & Ht & Hb); [done|done|set_solver|right; by rewrite !last_app|].
    exists l'. split; [done|]. split; [done|]. by rewrite E, <- !app_assoc in *.
  - destruct (IH Hs' l pre (mid ++ [c])) as (l' & E' & Ht & Hb); [done|by rewrite E, <- app_assoc|set_solver|done|]. by exists l'.
Qed.

(** The page table [pg] is gone. *)
Definition discarded (pg : Z) v v' : Prop := only pg v v' ∧ space v' pg = None.

(** The process [p], on the memory [v], has become [p'] on [v'], with the
    address space [pg] that held [im], [sz] bytes of program. *)
Record switched (path : list Z) argv (pg sz entry uid : Z) im (p p' : eproc) v v' : Prop := {
  sw_pgdir : e_pgdir p' = pg;
  sw_sz : e_sz p' = (pages_of sz + 2) * PGSIZE;
  sw_eip : e_eip p' = entry;
  sw_uid : e_uid p' = if decide (uid = -1) then e_uid p else u32 uid;
  sw_gid : e_gid p' = e_gid p;
  sw_cwd : e_cwd p' = e_cwd p;
  sw_name : ∃ nm, basename (cstr path) nm ∧ cstr (e_name p') = take 15 nm;
  sw_loaded : loaded v' = pg;
  sw_old : space v' (e_pgdir p) = None;
  sw_rest q : q ≠ pg → q ≠ e_pgdir p → space v' q = space v q;
  sw_image : ∃ im', space v' pg = Some im' ∧
    (∀ a, 0 ≤ a < pages_of sz * PGSIZE → im_byte im' a = im_byte im a ∧ im_user im' a = im_user im a) ∧
    (∀ a, pages_of sz * PGSIZE ≤ a < (pages_of sz + 1) * PGSIZE → im_user im' a = false) ∧
    (pages_of sz + 1) * PGSIZE ≤ e_esp p' ∧ args_at im' (e_esp p') argv
}.

(** What exec finds: a process on its page table. *)
Record caller (p : eproc) v : Prop := {
  ca_loaded : loaded v = e_pgdir p;
  ca_space : is_Some (space v (e_pgdir p));
  ca_name : length (e_name p) = 16%nat
}.

Lemma exec_bad_discards pg st : is_Some (space (e_vm st) pg) → loaded (e_vm st) ≠ pg →
  wp (exec_bad (Some pg) None) st (λ r st', r = -1 ∧ e_fs st' = e_fs st ∧ e_proc st' = e_proc st ∧ discarded pg (e_vm st) (e_vm st')).
Proof.
  intros [im Hs] Hl. unfold exec_bad, onvm. wp_steps. eapply wp_mono; [by apply (freevm_ok _ pg im)|]. intros _ v' [Ho Hn]. by wp_steps.
Qed.

Lemma exec_commit_spec pg sz entry sp uid path st :
  is_Some (space (e_vm st) pg) → caller (e_proc st) (e_vm st) → e_pgdir (e_proc st) ≠ pg → terminated path →
  wp (exec_commit pg sz entry sp uid path) st (λ r st', r = 0 ∧ e_fs st' = e_fs st ∧
    (let p := e_proc st in let p' := e_proc st' in
     e_pgdir p' = pg ∧ e_sz p' = sz ∧ e_eip p' = entry ∧ e_esp p' = sp ∧ e_uid p' = (if decide (uid = -1) then e_uid p else u32 uid) ∧ e_gid p' = e_gid p ∧
     e_cwd p' = e_cwd p ∧ ∃ nm, basename (cstr path) nm ∧ cstr (e_name p') = take 15 nm) ∧
    loaded (e_vm st') = pg ∧ space (e_vm st') (e_pgdir (e_proc st)) = None ∧
    ∀ q, q ≠ e_pgdir (e_proc st) → space (e_vm st') q = space (e_vm st) q).
Proof.
  intros [im Hs] [Hl [imo Hso] Hn] Hne Ht. unfold exec_commit, onvm. wp_steps.
  destruct (last_elem_spec path Ht path [] []) as (l & El & Htl & Hb); [done|done|set_solver|by left|]. apply (wp_lookupM _ _ l); [done|]. wp_steps.
  destruct (safestrcpy_loop_spec 15 (e_name (e_proc st)) l) as (nm & En & _ & Hc & _); [lia|done|]. apply (wp_lookupM _ _ nm); [done|]. wp_steps.
  eapply wp_mono; [by apply (switchuvm_ok _ pg im)|]. intros _ v1 [Hl1 Hs1]. wp_steps.
  eapply wp_mono; [apply (freevm_ok v1 _ imo); [by rewrite Hs1|by rewrite Hl1]|]. intros _ v2 [[Ho2 Hl2] Hn2].
  destruct (decide (uid ≠ -1)) as [Hd|Hd]; wp_steps; simpl.
  - rewrite decide_False by done.
    split_and!; try done; [by exists (cstr l)|congruence|]. intros q Hq. by rewrite Ho2, Hs1.
  - rewrite decide_True by (by apply dec_stable). split_and!; try done; [by exists (cstr l)|congruence|]. intros q Hq. by rewrite Ho2, Hs1.
Qed.

(** The address space with a guard and a page for the stack on top. *)
Lemma stack_pages sz im im1 im2 : 0 ≤ sz ≤ MAXPROG → im_top im = pages_of sz * PGSIZE → grown ((pages_of sz + 2) * PGSIZE) im im1 →
  (∀ a, im_user im2 a = if decide (pages_of sz * PGSIZE ≤ a < pages_of sz * PGSIZE + PGSIZE) then false else im_user im1 a) →
  StackPage ((pages_of sz + 1) * PGSIZE) im2.
Proof.
  intros Hsz Ht [T1 U1 B1] U2. pose proof (pages_of_range sz). pose proof (pages_of_le 0 sz ltac:(lia)). change (pages_of 0) with 0 in *.
  unfold MAXPROG, KERNBASE, PGSIZE in *. split; unfold PGSIZE, KERNBASE.
  - apply Z.mod_mul. lia.
  - lia.
  - intros a Ha. rewrite U2, decide_False, U1, decide_True by lia. done.
  - intros a Ha. rewrite U2, decide_True by lia. done.
Qed.

(** How the second half of exec ends: the new page table is thrown away, or the
    process runs on it. *)
Definition finished (path : list Z) argv (pg sz entry uid : Z) im (st : est) (r : Z) (st' : est) : Prop :=
  e_fs st' = e_fs st ∧
  (r = -1 ∧ e_proc st' = e_proc st ∧ discarded pg (e_vm st) (e_vm st') ∧ (MAXPROG < sz ∨ room (e_vm st) < 4 ∨ ¬ fits argv) ∨
   r = 0 ∧ fits argv ∧ switched path argv pg sz entry uid im (e_proc st) (e_proc st') (e_vm st) (e_vm st')).

Section Finish.
Context (path : list Z) (argv : list (list Z)) (pg sz entry uid : Z) (im : image) (st : est).
Context (HC : caller (e_proc st) (e_vm st)) (Hne : e_pgdir (e_proc st) ≠ pg).
Context (Ht : terminated path) (Hargs : Forall arg_ok argv).

Lemma bad_finished st1 : e_fs st1 = e_fs st → e_proc st1 = e_proc st → only pg (e_vm st) (e_vm st1) → is_Some (space (e_vm st1) pg) →
  (MAXPROG < sz ∨ room (e_vm st) < 4 ∨ ¬ fits argv) → wp (exec_bad (Some pg) None) st1 (finished path argv pg sz entry uid im st).
Proof.
  intros E1 E2 Ho Hsp Hwhy. eapply wp_mono; [apply exec_bad_discards; [done|]|].
  - by rewrite (on_loaded _ _ _ Ho), (ca_loaded _ _ HC).
  - intros r' st' (-> & E3 & E4 & Ho' & Hnone). split; [congruence|]. left. split; [done|]. split; [congruence|]. split; [|done]. split; [by eapply only_trans|done].
Qed.

(** With the pages of the stack in place. *)
Lemma stack_finished v2 im1 im2 : let P := pages_of sz in
  0 ≤ sz ≤ MAXPROG → im_top im = P * PGSIZE → only pg (e_vm st) v2 → space v2 pg = Some im2 → grown ((P + 2) * PGSIZE) im im1 →
  (∀ a, im_user im2 a = if decide (P * PGSIZE ≤ a < P * PGSIZE + PGSIZE) then false else im_user im1 a) → (∀ a, im_byte im2 a = im_byte im1 a) →
  wp (zoom e_vm set_e_vm (exec_stack pg ((P + 2) * PGSIZE) argv)) (set_e_vm v2 st) (λ sp st2,
    wp (match sp with None => exec_bad (Some pg) None | Some sp => exec_commit pg ((P + 2) * PGSIZE) entry sp uid path end) st2
      (finished path argv pg sz entry uid im st)).
Proof.
  intros P Hsz Htop Ho2 Hs2 Hg Hu2 Hb2. assert (StackPage ((P + 1) * PGSIZE) im2) as HSP by by eapply (stack_pages sz).
  wp_steps. replace ((P + 2) * PGSIZE) with ((P + 1) * PGSIZE + PGSIZE) by lia.
  eapply wp_mono; [by apply exec_stack_spec|]. intros r v3 (Ho3 & Em3 & im3 & Hs3 & Hr). assert (only pg (e_vm st) v3) as Ho by by eapply only_trans.
  destruct r as [sp|]; [|apply bad_finished; try done; by right; right]. destruct Hr as (Hfit & HT & [Tt Tu Tb] & Hat).
  eapply wp_mono; [apply exec_commit_spec; try done|].
  { destruct HC as [C1 [imo C2] C3]. split; [simpl; by rewrite (on_loaded _ _ _ Ho)| |done]. exists imo. simpl. by rewrite (on_space _ _ _ Ho). }
  simpl. intros r st' (-> & E1 & (D1 & D2 & D3 & D4 & D5 & D6 & D7 & D8) & D9 & D10 & D11). split; [done|]. right. split; [done|]. split; [done|].
  split; try done; [rewrite D2; unfold P; lia|intros q Hq1 Hq2; by rewrite D11, (on_space _ _ _ Ho)|]. exists im3. rewrite D11 by done. split; [done|].
  fold P. destruct Hg as [G1 G2 G3]. split; [|split; [|split; [by rewrite D4|by rewrite D4]]].
  - intros b Hb. rewrite Tb, Hb2, G3, Tu, Hu2, G2 by (unfold PGSIZE in *; lia). rewrite !decide_False by (unfold PGSIZE in *; lia). done.
  - intros b Hb. rewrite Tu, Hu2, decide_True by (unfold PGSIZE in *; lia). done.
Qed.

Lemma exec_finish_spec : space (e_vm st) pg = Some im → im_top im = PGROUNDUP sz → 0 ≤ sz ≤ KERNBASE →
  wp (exec_finish pg sz entry uid path argv) st (finished path argv pg sz entry uid im st).
Proof.
  intros Hs Htop Hsz. rewrite PGROUNDUP_pages in Htop by done. pose proof (pages_of_le 0 sz ltac:(lia)) as Hp0. change (pages_of 0) with 0 in Hp0.
  unfold exec_finish, onvm. wp_steps. rewrite PGROUNDUP_pages by done. pose proof (pages_of_range sz) as Hpr.
  assert (0 ≤ pages_of sz * PGSIZE ≤ KERNBASE) as HPr by (unfold KERNBASE, PGSIZE in *; split; [lia|unfold pages_of, PGSIZE; zlia]).
  rewrite <- Z.mul_add_distr_r. assert (is_u32 ((pages_of sz + 2) * PGSIZE)) as Hu32 by (unfold is_u32, KERNBASE, PGSIZE in *; lia). rewrite u32_small by done.
  assert (pages_of (pages_of sz * PGSIZE) = pages_of sz ∧ pages_of ((pages_of sz + 2) * PGSIZE) = pages_of sz + 2) as [EP EP2] by (split; apply pages_of_mul).
  eapply wp_mono; [apply (allocuvm_ok _ pg im); [done|by rewrite PGROUNDUP_pages, EP|done|done]|]. intros r v1 [Ho1 Hr].
  destruct (decide (KERNBASE ≤ _)) as [Hbig|Hbig].
  { destruct Hr as [-> Hs1]. rewrite decide_True by done. apply bad_finished; try done. left. unfold MAXPROG, KERNBASE, PGSIZE in *. lia. }
  rewrite decide_False in Hr by (unfold PGSIZE; lia). rewrite need_pages, EP, EP2 in Hr by (unfold PGSIZE in *; lia).
  destruct Hr as [(-> & Hm & Hs1)|(-> & Hm & im1 & Hs1 & Hg)]. { rewrite decide_True by done. apply bad_finished; try done. right. left. lia. }
  rewrite decide_False by (unfold PGSIZE; lia). rewrite PGROUNDUP_pages, EP2 in Hg by (unfold PGSIZE in *; lia).
  replace ((pages_of sz + 2) * PGSIZE - 2 * PGSIZE) with (pages_of sz * PGSIZE) by lia. rewrite u32_small by (unfold is_u32; unfold KERNBASE in HPr; lia). wp_steps.
  eapply wp_mono; [apply (clearpteu_ok v1 pg im1); [done|apply Z.mod_mul; unfold PGSIZE; lia|rewrite (gr_top _ _ _ Hg); unfold PGSIZE in *; lia]|].
  intros _ v2 (Ho2 & _ & im2 & Hs2 & _ & Hu2 & Hb2). apply wp_bind. eapply (stack_finished v2 im1 im2); try done; [unfold MAXPROG, KERNBASE, PGSIZE in *; lia|by eapply only_trans].
Qed.
End Finish.

(** ** A program that can be run *)

(** The inode [i] of the file system [s], locked in a transaction, holds a
    program that [p] may execute, with the ELF header [elf]. *)
Definition stat_of (x : inode) : stat :=
  mkStat (i_type x) (i_dev x) (i_inum x) (i_nlink x) (i_size x) (i_uid x) (i_gid x) (i_mode x).
Record executable (d : Z) (s : fsst) (i : nat) (x : inode) (p : eproc) (elf : elfhdr) : Prop := {
  xf_fs : FInv d s;
  xf_file : FileOk d s x;
  xf_full : no_holes d s x;
  xf_inode : icache s !! i = Some x;
  xf_type : i_type x ≠ T_DEV;
  xf_locked : i_busy x = true;
  xf_linked : 1 ≤ i_ref x ∧ i_nlink x ≠ 0;
  xf_may : exec_check (e_uid p) (e_gid p) (stat_of x) = true;
  xf_size : sizeof_elfhdr ≤ i_size x;
  xf_elf : elf = decode_elf (file_bytes d s x 0 sizeof_elfhdr);
  xf_magic : elf_magic elf = ELF_MAGIC;
  xf_phoff : 0 ≤ elf_phoff elf ∧ elf_phoff elf + sizeof_proghdr * Z.of_nat (Z.to_nat (elf_phnum elf)) ≤ i_size x;
  xf_segs : Forall (seg_ok x) (headers d s x (Z.to_nat (elf_phnum elf)) (elf_phoff elf))
}.

(** Its segments, its size and its contents. *)
Definition segments (d : Z) (s : fsst) (x : inode) (elf : elfhdr) : list proghdr :=
  headers d s x (Z.to_nat (elf_phnum elf)) (elf_phoff elf).
Definition prog_size (phs : list proghdr) : Z := foldl seg_size 0 phs.
Definition prog_bytes (d : Z) (s : fsst) (x : inode) (phs : list proghdr) : Z → Z := foldl (seg_bytes d s x) (λ _, 0) phs.

Lemma close_file i s x : icache s !! i = Some x → i_busy x = true → 1 ≤ i_ref x → i_nlink x ≠ 0 →
  ∃ s', iunlockput i s = Ret tt s' ∧ ∃ s'', end_op s' = Ret tt s''.
Proof.
  intros Hx Hb Hr Hn. eexists. split.
  - unfold iunlockput, iunlock, geti, mbind, M_bind. unfold lookupM at 1. rewrite Hx. rewrite decide_False by (rewrite Hb; intros [?|?]; [done|lia]).
    rewrite (seti_Ret _ _ _ x) by done. unfold iput, geti, mbind, M_bind. unfold lookupM at 1. cbn [icache set_icache].
    rewrite list_lookup_insert_eq by by eapply lookup_lt_Some. rewrite decide_False by (intros (_ & _ & ?); done).
    unfold mret, M_ret. erewrite seti_Ret; [reflexivity|]. cbn [icache set_icache]. by rewrite list_lookup_insert_eq by by eapply lookup_lt_Some.
  - unfold end_op, mbind, M_bind, modify, gets, mret, M_ret. case_decide; eauto.
Qed.

(** What the process has become: the program [phs] in an address space of its own. *)
Definition runs (d : Z) (s : fsst) (x : inode) (elf : elfhdr) (path : list Z) argv (p p' : eproc) v v' : Prop :=
  let phs := segments d s x elf in ∃ pg im, space v pg = None ∧ Loaded (prog_size phs) (prog_bytes d s x phs) im ∧
  switched path argv pg (prog_size phs) (elf_entry elf) (if setuid (i_mode x) then i_uid x else -1) im p p' v v'.

(** The way from a path to a locked inode. *)
Definition opened (p : eproc) (path : list Z) (s0 s : fsst) (i : nat) : Prop :=
  ∃ s1 s2, begin_op s0 = Ret tt s1 ∧ namei (e_cwd p) path s1 = Ret (Some i) s2 ∧ ilock i s2 = Ret tt s.

Section Run.
Context (d : Z) (s : fsst) (i : nat) (x : inode) (elf : elfhdr) (path : list Z) (argv : list (list Z)) (elf0 ph0 : list Z).

Lemma exec_image_checks st Q : e_fs st = s → executable d s i x (e_proc st) elf →
  wp (exec_program ph0 i elf (if setuid (i_mode x) then i_uid x else -1) path argv) st Q → wp (exec_image elf0 ph0 i path argv) st Q.
Proof.
  intros Es [HF HFO Hh Hx Hty Hbusy Hlink Hmay Hsz Eelf Hmagic Hphoff Hsegs] HQ.
  pose proof (fo_size _ _ _ HFO) as Hfs. rewrite maxfile_bytes in Hfs. unfold exec_image, onfs, stati. wp_steps. rewrite Es.
  apply (wp_lookupM _ _ x); [done|]. wp_steps. change (mkStat _ _ _ _ _ _ _ _) with (stat_of x). rewrite Hmay. cbn [negb]. wp_steps.
  apply (wp_lookupM _ _ x); [done|]. wp_steps. eapply wp_Ret; [apply (file_read d s i x); try done; unfold sizeof_elfhdr; lia|]. simpl fst. simpl snd.
  rewrite decide_False by (unfold sizeof_elfhdr; rewrite u32_small by (unfold is_u32; lia); lia). rewrite decode_elf_read, <- Eelf, decide_False by (done || by intros []).
  match goal with |- wp _ ?st' _ => replace st' with st by (destruct st; simpl in *; by subst) end. exact HQ.
Qed.

(** What happens when there is memory for the program. *)
Definition run_result st (r : Z) (st' : est) : Prop :=
  (iunlockput i;; end_op) s = Ret tt (e_fs st') ∧
  (r = 0 ∧ fits argv ∧ runs d s x elf path argv (e_proc st) (e_proc st') (e_vm st) (e_vm st') ∨
   r = -1 ∧ ¬ fits argv ∧ e_proc st' = e_proc st ∧ loaded (e_vm st') = loaded (e_vm st) ∧ ∀ q, space (e_vm st') q = space (e_vm st) q).

(** With the program loaded. *)
Lemma finish_runs st st1 pg im s2 s3 : let phs := segments d s x elf in
  executable d s i x (e_proc st) elf → caller (e_proc st) (e_vm st) → terminated path → Forall arg_ok argv →
  space (e_vm st) pg = None → only pg (e_vm st) (e_vm st1) → e_proc st1 = e_proc st → 4 ≤ room (e_vm st1) →
  space (e_vm st1) pg = Some im → Loaded (prog_size phs) (prog_bytes d s x phs) im → 0 ≤ prog_size phs ≤ MAXPROG →
  iunlockput i s = Ret tt s2 → end_op s2 = Ret tt s3 →
  wp (exec_finish pg (prog_size phs) (elf_entry elf) (if setuid (i_mode x) then i_uid x else -1) path argv) (set_e_fs s3 st1) (run_result st).
Proof.
  intros phs Hex [C1 [imo C2] C3] Ht Hargs Hnone Ho Ep Hm Hs HL Hsz E2 E3. assert (e_pgdir (e_proc st) ≠ pg) as Hne by (intros E; congruence).
  eapply wp_mono; [apply (exec_finish_spec path argv pg _ _ _ im); simpl; rewrite ?Ep; try done|].
  - split; [by rewrite (on_loaded _ _ _ Ho)|exists imo; by rewrite (on_space _ _ _ Ho)|done].
  - rewrite (ld_top _ _ _ HL), PGROUNDUP_pages by (unfold MAXPROG, KERNBASE, PGSIZE in *; lia). done.
  - unfold MAXPROG, KERNBASE, PGSIZE in *; lia.
  - intros r st' [Ef Hr]. simpl in Ef, Hr. rewrite Ep in Hr. split; [rewrite Ef; unfold mbind, M_bind; by rewrite E2|].
    destruct Hr as [(-> & E4 & [Ho' Hn'] & Hwhy)|(-> & Hfit & Hsw)].
    + right. split; [done|]. split; [destruct Hwhy as [?|[?|?]]; [lia|lia|done]|]. split; [done|]. split; [by rewrite (on_loaded _ _ _ Ho'), (on_loaded _ _ _ Ho)|].
      intros q. destruct (decide (q = pg)) as [->|Hq]; [congruence|]. by rewrite (on_space _ _ _ Ho'), (on_space _ _ _ Ho).
    + left. split; [done|]. split; [done|]. exists pg, im. split; [done|]. split; [done|]. destruct Hsw. split; try done.
      intros q Hq1 Hq2. rewrite sw_rest0 by done. by apply (on_space _ _ _ Ho).
Qed.

Lemma exec_program_runs st : e_fs st = s → executable d s i x (e_proc st) elf → caller (e_proc st) (e_vm st) →
  terminated path → Forall arg_ok argv → kvm_pages + 2 * (pages_of (prog_size (segments d s x elf)) + 2) ≤ room (e_vm st) →
  wp (exec_program ph0 i elf (if setuid (i_mode x) then i_uid x else -1) path argv) st (run_result st).
Proof.
  intros Es Hex HC Ht Hargs Hroom. pose proof Hex as [HF HFO Hh Hx Hty Hbusy [Href Hlink] _ _ _ _ Hphoff Hsegs].
  pose proof (fo_size _ _ _ HFO) as Hfs. rewrite maxfile_bytes in Hfs. unfold exec_program, onfs, onvm. wp_steps.
  pose proof (seg_size_range x _ Hsegs 0 ltac:(unfold MAXPROG, KERNBASE, PGSIZE; lia)) as Hpsz. fold (segments d s x elf) in *. fold (prog_size (segments d s x elf)) in Hpsz.
  pose proof (pages_of_le 0 _ (proj1 Hpsz)) as Hp0. change (pages_of 0) with 0 in Hp0.
  eapply wp_mono; [apply setupkvm_ok|]. intros [pg|] v1 Hpg; [|exfalso; destruct Hpg as (_ & _ & ?); lia].
  destruct Hpg as (Hnone & Ho1 & Hm1 & im0 & Hs1 & Htop). wp_steps. rewrite i32_small by (unfold is_i32, sizeof_proghdr in *; lia).
  eapply wp_mono; [apply (exec_load_spec d s i x HF HFO Hh Hx Hty pg 4 ltac:(lia)) with (im := im0) (f := λ _, 0)|];
    try (fold (segments d s x elf); fold (prog_size (segments d s x elf))); try done; try lia.
  - split; [done|..]; change (pages_of 0) with 0; [lia|lia|done].
  - rewrite need_pages by (unfold MAXPROG, KERNBASE, PGSIZE in *; lia). change (pages_of 0) with 0. simpl. lia.
  - fold (prog_bytes d s x (segments d s x elf)). intros r st1 (-> & Es1 & Ep1 & Ho2 & Hm2 & im & Hs2 & HL). wp_steps.
    destruct (close_file i s x) as (s2 & E2 & s3 & E3); [done..|]. rewrite Es1. eapply wp_Ret; [exact E2|]. wp_steps. eapply wp_Ret; [exact E3|].
    change (set_e_fs s3 (set_e_fs s2 st1)) with (set_e_fs s3 st1). eapply finish_runs; try done. by eapply only_trans.
Qed.

(** C13: exec runs the program: if the path leads to an ELF file that the
    process may execute, with segments that lie inside of the file, start on
    page boundaries and end below the kernel, and there is memory for it, then
    exec returns 0 exactly when the arguments fit into the page of the stack.
    The process then has an address space of its own with the segments of the
    file, zeros where the file has nothing for them, a guard page, and a stack
    on which main finds argc, argv and each argument string; it starts at the
    entry point, is named by the last element of the path, has the owner's uid
    if the file is setuid, and its old address space is gone.  Otherwise
    nothing of the process has changed.  The file is closed in both cases. *)
Theorem exec_starts_program (s0 : fsst) v (p : eproc) :
  opened p path s0 s i → executable d s i x p elf → caller p v → terminated path → Forall arg_ok argv → kvm_pages + 2 * (pages_of (prog_size (segments d s x elf)) + 2) ≤ room v →
  wp (exec elf0 ph0 path argv) (mkEst s0 v p) (λ r st', (iunlockput i;; end_op) s = Ret tt (e_fs st') ∧
    (r = 0 ∧ fits argv ∧ runs d s x elf path argv p (e_proc st') v (e_vm st') ∨
     r = -1 ∧ ¬ fits argv ∧ e_proc st' = p ∧ loaded (e_vm st') = loaded v ∧ ∀ q, space (e_vm st') q = space v q)).
Proof.
  intros (s1 & s2 & E1 & E2 & E3) Hex HC Ht Hargs Hroom. unfold exec, onfs. wp_steps. eapply wp_Ret; [exact E1|]. wp_steps.
  eapply wp_Ret; [exact E2|]. cbn [set_e_fs e_fs e_vm e_proc]. wp_steps. eapply wp_Ret; [exact E3|].
  apply exec_image_checks; [done|done|]. by apply exec_program_runs.
Qed.
End Run.

(** ** Every run of exec *)

(** The address spaces and the page table in use are as before. *)
Definition same_spaces v v' : Prop := loaded v' = loaded v ∧ ∀ q, space v' q = space v q.
(** A new page table besides those of [v0]. *)
Definition extra (pg : Z) v0 v : Prop := space v0 pg = None ∧ only pg v0 v ∧ is_Some (space v pg).

Lemma extra_only pg v0 v v' : extra pg v0 v → only pg v v' → is_Some (space v' pg) → extra pg v0 v'.
Proof. intros (H0 & Ho & _) Ho' Hs. split; [done|]. split; [by eapply only_trans|done]. Qed.
Lemma extra_discarded pg v0 v v' : extra pg v0 v → discarded pg v v' → same_spaces v0 v'.
Proof.
  intros (H0 & Ho & _) [Ho' Hn]. split; [by rewrite (on_loaded _ _ _ Ho'), (on_loaded _ _ _ Ho)|].
  intros q. destruct (decide (q = pg)) as [->|Hq]; [congruence|]. by rewrite (on_space _ _ _ Ho'), (on_space _ _ _ Ho).
Qed.

Lemma wlp_eq {S A} (m : M S A) s (Q : A → S → Prop) : wlp m s Q → wlp m s (λ a s', m s = Ret a s' ∧ Q a s').
Proof. unfold wlp. by destruct (m s). Qed.

(** [bad:] with the file open gives everything back. *)
Lemma exec_bad_acc (pgo : option Z) i G k v0 p st :
  Acc (e_fs st) (i :: G) [i] (k + 1) → e_proc st = p → caller p v0 →
  match pgo with None => same_spaces v0 (e_vm st) | Some pg => extra pg v0 (e_vm st) end →
  wlp (exec_bad pgo (Some i)) st (λ r st', r = -1 ∧ Acc (e_fs st') G [] k ∧ e_proc st' = p ∧ same_spaces v0 (e_vm st')).
Proof.
  intros HA Ep HC Hv. unfold exec_bad, onvm, onfs. wlp_steps.
  eapply (wlp_mono _ _ (λ _ st', e_fs st' = e_fs st ∧ e_proc st' = p ∧ same_spaces v0 (e_vm st'))).
  - destruct pgo as [pg|]; wlp_steps; [|done]. destruct Hv as (H0 & Ho & [im Hs]).
    eapply wlp_mono; [apply wp_wlp, (freevm_ok _ pg im); [done|]|].
    + rewrite (on_loaded _ _ _ Ho), (ca_loaded _ _ HC). intros E. destruct HC as [_ [? ?] _]. congruence.
    + intros ? v' Hd. split; [done|]. split; [done|]. apply (extra_discarded pg v0 (e_vm st)); [|done]. split; [done|]. split; [done|]. by exists im.
  - intros _ st1 (E1 & E2 & E3). wlp_steps. rewrite E1. wlp_call iunlockput_acc; [done|]. intros _ s2 HA2. wlp_steps. simpl.
    wlp_call end_op_acc; [done|]. intros _ s3 HA3. wlp_steps. simpl. split; [done|]. split; [|done]. by replace (k + 1 - 1) with k in HA3 by lia.
Qed.

Lemma exec_load_acc i pg G L k : i ∈ L → ∀ n off st sz im ph0,
  Acc (e_fs st) G L k → space (e_vm st) pg = Some im → im_top im = PGROUNDUP sz → 0 ≤ sz ≤ KERNBASE →
  wlp (exec_load n i pg off sz ph0) st (λ r st', Acc (e_fs st') G L k ∧ e_proc st' = e_proc st ∧ only pg (e_vm st) (e_vm st') ∧
    ∃ im', space (e_vm st') pg = Some im' ∧ ∀ sz', r = Some sz' → im_top im' = PGROUNDUP sz' ∧ 0 ≤ sz' ≤ KERNBASE).
Proof.
  intros Hi. induction n as [|n IH]; intros off st sz im ph0 HA Hs Ht Hsz; cbn [exec_load]; wlp_steps.
  { split_and!; try done. exists im. split; [done|]. by intros sz' [= <-]. }
  unfold onfs at 1. wlp_steps. wlp_call readi_acc; [done|done|]. intros r s1 HA1.
  destruct (decide _); wlp_steps. { split_and!; try done. by exists im. }
  destruct (decide _); [by eapply (IH _ (set_e_fs s1 st))|]. destruct (decide _); wlp_steps. { split_and!; try done. by exists im. }
  unfold onvm. wlp_steps. set (new := u32 _). assert (is_u32 new) as Hnew by apply u32_range. eapply wlp_mono; [by apply wp_wlp, (allocuvm_ok _ pg im)|]. intros sz1 v1 [Ho Hr]. simpl in Ho.
  assert (∃ im1, space v1 pg = Some im1 ∧ (sz1 ≠ 0 → im_top im1 = PGROUNDUP sz1 ∧ 0 ≤ sz1 ≤ KERNBASE)) as (im1 & Hs1 & H1).
  { destruct (decide (KERNBASE ≤ new)); [destruct Hr as [-> Hr]; by exists im|]. destruct (decide (new < sz)); [destruct Hr as (-> & Hr & _); by exists im|].
    destruct Hr as [(-> & _ & [im1 Hr])|(-> & _ & im1 & Hr & Hg)]; exists im1; [done|]. split; [done|]. intros _. split; [apply (gr_top _ _ _ Hg)|unfold is_u32 in Hnew; lia]. }
  destruct (decide (sz1 = 0)) as [Hz|Hz]; wlp_steps. { split_and!; try done. exists im1. done. }
  destruct (H1 Hz) as [Ht1 Hsz1]. unfold onboth. wlp_steps. simpl. eapply wlp_mono; [by apply (loaduvm_acc v1 pg im1 s1 G L k)|].
  intros r2 sv (HA2 & Ho2 & im2 & f2 & Hs2 & [Ht2 _ _]). assert (only pg (e_vm st) sv.2) as Ho' by by eapply only_trans.
  destruct (decide (r2 < 0)); wlp_steps. { split_and!; try done. by exists im2. }
  eapply wlp_mono; [eapply (IH _ (set_e_both sv _) sz1 im2); [done|done|congruence|done]|]. simpl. intros r3 st3 (HA3 & E3 & Ho3 & Him). split_and!; try done. by eapply only_trans.
Qed.

(** The process runs a program in a new address space; [uid] is -1 or the user
    it runs as. *)
Definition became (path : list Z) argv (uid : Z) (p p' : eproc) v v' : Prop :=
  ∃ pg sz entry im, space v pg = None ∧ fits argv ∧ switched path argv pg sz entry uid im p p' v v'.

Section Every.
Context (path : list Z) (argv : list (list Z)) (Ht : terminated path) (Hargs : Forall arg_ok argv).

Lemma exec_program_acc ph0 i elf uid G k st : Acc (e_fs st) (i :: G) [i] (k + 1) → caller (e_proc st) (e_vm st) →
  wlp (exec_program ph0 i elf uid path argv) st (λ r st', Acc (e_fs st') G [] k ∧
    (r = -1 ∧ e_proc st' = e_proc st ∧ same_spaces (e_vm st) (e_vm st') ∨
     r = 0 ∧ became path argv uid (e_proc st) (e_proc st') (e_vm st) (e_vm st'))).
Proof.
  intros HA HC. unfold exec_program, onvm. wlp_steps. eapply wlp_mono; [apply wp_wlp, setupkvm_ok|]. intros [pg|] v1 Hpg.
  2: { destruct Hpg as (Hs & Hl & _). eapply wlp_mono; [by eapply (exec_bad_acc None i G k (e_vm st))|]. naive_solver. }
  destruct Hpg as (Hnone & Ho1 & _ & im0 & Hs1 & Htop). wlp_steps.
  assert (e_pgdir (e_proc st) ≠ pg) as Hne by (intros E; destruct HC as [_ [? ?] _]; congruence).
  eapply wlp_mono; [eapply (exec_load_acc i pg (i :: G) [i] (k + 1)); [by constructor|done|exact Hs1|by rewrite Htop|unfold KERNBASE; lia]|].
  simpl. intros sz st1 (HA1 & Ep1 & Ho2 & im & Hs2 & Hsz). assert (extra pg (e_vm st) (e_vm st1)) as Hx by (split; [done|]; split; [by eapply only_trans|by exists im]).
  destruct sz as [sz|].
  2: { eapply wlp_mono; [by eapply (exec_bad_acc (Some pg) i G k (e_vm st))|]. naive_solver. }
  destruct (Hsz sz eq_refl) as [Ht2 Hsz2]. unfold onfs. wlp_steps. wlp_call iunlockput_acc; [done|]. intros _ s2 HA2. wlp_steps. simpl.
  wlp_call end_op_acc; [done|]. intros _ s3 HA3. replace (k + 1 - 1) with k in HA3 by lia.
  destruct Hx as (_ & Ho & Hsome). eapply wlp_mono; [apply wp_wlp, (exec_finish_spec path argv pg sz _ uid im); try done; simpl; rewrite ?Ep1; try done|].
  { destruct HC as [C1 [imo C2] C3]. split; [by rewrite (on_loaded _ _ _ Ho)|exists imo; by rewrite (on_space _ _ _ Ho)|done]. }
  intros r st' [Ef Hr]. simpl in Ef, Hr. rewrite Ep1 in Hr. split; [by rewrite Ef|]. destruct Hr as [(-> & E4 & Hd & _)|(-> & Hfit & Hsw)]; [left|right].
  - split_and!; try done; by eapply (extra_discarded pg).
  - split; [done|]. exists pg, sz, (elf_entry elf), im. split; [done|]. split; [done|]. destruct Hsw. split; try done. intros q Hq1 Hq2. rewrite sw_rest0 by done. by apply (on_space _ _ _ Ho).
Qed.

(** What a call of exec on the open file [i] comes to. *)
Definition exec_result i G k st (r : Z) (st' : est) : Prop :=
  Acc (e_fs st') G [] k ∧
  (r = -1 ∧ e_proc st' = e_proc st ∧ same_spaces (e_vm st) (e_vm st') ∨
   r = 0 ∧ ∃ x, icache (e_fs st) !! i = Some x ∧ exec_check (e_uid (e_proc st)) (e_gid (e_proc st)) (stat_of x) = true ∧
     became path argv (if setuid (i_mode x) then i_uid x else -1) (e_proc st) (e_proc st') (e_vm st) (e_vm st')).

Lemma exec_image_acc elf0 ph0 i G k st : Acc (e_fs st) (i :: G) [i] (k + 1) → caller (e_proc st) (e_vm st) →
  wlp (exec_image elf0 ph0 i path argv) st (exec_result i G k st).
Proof.
  intros HA HC. assert (∀ st1, Acc (e_fs st1) (i :: G) [i] (k + 1) → e_proc st1 = e_proc st → e_vm st1 = e_vm st →
    wlp (exec_bad None (Some i)) st1 (exec_result i G k st)) as Hbad.
  { intros st1 HA1 Ep Ev. eapply wlp_mono; [by eapply (exec_bad_acc None i G k (e_vm st)); [| | |rewrite Ev]|].
    intros r st' (-> & HA' & E & Hs). split; [done|]. by left. }
  unfold exec_image, onfs, stati, geti. wlp_steps. match goal with E : icache _ !! i = Some ?y |- _ => rename y into x; rename E into Hx end.
  wlp_steps. change (mkStat _ _ _ _ _ _ _ _) with (stat_of x). destruct (exec_check _ _ _) eqn:Hck; cbn [negb]; [|by apply Hbad].
  wlp_steps. match goal with E : icache (e_fs (set_e_fs _ _)) !! i = Some ?y |- _ => simpl in E; rewrite Hx in E; injection E as <- end. wlp_steps. simpl.
  wlp_call readi_acc; [by constructor|done|]. intros r s1 HA1. simpl in HA1.
  destruct (decide (u32 _ < _)); [by apply Hbad|]. destruct (decide _); [by apply Hbad|].
  eapply wlp_mono; [by apply (exec_program_acc _ _ _ _ G k)|]. simpl. intros r2 st2 (HA2 & [?|(-> & Hb)]); (split; [done|]); [by left|]. right. split; [done|]. by exists x.
Qed.

Lemma exec_acc elf0 ph0 G k st : Acc (e_fs st) G [] k → e_cwd (e_proc st) ∈ G → caller (e_proc st) (e_vm st) →
  wlp (exec elf0 ph0 path argv) st (λ r st', Acc (e_fs st') G [] k ∧
    (r = -1 ∧ e_proc st' = e_proc st ∧ same_spaces (e_vm st) (e_vm st') ∨
     r = 0 ∧ ∃ s i x, opened (e_proc st) path (e_fs st) s i ∧ icache s !! i = Some x ∧
       exec_check (e_uid (e_proc st)) (e_gid (e_proc st)) (stat_of x) = true ∧
       became path argv (if setuid (i_mode x) then i_uid x else -1) (e_proc st) (e_proc st') (e_vm st) (e_vm st'))).
Proof.
  intros HA Hc HC. unfold exec, onfs. wlp_steps. eapply wlp_mono; [apply wlp_eq; by eapply begin_op_acc|]. intros [] s1 [E1 HA1]. wlp_steps. simpl.
  eapply wlp_mono; [apply wlp_eq; by eapply namei_acc|]. intros [i|] s2 [E2 HA2]; wlp_steps; simpl.
  - eapply wlp_mono; [apply wlp_eq; eapply ilock_acc; [|done]; by constructor|]. intros [] s3 [E3 [_ HA3]].
    eapply wlp_mono; [by apply (exec_image_acc _ _ i G k)|]. simpl. intros r st' (HA' & [?|(-> & x & Hx & Hck & Hb)]); (split; [done|]); [by left|].
    right. split; [done|]. exists s3, i, x. split; [by exists s1, s2|done].
  - wlp_call end_op_acc; [done|]. intros _ s3 HA3. wlp_steps. simpl. split; [by replace (k + 1 - 1) with k in HA3 by lia|]. by left.
Qed.
End Every.

(** ** The system call *)

Section Call.
Context (u : uspace) (HU : UOk u).

Lemma user_str_ok (a : Z * Z) : str_at u a.1 a.2 → terminated (user_str u a) ∧ arg_ok (user_str u a).
Proof.
  destruct a as [p n]. cbn [fst snd]. intros (Hn & Hp & Hlt & H0 & _). destruct HU as [Hsz Hm]. unfold KERNBASE in *.
  assert (terminated (user_str u (p, n))) as Hterm.
  { unfold terminated, user_str, slice. apply list_elem_of_lookup. exists (Z.to_nat n). cbn [fst snd].
    rewrite lookup_take_lt, lookup_drop by lia. rewrite <- H0. f_equal. lia. }
  split; [done|]. split; [done|]. assert (∀ l : list Z, length (cstr l) ≤ length l)%nat as Hc.
  { induction l as [|c l IH]; simpl; [done|]. destruct (decide _); simpl; lia. }
  pose proof (Hc (user_str u (p, n))) as Hl. unfold user_str, slice in Hl. rewrite length_take in Hl. cbn [fst snd] in Hl. unfold user_str, slice. cbn [fst snd]. lia.
Qed.

Lemma exec_args_strings {S} uargv fuel : ∀ i (s : S),
  wp (exec_args u fuel uargv i) s (λ r s', s' = s ∧ ∀ l, r = Some l → Forall (λ a, str_at u a.1 a.2) l).
Proof.
  induction fuel as [|f IH]; intros i s; cbn [exec_args]; wp_steps; [done|].
  eapply wp_mono; [apply fetchint_spec; [done|apply u32_range]|]. intros r s1 [-> _]. destruct r as [uarg|]; wp_steps; [|done].
  destruct (decide (uarg = 0)); wp_steps. { split; [done|]. by intros l [= <-]. }
  eapply wp_mono; [apply fetchstr_spec; [done|apply u32_range]|]. intros [a|] s1 [-> Ha]; wp_steps; [|done]. destruct Ha as [<- Ha].
  eapply wp_mono; [apply IH|]. intros [l|] s1 [-> Hl]; wp_steps; (split; [done|]); [|done]. intros l' [= <-]. constructor; [done|by apply Hl].
Qed.

End Call.
End Props.

(** ** Instances *)

(** A memory in which page tables are numbered, and a page table is the address
    space itself. *)
Record tvm := mkTvm { t_tables : list (option image); t_cr3 : Z; t_room : Z }.
Definition t_space (v : tvm) (q : Z) : option image := if decide (0 ≤ q) then mjoin (t_tables v !! Z.to_nat q) else None.
Definition t_set (pg : Z) (o : option image) (v : tvm) : tvm := mkTvm (<[Z.to_nat pg := o]> (t_tables v)) (t_cr3 v) (t_room v).
Definition t_take (n : Z) (v : tvm) : tvm := mkTvm (t_tables v) (t_cr3 v) (t_room v - n).

Lemma t_space_lookup v pg im : t_space v pg = Some im → 0 ≤ pg ∧ (Z.to_nat pg < length (t_tables v))%nat.
Proof.
  unfold t_space. case_decide; [|done]. destruct (t_tables v !! Z.to_nat pg) eqn:E; [|done]. intros _. split; [done|]. by eapply lookup_lt_Some.
Qed.
Lemma t_space_set v pg im o q : t_space v pg = Some im → t_space (t_set pg o v) q = if decide (q = pg) then o else t_space v q.
Proof.
  intros [H0 Hl]%t_space_lookup. unfold t_space, t_set. simpl. destruct (decide (q = pg)) as [->|Hne].
  - rewrite decide_True by done. by rewrite list_lookup_insert_eq.
  - destruct (decide (0 ≤ q)); [|done]. rewrite list_lookup_insert_ne by lia. done.
Qed.

Definition t_setupkvm : M tvm (option Z) :=
  v ← gets id;
  if decide (t_room v < 1) then mret None else
  modify (λ v, mkTvm (t_tables v ++ [Some (mkImage 0 (λ _, false) (λ _, 0))]) (t_cr3 v) (t_room v - 1));;
  mret (Some (Z.of_nat (length (t_tables v)))).
Definition t_grow (top : Z) (im : image) : image :=
  mkImage top (λ a, if decide (im_top im ≤ a < top) then true else im_user im a) (λ a, if decide (im_top im ≤ a) then 0 else im_byte im a).
Definition t_allocuvm (pg old new : Z) : M tvm Z :=
  im ← lookupM (λ v, t_space v pg);
  if decide (KERNBASE ≤ new) then mret 0 else
  if decide (new < old) then mret old else
  r ← gets t_room;
  if decide (r < need old new) then mret 0 else
  modify (t_take (need old new));;
  modify (t_set pg (Some (t_grow (PGROUNDUP new) im)));;
  mret new.
Definition t_fill (f : Z → Z) (im : image) : image := mkImage (im_top im) (im_user im) f.
Definition t_loaduvm `{Devices} (pg va : Z) (i : nat) (off n : Z) : M (fsst * tvm) Z :=
  im ← lookupM (λ sv, t_space sv.2 pg);
  if decide (va `mod` PGSIZE ≠ 0) then panic "loaduvm: addr must be page aligned" else
  if decide (im_top im < va + n) then panic "loaduvm: address should exist" else
  r ← zoom fst (λ s sv, (s, sv.2)) (readi i off n);
  if decide (r.1 ≠ n) then mret (-1) else
  modify (λ sv, (sv.1, t_set pg (Some (t_fill (poke va r.2 (im_byte im)) im)) sv.2));;
  mret 0.
Definition t_clearpteu (pg a : Z) : M tvm unit :=
  im ← lookupM (λ v, t_space v pg);
  modify (t_set pg (Some (mkImage (im_top im) (λ b, if decide (a ≤ b < a + PGSIZE) then false else im_user im b) (im_byte im)))).
Definition t_copyout (pg va : Z) (d : list Z) : M tvm Z :=
  im ← lookupM (λ v, t_space v pg);
  if forallb (λ k, im_user im (u32 (va + Z.of_nat k))) (seq 0 (length d))
  then modify (t_set pg (Some (t_fill (poke va d (im_byte im)) im)));; mret 0
  else mret (-1).
Definition t_switchuvm (pg : Z) : M tvm unit := modify (λ v, mkTvm (t_tables v) pg (t_room v)).
Definition t_freevm (pg : Z) : M tvm unit := modify (t_set pg None).

#[local] Instance toy_vm `{Devices} : Vm := {|
  vm := tvm; setupkvm := t_setupkvm; allocuvm := t_allocuvm; loaduvm := t_loaduvm; clearpteu := t_clearpteu;
  copyout := t_copyout; switchuvm := t_switchuvm; freevm := t_freevm
|}.
#[local] Instance toy_view `{Devices} : VmView := {| space := t_space; loaded := t_cr3; room := t_room; kvm_pages := 1 |}.

Lemma t_only `{Devices} v pg im o : t_space v pg = Some im → only (H := toy_vm) (H0 := toy_view) pg v (t_set pg o v).
Proof. intros Hs. split; [|done]. intros q Hq. simpl. by rewrite (t_space_set _ _ im), decide_False. Qed.
Lemma t_space_eq v pg im o : t_space v pg = Some im → t_space (t_set pg o v) pg = o.
Proof. intros Hs. by rewrite (t_space_set _ _ im), decide_True. Qed.

Lemma toy_setupkvm `{Devices} v : wp setupkvm v (λ r v',
  match r with
  | None => (∀ q, space v' q = space v q) ∧ loaded v' = loaded v ∧ room v < kvm_pages
  | Some pg => space v pg = None ∧ only pg v v' ∧ room v - kvm_pages ≤ room v' ∧ ∃ im, space v' pg = Some im ∧ im_top im = 0
  end).
Proof.
  simpl. unfold t_setupkvm. wp_steps. unfold id. destruct (decide _); wp_steps; [done|]. simpl. split; [|split; [split; [|done]|split; [lia|]]].
  - unfold t_space. rewrite decide_True, Nat2Z.id by lia. by rewrite lookup_ge_None_2.
  - intros q Hq. cbn [space toy_view]. unfold t_space. cbn [t_tables]. case_decide; [|done]. destruct (decide (Z.to_nat q < length (t_tables v))%nat); [by rewrite lookup_app_l|].
    rewrite !lookup_ge_None_2; [done|lia|rewrite length_app; simpl; lia].
  - eexists. unfold t_space. cbn [t_tables]. rewrite decide_True, Nat2Z.id by lia. rewrite lookup_app_r, Nat.sub_diag by lia. done.
Qed.

Lemma toy_allocuvm `{Devices} v pg im old new : space v pg = Some im → im_top im = PGROUNDUP old → 0 ≤ old ≤ KERNBASE → is_u32 new →
  wp (allocuvm pg old new) v (λ r v', only pg v v' ∧
    if decide (KERNBASE ≤ new) then r = 0 ∧ space v' pg = Some im
    else if decide (new < old) then r = old ∧ space v' pg = Some im ∧ room v' = room v
    else r = 0 ∧ room v < need old new ∧ (∃ im', space v' pg = Some im') ∨
         r = new ∧ room v - need old new ≤ room v' ∧ ∃ im', space v' pg = Some im' ∧ grown (PGROUNDUP new) im im').
Proof.
  simpl. intros Hs Ht Ho Hn. unfold t_allocuvm. wp_steps. apply (wp_lookupM _ _ im); [done|].
  destruct (decide (KERNBASE ≤ new)); wp_steps; [done|]. destruct (decide (new < old)); wp_steps; [done|].
  destruct (decide _); wp_steps. { split; [done|]. left. eauto. }
  pose proof (t_only (t_take (need old new) v) pg im (Some (t_grow (PGROUNDUP new) im)) Hs) as [Ho1 Ho2].
  split; [by split|]. right. split; [done|]. split; [simpl; lia|]. eexists. split; [by apply (t_space_eq (t_take (need old new) v) _ im)|]. done.
Qed.

Lemma forallb_seq (f : nat → bool) n : forallb f (seq 0 n) = true ↔ ∀ k, (k < n)%nat → f k = true.
Proof. rewrite forallb_forall. split; intros Hf k Hk; apply Hf; [apply in_seq; lia|apply in_seq in Hk; lia]. Qed.

#[local] Instance no_devices : Devices := {| dev_read := λ _, None; dev_write := λ _, None |}.
#[local] Instance no_devices_ok : DevicesOk.
Proof. by split. Qed.

Lemma toy_load v pg im d s x va i off n : space v pg = Some im → FInv d s → FileOk d s x → no_holes d s x → icache s !! i = Some x → i_type x ≠ T_DEV →
  va `mod` PGSIZE = 0 → 0 ≤ va → va + n ≤ im_top im → 0 ≤ off → 0 ≤ n → off + n ≤ i_size x →
  wp (loaduvm pg va i off n) (s, v) (λ r sv, r = 0 ∧ sv.1 = s ∧ only pg v sv.2 ∧ room sv.2 = room v ∧
    ∃ im', space sv.2 pg = Some im' ∧ refilled im im' (poke va (byte d s x <$> seq (Z.to_nat off) (Z.to_nat n)) (im_byte im))).
Proof.
  simpl. intros Hs HF HO Hh Hx Ht Ha H0 H1 H2 H3 H4. unfold t_loaduvm. wp_steps. apply (wp_lookupM _ _ im); [done|]. rewrite decide_False by (intros []; done). rewrite decide_False by lia.
  wp_steps. eapply wp_Ret; [by apply (file_read d s i x)|]. simpl. rewrite decide_False by (intros []; done). wp_steps. simpl.
  split_and!; try done; [by eapply t_only|]. eexists. split; [by apply (t_space_eq _ _ im)|]. done.
Qed.

#[local] Instance toy_vm_ok : VmOk.
Proof.
  split; [exact toy_setupkvm|exact toy_allocuvm|..|exact toy_load]; simpl.
  - intros v pg im a Hs _ _. unfold t_clearpteu. wp_steps. apply (wp_lookupM _ _ im); [done|]. wp_steps. split; [by eapply t_only|]. split; [done|].
    eexists. split; [by apply (t_space_eq _ _ im)|]. done.
  - intros v pg im va d Hs H0 H1 Hu. unfold t_copyout. wp_steps. apply (wp_lookupM _ _ im); [done|]. rewrite (proj2 (forallb_seq _ _)).
    + wp_steps. split_and!; try done; [by eapply t_only|]. eexists. split; [by apply (t_space_eq _ _ im)|]. done.
    + intros k Hk. unfold KERNBASE in *. rewrite u32_small by (unfold is_u32; lia). apply Hu. lia.
  - intros v pg im va d k Hs _ _ Hk Hu. unfold t_copyout. wp_steps. apply (wp_lookupM _ _ im); [done|]. destruct (forallb _ _) eqn:E.
    + exfalso. rewrite forallb_seq in E. specialize (E (Z.to_nat k) ltac:(lia)). rewrite Z2Nat.id in E by lia. congruence.
    + wp_steps. split_and!; try done. by exists im, (im_byte im).
  - intros v pg im Hs. done.
  - intros v pg im Hs _. unfold t_freevm. wp_steps. split; [by eapply t_only|]. by apply (t_space_eq _ _ im).
  - intros v pg im s G L k va i off n Hs Hi HA. unfold t_loaduvm. wlp_steps. match goal with E : _ = Some ?y |- _ => simpl in E; rewrite Hs in E; injection E as <- end.
    destruct (decide _); wlp_steps. destruct (decide _); wlp_steps. wlp_call readi_acc; [done|done|]. simpl. intros r s1 HA1. destruct (decide _); wlp_steps; simpl.
    + split_and!; try done. by exists im, (im_byte im).
    + split_and!; try done; [by eapply t_only|]. eexists _, _. split; [by apply (t_space_eq _ _ im)|]. done.
Qed.

(** The file /a: an ELF header, one program header and four bytes of code.  It
    belongs to user 5 and is setuid; another process has it open. *)
Definition prog_file : list Z :=
  le_enc 4 ELF_MAGIC ++ replicate 20 0 ++ le_enc 4 0 ++ le_enc 4 52 ++ replicate 12 0 ++ le_enc 2 1 ++ replicate 6 0 ++
  ([1; 84; 0; 0; 4; 8; 5; 4096] ≫= le_enc 4) ++ [144; 144; 235; 254].
Definition prog_dir : list Z := [2; 0; 97] ++ replicate 13 0.
Definition prog_inode (ref : Z) (busy : bool) : inode := mkInode 1 2 ref busy true T_FILE 0 0 1 5 0 1005 88 (5 :: replicate NDIRECT 0).
Definition prog_root : inode := mkInode 1 1 1 false true T_DIR 0 0 1 0 0 493 16 (6 :: replicate NDIRECT 0).
Definition prog_fs (ref : Z) (busy : bool) (out : Z) : fsst :=
  let s := fs_of (prog_inode ref busy :: prog_root :: replicate (NINODE - 2) inode0)
    (λ n, if decide (n = 5) then prog_file ++ replicate (BSIZE - 88) 0 else if decide (n = 6) then prog_dir ++ replicate (BSIZE - 16) 0 else replicate BSIZE 0) [127; 0] in
  mkFs (blk s) (icache s) (sb s) (logged s) out.

Definition prog_elf : elfhdr := mkElf ELF_MAGIC 0 52 1.
Definition prog_path : list Z := [47; 97; 0].
Definition prog_args : list (list Z) := [[97; 0]; [104; 105; 0]].
Definition prog_proc : eproc := mkEproc (replicate 16 0) 0 4096 0 0 7 0 1.
Definition prog_vm : vm := mkTvm [Some (mkImage 4096 (λ a, bool_decide (0 ≤ a < 4096)) (λ _, 0))] 0 100.

Lemma prog_namei : namei 1 prog_path (prog_fs 1 false 1) = Ret (Some 0%nat) (prog_fs 2 false 1).
Proof. vm_cast_no_check (eq_refl (Ret (Some 0%nat) (prog_fs 2 false 1))). Qed.
Lemma prog_opened : opened prog_proc prog_path (prog_fs 1 false 0) (prog_fs 2 true 1) 0.
Proof. exists (prog_fs 1 false 1), (prog_fs 2 false 1). split; [reflexivity|]. split; [exact prog_namei|reflexivity]. Qed.

Lemma prog_slot k : slot 1 (prog_fs 2 true 1) (prog_inode 2 true) k = if decide (k = 0)%nat then 5 else 0.
Proof.
  unfold slot. destruct k as [|k]; [reflexivity|]. rewrite (decide_False (P := S k = 0%nat)) by lia.
  change (i_addrs (prog_inode 2 true) !!! NDIRECT) with 0. rewrite (decide_True (P := 0 = 0)) by reflexivity. cbn [i_addrs prog_inode].
  destruct (decide (S k < NDIRECT)%nat); [|by destruct (decide (S k = MAXFILE))].
  change ((5 :: replicate NDIRECT 0) !!! S k) with (replicate NDIRECT 0 !!! k). apply lookup_total_replicate_2. lia.
Qed.
Lemma prog_FileOk : FileOk 1 (prog_fs 2 true 1) (prog_inode 2 true).
Proof.
  split; [reflexivity|reflexivity|rewrite maxfile_bytes; cbn; lia| |].
  - intros k _. rewrite prog_slot. destruct (decide (k = 0)%nat); [|congruence]. intros _. split; [unfold dstart; cbn; lia|by vm_compute].
  - intros k k' _ _. rewrite !prog_slot. destruct (decide (k = 0)%nat), (decide (k' = 0)%nat); congruence.
Qed.

Lemma prog_executable : executable 1 (prog_fs 2 true 1) 0 (prog_inode 2 true) prog_proc prog_elf.
Proof.
  assert (headers 1 (prog_fs 2 true 1) (prog_inode 2 true) 1 52 = [mkPh 1 84 0 4 8]) as Eh by (vm_compute; reflexivity).
  split.
  - apply (fs_of_FInv _ _ 127 0); [reflexivity| |reflexivity]. intros n. case_decide; [reflexivity|]. case_decide; [reflexivity|apply length_replicate].
  - exact prog_FileOk.
  - intros p Hp. change (Z.to_nat (i_size (prog_inode 2 true))) with 88%nat in Hp. rewrite prog_slot, Nat.div_small by (unfold BSIZE; lia). by rewrite decide_True.
  - reflexivity.
  - discriminate.
  - reflexivity.
  - split; [cbn; lia|discriminate].
  - reflexivity.
  - cbn. unfold sizeof_elfhdr. lia.
  - vm_compute. reflexivity.
  - reflexivity.
  - vm_compute. split; discriminate.
  - change (Z.to_nat (elf_phnum prog_elf)) with 1%nat. change (elf_phoff prog_elf) with 52. rewrite Eh. constructor; [|done].
    intros _. unfold MAXPROG, KERNBASE, PGSIZE. cbn [ph_filesz ph_memsz ph_vaddr ph_off i_size prog_inode]. repeat split; lia.
Qed.

Lemma prog_caller : caller prog_proc prog_vm.
Proof. split; [reflexivity|by eexists|reflexivity]. Qed.

Lemma exec_starts_program_witness :
  wp (exec [] [] prog_path prog_args) (mkEst (prog_fs 1 false 0) prog_vm prog_proc) (λ r st',
    (iunlockput 0;; end_op) (prog_fs 2 true 1) = Ret tt (e_fs st') ∧
    (r = 0 ∧ fits prog_args ∧ runs 1 (prog_fs 2 true 1) (prog_inode 2 true) prog_elf prog_path prog_args prog_proc (e_proc st') prog_vm (e_vm st') ∨
     r = -1 ∧ ¬ fits prog_args ∧ e_proc st' = prog_proc ∧ loaded (e_vm st') = loaded prog_vm ∧ ∀ q, space (e_vm st') q = space prog_vm q)).
Proof.
  apply (exec_starts_program 1 (prog_fs 2 true 1) 0 (prog_inode 2 true) prog_elf prog_path prog_args [] [] (prog_fs 1 false 0) prog_vm prog_proc prog_opened prog_executable prog_caller).
  - unfold terminated, prog_path. set_solver.
  - repeat constructor; unfold terminated; first [set_solver | (simpl; lia)].
  - vm_compute. discriminate.
Defined.

(** The same call as a process makes it: its memory holds the strings /a and
    hi, the vector of their addresses, and the two arguments. *)
Definition prog_mem : uspace :=
  mkU 64 0 (([0; 40; 16; 0; 40; 44; 0; 0; 0; 0] ≫= le_enc 4) ++ [47; 97; 0; 0; 104; 105; 0; 0] ++ replicate 16 0).
Definition prog_start : est := mkEst (prog_fs 1 false 0) prog_vm prog_proc.

Lemma prog_entry k (x : inode) : icache (prog_fs 1 false 0) !! k = Some x →
  k = 0%nat ∧ x = prog_inode 1 false ∨ k = 1%nat ∧ x = prog_root ∨ (2 ≤ k)%nat ∧ x = inode0.
Proof.
  unfold prog_fs, fs_of. cbn [icache]. destruct k as [|[|k]]; cbn [lookup list_lookup]; [by intros [= <-]; left|by intros [= <-]; right; left|].
  intros E. right. right. split; [lia|]. by apply lookup_replicate in E as [-> _].
Qed.
Lemma prog_Acc : Acc (prog_fs 1 false 0) [0; 1]%nat [] 0.
Proof.
  assert (∀ i q r, holding (prog_fs 1 false 0) !! i = Some (q, r) →
    i = 0%nat ∧ q = (1, 2) ∧ r = 1 ∨ i = 1%nat ∧ q = (1, 1) ∧ r = 1 ∨ (2 ≤ i)%nat ∧ r = 0) as Hh.
  { intros i q r. unfold holding. rewrite list_lookup_fmap. destruct (icache _ !! i) as [y|] eqn:E; [|done].
    apply prog_entry in E as [[-> ->]|[[-> ->]|[? ->]]]; intros [= <- <-]; auto. }
  split; [split| |constructor|set_solver|reflexivity].
  - reflexivity.
  - repeat constructor; unfold NINODE; lia.
  - intros i q r [(-> & _ & ->)|[(-> & _ & ->)|[? ->]]]%Hh; [reflexivity|reflexivity|]. rewrite !count_cons, !decide_False by lia. reflexivity.
  - intros i j q r r' Hi Hj. apply Hh in Hi as [(-> & -> & ->)|[(-> & -> & ->)|[? ->]]]; apply Hh in Hj as [(-> & ? & ->)|[(-> & ? & ->)|[? ->]]]; done || lia.
  - intros i y [[_ ->]|[[_ ->]|[_ ->]]]%prog_entry; simpl; set_solver.
Qed.


(** That call comes back with 0, and the process runs as user 5. *)
Example exec_runs_setuid :
  match sys_exec [] [] prog_mem prog_start with Ret r st' => Some (r, e_uid (e_proc st'), take 2 (e_name (e_proc st'))) | _ => None end = Some (0, 5, [97; 0]).
Proof. vm_compute. reflexivity. Qed.

(** ** A surprise *)

(** The -1 of readi is compared as an unsigned number, so that it does not count
    as too short: for a device without a driver, exec goes on with what the
    variable [elf] held before.  If that is the header of a program without
    segments, exec succeeds. *)
Definition dev_inode : inode := mkInode 1 2 1 false true T_DEV 5 0 1 5 0 493 0 (replicate (S NDIRECT) 0).
Definition dev_start : est := mkEst (set_icache (<[0%nat := dev_inode]> (icache (prog_fs 1 false 0))) (prog_fs 1 false 0)) prog_vm prog_proc.
Definition old_header : list Z := le_enc 4 ELF_MAGIC ++ replicate 48 0.
Example exec_ignores_read_error :
  match exec old_header [] prog_path prog_args dev_start with Ret r st' => Some (r, e_pgdir (e_proc st')) | _ => None end = Some (0, 1).
Proof. vm_compute. reflexivity. Qed.
